(* ===== verification/_CoqProject ===== *)
-Q . S2P
Prelude.v
EventBase.v
TimerQueue.v
HeapFacts.v
TimerHeap.v
TimerQueueSpec.v
TimerQueueProps.v
Kernel.v
IoBuffer.v
BufferPool.v
TcpBuffer.v
BufferProps.v
PoolMutex.v
PoolMutexProps.v
Wire.v
EventLoop.v
EventLoopProps.v
Net.v
BufferSafe.v
World.v
TcpConn.v
TcpConnSpec.v
SafeState.v
SafeConn.v
TcpConnProps.v
Drain.v
ThreadPool.v
ThreadPoolProps.v
LateAdjust.v
TcpServer.v
TcpServerProps.v
HandOff.v
Udp.v
UdpProps.v
TcpClient.v
TcpClientSpec.v
TcpClientProps.v
EndToEnd.v
Program.v
ProgramProps.v
SafeAccept.v
SafeLoop.v
SafeServer.v
PoolSafe.v
ConfigReader.v
ConfigSpec.v
ConfigProps.v
FloatText.v
Commu.v
Examples.v
EchoProps.v
SetupSafe.v
EchoSafe.v
UdpSafe.v
BenchProps.v
