(* ===== verification/Prelude.v ===== *)
(** * Easy-Reactor: a verification library

    Easy-Reactor is a C++ framework for network programs on Linux: an event loop
    on epoll with timers, TCP servers with one thread or a pool of threads, a
    TCP client that reconnects, UDP endpoints, pooled buffers and a configuration
    reader, with example programs.  This library models the sources under src/
    function by function and proves what they do, and where they do not do what
    they mean to.

    ** How the parts interact

    An [event_loop] keeps a table from descriptors to handlers, a timer queue
    whose timerfd is one of these descriptors, and a list of tasks; a round of
    [process_evs] calls the handlers of the ready descriptors and then the tasks.
    [tcp_server] registers its listening socket; an accepted descriptor becomes
    a [tcp_conn], on the loop of the server or, through the [thread_queue] of a
    thread of the [thread_pool], on the loop of that thread.  A [tcp_conn] has an
    incoming and an outgoing buffer, which it borrows from the [buffer_pool];
    what it receives is cut into messages that go to the user's callbacks.

    ** Files

    Common:
    - Prelude.v: outcomes, the state and fault monad and its weakest
      preconditions, lenses, machine integers, automation.
    - EventBase.v (include/event_base.h): event records; names for function
      pointers, objects for [void*].
    - Kernel.v: the system calls as the interface [Kernel], and what the program
      relies on of them ([EpollLaws], [DescriptorLaws], [SinkLaws], [StreamLaws],
      [AcceptLaws], [DatagramLaws], [OutboxLaws]), with concrete kernels ([Script],
      [Pipe], [Mail]) that satisfy the laws and on which the theorems are
      instantiated.
    - Net.v: what the safety of a server rests on ([NetLaws]; [MailLaws] for
      datagrams) and what setting one up does ([SetupLaws]), with a kernel of many
      descriptors ([Sim]) that satisfies them all.

    Timers:
    - TimerQueue.v (timer_queue.h, timer_queue.cc): heap, position map, deadline.
    - HeapFacts.v, TimerHeap.v: array heaps, and the heap operations on them.
    - TimerQueueSpec.v: the abstract view, a map from ids to timers, and the
      representation invariant [wf].
    - TimerQueueProps.v: refinement of that map by [add_timer] and [del_timer];
      [get_timo] returns what is due; the invariant of every reachable queue.

    Buffers:
    - IoBuffer.v (io_buffer.h, io_buffer.cc): [io_buffer] objects in a store,
      the pool, [tcp_buffer], [input_buffer], [output_buffer].
    - BufferPool.v: the invariant of the pool (acyclic, disjoint free lists of
      empty buffers; the memory account is exact).
    - TcpBuffer.v: the operations specified on the bytes a buffer holds.
    - BufferProps.v: the theorems on both.
    - PoolMutex.v: [alloc] and [revert] cut into the steps between which another
      thread can come in, with the mutex of the pool; alone, a thread does with them
      what [alloc] and [revert] of IoBuffer.v do.
    - PoolMutexProps.v: any number of threads on the pool, under every interleaving
      of these steps.

    Wire format and loop:
    - Wire.v (msg_head.h): the header as bytes, and [parse], the reference
      decoder of a stream.
    - EventLoop.v (event_loop.h, event_loop.cc), EventLoopProps.v: the table of
      handlers mirrors the interest list of the kernel; dispatch; tasks.

    Servers:
    - World.v: the state of a server process (tcp_conn.h, tcp_server.h,
      thread_pool.h, thread_queue.h, msg_dispatcher.h).
    - TcpConn.v (tcp_conn.cc), TcpConnSpec.v, TcpConnProps.v: receiving follows
      [parse], sending and writing keep the byte stream, life cycle.  Callbacks are
      taken through the contract [serves], of which recording what is delivered
      ([observer]) and the echo servers are instances.
    - Drain.v: the calls of [handle_write] that empty a buffer.
    - LateAdjust.v: [handle_read] with a point, before its last statement, at which
      other threads come in.
    - ThreadPool.v (thread_queue.h, thread_pool.h, thread_pool.cc),
      ThreadPoolProps.v: queues under every interleaving; round-robin.
    - TcpServer.v (tcp_server.cc), TcpServerProps.v: accepting.
    - HandOff.v: what a thread does with the connections and tasks sent to it, and
      the way of a connection from the listening socket to its thread.
    - Udp.v (udp_server.cc, udp_client.cc), UdpProps.v: both classes at once,
      against the interface [Endpoint].

    Client and the rest:
    - TcpClient.v (tcp_client.h, tcp_client.cc), TcpClientSpec.v,
      TcpClientProps.v: sending, receiving, connecting and reconnecting.
    - EndToEnd.v: a client and a server connection as one transition system.
    - Program.v, ProgramProps.v: the handlers bound to the functions they name;
      what a round of the loop does with them: a readable connection delivers,
      the timerfd calls the timers that are due, a client reconnects.
    - ConfigReader.v (config_reader.h, config_reader.cc), ConfigSpec.v,
      ConfigProps.v: what a file of sections and pairs means.
    - FloatText.v: [GetFloat], with the conversions between text and [float].

    Safety of a server:
    - BufferSafe.v: the buffer operations when nothing is known of the contents.
    - SafeState.v: the invariant [server_ok] of a process with any number of
      threads, and what an operation may change ([kept]).
    - SafeConn.v, SafeAccept.v: reading, writing, closing, accepting and handing
      over keep it.
    - SafeLoop.v: making a loop; a loop with nothing but handlers.
    - SafeServer.v: every handler, and every round of one thread, keeps it.
    - PoolSafe.v: a thread of the pool, from its start on, keeps it.
    - SetupSafe.v: the start of a server and of its pool establishes it.

    Programs:
    - Commu.v (net_commu.h, echoMsg.proto): what callbacks send with; messages.
    - Examples.v (example/, test/, server.cc, client.cc): the callbacks and mains.
    - EchoProps.v: what the echo servers answer; C strings; the clients' start; the
      timers of the timer server.
    - EchoSafe.v: the echo server without a thread pool is safe from its first
      statement on.
    - UdpSafe.v: so is the UDP echo server.
    - BenchProps.v: the command line and the end of the benchmark.

    ** What the theorems show

    End to end (EndToEnd.v): over a connection that lasts, the server's callbacks
    are given the messages the client's [send_data] accepted, in order, each once,
    however the stream is cut.  It rests on the refinement of [parse] by
    [handle_read], the round trip of the wire format, and the conservation of the
    outgoing bytes by [handle_write].  The timer queue refines a finite map and
    fires what is due; the pool never hands out a buffer twice and loses none; the
    limit on connections holds without a thread pool; a thread takes over every
    connection sent to it; a round of the loop does not fault; a client whose connection attempt fails
    tries again two seconds later.

    Safety (SafeServer.v, EchoSafe.v, UdpSafe.v): while a thread of a server runs its
    loop and the others rest, whatever the peers send and in whatever order events
    come, the server stays in a state where every registered handler is the right one
    for its object, the loops of two threads share no descriptor, an accepted
    descriptor is in one place only, buffers are not shared and the count of
    connections is right, or it stops at an assertion or an exit of its own; the
    single-threaded echo servers are instances, from their first statements on.  That
    includes that no loop of a handler runs out of fuel.  Isolation
    ([handler_isolated]): an event on one descriptor leaves all other connections
    exactly as they are.  Drain.v: what waits to be sent is sent in at most as many
    calls as there are bytes.

    Threads (PoolMutexProps.v, ThreadPoolProps.v): the buffer pool, step by step
    under every interleaving, hands no buffer to two threads, loses none, and is in
    order whenever its mutex is free; the queues between threads lose no message and
    no wake-up.  Handlers as a whole are not safe from each other: LateAdjust.v shows
    what a thread does to a connection that it has closed and another has taken.

    Programs (EchoProps.v, BenchProps.v): the echo servers answer each request with
    itself, in order; the benchmark ends with the reply that makes its count full,
    and reads its command line as it is written.

    Several theorems state defects: an empty message stops the server; a message
    that does not fit corrupts the output before it; the limit on connections
    does not hold with a thread pool; [heap_del] can break the heap order; a task
    that adds a task is undefined; the client's framing test is the wrong way
    round; the UDP limit forgets the header; when descriptors run out, the reserve is
    closed a second time when it belongs to a connection; a thread goes on to move the
    buffer of a connection it has closed; and others.

    ** Conventions

    - A function is a computation in [M S], which returns, or ends in a [fault]:
      a failed [assert], [exit], or undefined behaviour (signed overflow, a null
      pointer, bytes that were never written, an index out of range).  Asserts
      are active, as the makefiles build the program.
    - [int] is [Z], checked with [cint] where it is computed; unsigned types wrap
      ([u32], [u64]).
    - Objects that are shared are in stores: [io_buffer]s by pointer, connections
      by slot, loops and queues by the index of their thread.
    - The operating system is any type with an instance of [Kernel]; the user's
      callbacks are arbitrary computations on the process, with a stated contract
      where a theorem needs one.
    - A handler runs from its beginning to its end without another thread coming in.
      The exceptions: the buffer pool (PoolMutex.v), whose calls are steps with the
      mutex in between; the queues (ThreadPoolProps.v), whose operations under their
      mutex are interleaved; and LateAdjust.v, for the one statement of a handler that
      uses an object it has given up.
    - Headers are little-endian, with a 4-byte [int].

    ** Bounds and fuel

    - Loops over a buffer have fuel above its length: each iteration consumes at
      least a byte.  Loops of the heap have the length of the vector plus one.
    - [retry] is bounded by a number above the interruptions in a row the kernel
      makes ([patience], or the [interrupted] run of a hypothesis); a kernel that
      interrupts forever keeps the program in that loop.  [do_accept] and the UDP
      loop have fuel above the answers that wait.
    - The safety theorems have fuel above the largest buffer ([u8M]) and above the
      answers [accept] gives before EAGAIN ([burst]); for datagrams, [mail_burst].
    - [TIMER_LIMIT] (1073741822) is the size up to which the index [2 * pos + 2]
      of the heap does not overflow.

    ** Not modelled

    The destructor of the configuration reader, which is never run; logging and
    [error_if]; the signal set-up; the addresses of sockets (only whether
    [inet_aton] accepts them); the main of the benchmark, which creates several
    clients on one loop (the model of a client process has one; the callbacks are
    modelled); printing.  The code protoc generates is the parameter [EchoCodec],
    with the laws [EchoCodecLaws].  Allocation failure, which throws in C++ before
    the checks of the code are reached.  Interleavings inside a handler, apart from
    those named above, and the memory model of C++: the safety of a whole server is
    proved for one thread that runs while the others rest, not for threads that run
    at the same time.  The safety theorems are about servers whose loops have
    neither timers nor tasks of the user's, on a system that does not run out of
    descriptors ([descriptors_suffice]): with EMFILE the server is not safe
    ([do_accept_emfile_closes_live]).  That connections and datagrams arrive no
    faster than they are taken ([AcceptEnds], [MailEnds] of Net.v) is an assumption
    on the network.  The TCP client has no safety theorem because it is not safe: TcpClientProps.v shows what
    a message that comes in two parts does to it. *)
From Stdlib Require Export ZArith Lia.
From stdpp Require Export base tactics numbers option list gmap.

#[global] Open Scope Z_scope.

(** ** Outcomes

    A C++ computation either returns, or stops the process, or leaves the
    defined behaviour of the language.  [NoFuel] is not an outcome of the
    program: it is the answer of a fuelled loop whose fuel ran out, and the
    termination theorems exclude it. *)
Inductive fault :=
  | AssertFailed   (** [assert(e)] with [e] false, or an exception that nothing
                       catches ([new] with a negative size): [abort()] *)
  | Exited         (** [exit_if], [exit_log], [::exit(1)] *)
  | Undefined      (** a null or wild access, signed overflow, a stale iterator *)
  | NoFuel.

#[global] Instance fault_eq_dec : EqDecision fault.
Proof. solve_decision. Defined.

Inductive result (A : Type) :=
  | Ok (a : A)
  | Fail (f : fault).
Arguments Ok {A} a.
Arguments Fail {A} f.

(** ** The state and fault monad the models are written in *)
Definition M (S A : Type) : Type := S → result (A * S).

#[global] Instance M_ret {S} : MRet (M S) := λ A a s, Ok (a, s).
#[global] Instance M_bind {S} : MBind (M S) := λ A B f m s,
  match m s with
  | Ok (a, s') => f a s'
  | Fail e => Fail e
  end.

Definition fail {S A} (f : fault) : M S A := λ _, Fail f.
Definition get {S} : M S S := λ s, Ok (s, s).
Definition put {S} (s : S) : M S unit := λ _, Ok (tt, s).
Definition gets {S A} (f : S → A) : M S A := λ s, Ok (f s, s).
Definition modify {S} (f : S → S) : M S unit := λ s, Ok (tt, f s).
Definition from_option_or {S A} (e : fault) (o : option A) : M S A :=
  match o with Some a => mret a | None => fail e end.

(** [assert(b)] of <assert.h>; the build files do not define NDEBUG. *)
Definition cassert {S} (b : bool) : M S unit :=
  if b then mret tt else fail AssertFailed.
(** [exit_if(b, ...)] of print_error.h, without the message it prints. *)
Definition exit_if {S} (b : bool) : M S unit :=
  if b then fail Exited else mret tt.
Definition when {S} (b : bool) (m : M S unit) : M S unit :=
  if b then m else mret tt.

(** Running a computation on a part of the state. *)
Record lens (S T : Type) := Lens { view : S → T; update : T → S → S }.
Arguments Lens {S T} view update.
Arguments view {S T} l s.
Arguments update {S T} l t s.

(** In the states that have the part ([valid]), the part that was put in is the part
    found, and nothing else matters. *)
Class LensLaws {S T} (l : lens S T) (valid : S → Prop) : Prop := {
  view_update t s : valid s → view l (update l t s) = t;
  update_view s : valid s → update l (view l s) s = s;
  update_update t t' s : update l t' (update l t s) = update l t' s;
  update_valid t s : valid s → valid (update l t s);
}.

#[global] Instance lens_id_laws {S} : LensLaws (Lens (λ s : S, s) (λ t _, t)) (λ _, True).
Proof. by split. Qed.

Definition zoom {S T A} (l : lens S T) (m : M T A) : M S A := λ s,
  match m (view l s) with
  | Ok (a, t) => Ok (a, update l t s)
  | Fail e => Fail e
  end.

(** The [k]-fold iteration of a computation. *)
Fixpoint iter_m {S} (k : nat) (m : M S unit) : M S unit :=
  match k with
  | O => mret tt
  | S k => m ;; iter_m k m
  end.

(** A [for (x : l)] loop. *)
Fixpoint for_each {S A} (l : list A) (f : A → M S unit) : M S unit :=
  match l with
  | [] => mret tt
  | x :: l => f x ;; for_each l f
  end.

Lemma for_each_app {S A} (l l' : list A) (f : A → M S unit) s :
  for_each (l ++ l') f s = (for_each l f ;; for_each l' f) s.
Proof.
  revert s. induction l as [|x l IH]; intros s; [done|]. cbn [app for_each]. unfold mbind, M_bind in *.
  destruct (f x s) as [[[] s']|]; [apply IH|done].
Qed.

(** ** Total correctness

    [wp m Q s]: from [s], [m] returns (no fault of any kind) and the value
    and the state it returns satisfy [Q]. *)
Definition wp {S A} (m : M S A) (Q : A → S → Prop) (s : S) : Prop :=
  match m s with
  | Ok (a, s') => Q a s'
  | Fail _ => False
  end.

Section wp.
Context {St : Type}.
Implicit Types s : St.

Lemma wp_elim {A} (m : M St A) Q s :
  wp m Q s ↔ ∃ a s', m s = Ok (a, s') ∧ Q a s'.
Proof.
  unfold wp. destruct (m s) as [[a s']|f]; [|naive_solver].
  split; [eauto|]. by intros (? & ? & [= <- <-] & ?).
Qed.

Lemma wp_ret {A} (a : A) (Q : A → St → Prop) s : Q a s → wp (mret a) Q s.
Proof. done. Qed.

Lemma wp_bind {A B} (m : M St A) (f : A → M St B) Q s :
  wp m (λ a s', wp (f a) Q s') s → wp (m ≫= f) Q s.
Proof. unfold wp, mbind, M_bind. by destruct (m s) as [[a s']|]. Qed.

Lemma wp_mono {A} (m : M St A) (Q Q' : A → St → Prop) s :
  wp m Q s → (∀ a s', Q a s' → Q' a s') → wp m Q' s.
Proof. unfold wp. destruct (m s) as [[a s']|]; auto. Qed.

Lemma wp_get (Q : St → St → Prop) s : Q s s → wp get Q s.
Proof. done. Qed.
Lemma wp_put s' (Q : unit → St → Prop) s : Q tt s' → wp (put s') Q s.
Proof. done. Qed.
Lemma wp_gets {A} (f : St → A) (Q : A → St → Prop) s :
  Q (f s) s → wp (gets f) Q s.
Proof. done. Qed.
Lemma wp_modify (f : St → St) (Q : unit → St → Prop) s :
  Q tt (f s) → wp (modify f) Q s.
Proof. done. Qed.

Lemma wp_from_option {A} e (o : option A) a (Q : A → St → Prop) s :
  o = Some a → Q a s → wp (from_option_or e o) Q s.
Proof. by intros ->. Qed.

Lemma wp_assert b (Q : unit → St → Prop) s :
  b = true → Q tt s → wp (cassert b) Q s.
Proof. by intros ->. Qed.

Lemma wp_exit_if b (Q : unit → St → Prop) s :
  b = false → Q tt s → wp (exit_if b) Q s.
Proof. by intros ->. Qed.

Lemma wp_if {A} (b : bool) (m1 m2 : M St A) Q s :
  (b = true → wp m1 Q s) → (b = false → wp m2 Q s) →
  wp (if b then m1 else m2) Q s.
Proof. destruct b; auto. Qed.

Lemma wp_when b (m : M St unit) Q s :
  (b = true → wp m Q s) → (b = false → Q tt s) → wp (when b m) Q s.
Proof. intros H1 H2. destruct b; [by apply H1|by apply H2]. Qed.

Lemma wp_conj {A} (m : M St A) (Q1 Q2 : A → St → Prop) s :
  wp m Q1 s → wp m Q2 s → wp m (λ a s', Q1 a s' ∧ Q2 a s') s.
Proof. unfold wp. by destruct (m s) as [[a s']|]. Qed.

Lemma wp_for_each {A} (I : nat → St → Prop) (l : list A) (f : A → M St unit) s :
  I 0%nat s →
  (∀ i x s, l !! i = Some x → I i s → wp (f x) (λ _ s', I (i + 1)%nat s') s) →
  wp (for_each l f) (λ _ s', I (length l) s') s.
Proof.
  revert I s. induction l as [|x l IH]; intros I s H0 Hstep; simpl; [done|].
  apply wp_bind. eapply wp_mono; [by eapply (Hstep 0%nat)|].
  intros [] s' H1. eapply (IH (λ i, I (S i))); [done|].
  intros i y s1 Hi. replace (S (i + 1)) with (S i + 1)%nat by lia.
  by apply (Hstep (S i)).
Qed.

Lemma wp_iter_m (I : nat → St → Prop) k (m : M St unit) s :
  I 0%nat s →
  (∀ i s, (i < k)%nat → I i s → wp m (λ _ s', I (i + 1)%nat s') s) →
  wp (iter_m k m) (λ _ s', I k s') s.
Proof.
  revert I s. induction k as [|k IH]; intros I s H0 Hstep; simpl; [done|].
  apply wp_bind. eapply wp_mono; [apply (Hstep 0%nat); [lia|done]|].
  intros [] s' H1. eapply (IH (λ i, I (S i))); [done|].
  intros i s1 Hi. replace (S (i + 1)) with (S i + 1)%nat by lia.
  apply (Hstep (S i)). lia.
Qed.
End wp.

Lemma wp_run {S A} (m m' : M S A) (Q : A → S → Prop) s s' :
  m s = m' s' → wp m' Q s' → wp m Q s.
Proof. unfold wp. by intros ->. Qed.

(** A computation known to return [v] in state [s']. *)
Lemma wp_returns {S A} (m : M S A) v s s' :
  wp m (λ a t, a = v ∧ t = s') s → m s = Ok (v, s').
Proof. intros (a & t & -> & -> & ->)%wp_elim. done. Qed.

Lemma wp_zoom {S T A} (l : lens S T) (m : M T A) (Q : A → S → Prop) s :
  wp m (λ a t, Q a (update l t s)) (view l s) → wp (zoom l m) Q s.
Proof. unfold wp, zoom. by destruct (m (view l s)) as [[a t]|]. Qed.

(** A sequence that starts with a fault is that fault. *)
Lemma bind_fail {S A B} (m : M S A) (f : A → M S B) s e :
  m s = Fail e → (m ≫= f) s = Fail e.
Proof. unfold mbind, M_bind. by intros ->. Qed.

Lemma bind_ok {S A B} (m : M S A) (f : A → M S B) s a s' :
  m s = Ok (a, s') → (m ≫= f) s = f a s'.
Proof. unfold mbind, M_bind. by intros ->. Qed.

(** The state a computation leaves, for evaluating concrete runs. *)
Definition run_state {S A} (m : M S A) (s : S) : S :=
  match m s with Ok (_, s') => s' | Fail _ => s end.

Lemma wp_run_state {S A} (m : M S A) (Q : A → S → Prop) s :
  wp m Q s → ∃ a, Q a (run_state m s).
Proof. unfold wp, run_state. destruct (m s) as [[a s']|]; [eauto|done]. Qed.

(** One step of symbolic execution of the monad's own operations. *)
Ltac wp_step :=
  lazymatch goal with
  | |- wp (mret _) _ _ => apply wp_ret
  | |- wp (_ ≫= _) _ _ => apply wp_bind
  | |- wp get _ _ => apply wp_get
  | |- wp (put _) _ _ => apply wp_put
  | |- wp (gets _) _ _ => apply wp_gets
  | |- wp (modify _) _ _ => apply wp_modify
  | |- wp (zoom _ _) _ _ => apply wp_zoom
  end; cbn beta.
Ltac wp_steps := repeat wp_step.

(** ** Safety

    [swp m Q s]: from [s], [m] returns with [Q], or stops the process by a failed
    assertion or an exit.  It never leaves the defined behaviour, and its loops
    never run out of fuel. *)
Definition stops (e : fault) : Prop := e = AssertFailed ∨ e = Exited.
Definition swp {S A} (m : M S A) (Q : A → S → Prop) (s : S) : Prop :=
  match m s with
  | Ok (a, s') => Q a s'
  | Fail e => stops e
  end.

Section swp.
Context {St : Type}.
Implicit Types s : St.

Lemma wp_swp {A} (m : M St A) Q s : wp m Q s → swp m Q s.
Proof. unfold wp, swp. by destruct (m s) as [[a s']|]. Qed.

Lemma swp_ret {A} (a : A) (Q : A → St → Prop) s : Q a s → swp (mret a) Q s.
Proof. done. Qed.

Lemma swp_bind {A B} (m : M St A) (f : A → M St B) Q s :
  swp m (λ a s', swp (f a) Q s') s → swp (m ≫= f) Q s.
Proof. unfold swp, mbind, M_bind. by destruct (m s) as [[a s']|]. Qed.

Lemma swp_mono {A} (m : M St A) (Q Q' : A → St → Prop) s :
  swp m Q s → (∀ a s', Q a s' → Q' a s') → swp m Q' s.
Proof. unfold swp. destruct (m s) as [[a s']|]; auto. Qed.

Lemma swp_get (Q : St → St → Prop) s : Q s s → swp get Q s.
Proof. done. Qed.
Lemma swp_gets {A} (f : St → A) (Q : A → St → Prop) s : Q (f s) s → swp (gets f) Q s.
Proof. done. Qed.
Lemma swp_put s' (Q : unit → St → Prop) s : Q tt s' → swp (put s') Q s.
Proof. done. Qed.
Lemma swp_modify (f : St → St) (Q : unit → St → Prop) s : Q tt (f s) → swp (modify f) Q s.
Proof. done. Qed.

Lemma swp_from_option {A} e (o : option A) a (Q : A → St → Prop) s :
  o = Some a → Q a s → swp (from_option_or e o) Q s.
Proof. by intros ->. Qed.

(** A failed assertion and an exit are outcomes of their own. *)
Lemma swp_assert b (Q : unit → St → Prop) s : (b = true → Q tt s) → swp (cassert b) Q s.
Proof. intros HQ. destruct b; [by apply HQ|by left]. Qed.
Lemma swp_exit_if b (Q : unit → St → Prop) s : (b = false → Q tt s) → swp (exit_if b) Q s.
Proof. intros HQ. destruct b; [by right|by apply HQ]. Qed.
Lemma swp_fail {A} e (Q : A → St → Prop) s : stops e → swp (fail e) Q s.
Proof. done. Qed.

Lemma swp_if {A} (b : bool) (m1 m2 : M St A) Q s :
  (b = true → swp m1 Q s) → (b = false → swp m2 Q s) → swp (if b then m1 else m2) Q s.
Proof. destruct b; auto. Qed.

Lemma swp_when b (m : M St unit) Q s :
  (b = true → swp m Q s) → (b = false → Q tt s) → swp (when b m) Q s.
Proof. intros H1 H2. destruct b; [by apply H1|by apply H2]. Qed.

Lemma swp_for_each {A} (I : list A → St → Prop) (l : list A) (f : A → M St unit) s :
  I l s → (∀ x l s, I (x :: l) s → swp (f x) (λ _ s', I l s') s) →
  swp (for_each l f) (λ _ s', I [] s') s.
Proof.
  intros H0 Hstep. revert s H0. induction l as [|x l IH]; intros s H0; simpl; [done|].
  apply swp_bind. eapply swp_mono; [by apply Hstep|]. intros [] s'. apply IH.
Qed.

Lemma swp_iter_m (I : St → Prop) k (m : M St unit) s :
  I s → (∀ s, I s → swp m (λ _ s', I s') s) → swp (iter_m k m) (λ _ s', I s') s.
Proof.
  intros H0 Hstep. revert s H0. induction k as [|k IH]; intros s H0; simpl; [done|].
  apply swp_bind. eapply swp_mono; [by apply Hstep|]. intros [] s'. apply IH.
Qed.

Lemma swp_zoom {T A} (l : lens St T) (m : M T A) (Q : A → St → Prop) s :
  swp m (λ a t, Q a (update l t s)) (view l s) → swp (zoom l m) Q s.
Proof. unfold swp, zoom. by destruct (m (view l s)) as [[a t]|]. Qed.

Lemma swp_run {A} (m m' : M St A) (Q : A → St → Prop) s s' :
  m s = m' s' → swp m' Q s' → swp m Q s.
Proof. unfold swp. by intros ->. Qed.
End swp.

(** One step of symbolic execution, for [swp]. *)
Ltac swp_step :=
  lazymatch goal with
  | |- swp (mret _) _ _ => apply swp_ret
  | |- swp (_ ≫= _) _ _ => apply swp_bind
  | |- swp get _ _ => apply swp_get
  | |- swp (put _) _ _ => apply swp_put
  | |- swp (gets _) _ _ => apply swp_gets
  | |- swp (modify _) _ _ => apply swp_modify
  | |- swp (zoom _ _) _ _ => apply swp_zoom
  end; cbn beta.
Ltac swp_steps := repeat swp_step.

(** ** Machine integers *)
Definition INT_MAX : Z := 2147483647.
Definition INT_MIN : Z := -2147483648.
Definition is_int (z : Z) : Prop := INT_MIN ≤ z ≤ INT_MAX.
Definition is_intb (z : Z) : bool := (INT_MIN <=? z) && (z <=? INT_MAX).

(** A signed [int] result: overflow is undefined behaviour. *)
Definition cint {S} (z : Z) : M S Z :=
  if is_intb z then mret z else fail Undefined.
(** Conversions to the unsigned types reduce modulo their range. *)
Definition u32 (z : Z) : Z := z mod 2 ^ 32.
Definition u64 (z : Z) : Z := z mod 2 ^ 64.
(** Conversion to [int] of a value out of range: two's complement. *)
Definition to_int (z : Z) : Z :=
  let w := z mod 2 ^ 32 in if w <? 2 ^ 31 then w else w - 2 ^ 32.

Lemma is_intb_spec z : is_intb z = true ↔ is_int z.
Proof. unfold is_intb, is_int. rewrite andb_true_iff. lia. Qed.

Lemma wp_cint {S} z (Q : Z → S → Prop) s : is_int z → Q z s → wp (cint z) Q s.
Proof. intros Hz%is_intb_spec ?. unfold cint. by rewrite Hz. Qed.

Lemma swp_cint {S} z (Q : Z → S → Prop) s : is_int z → Q z s → swp (cint z) Q s.
Proof. intros. by apply wp_swp, wp_cint. Qed.

Lemma cint_in {S} z (s : S) : is_int z → cint z s = Ok (z, s).
Proof. intros Hz%is_intb_spec. unfold cint. by rewrite Hz. Qed.
Lemma cint_out {S} z (s : S) : ¬ is_int z → cint z s = Fail Undefined.
Proof. intros Hz. unfold cint. destruct (is_intb z) eqn:Hb; [by apply is_intb_spec in Hb|done]. Qed.

Lemma u64_range z : 0 ≤ u64 z < 2 ^ 64.
Proof. unfold u64. apply Z.mod_pos_bound. lia. Qed.
Lemma u64_small z : 0 ≤ z < 2 ^ 64 → u64 z = z.
Proof. apply Z.mod_small. Qed.
Lemma u32_range z : 0 ≤ u32 z < 2 ^ 32.
Proof. unfold u32. apply Z.mod_pos_bound. lia. Qed.
Lemma u32_small z : 0 ≤ z < 2 ^ 32 → u32 z = z.
Proof. apply Z.mod_small. Qed.
Lemma to_int_range z : is_int (to_int z).
Proof.
  unfold to_int, is_int, INT_MIN, INT_MAX.
  pose proof (Z.mod_pos_bound z (2 ^ 32)) as H.
  destruct (Z.ltb_spec (z mod 2 ^ 32) (2 ^ 31)); lia.
Qed.
Lemma to_int_small z : is_int z → to_int z = z.
Proof.
  unfold to_int, is_int, INT_MIN, INT_MAX. intros H.
  destruct (decide (0 ≤ z)).
  - rewrite Z.mod_small by lia. destruct (Z.ltb_spec z (2 ^ 31)); lia.
  - assert (z mod 2 ^ 32 = z + 2 ^ 32) as ->.
    { rewrite <- (Z.mod_small (z + 2 ^ 32) (2 ^ 32)) by lia.
      replace (z + 2 ^ 32) with (z + 1 * 2 ^ 32) by lia.
      by rewrite Z.mod_add by lia. }
    destruct (Z.ltb_spec (z + 2 ^ 32) (2 ^ 31)); lia.
Qed.

(** ** Arrays indexed by [int]: out of range is undefined behaviour *)
Definition zlookup {A} (l : list A) (i : Z) : option A :=
  if i <? 0 then None else l !! Z.to_nat i.
Definition zinsert {A} (i : Z) (x : A) (l : list A) : option (list A) :=
  if (0 <=? i) && (i <? Z.of_nat (length l)) then Some (<[Z.to_nat i := x]> l)
  else None.

Section arrays.
Context {A : Type}.
Implicit Types l : list A.

Lemma zlookup_of_nat l n : zlookup l (Z.of_nat n) = l !! n.
Proof.
  unfold zlookup. destruct (Z.ltb_spec (Z.of_nat n) 0); [lia|].
  by rewrite Nat2Z.id.
Qed.

Lemma zlookup_nonneg l i : 0 ≤ i → zlookup l i = l !! Z.to_nat i.
Proof. intros. unfold zlookup. destruct (Z.ltb_spec i 0); [lia|done]. Qed.

Lemma zlookup_lt_is_Some l i :
  0 ≤ i < Z.of_nat (length l) → is_Some (zlookup l i).
Proof.
  intros Hi. rewrite zlookup_nonneg by lia. apply lookup_lt_is_Some. lia.
Qed.

Lemma zinsert_of_nat l n x :
  (n < length l)%nat → zinsert (Z.of_nat n) x l = Some (<[n := x]> l).
Proof.
  intros. unfold zinsert.
  destruct (Z.leb_spec 0 (Z.of_nat n)); [|lia].
  destruct (Z.ltb_spec (Z.of_nat n) (Z.of_nat (length l))); [|lia].
  simpl. by rewrite Nat2Z.id.
Qed.
End arrays.

(** ** Filters that keep everything or nothing *)
Section filters.
Context {A : Type} (P : A → Prop) `{!∀ x, Decision (P x)}.

Lemma filter_keep l : Forall P l → filter P l = l.
Proof. induction 1; [done|]. rewrite filter_cons_True by done. by f_equal. Qed.
Lemma filter_drop l : Forall (λ x, ¬ P x) l → filter P l = [].
Proof. induction 1; [done|]. by rewrite filter_cons_False by done. Qed.
End filters.

(** ** Hints shared by the files of the library *)
Create HintDb cxx.
Create Rewrite HintDb cxx.
#[export] Hint Resolve to_int_range : cxx.
#[export] Hint Rewrite @zlookup_of_nat @length_insert @length_app : cxx.

(** Destructs the boolean comparison of a conditional in the goal. *)
Ltac bcase :=
  match goal with
  | |- context [(?a <=? ?b)%Z] => destruct (Z.leb_spec a b)
  | |- context [(?a <? ?b)%Z] => destruct (Z.ltb_spec a b)
  | |- context [(?a =? ?b)%Z] => destruct (Z.eqb_spec a b)
  end.
Ltac int_lia := unfold is_int, INT_MIN, INT_MAX in *; lia.
