(* ===== verification/EventBase.v ===== *)
(** * Event records and callback names (include/event_base.h, include/msg_head.h)

    Function pointers are modelled by the names of the functions of the
    program that are ever registered, with one family of names per kind for the
    functions the user of the framework supplies.  A [void*] is modelled by the
    object it points to. *)
From S2P Require Import Prelude.

(** The objects passed around as [void*] arguments of callbacks. *)
Inductive void_ptr :=
  | vnull
  | v_timer_queue
  | v_tcp_server
  | v_tcp_conn (conn : Z)       (** the [tcp_conn] in slot [conn] of [tcp_server::conns] *)
  | v_thread_queue (index : nat)
  | v_tcp_client
  | v_udp_server
  | v_udp_client
  | v_user (data : Z).

(** [io_callback]: the handlers of src/*.cc, and the user's. *)
Inductive io_callback :=
  | timerqueue_cb | accepter_cb | tcp_rcb | tcp_wcb | msg_comming_cb
  | connection_cb | client_read_cb | client_write_cb
  | udp_server_read_cb | udp_client_read_cb
  | user_io_cb (name : Z).

Inductive timer_callback := reconn_cb | user_timer_cb (name : Z).

Inductive pendingFunc := user_task (name : Z).

#[global] Instance void_ptr_eq_dec : EqDecision void_ptr.
Proof. solve_decision. Defined.
#[global] Instance io_callback_eq_dec : EqDecision io_callback.
Proof. solve_decision. Defined.
#[global] Instance timer_callback_eq_dec : EqDecision timer_callback.
Proof. solve_decision. Defined.
#[global] Instance pendingFunc_eq_dec : EqDecision pendingFunc.
Proof. solve_decision. Defined.

(** <sys/epoll.h> *)
Definition EPOLLIN : Z := 1.
Definition EPOLLOUT : Z := 4.
Definition EPOLLERR : Z := 8.
Definition EPOLLHUP : Z := 16.

Record io_event := IoEvent {
  mask : Z;
  read_cb : option io_callback;
  write_cb : option io_callback;
  rcb_args : void_ptr;
  wcb_args : void_ptr;
}.

(** [io_event()]: the constructor leaves [mask] uninitialised; [garbage] is the
    value found there. *)
Definition io_event_new (garbage : Z) : io_event :=
  IoEvent garbage None None vnull vnull.

Record timer_event := TimerEvent {
  cb : timer_callback;
  cb_data : void_ptr;
  ts : Z;          (** uint64_t, milliseconds *)
  interval : Z;    (** uint32_t, milliseconds; 0 for a one-shot timer *)
  timer_id : Z;
}.

#[global] Instance timer_event_eq_dec : EqDecision timer_event.
Proof. solve_decision. Defined.

(** [timer_event(timo_cb, data, arg_ts, arg_int)]: [timer_id] is left
    uninitialised. *)
Definition timer_event_new (timo_cb : timer_callback) (data : void_ptr)
    (arg_ts arg_int garbage : Z) : timer_event :=
  TimerEvent timo_cb data (u64 arg_ts) (u32 arg_int) garbage.

Definition with_timer_id (id : Z) (te : timer_event) : timer_event :=
  TimerEvent (cb te) (cb_data te) (ts te) (interval te) id.
Definition with_ts (t : Z) (te : timer_event) : timer_event :=
  TimerEvent (cb te) (cb_data te) t (interval te) (timer_id te).
