(* ===== verification/TimerQueue.v ===== *)
(** * The timer queue (include/timer_queue.h, src/timer_queue.cc)

    A binary min-heap of timers, keyed by expiry time, in a vector, with a map
    from timer ids to their positions in the vector.  The earliest expiry is
    programmed into a timerfd. *)
From S2P Require Import Prelude EventBase.

(** ** State *)

(** The [it_value] of the last [timerfd_settime]; the zero value means that
    the timer is disarmed, as [timerfd_create] leaves it. *)
Record timespec := Timespec { tv_sec : Z; tv_nsec : Z }.

Record timer_queue := TimerQueue {
  _event_lst : list timer_event;
  _position : gmap Z Z;
  _count : Z;
  _next_timer_id : Z;
  _pioneer : Z;
  _timerfd : timespec;
}.

Definition set_event_lst l q :=
  TimerQueue l (_position q) (_count q) (_next_timer_id q) (_pioneer q) (_timerfd q).
Definition set_position p q :=
  TimerQueue (_event_lst q) p (_count q) (_next_timer_id q) (_pioneer q) (_timerfd q).
Definition set_count c q :=
  TimerQueue (_event_lst q) (_position q) c (_next_timer_id q) (_pioneer q) (_timerfd q).
Definition set_next_timer_id n q :=
  TimerQueue (_event_lst q) (_position q) (_count q) n (_pioneer q) (_timerfd q).
Definition set_pioneer p q :=
  TimerQueue (_event_lst q) (_position q) (_count q) (_next_timer_id q) p (_timerfd q).
Definition set_timerfd t q :=
  TimerQueue (_event_lst q) (_position q) (_count q) (_next_timer_id q) (_pioneer q) t.

(** [(uint64_t)-1] *)
Definition UINT64_MAX : Z := 2 ^ 64 - 1.

(** [timer_queue::timer_queue()] *)
Definition timer_queue_new : timer_queue :=
  TimerQueue [] ∅ 0 0 (u64 (-1)) (Timespec 0 0).

(** ** Operations *)

Definition ev_at (i : Z) : M timer_queue timer_event :=
  q ← get; from_option_or Undefined (zlookup (_event_lst q) i).
Definition ev_set (i : Z) (te : timer_event) : M timer_queue unit :=
  q ← get; l ← from_option_or Undefined (zinsert i te (_event_lst q));
  put (set_event_lst l q).
Definition position_set (id pos : Z) : M timer_queue unit :=
  modify (λ q, set_position (<[id := pos]> (_position q)) q).
Definition position_erase (id : Z) : M timer_queue unit :=
  modify (λ q, set_position (delete id (_position q)) q).
Definition event_pop_back : M timer_queue unit :=
  q ← get;
  match _event_lst q with
  | [] => fail Undefined
  | _ => put (set_event_lst (removelast (_event_lst q)) q)
  end.

(** The exchange of two entries in [heap_add] and [heap_hold]:
<<
    timer_event tmp = _event_lst[i];
    _event_lst[i] = _event_lst[j];
    _event_lst[j] = tmp;
    _position[_event_lst[i].timer_id] = i;
    _position[tmp.timer_id] = j;
>> *)
Definition swap_events (i j : Z) : M timer_queue unit :=
  tmp ← ev_at i;
  x ← ev_at j;
  ev_set i x ;;
  ev_set j tmp ;;
  y ← ev_at i;
  position_set (timer_id y) i ;;
  position_set (timer_id tmp) j.

(** The [while] loop of [heap_add]. *)
Fixpoint heap_add_loop (fuel : nat) (curr_pos prt_pos : Z) : M timer_queue unit :=
  match fuel with
  | O => fail NoFuel
  | S fuel =>
      if 0 <=? prt_pos then
        c ← ev_at curr_pos;
        p ← ev_at prt_pos;
        if ts c <? ts p then
          swap_events curr_pos prt_pos ;;
          heap_add_loop fuel prt_pos (Z.quot (prt_pos - 1) 2)
        else mret tt
      else mret tt
  end.

Definition heap_add (te : timer_event) : M timer_queue unit :=
  modify (λ q, set_event_lst (_event_lst q ++ [te]) q) ;;
  q ← get;
  position_set (timer_id te) (_count q) ;;
  let curr_pos := _count q in
  n ← cint (_count q + 1);
  modify (set_count n) ;;
  let prt_pos := Z.quot (curr_pos - 1) 2 in
  q ← get;
  heap_add_loop (S (length (_event_lst q))) curr_pos prt_pos.

(** [heap_hold] is recursive in the code; here the recursion is on fuel. *)
Fixpoint heap_hold (fuel : nat) (pos : Z) : M timer_queue unit :=
  match fuel with
  | O => fail NoFuel
  | S fuel =>
      left ← cint (2 * pos + 1);
      right ← cint (2 * pos + 2);
      q ← get;
      min_pos ← (if left <? _count q then
                   a ← ev_at pos; b ← ev_at left;
                   mret (if ts b <? ts a then left else pos)
                 else mret pos);
      min_pos ← (if right <? _count q then
                   a ← ev_at min_pos; b ← ev_at right;
                   mret (if ts b <? ts a then right else min_pos)
                 else mret min_pos);
      if bool_decide (min_pos ≠ pos) then
        swap_events min_pos pos ;;
        heap_hold fuel min_pos
      else mret tt
  end.

Definition heap_hold_top (pos : Z) : M timer_queue unit :=
  q ← get; heap_hold (S (length (_event_lst q))) pos.

Definition heap_del (pos : Z) : M timer_queue unit :=
  to_del ← ev_at pos;
  q ← get;
  tmp ← ev_at (_count q - 1);
  ev_set pos tmp ;;
  position_set (timer_id tmp) pos ;;
  position_erase (timer_id to_del) ;;
  modify (λ q, set_count (_count q - 1) q) ;;
  event_pop_back ;;
  heap_hold_top pos.

Definition heap_pop : M timer_queue unit :=
  q ← get;
  if _count q <=? 0 then mret tt else
  top ← ev_at 0;
  position_erase (timer_id top) ;;
  if 1 <? _count q then
    tmp ← ev_at (_count q - 1);
    ev_set 0 tmp ;;
    position_set (timer_id tmp) 0 ;;
    event_pop_back ;;
    modify (λ q, set_count (_count q - 1) q) ;;
    heap_hold_top 0
  else when (bool_decide (_count q = 1))
    (modify (set_event_lst []) ;; modify (set_count 0)).

(** The argument [reset_timo] hands to [timerfd_settime]. *)
Definition timespec_of (pioneer : Z) : timespec :=
  if bool_decide (pioneer ≠ UINT64_MAX)
  then Timespec (pioneer / 1000) ((pioneer mod 1000) * 1000000)
  else Timespec 0 0.

Definition reset_timo : M timer_queue unit :=
  modify (λ q, set_timerfd (timespec_of (_pioneer q)) q).

Definition add_timer (te : timer_event) : M timer_queue Z :=
  q ← get;
  let te := with_timer_id (_next_timer_id q) te in
  n ← cint (_next_timer_id q + 1);
  modify (set_next_timer_id n) ;;
  heap_add te ;;
  top ← ev_at 0;
  q ← get;
  when (ts top <? _pioneer q)
    (modify (set_pioneer (ts top)) ;; reset_timo) ;;
  mret (timer_id te).

Definition del_timer (timer_id : Z) : M timer_queue unit :=
  q ← get;
  match _position q !! timer_id with
  | None => mret tt
  | Some pos =>
      heap_del pos ;;
      q ← get;
      if bool_decide (_count q = 0) then
        modify (set_pioneer (u64 (-1))) ;; reset_timo
      else
        top ← ev_at 0;
        when (ts top <? _pioneer q)
          (modify (set_pioneer (ts top)) ;; reset_timo)
  end.

(** The [while] loop of [get_timo]; the accumulators are [fired_evs] and
    [_reuse_lst]. *)
Fixpoint get_timo_loop (fuel : nat) (fired_evs reuse_lst : list timer_event)
    : M timer_queue (list timer_event * list timer_event) :=
  match fuel with
  | O => fail NoFuel
  | S fuel =>
      q ← get;
      if bool_decide (_count q ≠ 0) then
        top ← ev_at 0;
        if _pioneer q =? ts top then
          let te := top in
          let fired_evs := fired_evs ++ [te] in
          let reuse_lst :=
            if interval te =? 0 then reuse_lst
            else reuse_lst ++ [with_ts (u64 (ts te + interval te)) te] in
          heap_pop ;;
          get_timo_loop fuel fired_evs reuse_lst
        else mret (fired_evs, reuse_lst)
      else mret (fired_evs, reuse_lst)
  end.

Definition get_timo (fired_evs : list timer_event) : M timer_queue (list timer_event) :=
  q ← get;
  r ← get_timo_loop (S (length (_event_lst q))) fired_evs [];
  for_each r.2 (λ te, add_timer te ;; mret tt) ;;
  q ← get;
  (if bool_decide (_count q = 0) then
     modify (set_pioneer (u64 (-1))) ;; reset_timo
   else
     top ← ev_at 0;
     modify (set_pioneer (ts top)) ;; reset_timo) ;;
  mret r.1.
