(* ===== verification/HeapFacts.v ===== *)
(** * Array heaps

    Facts about lists of timers read as binary trees: order invariants with one
    suspect node, and how an exchange with the parent moves the suspect.  They
    carry the proofs about [heap_add_loop] and [heap_hold] of TimerQueue.v. *)
From stdpp Require Import sorting.
From S2P Require Import Prelude EventBase.

Definition parent (i : nat) : nat := ((i - 1) / 2)%nat.

Lemma parent_spec i : (0 < i)%nat → i = (2 * parent i + 1)%nat ∨ i = (2 * parent i + 2)%nat.
Proof.
  intros Hi. unfold parent.
  pose proof (Nat.div_mod_eq (i - 1) 2). pose proof (Nat.mod_upper_bound (i - 1) 2). lia.
Qed.
Lemma parent_unique i k : i = (2 * k + 1)%nat ∨ i = (2 * k + 2)%nat → parent i = k.
Proof. intros. pose proof (parent_spec i). lia. Qed.
Lemma parent_0 : parent 0 = 0%nat.
Proof. done. Qed.
Lemma parent_lt i : (0 < i)%nat → (parent i < i)%nat.
Proof. intros. pose proof (parent_spec i). lia. Qed.
Lemma parent_le i : (parent i ≤ i)%nat.
Proof. destruct i; [done|]. pose proof (parent_lt (S i)). lia. Qed.

(** C++ computes the parent's index with [int] division, which truncates: the
    root is its own parent. *)
Lemma quot_parent n : Z.quot (Z.of_nat n - 1) 2 = Z.of_nat (parent n).
Proof.
  destruct n as [|n]; [done|].
  rewrite Z.quot_div_nonneg by lia. unfold parent.
  rewrite Nat2Z.inj_div. f_equal. lia.
Qed.

Implicit Types l : list timer_event.

(** Every timer expires no earlier than its parent. *)
Definition heap_ordered l : Prop :=
  ∀ i x y, l !! i = Some x → l !! parent i = Some y → ts y ≤ ts x.

(** As [heap_ordered], except between [k] and its parent; but the children of
    [k] are in order with respect to the parent of [k]. *)
Definition up_suspect l (k : nat) : Prop :=
  (∀ i x y, i ≠ k → l !! i = Some x → l !! parent i = Some y → ts y ≤ ts x) ∧
  (∀ c x y, parent c = k → c ≠ k → l !! c = Some x → l !! parent k = Some y → ts y ≤ ts x).

(** As [heap_ordered], except between [k] and its children. *)
Definition down_suspect l (k : nat) : Prop :=
  (∀ i x y, parent i ≠ k → l !! i = Some x → l !! parent i = Some y → ts y ≤ ts x) ∧
  (∀ c x y, (0 < k)%nat → parent c = k → l !! c = Some x → l !! parent k = Some y → ts y ≤ ts x).

Definition exchange (i j : nat) (x y : timer_event) l := <[j := y]> (<[i := x]> l).

Lemma lookup_exchange i j x y l k :
  (i < length l)%nat → (j < length l)%nat →
  exchange i j x y l !! k =
    if decide (j = k) then Some y else if decide (i = k) then Some x else l !! k.
Proof.
  intros Hi Hj. unfold exchange.
  destruct (decide (j = k)) as [->|].
  { apply list_lookup_insert_eq. by rewrite length_insert. }
  rewrite list_lookup_insert_ne by done.
  destruct (decide (i = k)) as [->|]; [by apply list_lookup_insert_eq|].
  by rewrite list_lookup_insert_ne.
Qed.

Lemma length_exchange i j x y l : length (exchange i j x y l) = length l.
Proof. unfold exchange. by rewrite !length_insert. Qed.

Lemma exchange_Permutation i j x y l :
  l !! i = Some y → l !! j = Some x → exchange i j x y l ≡ₚ l.
Proof.
  intros Hi Hj. unfold exchange.
  destruct (decide (i = j)) as [->|Hne].
  { simplify_eq. rewrite list_insert_insert_eq. by rewrite list_insert_id. }
  symmetry. rewrite <- (list_insert_id l i y Hi) at 1.
  rewrite <- (list_insert_id (<[i:=y]> l) j x) at 1
    by (by rewrite list_lookup_insert_ne).
  clear -Hi Hj Hne.
  apply Permutation_inj. split; [by rewrite !length_insert|].
  exists (λ k, if decide (k = i) then j else if decide (k = j) then i else k).
  assert (i < length l)%nat by (by eapply lookup_lt_Some).
  assert (j < length l)%nat by (by eapply lookup_lt_Some).
  split; [intros a b; repeat case_decide; congruence|].
  intros k. rewrite !list_lookup_insert, !length_insert.
  repeat case_decide; naive_solver lia.
Qed.

(** Solves order goals on an exchanged list by looking every entry up. *)
Ltac heap_cases :=
  repeat match goal with
  | H : context [exchange _ _ _ _ _ !! _] |- _ =>
      rewrite lookup_exchange in H by done; repeat case_decide; simplify_eq
  end.

Lemma up_suspect_exchange l k a b :
  (0 < k)%nat → l !! k = Some a → l !! parent k = Some b → ts a < ts b →
  up_suspect l k → up_suspect (exchange k (parent k) b a l) (parent k).
Proof.
  intros Hk Ha Hb Hlt [H1 H2].
  pose proof (lookup_lt_Some _ _ _ Ha). pose proof (lookup_lt_Some _ _ _ Hb).
  pose proof (parent_lt k Hk) as Hpk.
  assert (Hsib : ∀ i x, i ≠ k → parent i = parent k → l !! i = Some x → ts b ≤ ts x).
  { intros i x ? Hp Hi. apply (H1 i x b); [done|done|by rewrite Hp]. }
  assert (Hkid : ∀ i x, i ≠ k → parent i = k → l !! i = Some x → ts b ≤ ts x).
  { intros i x ? Hp Hi. apply (H2 i x b); done. }
  split.
  - intros i x y Hi Hx Hy. heap_cases; try lia; eauto.
    + assert (ts b ≤ ts x) by eauto. lia.
  - intros c x y Hc Hne Hx Hy. pose proof (parent_le (parent k)).
    assert (Hgp : ∀ z, l !! parent (parent k) = Some z → ts z ≤ ts b).
    { intros z. apply (H1 (parent k)); [lia|done]. }
    heap_cases; try lia; eauto.
    + assert (ts b ≤ ts x) by (apply (Hsib c); congruence). lia.
    + transitivity (ts b); [by apply Hgp|]. by apply (Hsib c).
Qed.

Lemma up_suspect_done l k :
  up_suspect l k →
  (∀ x y, l !! k = Some x → l !! parent k = Some y → ts y ≤ ts x) →
  heap_ordered l.
Proof.
  intros [H1 _] Hk i x y Hx Hy. destruct (decide (i = k)) as [->|]; eauto.
Qed.

Lemma up_suspect_snoc l x : heap_ordered l → up_suspect (l ++ [x]) (length l).
Proof.
  intros Hl. split.
  - intros i a b Hi Ha Hb.
    assert (i < length l)%nat.
    { apply lookup_lt_Some in Ha. rewrite length_app in Ha. simpl in Ha. lia. }
    pose proof (parent_le i).
    rewrite lookup_app_l in Ha by lia. rewrite lookup_app_l in Hb by lia. eauto.
  - intros c a b Hc Hne Ha. apply lookup_lt_Some in Ha.
    rewrite length_app in Ha. simpl in Ha.
    destruct c; [rewrite parent_0 in Hc; lia|]. pose proof (parent_lt (S c)). lia.
Qed.

Lemma down_suspect_exchange l k m a b :
  (0 < m)%nat → parent m = k → l !! k = Some a → l !! m = Some b → ts b < ts a →
  (∀ c x, (0 < c)%nat → parent c = k → l !! c = Some x → ts b ≤ ts x) →
  down_suspect l k → down_suspect (exchange m k a b l) m.
Proof.
  intros Hm Hp Ha Hb Hlt Hmin [H1 H2].
  pose proof (lookup_lt_Some _ _ _ Ha). pose proof (lookup_lt_Some _ _ _ Hb).
  pose proof (parent_lt m Hm). split.
  - intros i x y Hi Hx Hy. destruct (decide (i = 0)%nat) as [->|Hi0].
    { rewrite parent_0 in *. heap_cases; lia. }
    pose proof (parent_lt i ltac:(lia)).
    heap_cases; try lia.
    + eapply Hmin; [|done|done]. lia.
    + eapply (H2 m); [lia|done|done|done].
    + eapply H1; eauto.
  - intros c x y _ Hc Hx Hy. rewrite Hp in Hy.
    pose proof (parent_le c). destruct (decide (c = 0)%nat) as [->|];
      [rewrite parent_0 in Hc; lia|].
    pose proof (parent_lt c ltac:(lia)).
    heap_cases; try lia. by apply (H1 c x y); [lia|..].
Qed.

Lemma down_suspect_done l k :
  down_suspect l k →
  (∀ c x y, (0 < c)%nat → parent c = k → l !! c = Some x → l !! k = Some y → ts y ≤ ts x) →
  heap_ordered l.
Proof.
  intros [H1 _] Hk i x y Hx Hy.
  destruct (decide (parent i = k)) as [Hp|]; [|eauto].
  destruct i; [rewrite parent_0 in *; by simplify_eq|].
  rewrite Hp in Hy. eapply Hk; [|done..]. lia.
Qed.

(** Replacing an entry of an ordered heap by one not below its parent. *)
Lemma down_suspect_insert l k x :
  heap_ordered l → (k < length l)%nat →
  (∀ y, (0 < k)%nat → l !! parent k = Some y → ts y ≤ ts x) →
  down_suspect (<[k := x]> l) k.
Proof.
  intros Hl Hk Hx. destruct (lookup_lt_is_Some_2 l k Hk) as [o Ho]. split.
  - intros i a b Hi Ha Hb. rewrite list_lookup_insert_ne in Hb by done.
    destruct (decide (i = k)) as [->|].
    + rewrite list_lookup_insert_eq in Ha by done. simplify_eq.
      destruct k; [by rewrite parent_0 in Hi|]. apply Hx; [lia|done].
    + rewrite list_lookup_insert_ne in Ha by done. eauto.
  - intros c a b H0 Hc Ha Hb. pose proof (parent_lt k H0).
    destruct (decide (c = k)) as [->|]; [lia|].
    rewrite list_lookup_insert_ne in Ha by done.
    rewrite list_lookup_insert_ne in Hb by lia.
    transitivity (ts o); [by eapply Hl|]. eapply Hl; [done|]. by rewrite Hc.
Qed.

Lemma heap_ordered_prefix l l' : heap_ordered (l ++ l') → heap_ordered l.
Proof.
  intros Hl i x y Hx Hy. apply (Hl i); by apply lookup_app_l_Some.
Qed.

Lemma down_suspect_prefix l l' k : down_suspect (l ++ l') k → down_suspect l k.
Proof.
  intros [H1 H2]. split.
  - intros i x y Hi Hx Hy. apply (H1 i); [done|by apply lookup_app_l_Some..].
  - intros i x y Hi Hp Hx Hy. apply (H2 i); [done..| |]; by apply lookup_app_l_Some.
Qed.

(** A suspect node without children is not one. *)
Lemma down_suspect_leaf l k :
  (length l ≤ 2 * k + 1)%nat → down_suspect l k → heap_ordered l.
Proof.
  intros Hk Hd. apply (down_suspect_done l k Hd).
  intros c x y H0 Hp Hc. apply lookup_lt_Some in Hc.
  pose proof (parent_spec c H0). lia.
Qed.

(** The root of an ordered heap is a minimum. *)
Lemma heap_root_min l r x : heap_ordered l → l !! 0%nat = Some r → x ∈ l → ts r ≤ ts x.
Proof.
  intros Hl Hr [i Hi]%list_elem_of_lookup. revert x Hi.
  induction i as [i IH] using lt_wf_ind. intros x Hi.
  destruct i as [|i]; [by simplify_eq|].
  pose proof (parent_lt (S i) ltac:(lia)).
  destruct (lookup_lt_is_Some_2 l (parent (S i))) as [y Hy].
  { apply lookup_lt_Some in Hi. lia. }
  transitivity (ts y); [by eapply IH|by eapply Hl].
Qed.

Lemma heap_ordered_nil : heap_ordered [].
Proof. intros i x y Hx. by rewrite lookup_nil in Hx. Qed.

Lemma heap_ordered_singleton x : heap_ordered [x].
Proof. intros [|[|i]] y z; [|done|done]. by intros [= <-] [= <-]. Qed.

Definition ordered_at l (i : nat) : Prop :=
  match l !! i, l !! parent i with Some x, Some y => ts y ≤ ts x | _, _ => True end.

#[global] Instance ordered_at_dec l i : Decision (ordered_at l i).
Proof. unfold ordered_at. destruct (l !! i), (l !! parent i); apply _. Defined.

Lemma ordered_at_all l : Forall (ordered_at l) (seq 0 (length l)) ↔ heap_ordered l.
Proof.
  rewrite Forall_forall. split.
  - intros H i x y Hx Hy. specialize (H i). unfold ordered_at in H.
    rewrite Hx, Hy in H. apply H, elem_of_seq. apply lookup_lt_Some in Hx. lia.
  - intros Hl i _. unfold ordered_at.
    destruct (l !! i) eqn:?; [|done]. destruct (l !! parent i) eqn:?; [|done]. eauto.
Qed.

#[global] Instance heap_ordered_dec l : Decision (heap_ordered l).
Proof.
  refine (cast_if (decide (Forall (ordered_at l) (seq 0 (length l)))));
    by rewrite <- ordered_at_all.
Defined.

#[export] Hint Resolve parent_lt parent_le heap_ordered_nil : cxx.
