(* ===== verification/TimerHeap.v ===== *)
(** * The heap operations of the timer queue

    Functional lemmas about [swap_events], [heap_add], [heap_hold], [heap_del]
    and [heap_pop] of TimerQueue.v: which list and position map they leave,
    that they never fault on a well-shaped queue below the size limit, and that
    they keep the heap order (for [heap_del]: when the moved timer fits under
    its new parent). *)
From S2P Require Import Prelude EventBase TimerQueue HeapFacts.

(** ** The position map *)

(** [_position] maps the id of every queued timer to its index, and nothing
    else. *)
Definition positions_ok (l : list timer_event) (m : gmap Z Z) : Prop :=
  ∀ id p, m !! id = Some p ↔
    ∃ n te, p = Z.of_nat n ∧ l !! n = Some te ∧ timer_id te = id.

Lemma positions_ok_nil : positions_ok [] ∅.
Proof.
  intros id p. rewrite lookup_empty. split; [done|].
  intros (n & te & _ & H & _). by rewrite lookup_nil in H.
Qed.

Lemma positions_ok_lookup l m n te :
  positions_ok l m → l !! n = Some te → m !! timer_id te = Some (Z.of_nat n).
Proof. intros H Hl. apply H. eauto. Qed.

Lemma positions_ok_inj l m i j a b :
  positions_ok l m → l !! i = Some a → l !! j = Some b →
  timer_id a = timer_id b → i = j.
Proof.
  intros H Hi Hj Heq.
  pose proof (positions_ok_lookup _ _ _ _ H Hi).
  pose proof (positions_ok_lookup _ _ _ _ H Hj). rewrite Heq in *. simplify_eq. lia.
Qed.

Lemma positions_ok_exchange l m i j a b :
  positions_ok l m → l !! i = Some a → l !! j = Some b → i ≠ j →
  positions_ok (exchange i j b a l)
    (<[timer_id a := Z.of_nat j]> (<[timer_id b := Z.of_nat i]> m)).
Proof.
  intros H Hi Hj Hij id p.
  pose proof (lookup_lt_Some _ _ _ Hi). pose proof (lookup_lt_Some _ _ _ Hj).
  assert (Hab : timer_id a ≠ timer_id b)
    by (intros ?; by apply Hij; eapply positions_ok_inj).
  setoid_rewrite lookup_exchange; [|done..].
  rewrite !lookup_insert. repeat case_decide; simplify_eq.
  - split; [intros [= <-]; exists j, a; by rewrite decide_True|].
    intros (n & te & -> & Hn & Hid). repeat case_decide; simplify_eq; try done.
    exfalso. by assert (n = i) by (by eapply positions_ok_inj).
  - split; [intros [= <-]; exists i, b; by rewrite decide_False, decide_True|].
    intros (n & te & -> & Hn & Hid). repeat case_decide; simplify_eq; try done.
    exfalso. by assert (n = j) by (by eapply positions_ok_inj).
  - rewrite (H id p). split; intros (n & te & -> & Hn & Hid); exists n, te;
      repeat case_decide; simplify_eq; naive_solver.
Qed.

Lemma positions_ok_snoc l m te :
  positions_ok l m → (∀ x, x ∈ l → timer_id x ≠ timer_id te) →
  positions_ok (l ++ [te]) (<[timer_id te := Z.of_nat (length l)]> m).
Proof.
  intros H Hne id p. rewrite lookup_insert. case_decide; subst.
  - split.
    + intros [= <-]. exists (length l), te.
      by rewrite lookup_app_r, Nat.sub_diag by lia.
    + intros (n & x & -> & Hn & Hid). apply lookup_snoc_Some in Hn as [[_ Hn]|[-> _]]; [|done].
      apply list_elem_of_lookup_2 in Hn. by destruct (Hne x).
  - rewrite (H id p). split; intros (n & x & -> & Hn & Hid); exists n, x; split_and!; try done.
    + by apply lookup_app_l_Some.
    + apply lookup_snoc_Some in Hn as [[_ Hn]|[-> ?]]; [done|by subst].
Qed.

(** Entry [n] is overwritten by the last entry, which is dropped. *)
Lemma positions_ok_del l last m n te :
  positions_ok (l ++ [last]) m → (l ++ [last]) !! n = Some te →
  positions_ok (<[n := last]> l)
    (delete (timer_id te) (<[timer_id last := Z.of_nat n]> m)).
Proof.
  intros H Hn id p.
  assert (Hlast : (l ++ [last]) !! length l = Some last)
    by (by rewrite lookup_app_r, Nat.sub_diag by lia).
  assert (Hin : ∀ i x, l !! i = Some x → (l ++ [last]) !! i = Some x)
    by (intros; by apply lookup_app_l_Some).
  assert (Hinv : ∀ i x, (l ++ [last]) !! i = Some x → i ≠ length l → l !! i = Some x).
  { intros i x Hi ?. apply lookup_snoc_Some in Hi. naive_solver lia. }
  rewrite lookup_delete. case_decide as Hid; subst.
  { split; [done|]. intros (i & x & _ & Hi & Hx). exfalso.
    apply list_lookup_insert_Some in Hi as [(<- & -> & Hlt)|[Hne Hi]].
    - assert (n = length l) by (by eapply positions_ok_inj). lia.
    - pose proof (Hin _ _ Hi). assert (i = n) by (by eapply positions_ok_inj). lia. }
  rewrite lookup_insert. case_decide as Hid'; subst.
  { assert (Hlt : (n < length l)%nat).
    { pose proof (lookup_lt_Some _ _ _ Hn) as Hlt. rewrite length_app in Hlt. simpl in Hlt.
      destruct (decide (n = length l)) as [->|]; [|lia]. rewrite Hlast in Hn. by simplify_eq. }
    split.
    - intros [= <-]. exists n, last. by rewrite list_lookup_insert_eq.
    - intros (i & x & -> & Hi & Hx).
      apply list_lookup_insert_Some in Hi as [(<- & -> & _)|[Hne Hi]]; [done|].
      pose proof (Hin _ _ Hi). apply lookup_lt_Some in Hi.
      assert (i = length l) by (by eapply positions_ok_inj). lia. }
  rewrite (H id p). split; intros (i & x & -> & Hi & Hx); exists i, x; split_and!; try done.
  - assert (i ≠ n) by (intros ->; naive_solver). rewrite list_lookup_insert_ne by done.
    apply Hinv; [done|]. intros ->. naive_solver.
  - apply list_lookup_insert_Some in Hi as [(<- & -> & _)|[Hne Hi]]; [done|auto].
Qed.

(** ** Stepping through the array accesses *)

(** The queue [q] with another list and position map. *)
Definition reshape (q : timer_queue) (l : list timer_event) (m : gmap Z Z) : timer_queue :=
  set_position m (set_event_lst l q).

Lemma reshape_id q : reshape q (_event_lst q) (_position q) = q.
Proof. by destruct q. Qed.

Lemma wp_ev_at (n : nat) te (Q : timer_event → timer_queue → Prop) q :
  _event_lst q !! n = Some te → Q te q → wp (ev_at (Z.of_nat n)) Q q.
Proof.
  intros Hn HQ. unfold ev_at. wp_steps. eapply wp_from_option; [|done].
  by rewrite zlookup_of_nat.
Qed.

Lemma wp_ev_set (n : nat) te (Q : unit → timer_queue → Prop) q :
  (n < length (_event_lst q))%nat →
  Q tt (set_event_lst (<[n := te]> (_event_lst q)) q) →
  wp (ev_set (Z.of_nat n) te) Q q.
Proof.
  intros Hn HQ. unfold ev_set. wp_steps.
  eapply wp_from_option; [by apply zinsert_of_nat|]. by wp_steps.
Qed.

Lemma wp_swap_events (i j : nat) a b l m (Q : unit → timer_queue → Prop) q :
  l !! i = Some a → l !! j = Some b → i ≠ j → positions_ok l m →
  (∀ m', positions_ok (exchange i j b a l) m' →
    Q tt (reshape q (exchange i j b a l) m')) →
  wp (swap_events (Z.of_nat i) (Z.of_nat j)) Q (reshape q l m).
Proof.
  intros Hi Hj Hij Hm HQ. unfold swap_events.
  pose proof (lookup_lt_Some _ _ _ Hi). pose proof (lookup_lt_Some _ _ _ Hj).
  wp_step. eapply wp_ev_at; [done|]. wp_step. eapply wp_ev_at; [done|].
  wp_step. apply wp_ev_set; [done|].
  wp_step. apply wp_ev_set; [simpl; by rewrite length_insert|].
  wp_step. apply (wp_ev_at i b).
  { simpl. by rewrite list_lookup_insert_ne, list_lookup_insert_eq. }
  unfold position_set. wp_steps. apply HQ. by apply positions_ok_exchange.
Qed.

(** ** [heap_add] *)

Lemma heap_add_loop_spec fuel (k : nat) l m q :
  (k < fuel)%nat → (k < length l)%nat → positions_ok l m →
  wp (heap_add_loop fuel (Z.of_nat k) (Z.of_nat (parent k)))
    (λ _ q', ∃ l' m', q' = reshape q l' m' ∧ positions_ok l' m' ∧ l' ≡ₚ l ∧
      (up_suspect l k → heap_ordered l'))
    (reshape q l m).
Proof.
  revert k l m. induction fuel as [|fuel IH]; intros k l m Hf Hk Hm; [lia|].
  cbn [heap_add_loop]. destruct (Z.leb_spec 0 (Z.of_nat (parent k))); [|lia].
  destruct (lookup_lt_is_Some_2 l k Hk) as [a Ha].
  pose proof (parent_le k).
  destruct (lookup_lt_is_Some_2 l (parent k)) as [b Hb]; [lia|].
  wp_step. eapply wp_ev_at; [done|]. wp_step. eapply wp_ev_at; [done|].
  destruct (Z.ltb_spec (ts a) (ts b)).
  - assert (0 < k)%nat by (destruct k; [rewrite parent_0 in Hb; simplify_eq; lia|lia]).
    pose proof (parent_lt k).
    wp_step. eapply wp_swap_events; [done..|lia|done|]. intros m' Hm'.
    rewrite quot_parent. eapply wp_mono.
    + apply IH; [lia|rewrite length_exchange; lia|done].
    + intros _ q' (l' & m'' & -> & ? & Hp & Ho). eexists _, _. split; [done|].
      split; [done|]. split; [by rewrite Hp, exchange_Permutation|].
      intros Hs. by apply Ho, up_suspect_exchange.
  - wp_step. eexists _, _. split; [done|]. split; [done|]. split; [done|].
    intros Hs. eapply up_suspect_done; [done|]. intros x y Hx Hy. by simplify_eq.
Qed.

Lemma heap_add_spec te l m q :
  _count q = Z.of_nat (length l) → _count q < INT_MAX → positions_ok l m →
  (∀ x, x ∈ l → timer_id x ≠ timer_id te) →
  wp (heap_add te)
    (λ _ q', ∃ l' m', q' = reshape (set_count (_count q + 1) q) l' m' ∧
      positions_ok l' m' ∧ l' ≡ₚ te :: l ∧ (heap_ordered l → heap_ordered l'))
    (reshape q l m).
Proof.
  intros Hc Hmax Hm Hne. unfold heap_add, position_set. wp_steps.
  apply wp_cint; [simpl; int_lia|]. wp_steps.
  cbn [_event_lst _count set_position set_event_lst set_count reshape _position].
  rewrite Hc, quot_parent.
  eapply wp_mono.
  - apply (heap_add_loop_spec _ (length l) (l ++ [te])
      (<[timer_id te := Z.of_nat (length l)]> m) (set_count (Z.of_nat (length l) + 1) q)).
    + simpl. rewrite length_app. simpl. lia.
    + rewrite length_app. simpl. lia.
    + by apply positions_ok_snoc.
  - intros _ q' (l' & m' & -> & ? & Hp & Ho). eexists _, _. split; [done|].
    split; [done|]. split; [by rewrite Hp, Permutation_app_comm|].
    intros Hl. by apply Ho, up_suspect_snoc.
Qed.

(** ** [heap_hold] *)

(** The largest number of timers for which [2 * pos + 2] never overflows. *)
Definition TIMER_LIMIT : Z := 1073741822.

(** The node that [heap_hold] compares with: [pos], or the child of [pos] that
    expires first when it expires before [pos]. *)
Definition is_min_child (l : list timer_event) (pos mp : nat) : Prop :=
  ((mp = pos) ∨ (parent mp = pos ∧ (0 < mp)%nat ∧
     ∃ x y, l !! pos = Some x ∧ l !! mp = Some y ∧ ts y < ts x)) ∧
  (∀ y, l !! mp = Some y → ∀ c x, (0 < c)%nat → parent c = pos → l !! c = Some x → ts y ≤ ts x).

Lemma is_min_child_leaf l pos : (length l ≤ 2 * pos + 1)%nat → is_min_child l pos pos.
Proof.
  intros Hl. split; [by left|]. intros y _ c x H0 Hp Hc%lookup_lt_Some.
  pose proof (parent_spec c H0). lia.
Qed.

(** What the two conditionals of [heap_hold] compute. *)
Definition least_of (l : list timer_event) (pos : nat) (a b : timer_event) (c : option timer_event) : nat :=
  let '(m, x) := if ts b <? ts a then ((2 * pos + 1)%nat, b) else (pos, a) in
  match c with
  | Some c => if ts c <? ts x then (2 * pos + 2)%nat else m
  | None => m
  end.

Lemma least_of_is_min_child l pos a b :
  l !! pos = Some a → l !! (2 * pos + 1)%nat = Some b →
  is_min_child l pos (least_of l pos a b (l !! (2 * pos + 2)%nat)).
Proof.
  intros Ha Hb.
  assert (Hp1 : parent (2 * pos + 1) = pos) by (apply parent_unique; lia).
  assert (Hp2 : parent (2 * pos + 2) = pos) by (apply parent_unique; lia).
  assert (Hall : ∀ y, ts y ≤ ts b →
    (∀ c, l !! (2 * pos + 2)%nat = Some c → ts y ≤ ts c) →
    ∀ c x, (0 < c)%nat → parent c = pos → l !! c = Some x → ts y ≤ ts x).
  { intros y Hyb Hyc c x H0 Hp Hx.
    destruct (parent_spec c H0) as [Hc|Hc]; rewrite Hp in Hc; subst c; [|by auto].
    rewrite Hb in Hx. by simplify_eq. }
  unfold least_of.
  destruct (Z.ltb_spec (ts b) (ts a)), (l !! (2 * pos + 2)%nat) as [c|] eqn:Hc;
    try destruct (Z.ltb_spec (ts c) (ts b)); try destruct (Z.ltb_spec (ts c) (ts a));
    (split; [first [by left
                   |right; split; [done|]; split; [lia|]; eexists _, _; split; [done|]; split; [done|]; lia]
            |intros y Hy; simplify_eq; apply Hall; [lia|intros; simplify_eq; lia]]).
Qed.

(** The two conditionals of [heap_hold], as one step. *)
Lemma wp_heap_hold_step fuel (pos : nat) l m (Q : unit → timer_queue → Prop) q :
  _count q = Z.of_nat (length l) → _count q ≤ TIMER_LIMIT →
  (pos ≤ length l)%nat →
  (∀ mp, is_min_child l pos mp →
    wp (if bool_decide (Z.of_nat mp ≠ Z.of_nat pos)
        then swap_events (Z.of_nat mp) (Z.of_nat pos) ;; heap_hold fuel (Z.of_nat mp)
        else mret tt) Q (reshape q l m)) →
  wp (heap_hold (S fuel) (Z.of_nat pos)) Q (reshape q l m).
Proof.
  intros Hc Hlim Hpos HQ. unfold TIMER_LIMIT in *. cbn [heap_hold].
  wp_step. apply wp_cint; [int_lia|]. wp_step. apply wp_cint; [int_lia|]. wp_steps.
  change (_count (reshape q l m)) with (_count q). rewrite Hc.
  replace (2 * Z.of_nat pos + 1) with (Z.of_nat (2 * pos + 1)) by lia.
  replace (2 * Z.of_nat pos + 2) with (Z.of_nat (2 * pos + 2)) by lia.
  destruct (Z.ltb_spec (Z.of_nat (2 * pos + 1)) (Z.of_nat (length l))) as [Hl|Hl].
  2:{ wp_steps. destruct (Z.ltb_spec (Z.of_nat (2 * pos + 2)) (Z.of_nat (length l))); [lia|].
      wp_steps. apply HQ, is_min_child_leaf. lia. }
  destruct (lookup_lt_is_Some_2 l pos) as [a Ha]; [lia|].
  destruct (lookup_lt_is_Some_2 l (2 * pos + 1)) as [b Hb]; [lia|].
  pose proof (least_of_is_min_child l pos a b Ha Hb) as Hmin. unfold least_of in Hmin.
  wp_step. eapply wp_ev_at; [done|]. wp_step. eapply wp_ev_at; [done|]. wp_steps.
  destruct (Z.ltb_spec (Z.of_nat (2 * pos + 2)) (Z.of_nat (length l))) as [Hr|Hr].
  - destruct (lookup_lt_is_Some_2 l (2 * pos + 2)) as [c Hcc]; [lia|]. rewrite Hcc in Hmin.
    wp_step. destruct (Z.ltb_spec (ts b) (ts a));
      (eapply wp_ev_at; [done|]; wp_step; eapply wp_ev_at; [done|]; wp_steps;
       match goal with |- context [?x <? ?y] => destruct (x <? y) end; by apply HQ).
  - rewrite (lookup_ge_None_2 l (2 * pos + 2)) in Hmin by lia.
    wp_steps. destruct (Z.ltb_spec (ts b) (ts a)); by apply HQ.
Qed.

Lemma heap_hold_spec fuel (pos : nat) l m q :
  (length l - pos < fuel)%nat → (pos ≤ length l)%nat →
  _count q = Z.of_nat (length l) → _count q ≤ TIMER_LIMIT → positions_ok l m →
  wp (heap_hold fuel (Z.of_nat pos))
    (λ _ q', ∃ l' m', q' = reshape q l' m' ∧ positions_ok l' m' ∧ l' ≡ₚ l ∧
      (down_suspect l pos → heap_ordered l'))
    (reshape q l m).
Proof.
  revert pos l m. induction fuel as [|fuel IH]; intros pos l m Hf Hpos Hc Hlim Hm; [lia|].
  apply wp_heap_hold_step; [done..|]. intros mp [Hmp Hmin]. case_bool_decide as Hne.
  - destruct Hmp as [->|(Hp & H0 & x & y & Hx & Hy & Hlt)]; [done|].
    pose proof (parent_lt mp H0). pose proof (lookup_lt_Some _ _ _ Hy).
    wp_step. eapply wp_swap_events; [done..|lia|done|]. intros m' Hm'. eapply wp_mono.
    + apply IH; rewrite ?length_exchange; [lia..|done|done|done].
    + intros _ q' (l' & m'' & -> & ? & Hperm & Ho). eexists _, _. split; [done|].
      split; [done|]. split; [by rewrite Hperm, exchange_Permutation|].
      intros Hd. apply Ho. eapply down_suspect_exchange; eauto.
  - assert (mp = pos) as -> by lia. wp_step. eexists _, _. split; [done|].
    split; [done|]. split; [done|]. intros Hd. eapply down_suspect_done; eauto.
Qed.

Lemma heap_hold_top_spec (pos : nat) l m q :
  (pos ≤ length l)%nat →
  _count q = Z.of_nat (length l) → _count q ≤ TIMER_LIMIT → positions_ok l m →
  wp (heap_hold_top (Z.of_nat pos))
    (λ _ q', ∃ l' m', q' = reshape q l' m' ∧ positions_ok l' m' ∧ l' ≡ₚ l ∧
      (down_suspect l pos → heap_ordered l'))
    (reshape q l m).
Proof.
  intros. unfold heap_hold_top. wp_steps. apply heap_hold_spec; [simpl; lia|done..].
Qed.

(** ** Removing entries *)

Lemma insert_last_Permutation (l : list timer_event) last n te :
  (l ++ [last]) !! n = Some te → te :: <[n := last]> l ≡ₚ l ++ [last].
Proof.
  intros Hn. destruct (decide (n < length l)%nat) as [Hlt|Hge].
  - rewrite lookup_app_l in Hn by done.
    rewrite insert_take_drop by done.
    rewrite <- (take_drop_middle l n te Hn) at 3.
    rewrite <- app_assoc. simpl. rewrite Permutation_middle. apply Permutation_app_head.
    constructor. apply Permutation_cons_append.
  - pose proof (lookup_lt_Some _ _ _ Hn) as Hlt. rewrite length_app in Hlt. simpl in Hlt.
    rewrite lookup_app_r in Hn by lia. replace (n - length l)%nat with 0%nat in Hn by lia.
    simplify_eq/=. rewrite list_insert_ge by lia. by rewrite (Permutation_app_comm l).
Qed.

(** The condition under which the entry that replaces entry [n] of [l ++ [last]]
    needs no move towards the root. *)
Definition fits_at (l : list timer_event) (last : timer_event) (n : nat) : Prop :=
  ∀ y, (0 < n < length l)%nat → l !! parent n = Some y → ts y ≤ ts last.

Lemma fits_at_down_suspect l last n :
  heap_ordered (l ++ [last]) → fits_at l last n → (n ≤ length l)%nat →
  down_suspect (<[n := last]> l) n.
Proof.
  intros Hh Hf Hn. pose proof (heap_ordered_prefix _ _ Hh) as Ho.
  destruct (decide (n < length l)%nat).
  - apply down_suspect_insert; [done..|]. intros y ? Hy. apply Hf; [lia|done].
  - rewrite list_insert_ge by lia. split; [intros i x y _; apply Ho|].
    intros c x y H0 Hp Hc. apply lookup_lt_Some in Hc. pose proof (parent_le c). lia.
Qed.

Lemma wp_event_pop_back l x (Q : unit → timer_queue → Prop) q :
  _event_lst q = l ++ [x] → Q tt (set_event_lst l q) → wp event_pop_back Q q.
Proof.
  intros Hl HQ. unfold event_pop_back. wp_steps. rewrite Hl, removelast_last.
  by destruct l; simpl; apply wp_put.
Qed.

Lemma heap_del_spec (n : nat) l last te m q :
  (l ++ [last]) !! n = Some te → positions_ok (l ++ [last]) m →
  _count q = Z.of_nat (length (l ++ [last])) → _count q ≤ TIMER_LIMIT →
  wp (heap_del (Z.of_nat n))
    (λ _ q', ∃ l' m', q' = reshape (set_count (_count q - 1) q) l' m' ∧
      positions_ok l' m' ∧ te :: l' ≡ₚ l ++ [last] ∧
      (heap_ordered (l ++ [last]) → fits_at l last n → heap_ordered l'))
    (reshape q (l ++ [last]) m).
Proof.
  intros Hn Hm Hc Hlim. pose proof (lookup_lt_Some _ _ _ Hn) as Hlt.
  rewrite length_app in *. simpl in Hlt, Hc.
  unfold heap_del. wp_step. eapply wp_ev_at; [done|]. wp_steps.
  change (_count (reshape _ _ _)) with (_count q). rewrite Hc.
  replace (Z.of_nat (length l + 1) - 1) with (Z.of_nat (length l)) by lia.
  eapply (wp_ev_at _ last); [by simpl; rewrite lookup_app_r, Nat.sub_diag by lia|].
  wp_step. apply wp_ev_set; [simpl; rewrite length_app; simpl; lia|].
  unfold position_set, position_erase. wp_steps.
  assert (Hl1 : <[n := last]> (l ++ [last]) = <[n := last]> l ++ [last]).
  { destruct (decide (n < length l)%nat); [by rewrite insert_app_l|].
    rewrite insert_app_r_alt by lia. replace (n - length l)%nat with 0%nat by lia.
    by rewrite (list_insert_ge l) by lia. }
  pose proof (insert_last_Permutation l last n te Hn) as Hperm.
  pose proof (positions_ok_del l last m n te Hm Hn) as Hm1.
  pose proof (length_insert l n last) as Hlen.
  assert (Hfits : heap_ordered (l ++ [last]) → fits_at l last n →
    down_suspect (<[n := last]> l) n) by (intros; apply fits_at_down_suspect; [done..|lia]).
  change (_event_lst (reshape q (l ++ [last]) m)) with (l ++ [last]). rewrite Hl1.
  generalize dependent (<[n := last]> l). intros l1 _ Hperm Hm1 Hlen Hfits.
  apply (wp_event_pop_back l1 last); [done|].
  cbn [_count _event_lst _position set_position set_event_lst set_count reshape].
  rewrite Hc. replace (Z.of_nat (length l + 1) - 1) with (Z.of_nat (length l)) by lia.
  eapply wp_mono; [apply (heap_hold_top_spec n l1
    (delete (timer_id te) (<[timer_id last := Z.of_nat n]> m))
    (set_count (Z.of_nat (length l)) q))|].
  - lia.
  - by rewrite Hlen.
  - unfold TIMER_LIMIT in *. simpl. lia.
  - done.
  - intros _ q' (l' & m' & -> & ? & Hp & Ho). eexists _, _. split; [done|].
    split; [done|]. split; [by rewrite Hp|]. auto.
Qed.

Lemma heap_pop_spec top l m q :
  positions_ok (top :: l) m →
  _count q = Z.of_nat (length (top :: l)) → _count q ≤ TIMER_LIMIT →
  wp heap_pop
    (λ _ q', ∃ l' m', q' = reshape (set_count (_count q - 1) q) l' m' ∧
      positions_ok l' m' ∧ l' ≡ₚ l ∧
      (heap_ordered (top :: l) → heap_ordered l'))
    (reshape q (top :: l) m).
Proof.
  intros Hm Hc Hlim. unfold heap_pop. wp_steps.
  change (_count (reshape _ _ _)) with (_count q).
  simpl in Hc. destruct (Z.leb_spec (_count q) 0); [lia|].
  wp_step. apply (wp_ev_at 0 top); [done|]. unfold position_erase, position_set. wp_steps.
  destruct (Z.ltb_spec 1 (_count q)).
  2:{ rewrite bool_decide_true by lia. wp_steps. destruct l; [|simpl in Hc; lia].
      assert (_count q = 1) as -> by (simpl in Hc; lia).
      eexists [], _. split; [done|]. split.
      - pose proof (positions_ok_del [] top m 0 top Hm eq_refl) as Hd. simpl in Hd.
        by rewrite delete_insert_eq in Hd.
      - split; [done|]. intros _. apply heap_ordered_nil. }
  destruct l as [|last l _] using rev_ind; [simpl in Hc; lia|].
  rewrite length_app in Hc. simpl in Hc.
  wp_step. replace (_count q - 1) with (Z.of_nat (S (length l))) by lia.
  eapply (wp_ev_at _ last); [by simpl; rewrite lookup_app_r, Nat.sub_diag by lia|].
  wp_step. apply (wp_ev_set 0); [simpl; lia|]. wp_steps.
  apply (wp_event_pop_back (last :: l) last); [done|]. wp_steps.
  cbn [_count _event_lst _position set_position set_event_lst set_count reshape].
  eapply wp_mono; [apply (heap_hold_top_spec 0 (last :: l)
    (<[timer_id last := 0]> (delete (timer_id top) m)) (set_count (_count q - 1) q))|].
  - simpl. lia.
  - simpl. lia.
  - unfold TIMER_LIMIT in *. simpl. lia.
  - rewrite <- delete_insert_ne.
    + by apply (positions_ok_del (top :: l) last m 0 top).
    + intros Heq. assert (0%nat = S (length l)) as H' by
        (eapply (positions_ok_inj _ _ _ _ top last Hm); [done| |done];
         by simpl; rewrite lookup_app_r, Nat.sub_diag by lia). lia.
  - intros _ q' (l' & m' & -> & ? & Hp & Ho).
    replace (Z.of_nat (S (length l))) with (_count q - 1) by lia. eexists _, _. split; [done|].
    split; [done|]. split; [by rewrite Hp, (Permutation_app_comm l)|].
    intros Hh. apply Ho. apply (fits_at_down_suspect (top :: l) last 0 Hh); [|lia].
    intros y ?. lia.
Qed.
