(* ===== verification/TimerQueueSpec.v ===== *)
(** * Correctness of the timer queue

    The abstract view of a timer queue is a finite map from timer ids to
    timers.  [add_timer], [del_timer] and [get_timo] refine insertion, deletion
    and the extraction of the timers that are due; the representation invariant
    ties the vector, the position map, the counters, the recorded deadline and
    the timerfd together. *)
From S2P Require Import Prelude EventBase TimerQueue HeapFacts TimerHeap.

(** ** Representation invariant *)

(** The field types of the C++ struct. *)
Definition timer_typed (te : timer_event) : Prop :=
  0 ≤ ts te < 2 ^ 64 ∧ 0 ≤ interval te < 2 ^ 32.

Record core (q : timer_queue) : Prop := {
  core_count : _count q = Z.of_nat (length (_event_lst q));
  core_pos : positions_ok (_event_lst q) (_position q);
  core_ids : Forall (λ te, 0 ≤ timer_id te < _next_timer_id q) (_event_lst q);
  core_typed : Forall timer_typed (_event_lst q);
  core_next : 0 ≤ _next_timer_id q ≤ INT_MAX;
  core_pioneer : 0 ≤ _pioneer q < 2 ^ 64;
  core_timerfd : _timerfd q = timespec_of (_pioneer q);
}.

(** The recorded deadline is not after the expiry of the top of the heap. *)
Definition deadline_ok (q : timer_queue) : Prop :=
  match _event_lst q with
  | [] => _pioneer q = UINT64_MAX
  | top :: _ => _pioneer q ≤ ts top
  end.

Definition wf (q : timer_queue) : Prop := core q ∧ deadline_ok q.

Definition ordered (q : timer_queue) : Prop := heap_ordered (_event_lst q).

(** The abstract view. *)
Definition timers_of (l : list timer_event) : gmap Z timer_event :=
  list_to_map ((λ te, (timer_id te, te)) <$> l).
Definition timers (q : timer_queue) : gmap Z timer_event := timers_of (_event_lst q).

(** ** The abstract view and the vector *)

Lemma core_NoDup q : core q → NoDup (timer_id <$> _event_lst q).
Proof.
  intros Hq. apply NoDup_alt. intros i j id Hi Hj.
  apply list_lookup_fmap_Some in Hi as (a & -> & Hi).
  apply list_lookup_fmap_Some in Hj as (b & Heq & Hj).
  by eapply positions_ok_inj; [apply Hq|..].
Qed.

Lemma timers_of_Permutation l1 l2 :
  NoDup (timer_id <$> l1) → l1 ≡ₚ l2 → timers_of l1 = timers_of l2.
Proof.
  intros Hnd Hp. apply list_to_map_proper; [by rewrite <- list_fmap_compose|].
  by apply fmap_Permutation.
Qed.

Lemma timers_of_lookup l id te :
  NoDup (timer_id <$> l) →
  timers_of l !! id = Some te ↔ te ∈ l ∧ timer_id te = id.
Proof.
  intros Hnd. unfold timers_of. rewrite <- elem_of_list_to_map.
  - rewrite list_elem_of_fmap. naive_solver.
  - by rewrite <- list_fmap_compose.
Qed.

Lemma timers_lookup q id te :
  core q → timers q !! id = Some te ↔ te ∈ _event_lst q ∧ timer_id te = id.
Proof. intros. by apply timers_of_lookup, core_NoDup. Qed.

Lemma timers_position q id :
  core q → timers q !! id = None ↔ _position q !! id = None.
Proof.
  intros Hq. rewrite !eq_None_not_Some. apply not_iff_compat. split.
  - intros [te [[n Hn]%list_elem_of_lookup <-]%timers_lookup]; [|done].
    eexists. by eapply positions_ok_lookup; [apply Hq|].
  - intros [p Hp]. apply (core_pos q Hq) in Hp as (n & te & _ & Hn & Hid). exists te.
    apply timers_lookup; [done|]. by eapply list_elem_of_lookup_2 in Hn.
Qed.

(** ** Building the invariant back after an operation *)

Lemma core_reshape q l m :
  core q → _count q = Z.of_nat (length l) → positions_ok l m →
  (∀ te, te ∈ l → 0 ≤ timer_id te < _next_timer_id q ∧ timer_typed te) →
  core (reshape q l m).
Proof.
  intros [] Hc Hm Hl. split; simpl; try done; apply Forall_forall; intros te ?; by apply Hl.
Qed.

Lemma core_elem q te :
  core q → te ∈ _event_lst q → 0 ≤ timer_id te < _next_timer_id q ∧ timer_typed te.
Proof.
  intros [? ? Hids Htyped _ _ _] H.
  split; [by apply (proj1 (Forall_forall _ _) Hids)|by apply (proj1 (Forall_forall _ _) Htyped)].
Qed.

Lemma timespec_of_max : timespec_of (u64 (-1)) = Timespec 0 0.
Proof. done. Qed.

(** ** [add_timer] *)

Lemma add_timer_core te q :
  core q → timer_typed te → _count q < TIMER_LIMIT → _next_timer_id q < INT_MAX →
  wp (add_timer te)
    (λ id q', id = _next_timer_id q ∧ wf q' ∧
      _event_lst q' ≡ₚ with_timer_id id te :: _event_lst q ∧
      _next_timer_id q' = _next_timer_id q + 1 ∧ _count q' = _count q + 1 ∧
      (ordered q → ordered q') ∧ (deadline_ok q → _event_lst q = [] → _pioneer q' = ts te)) q.
Proof.
  intros Hq Hte Hlim Hnext. unfold add_timer. wp_steps.
  pose proof (core_next q Hq). apply wp_cint; [int_lia|]. wp_steps.
  set (q1 := set_next_timer_id (_next_timer_id q + 1) q).
  set (te' := with_timer_id (_next_timer_id q) te).
  eapply wp_mono.
  { rewrite <- (reshape_id q1).
    apply (heap_add_spec te' (_event_lst q) (_position q) q1);
      [by apply Hq|unfold TIMER_LIMIT, INT_MAX in *; simpl; lia|by apply Hq|].
    intros x Hx. pose proof (core_elem q x Hq Hx). simpl. lia. }
  intros _ q' (l' & m' & -> & Hm' & Hp & Ho). wp_steps.
  assert (Hlen : length l' = S (length (_event_lst q))) by (by rewrite Hp).
  destruct l' as [|top l'']; [done|].
  apply (wp_ev_at 0 top); [done|]. wp_steps.
  assert (Hcore : ∀ p, 0 ≤ p < 2 ^ 64 →
    core (set_timerfd (timespec_of p) (set_pioneer p
      (reshape (set_count (_count q1 + 1) q1) (top :: l'') m')))).
  { intros p Hpi. split; simpl; try done; try lia.
    - rewrite (core_count q Hq). simpl in Hlen. lia.
    - rewrite Hp. constructor; [simpl; lia|].
      eapply Forall_impl; [apply (core_ids q Hq)|]. simpl. lia.
    - rewrite Hp. constructor; [done|apply Hq]. }
  pose proof (core_pioneer q Hq). pose proof (core_timerfd q Hq) as Htfd.
  assert (Htyped : Forall timer_typed (top :: l'')).
  { rewrite Hp. constructor; [done|apply Hq]. }
  apply Forall_cons_1 in Htyped as [[Htop _] _].
  assert (Hnil : deadline_ok q → _event_lst q = [] → _pioneer q = UINT64_MAX ∧ ts top = ts te).
  { intros Hd Hl. unfold deadline_ok in Hd. rewrite Hl in Hd, Hp. by apply Permutation_singleton_r in Hp as [= -> ->]. }
  unfold reset_timo. apply wp_when; intros Hlt; wp_steps.
  - split_and!; try done; [|intros Hd Hl; by destruct (Hnil Hd Hl)].
    split; [by apply Hcore|]. unfold deadline_ok. simpl. lia.
  - split_and!; try done; [|intros Hd Hl; destruct (Hnil Hd Hl); unfold UINT64_MAX in *; simpl in *; lia].
    split; [|unfold deadline_ok; simpl in *; lia].
    specialize (Hcore (_pioneer q)). by destruct q; simpl in *; rewrite Htfd in *; apply Hcore.
Qed.

(** ** [del_timer] *)

Lemma core_with_deadline q p :
  core q → 0 ≤ p < 2 ^ 64 → core (set_timerfd (timespec_of p) (set_pioneer p q)).
Proof. intros [] Hp. by split. Qed.


(** Every deadline the queue can program is of type [uint64_t]. *)
Lemma core_after (q : timer_queue) c l m :
  core q → c = Z.of_nat (length l) → positions_ok l m →
  (∀ te, te ∈ l → te ∈ _event_lst q) →
  core (reshape (set_count c q) l m).
Proof.
  intros Hq -> Hm Hl. destruct (Hq). split; simpl; try done;
    apply Forall_forall; intros te Hte%Hl; by apply (core_elem q).
Qed.

Lemma deadline_step q :
  core q → _event_lst q ≠ [] →
  wp (top ← ev_at 0;
      when (ts top <? _pioneer q) (modify (set_pioneer (ts top)) ;; reset_timo))
    (λ _ q', wf q' ∧ _event_lst q' = _event_lst q ∧ _position q' = _position q ∧
      _next_timer_id q' = _next_timer_id q) q.
Proof.
  intros Hq Hne. destruct (_event_lst q) as [|top l] eqn:Hl; [done|].
  wp_step. apply (wp_ev_at 0 top); [by rewrite Hl|].
  destruct (core_elem q top) as [_ [Ht _]]; [done|by rewrite Hl; left|].
  unfold reset_timo. apply wp_when; intros Hlt; wp_steps.
  - split; [|by rewrite <- Hl]. split; [by apply core_with_deadline|].
    unfold deadline_ok. simpl. rewrite Hl. lia.
  - split; [|done]. split; [done|]. unfold deadline_ok. rewrite Hl. lia.
Qed.

Lemma no_timers_step q :
  core q → _event_lst q = [] →
  wp (modify (set_pioneer (u64 (-1))) ;; reset_timo)
    (λ _ q', wf q' ∧ _event_lst q' = _event_lst q ∧ _position q' = _position q ∧
      _next_timer_id q' = _next_timer_id q) q.
Proof.
  intros Hq Hl. unfold reset_timo. wp_steps. split; [|done]. split.
  - apply (core_with_deadline q); [done|]. apply u64_range.
  - unfold deadline_ok. simpl. by rewrite Hl.
Qed.

Lemma count_zero q : core q → _count q = 0 ↔ _event_lst q = [].
Proof. intros Hq. rewrite (core_count q Hq). destruct (_event_lst q); simpl; split; by (done || lia). Qed.

(** Entry [n] of the heap, when removed, leaves a gap that the last entry can
    fill without moving up. *)
Definition removable_in_order (q : timer_queue) (n : nat) : Prop :=
  ∀ z y, last (_event_lst q) = Some z → (0 < n < length (_event_lst q) - 1)%nat →
    _event_lst q !! parent n = Some y → ts y ≤ ts z.

Lemma timers_of_cons te l :
  timers_of (te :: l) = <[timer_id te := te]> (timers_of l).
Proof. done. Qed.

Lemma timers_of_remove te l l0 :
  NoDup (timer_id <$> l0) → te :: l ≡ₚ l0 →
  timers_of l = delete (timer_id te) (timers_of l0).
Proof.
  intros Hnd Hp. rewrite (timers_of_Permutation l0 (te :: l)) by done.
  rewrite <- Hp in Hnd. simpl in Hnd. apply NoDup_cons in Hnd as [Hni Hnd].
  rewrite timers_of_cons, delete_insert_id; [done|].
  apply eq_None_not_Some. intros [x [Hx Hid]%timers_of_lookup]; [|done].
  apply Hni. rewrite <- Hid. by apply list_elem_of_fmap_2.
Qed.

Lemma del_timer_spec id q :
  wf q → _count q ≤ TIMER_LIMIT →
  wp (del_timer id)
    (λ _ q', wf q' ∧ timers q' = delete id (timers q) ∧
      _next_timer_id q' = _next_timer_id q ∧
      (ordered q →
       (∀ n : nat, _position q !! id = Some (Z.of_nat n) → removable_in_order q n) →
       ordered q')) q.
Proof.
  intros [Hq Hd] Hlim. unfold del_timer. wp_steps.
  destruct (_position q !! id) as [pos|] eqn:Hpos.
  2:{ wp_steps. split; [by split|]. split; [|by split].
      symmetry. apply delete_id. by apply timers_position. }
  apply (core_pos q Hq) in Hpos as (n & te & -> & Hn & <-).
  destruct (_event_lst q) as [|last l0 _] eqn:Hl using rev_ind; [by rewrite lookup_nil in Hn|].
  pose proof (heap_del_spec n l0 last te (_position q) q Hn) as Hdel.
  rewrite <- Hl, reshape_id in Hdel.
  wp_step. eapply wp_mono; [apply Hdel; [by apply core_pos|by apply core_count|done]|].
  rewrite Hl. clear Hdel.
  intros _ q' (l' & m' & -> & Hm' & Hp & Ho).
  set (q1 := reshape (set_count (_count q - 1) q) l' m').
  assert (Hlen : length (l0 ++ [last]) = S (length l')) by (by rewrite <- Hp).
  assert (core q1) as Hq1.
  { apply core_after; [done| |done|].
    - rewrite (core_count q Hq), Hl. lia.
    - intros x Hx. rewrite Hl, <- Hp. by right. }
  assert (Hfin : ∀ q2, wf q2 ∧ _event_lst q2 = _event_lst q1 ∧
      _position q2 = _position q1 ∧ _next_timer_id q2 = _next_timer_id q1 →
    wf q2 ∧ timers q2 = delete (timer_id te) (timers q) ∧
      _next_timer_id q2 = _next_timer_id q ∧
      (ordered q →
       (∀ n' : nat, Some (Z.of_nat n) = Some (Z.of_nat n') → removable_in_order q n') →
       ordered q2)).
  { intros q2 (Hw & He & _ & Hnx). split; [done|]. split_and!; [|done|].
    - unfold timers. rewrite He. apply timers_of_remove; [by apply core_NoDup|].
      by rewrite Hl.
    - intros Hoq Hr. unfold ordered in *. rewrite He. rewrite Hl in Hoq.
      apply Ho; [done|]. intros y Hlt Hy. apply (Hr n eq_refl last y).
      + by rewrite Hl, last_snoc.
      + rewrite Hl, length_app. simpl. lia.
      + rewrite Hl. by apply lookup_app_l_Some. }
  wp_steps. case_bool_decide as Hc.
  - eapply wp_mono; [apply no_timers_step; [done|by apply count_zero]|]. eauto.
  - eapply wp_mono; [apply deadline_step; [done|by rewrite <- count_zero]|]. eauto.
Qed.

(** ** [get_timo] *)

(** A periodic timer that fired, with its next expiry. *)
Definition next_shot (te : timer_event) : timer_event :=
  with_ts (u64 (ts te + interval te)) te.
Definition rearmed (due : list timer_event) : list timer_event :=
  next_shot <$> filter (λ te, interval te ≠ 0) due.
(** The timers of [l] under the ids [n], [n + 1], ... *)
Definition renumber (n : Z) (l : list timer_event) : list timer_event :=
  imap (λ i te, with_timer_id (n + Z.of_nat i) te) l.

Lemma rearmed_app l1 l2 : rearmed (l1 ++ l2) = rearmed l1 ++ rearmed l2.
Proof. unfold rearmed. by rewrite filter_app, fmap_app. Qed.
Lemma rearmed_length l : (length (rearmed l) ≤ length l)%nat.
Proof. unfold rearmed. rewrite length_fmap. apply length_filter. Qed.
Lemma renumber_snoc n l te :
  renumber n (l ++ [te]) = renumber n l ++ [with_timer_id (n + Z.of_nat (length l)) te].
Proof. unfold renumber. rewrite imap_app. simpl. by rewrite Nat.add_0_r. Qed.
Lemma length_renumber n l : length (renumber n l) = length l.
Proof. apply length_imap. Qed.

Lemma get_timo_loop_spec fuel l m q fired reuse :
  (length l < fuel)%nat → positions_ok l m →
  _count q = Z.of_nat (length l) → _count q ≤ TIMER_LIMIT →
  wp (get_timo_loop fuel fired reuse)
    (λ r q', ∃ due l' m', r = (fired ++ due, reuse ++ rearmed due) ∧
      q' = reshape (set_count (Z.of_nat (length l')) q) l' m' ∧ positions_ok l' m' ∧
      l ≡ₚ due ++ l' ∧ Forall (λ te, ts te = _pioneer q) due ∧
      (∀ top, l' !! 0%nat = Some top → ts top ≠ _pioneer q) ∧
      (heap_ordered l → heap_ordered l'))
    (reshape q l m).
Proof.
  revert l m q fired reuse. induction fuel as [|fuel IH];
    intros l m q fired reuse Hf Hm Hc Hlim; [lia|].
  assert (Hstop : (∀ top, l !! 0%nat = Some top → ts top ≠ _pioneer q) →
    ∃ due l' m', (fired, reuse) = (fired ++ due, reuse ++ rearmed due) ∧
      reshape q l m = reshape (set_count (Z.of_nat (length l')) q) l' m' ∧ positions_ok l' m' ∧
      l ≡ₚ due ++ l' ∧ Forall (λ te, ts te = _pioneer q) due ∧
      (∀ top, l' !! 0%nat = Some top → ts top ≠ _pioneer q) ∧
      (heap_ordered l → heap_ordered l')).
  { intros Htop. exists [], l, m. rewrite !app_nil_r. split_and!; try done.
    rewrite <- Hc. by destruct q. }
  cbn [get_timo_loop]. wp_steps. change (_count (reshape q l m)) with (_count q).
  case_bool_decide as Hne.
  2:{ wp_steps. apply Hstop. destruct l; [done|]. simpl in Hc. lia. }
  destruct l as [|top l]; [simpl in Hc; lia|].
  wp_step. apply (wp_ev_at 0 top); [done|].
  change (_pioneer (reshape q (top :: l) m)) with (_pioneer q).
  destruct (Z.eqb_spec (_pioneer q) (ts top)) as [Heq|Hneq].
  2:{ wp_steps. apply Hstop. intros t [= <-]. congruence. }
  wp_step. eapply wp_mono; [by apply heap_pop_spec|].
  intros _ q' (l' & m' & -> & Hm' & Hp & Ho).
  assert (Hlen : length l' = length l) by (by rewrite Hp). simpl in Hc, Hf.
  eapply wp_mono; [apply IH; [lia|done|simpl; lia|simpl; lia]|].
  intros r q' (due & l'' & m'' & -> & -> & Hm'' & Hp' & Hdue & Htop & Ho').
  exists (top :: due), l'', m''. split_and!; try done; auto.
  - rewrite <- app_assoc. f_equal. change (top :: due) with ([top] ++ due).
    rewrite rearmed_app. unfold rearmed at 2. rewrite filter_cons.
    destruct (Z.eqb_spec (interval top) 0); case_decide; try done.
    by rewrite <- app_assoc.
  - by rewrite <- Hp, Hp'.
Qed.

(** Putting the periodic timers back. *)
Lemma re_add_spec reuse q :
  core q → Forall timer_typed reuse →
  _count q + Z.of_nat (length reuse) ≤ TIMER_LIMIT →
  _next_timer_id q + Z.of_nat (length reuse) ≤ INT_MAX →
  wp (for_each reuse (λ te, add_timer te ;; mret tt))
    (λ _ q', core q' ∧ _next_timer_id q' = _next_timer_id q + Z.of_nat (length reuse) ∧
      _event_lst q' ≡ₚ renumber (_next_timer_id q) reuse ++ _event_lst q ∧
      (ordered q → ordered q')) q.
Proof.
  intros Hq Htyped Hlim Hnext. eapply wp_mono.
  { apply (wp_for_each (λ i q', core q' ∧
      _next_timer_id q' = _next_timer_id q + Z.of_nat i ∧ _count q' = _count q + Z.of_nat i ∧
      _event_lst q' ≡ₚ renumber (_next_timer_id q) (take i reuse) ++ _event_lst q ∧
      (ordered q → ordered q'))).
    - split_and!; try done; simpl; lia.
    - intros i te q1 Hi (Hq1 & Hn1 & Hc1 & Hp1 & Ho1).
      pose proof (lookup_lt_Some _ _ _ Hi).
      wp_step. eapply wp_mono.
      + apply (add_timer_core te q1 Hq1); [by eapply Forall_lookup_1|lia|lia].
      + intros id q2 (-> & [Hq2 _] & Hp2 & Hn2 & Hc2 & Ho2 & _). wp_steps.
        split_and!; [done|lia|lia| |by auto].
        rewrite Hp2, Hp1, Nat.add_1_r, (take_S_r _ _ te) by done. rewrite renumber_snoc.
        rewrite length_take_le by lia. rewrite Hn1, <- app_assoc. apply Permutation_middle. }
  intros _ q' (? & ? & _ & Hp & ?). rewrite take_ge in Hp by lia. done.
Qed.

(** The deadline is the expiry of the top of the heap. *)
Definition deadline_exact (q : timer_queue) : Prop :=
  match _event_lst q with
  | [] => _pioneer q = UINT64_MAX
  | top :: _ => _pioneer q = ts top
  end.

(** The last step of [get_timo]. *)
Lemma set_deadline_step q :
  core q →
  wp (if bool_decide (_count q = 0) then modify (set_pioneer (u64 (-1))) ;; reset_timo
      else top ← ev_at 0; modify (set_pioneer (ts top)) ;; reset_timo)
    (λ _ q', wf q' ∧ deadline_exact q' ∧ _event_lst q' = _event_lst q ∧
      _next_timer_id q' = _next_timer_id q) q.
Proof.
  intros Hq. case_bool_decide as Hc.
  - apply (count_zero q Hq) in Hc. eapply wp_mono; [by apply no_timers_step|].
    intros _ q' (Hw & He & _ & Hn). split_and!; try done.
    destruct Hw as [_ Hw]. unfold deadline_ok, deadline_exact in *. by rewrite He, Hc in *.
  - rewrite (count_zero q Hq) in Hc. destruct (_event_lst q) as [|top l] eqn:Hl; [done|].
    wp_step. apply (wp_ev_at 0 top); [by rewrite Hl|]. unfold reset_timo. wp_steps.
    destruct (core_elem q top Hq) as [_ [Ht _]]; [rewrite Hl; by left|].
    split_and!; [|unfold deadline_exact; simpl; by rewrite Hl|simpl; by rewrite Hl|done].
    split; [by apply core_with_deadline|]. unfold deadline_ok. simpl. by rewrite Hl.
Qed.

Lemma rearmed_typed due : Forall timer_typed due → Forall timer_typed (rearmed due).
Proof.
  intros Hd. apply Forall_forall. unfold rearmed.
  intros te [te0 [-> [_ Hin]%list_elem_of_filter]]%list_elem_of_fmap.
  eapply Forall_forall in Hd as [_ ?]; [|done]. split; [apply u64_range|done].
Qed.

Lemma deadline_le q te :
  deadline_ok q → ordered q → te ∈ _event_lst q → _pioneer q ≤ ts te.
Proof.
  unfold deadline_ok, ordered. destruct (_event_lst q) as [|top l] eqn:Hl.
  - intros _ _ []%not_elem_of_nil.
  - intros Hd Ho Hte. transitivity (ts top); [done|].
    by apply (heap_root_min (top :: l) top te Ho).
Qed.

Lemma get_timo_spec fired q :
  wf q → _count q ≤ TIMER_LIMIT → _next_timer_id q + _count q ≤ INT_MAX →
  wp (get_timo fired)
    (λ r q', ∃ due rest, r = fired ++ due ∧ _event_lst q ≡ₚ due ++ rest ∧
      Forall (λ te, ts te = _pioneer q) due ∧
      _event_lst q' ≡ₚ renumber (_next_timer_id q) (rearmed due) ++ rest ∧
      _next_timer_id q' = _next_timer_id q + Z.of_nat (length (rearmed due)) ∧
      wf q' ∧ deadline_exact q' ∧
      (ordered q → ordered q' ∧ Forall (λ te, _pioneer q < ts te) rest)) q.
Proof.
  intros [Hq Hd] Hlim Hnext. unfold get_timo. wp_steps.
  pose proof (get_timo_loop_spec (S (length (_event_lst q))) (_event_lst q) (_position q) q
    fired []) as Hloop. rewrite reshape_id in Hloop.
  eapply wp_mono; [apply Hloop; [lia|by apply core_pos|by apply core_count|done]|].
  intros r q1 (due & rest & m' & -> & -> & Hm' & Hp & Hdue & Htop & Ho). simpl.
  pose proof (core_count q Hq) as Hc. rewrite Hp, length_app in Hc.
  pose proof (rearmed_length due).
  assert (Hin : ∀ te, te ∈ due ++ rest → te ∈ _event_lst q) by (intros te; by rewrite Hp).
  wp_step. eapply wp_mono.
  { apply re_add_spec; [|apply rearmed_typed|simpl; lia|simpl; lia].
    - apply core_after; [done..|]. intros te ?. apply Hin, elem_of_app. by right.
    - apply Forall_forall. intros te ?. apply (core_elem q); [done|].
      apply Hin, elem_of_app. by left. }
  intros _ q2 (Hq2 & Hn2 & Hp2 & Ho2). wp_step. wp_step. wp_step.
  eapply wp_mono; [by apply set_deadline_step|].
  intros _ q3 (Hw3 & Hx3 & He3 & Hn3). wp_steps.
  exists due, rest. split_and!; try done.
  - by rewrite He3.
  - by rewrite Hn3.
  - intros Hoq. split; [unfold ordered; rewrite He3; by apply Ho2, Ho|].
    apply Forall_forall. intros te Hte. specialize (Ho Hoq).
    destruct rest as [|top rest]; [by apply not_elem_of_nil in Hte|].
    pose proof (heap_root_min _ top te Ho eq_refl Hte) as Hmin.
    assert (_pioneer q ≤ ts top).
    { apply (deadline_le q); [done..|]. apply Hin, elem_of_app. right. by left. }
    specialize (Htop top eq_refl). lia.
Qed.

(** ** The new queue *)

Lemma wf_new : wf timer_queue_new.
Proof.
  split; [split; simpl; try done|done]. apply positions_ok_nil.
Qed.

(** A queue with no timer. *)
Definition no_timers (q : timer_queue) : Prop := wf q ∧ _event_lst q = [].

Lemma no_timers_new : no_timers timer_queue_new.
Proof. split; [apply wf_new|done]. Qed.
