(* ===== verification/TimerQueueProps.v ===== *)
(** * Properties of the timer queue

    The theorems about src/timer_queue.cc, each for the whole function, faults
    excluded: refinement of the abstract map of timers, conservation, the
    invariant of every reachable queue, the order in which timers fire, and the
    behaviours the code gets wrong (lost heap order after [del_timer], ids of
    periodic timers, deadline 0). *)
From stdpp Require Import sorting.
From S2P Require Import Prelude EventBase TimerQueue HeapFacts TimerHeap TimerQueueSpec.

(** ** Reachable queues *)

(** A queue built by the constructor and the public operations, within the
    size and id limits; [d] tells whether [del_timer] was used. *)
Inductive reachable : bool → timer_queue → Prop :=
  | reach_new : reachable false timer_queue_new
  | reach_add d q te id q' :
      reachable d q → timer_typed te → _count q < TIMER_LIMIT → _next_timer_id q < INT_MAX →
      add_timer te q = Ok (id, q') → reachable d q'
  | reach_del d q id q' :
      reachable d q → _count q ≤ TIMER_LIMIT → del_timer id q = Ok (tt, q') → reachable true q'
  | reach_fire d q fired r q' :
      reachable d q → _count q ≤ TIMER_LIMIT → _next_timer_id q + _count q ≤ INT_MAX →
      get_timo fired q = Ok (r, q') → reachable d q'.


Lemma wp_ok {S A} (m : M S A) (Q : A → S → Prop) s a s' :
  wp m Q s → m s = Ok (a, s') → Q a s'.
Proof. unfold wp. intros H Hm. by rewrite Hm in H. Qed.

Lemma reachable_inv d q : reachable d q → wf q ∧ (d = false → ordered q).
Proof.
  induction 1 as [|d q te id q' _ [[Hq _] Ho] Hte Hlim Hnext Hrun
                 |d q id q' _ [Hq Ho] Hlim Hrun|d q fired r q' _ [Hq Ho] Hlim Hnext Hrun].
  - split; [apply wf_new|intros _; apply heap_ordered_nil].
  - pose proof (wp_ok _ _ _ _ _ (add_timer_core te q Hq Hte Hlim Hnext) Hrun) as H.
    naive_solver.
  - pose proof (wp_ok _ _ _ _ _ (del_timer_spec id q Hq Hlim) Hrun) as H. naive_solver.
  - pose proof (wp_ok _ _ _ _ _ (get_timo_spec fired q Hq Hlim Hnext) Hrun) as H.
    naive_solver.
Qed.

(** ** Concrete queues for the witnesses *)

Definition shot (t : Z) : timer_event := timer_event_new (user_timer_cb 0) vnull t 0 0.
Definition every (t n : Z) : timer_event := timer_event_new (user_timer_cb 1) vnull t n 0.

Definition add_all (l : list timer_event) : M timer_queue unit :=
  for_each l (λ te, add_timer te ;; mret tt).
Definition queue_of (l : list timer_event) : timer_queue := run_state (add_all l) timer_queue_new.

Lemma queue_of_core l :
  Forall timer_typed l → Z.of_nat (length l) ≤ TIMER_LIMIT →
  core (queue_of l) ∧ ordered (queue_of l).
Proof.
  intros Hl Hlen. destruct wf_new as [Hnew _].
  destruct (wp_run_state _ _ _ (re_add_spec l timer_queue_new Hnew Hl Hlen
    ltac:(unfold TIMER_LIMIT, INT_MAX in *; simpl; lia))) as (_ & Hc & _ & _ & Ho).
  split; [done|]. apply Ho, heap_ordered_nil.
Qed.

Ltac typed_shots := repeat constructor; vm_compute; discriminate.

(** Three one-shot timers and a periodic one. *)
Definition sample : timer_queue := queue_of [shot 50; every 20 30; shot 40; shot 20].

Lemma sample_wf : wf sample ∧ ordered sample.
Proof.
  destruct (queue_of_core [shot 50; every 20 30; shot 40; shot 20]) as [Hc Ho];
    [typed_shots|vm_compute; discriminate|].
  split; [|done]. split; [done|]. vm_compute. discriminate.
Qed.

(** ** Refinement of the map of timers *)

(** C18 [add_timer] on any well-formed queue below the limits returns the next
    id, inserts the timer under that id in the abstract map and nothing else,
    keeps the representation invariant, and keeps the heap ordered. *)
Theorem add_timer_refines te q :
  wf q → timer_typed te → _count q < TIMER_LIMIT → _next_timer_id q < INT_MAX →
  ∃ q', add_timer te q = Ok (_next_timer_id q, q') ∧ wf q' ∧
    timers q' = <[_next_timer_id q := with_timer_id (_next_timer_id q) te]> (timers q) ∧
    _next_timer_id q' = _next_timer_id q + 1 ∧ (ordered q → ordered q').
Proof.
  intros [Hq _] Hte Hlim Hnext.
  pose proof (add_timer_core te q Hq Hte Hlim Hnext) as Hwp.
  apply wp_elim in Hwp as (id & q' & Hrun & -> & Hw & Hp & Hn & _ & Ho & _).
  exists q'. split_and!; try done. unfold timers.
  rewrite (timers_of_Permutation _ _ (core_NoDup q' (proj1 Hw)) Hp).
  apply timers_of_cons.
Qed.

Lemma add_timer_refines_witness :
  ∃ q', add_timer (shot 10) sample = Ok (4, q') ∧ wf q' ∧
    timers q' = <[4 := with_timer_id 4 (shot 10)]> (timers sample).
Proof.
  destruct (add_timer_refines (shot 10) sample) as (q' & H1 & H2 & H3 & _).
  - apply sample_wf.
  - split; vm_compute; split; by (discriminate || reflexivity).
  - reflexivity.
  - reflexivity.
  - exists q'. split_and!; [exact H1|exact H2|exact H3].
Defined.

(** C20 [del_timer] always returns; it deletes exactly the given id from the
    abstract map (nothing for an unknown id) and keeps the representation
    invariant.  It keeps the heap ordered when the last entry of the vector
    does not expire before the parent of the entry it replaces. *)
Theorem del_timer_refines id q :
  wf q → _count q ≤ TIMER_LIMIT →
  ∃ q', del_timer id q = Ok (tt, q') ∧ wf q' ∧ timers q' = delete id (timers q) ∧
    _next_timer_id q' = _next_timer_id q ∧
    (ordered q →
     (∀ n : nat, _position q !! id = Some (Z.of_nat n) → removable_in_order q n) →
     ordered q').
Proof.
  intros Hq Hlim.
  destruct (proj1 (wp_elim _ _ _) (del_timer_spec id q Hq Hlim)) as ([] & q' & Hrun & HQ).
  by exists q'.
Qed.

Lemma del_timer_refines_witness :
  ∃ q', del_timer 2 sample = Ok (tt, q') ∧ wf q' ∧ timers q' = delete 2 (timers sample).
Proof.
  destruct (del_timer_refines 2 sample) as (q' & H1 & H2 & H3 & _).
  - apply sample_wf.
  - vm_compute. discriminate.
  - exists q'. split_and!; [exact H1|exact H2|exact H3].
Defined.

(** C19 [get_timo] on a heap-ordered queue returns exactly the timers whose
    expiry is the recorded deadline, each once; every later timer stays; every
    periodic timer that fired is queued again [interval] later under a new id;
    and the deadline becomes the expiry of the new top. *)
Theorem get_timo_fires_due q :
  wf q → ordered q → _count q ≤ TIMER_LIMIT → _next_timer_id q + _count q ≤ INT_MAX →
  ∃ due q', get_timo [] q = Ok (due, q') ∧ wf q' ∧ ordered q' ∧ deadline_exact q' ∧
    due ≡ₚ filter (λ te, ts te = _pioneer q) (_event_lst q) ∧
    _event_lst q' ≡ₚ renumber (_next_timer_id q) (rearmed due) ++
      filter (λ te, ts te ≠ _pioneer q) (_event_lst q).
Proof.
  intros Hq Hoq Hlim Hnext.
  destruct (proj1 (wp_elim _ _ _) (get_timo_spec [] q Hq Hlim Hnext))
    as (r & q' & Hrun & due & rest & -> & Hp & Hdue & Hp' & _ & Hw & Hx & Ho).
  destruct (Ho Hoq) as [Hoq' Hrest]. exists due, q'.
  assert (filter (λ te, ts te = _pioneer q) (_event_lst q) ≡ₚ due ∧
               filter (λ te, ts te ≠ _pioneer q) (_event_lst q) ≡ₚ rest) as [Hl1 Hl2].
  { split; rewrite Hp, filter_app.
    - rewrite (filter_keep _ due), (filter_drop _ rest), app_nil_r; [done| |done].
      eapply Forall_impl; [done|]. simpl. lia.
    - rewrite (filter_drop _ due), (filter_keep _ rest); [done|..].
      + eapply Forall_impl; [done|]. simpl. lia.
      + eapply Forall_impl; [done|]. simpl. tauto. }
  split_and!; try done. by rewrite Hp', Hl2.
Qed.

Lemma get_timo_fires_due_witness :
  ∃ due q', get_timo [] sample = Ok (due, q') ∧
    due ≡ₚ filter (λ te, ts te = 20) (_event_lst sample) ∧
    _event_lst q' ≡ₚ renumber 4 (rearmed due) ++ filter (λ te, ts te ≠ 20) (_event_lst sample).
Proof.
  destruct (get_timo_fires_due sample) as (due & q' & H1 & _ & _ & _ & H2 & H3).
  - apply sample_wf.
  - apply sample_wf.
  - vm_compute. discriminate.
  - vm_compute. discriminate.
  - exists due, q'. split_and!; [exact H1|exact H2|exact H3].
Defined.

(** No timer is lost or duplicated by [get_timo], whatever order the heap is
    in: the queued timers are those returned plus those kept, the returned ones
    expire exactly at the recorded deadline, and the periodic ones among them
    are queued again.  The loop always terminates. *)
Theorem get_timo_conserves fired q :
  wf q → _count q ≤ TIMER_LIMIT → _next_timer_id q + _count q ≤ INT_MAX →
  ∃ due rest q', get_timo fired q = Ok (fired ++ due, q') ∧ wf q' ∧
    _event_lst q ≡ₚ due ++ rest ∧ Forall (λ te, ts te = _pioneer q) due ∧
    _event_lst q' ≡ₚ renumber (_next_timer_id q) (rearmed due) ++ rest.
Proof.
  intros Hq Hlim Hnext.
  destruct (proj1 (wp_elim _ _ _) (get_timo_spec fired q Hq Hlim Hnext))
    as (r & q' & Hrun & due & rest & -> & Hp & Hdue & Hp' & _ & Hw & _).
  exists due, rest, q'. by split_and!.
Qed.

Lemma get_timo_conserves_witness :
  ∃ due rest q', get_timo [] sample = Ok (due, q') ∧ _event_lst sample ≡ₚ due ++ rest.
Proof.
  destruct (get_timo_conserves [] sample) as (due & rest & q' & H1 & _ & H2 & _).
  - apply sample_wf.
  - vm_compute. discriminate.
  - vm_compute. discriminate.
  - exists due, rest, q'. split; [exact H1|exact H2].
Defined.

(** C34 Every queue reached by the constructor, [add_timer], [del_timer] and
    [get_timo] satisfies the representation invariant: [_count] is the length
    of the vector, [_position] maps exactly the queued ids to their indices,
    ids are unique and below [_next_timer_id], the timerfd is programmed with
    the recorded deadline and that deadline is not after the top.  As long as
    no timer was deleted, the heap is ordered as well. *)
Theorem reachable_wf d q :
  reachable d q →
  _count q = Z.of_nat (length (_event_lst q)) ∧
  positions_ok (_event_lst q) (_position q) ∧
  NoDup (timer_id <$> _event_lst q) ∧
  Forall (λ te, 0 ≤ timer_id te < _next_timer_id q) (_event_lst q) ∧
  _timerfd q = timespec_of (_pioneer q) ∧ deadline_ok q ∧ (d = false → ordered q).
Proof.
  intros [[Hq Hd] Ho]%reachable_inv.
  split_and!; try done; [by apply core_count|by apply core_pos|by apply core_NoDup|by apply core_ids|
    by apply core_timerfd].
Qed.

Lemma add_all_reachable d l q :
  reachable d q → Forall timer_typed l →
  _count q + Z.of_nat (length l) ≤ TIMER_LIMIT →
  _next_timer_id q + Z.of_nat (length l) ≤ INT_MAX →
  wp (add_all l) (λ _ q', reachable d q') q.
Proof.
  intros Hr Hl. revert q Hr. unfold add_all.
  induction Hl as [|te l Hte _ IH]; intros q Hr Hc Hn; [done|].
  cbn [for_each]. cbn [length] in Hc, Hn. destruct (reachable_inv d q Hr) as [[Hq _] _].
  assert (Hadd : wp (add_timer te) (λ _ q', reachable d q' ∧ _count q' = _count q + 1 ∧
    _next_timer_id q' = _next_timer_id q + 1) q).
  { pose proof (add_timer_core te q Hq Hte ltac:(lia) ltac:(lia)) as Hwp.
    apply wp_elim in Hwp as (id & q' & Hrun & -> & _ & _ & ? & ? & _).
    apply wp_elim. eexists _, q'. split; [done|]. split; [|done].
    eapply reach_add; [done..|lia|lia|done]. }
  wp_step. wp_step. eapply wp_mono; [done|]. intros id q' (? & ? & ?). wp_steps. apply IH; [done|lia|lia].
Qed.

Lemma queue_of_reachable l :
  Forall timer_typed l → Z.of_nat (length l) ≤ TIMER_LIMIT → reachable false (queue_of l).
Proof.
  intros Hl Hlen.
  by destruct (wp_run_state _ _ _ (add_all_reachable false l timer_queue_new reach_new Hl Hlen
    ltac:(unfold TIMER_LIMIT, INT_MAX in *; simpl; lia))).
Qed.

(** After a deletion. *)
Lemma queue_del_reachable l id :
  Forall timer_typed l → Z.of_nat (length l) ≤ TIMER_LIMIT →
  _count (queue_of l) ≤ TIMER_LIMIT →
  reachable true (run_state (del_timer id) (queue_of l)).
Proof.
  intros Hl Hlen Hc. pose proof (queue_of_reachable l Hl Hlen) as Hr.
  destruct (reachable_inv _ _ Hr) as [Hq _].
  destruct (proj1 (wp_elim _ _ _) (del_timer_spec id _ Hq Hc)) as ([] & q' & Hrun & _).
  unfold run_state. rewrite Hrun. by eapply reach_del.
Qed.

Lemma reachable_wf_witness :
  let q := run_state (del_timer 0) (queue_of [shot 5; shot 7]) in
  _count q = 1 ∧ _timerfd q = timespec_of (_pioneer q) ∧ deadline_ok q.
Proof.
  intros q. destruct (reachable_wf true q) as (_ & _ & _ & _ & H1 & H2 & _).
  - apply queue_del_reachable; [typed_shots|vm_compute; discriminate|vm_compute; discriminate].
  - split; [reflexivity|]. split; [exact H1|exact H2].
Defined.

(** ** Firing order *)

(** [k] calls of [get_timo], and the timers they return, in order. *)
Fixpoint fire (k : nat) : M timer_queue (list timer_event) :=
  match k with
  | O => mret []
  | S k => due ← get_timo []; later ← fire k; mret (due ++ later)
  end.

Lemma rearmed_one_shot due : Forall (λ te, interval te = 0) due → rearmed due = [].
Proof.
  intros H. unfold rearmed. rewrite (filter_drop _ due); [done|].
  eapply Forall_impl; [done|]. simpl. lia.
Qed.

(** One call on a queue of one-shot timers with an exact deadline: the timers
    it returns come before all the others, and there is one if there is any. *)
Lemma fire_step q :
  wf q → deadline_exact q → ordered q → Forall (λ te, interval te = 0) (_event_lst q) →
  _count q ≤ TIMER_LIMIT → _next_timer_id q + _count q ≤ INT_MAX →
  wp (get_timo []) (λ due q', wf q' ∧ deadline_exact q' ∧ ordered q' ∧
    _event_lst q ≡ₚ due ++ _event_lst q' ∧ Forall (λ te, ts te = _pioneer q) due ∧
    Forall (λ te, _pioneer q < ts te) (_event_lst q') ∧
    (_event_lst q ≠ [] → due ≠ []) ∧ _next_timer_id q' = _next_timer_id q) q.
Proof.
  intros Hq Hx Hoq H1 Hlim Hnext. eapply wp_mono; [by apply get_timo_spec|].
  intros r q' (due & rest & -> & Hp & Hdue & Hp' & Hn & Hw & Hx' & Ho).
  destruct (Ho Hoq) as [Hoq' Hrest]. rewrite Hp in H1. apply Forall_app in H1 as [H1 _].
  rewrite rearmed_one_shot in Hp', Hn by done. simpl in *. rewrite Hp'.
  split_and!; try done; [|lia].
  intros Hne ->. unfold deadline_exact in Hx. destruct (_event_lst q) as [|top l]; [done|].
  simpl in Hp. assert (top ∈ rest) as Hin by (rewrite <- Hp; by left).
  eapply Forall_forall in Hrest; [|done]. simpl in *. lia.
Qed.

Lemma fire_spec k q :
  wf q → deadline_exact q → ordered q → Forall (λ te, interval te = 0) (_event_lst q) →
  _count q ≤ TIMER_LIMIT → _next_timer_id q + _count q ≤ INT_MAX →
  (length (_event_lst q) ≤ k)%nat →
  wp (fire k) (λ l q', StronglySorted Z.le (ts <$> l) ∧ l ≡ₚ _event_lst q ∧ _event_lst q' = []) q.
Proof.
  revert q. induction k as [|k IH]; intros q Hq Hx Hoq H1 Hlim Hnext Hk; simpl.
  { destruct (_event_lst q) as [|top l] eqn:Hl; [|simpl in Hk; lia].
    wp_steps. split_and!; [constructor|done|done]. }
  wp_step. eapply wp_mono; [by apply fire_step|].
  intros due q' (Hq' & Hx' & Hoq' & Hp & Hdue & Hrest & Hne & Hn).
  assert (Hlen : length (_event_lst q) = (length due + length (_event_lst q'))%nat)
    by (by rewrite Hp, length_app).
  pose proof (core_count _ (proj1 Hq)). pose proof (core_count _ (proj1 Hq')).
  rewrite Hp in H1. apply Forall_app in H1 as [_ H1].
  wp_step. eapply wp_mono; [apply IH; [done..|lia|lia|]|].
  { destruct due; simpl in Hlen; [|lia].
    destruct (_event_lst q); simpl in *; [lia|]. by destruct Hne. }
  intros l q2 (Hs & Hl & He). wp_steps. split_and!; [|by rewrite Hl|done].
  assert (Hlt : Forall (λ te, _pioneer q < ts te) l) by (by rewrite Hl).
  rewrite fmap_app. apply StronglySorted_app. split_and!; [|clear -Hdue|done].
  - intros x y Hin1 Hin2. apply list_elem_of_fmap in Hin1 as (a & -> & Ha).
    apply list_elem_of_fmap in Hin2 as (b & -> & Hb).
    rewrite Forall_forall in Hdue, Hlt. specialize (Hdue a Ha). specialize (Hlt b Hb).
    simpl in *. lia.
  - induction Hdue as [|te due Hte Hdue IH]; simpl; [constructor|].
    constructor; [done|]. apply Forall_fmap. eapply Forall_impl; [done|]. simpl. lia.
Qed.

(** Firing a heap-ordered queue of one-shot timers to exhaustion returns
    every timer exactly once, in the order of their expiry: the queue sorts. *)
Theorem fire_all_sorts q :
  wf q → deadline_exact q → ordered q → Forall (λ te, interval te = 0) (_event_lst q) →
  _count q ≤ TIMER_LIMIT → _next_timer_id q + _count q ≤ INT_MAX →
  ∃ l q', fire (length (_event_lst q)) q = Ok (l, q') ∧
    StronglySorted Z.le (ts <$> l) ∧ l ≡ₚ _event_lst q ∧ _event_lst q' = [].
Proof.
  intros Hq Hx Hoq H1 Hlim Hnext.
  by apply wp_elim, fire_spec.
Qed.

Definition shots : timer_queue := queue_of [shot 50; shot 20; shot 40; shot 20].

Lemma fire_all_sorts_witness :
  ∃ l q', fire 4 shots = Ok (l, q') ∧ StronglySorted Z.le (ts <$> l) ∧ l ≡ₚ _event_lst shots.
Proof.
  destruct (queue_of_core [shot 50; shot 20; shot 40; shot 20]) as [Hc Ho];
    [typed_shots|vm_compute; discriminate|].
  destruct (fire_all_sorts shots) as (l & q' & H1 & H2 & H3 & _).
  - split; [exact Hc|]. vm_compute. discriminate.
  - vm_compute. reflexivity.
  - exact Ho.
  - vm_compute. repeat constructor.
  - vm_compute. discriminate.
  - vm_compute. discriminate.
  - exists l, q'. split_and!; [exact H1|exact H2|exact H3].
Defined.

(** The defect of [heap_del]: the entry moved into the gap is only moved
    down.  A queue built by seven [add_timer] and one [del_timer] calls, with
    no other operation, is not heap-ordered, and its timers fire out of order:
    the third call of [get_timo] returns the timer that expires at 4 while the
    one that expires at 3 is still queued. *)
Theorem del_timer_breaks_order :
  ∃ q due q', reachable true q ∧ ¬ ordered q ∧ _count q = 6 ∧
    (get_timo [] ;; get_timo [] ;; get_timo []) q = Ok (due, q') ∧
    ts <$> due = [4] ∧ 3 ∈ ts <$> _event_lst q'.
Proof.
  set (l := [shot 2; shot 5; shot 7; shot 4; shot 6; shot 3; shot 1]).
  eexists (run_state (del_timer 1) (queue_of l)), _, _. split_and!.
  - apply queue_del_reachable; [typed_shots|vm_compute; discriminate|vm_compute; discriminate].
  - unfold ordered. eapply bool_decide_eq_false_1. vm_compute. reflexivity.
  - reflexivity.
  - vm_compute. reflexivity.
  - reflexivity.
  - vm_compute. set_solver.
Qed.

(** The id [run_every] returned for a periodic timer is no longer valid once
    the timer has fired: the timer is queued again under a new id, and
    [del_timer] with the old id changes nothing. *)
Theorem periodic_timer_id_stale q :
  wf q → _count q ≤ TIMER_LIMIT → _next_timer_id q + _count q ≤ INT_MAX →
  ∃ due q', get_timo [] q = Ok (due, q') ∧
    ∀ te, te ∈ due → interval te ≠ 0 →
      del_timer (timer_id te) q' = Ok (tt, q') ∧
      ∃ te', te' ∈ _event_lst q' ∧ cb te' = cb te ∧ cb_data te' = cb_data te ∧
        interval te' = interval te ∧ timer_id te' ≠ timer_id te.
Proof.
  intros Hq Hlim Hnext.
  destruct (proj1 (wp_elim _ _ _) (get_timo_spec [] q Hq Hlim Hnext))
    as (r & q' & Hrun & due & rest & -> & Hp & _ & Hp' & _ & Hw & _).
  exists due, q'. split; [done|]. intros te Hte Hint.
  destruct Hq as [Hq _]. destruct Hw as [Hw _].
  assert (Hnd : NoDup (timer_id <$> due ++ rest)) by (rewrite <- Hp; by apply core_NoDup).
  assert (Hid : timer_id te < _next_timer_id q).
  { apply (core_elem q); [done|]. rewrite Hp. apply elem_of_app. by left. }
  assert (Hnew : ∀ te', te' ∈ renumber (_next_timer_id q) (rearmed due) →
    timer_id te < timer_id te').
  { intros te' (i & x & -> & _)%elem_of_lookup_imap. simpl. lia. }
  split.
  - unfold del_timer. rewrite (bind_ok _ _ _ _ _ (eq_refl : get q' = Ok (q', q'))).
    destruct (_position q' !! timer_id te) as [p|] eqn:Hpos; [|done]. exfalso.
    apply (core_pos q' Hw) in Hpos as (n & te' & _ & Hn & Heq).
    apply list_elem_of_lookup_2 in Hn. rewrite Hp' in Hn.
    apply elem_of_app in Hn as [Hn%Hnew|Hn]; [lia|].
    rewrite fmap_app in Hnd. apply NoDup_app in Hnd as (_ & Hdis & _).
    apply (Hdis (timer_id te)); [by apply list_elem_of_fmap_2|].
    rewrite <- Heq. by apply list_elem_of_fmap_2.
  - assert (Hre : next_shot te ∈ rearmed due).
    { unfold rearmed. by apply list_elem_of_fmap_2, list_elem_of_filter. }
    apply list_elem_of_lookup in Hre as [i Hi].
    exists (with_timer_id (_next_timer_id q + Z.of_nat i) (next_shot te)).
    split_and!; try done; [|simpl; lia]. rewrite Hp'. apply elem_of_app. left.
    apply elem_of_lookup_imap. eauto.
Qed.

Lemma periodic_timer_id_stale_witness :
  ∃ due q', get_timo [] sample = Ok (due, q') ∧
    (∀ te, te ∈ due → interval te ≠ 0 → del_timer (timer_id te) q' = Ok (tt, q')).
Proof.
  destruct (periodic_timer_id_stale sample) as (due & q' & H1 & H2).
  - apply sample_wf.
  - vm_compute. discriminate.
  - vm_compute. discriminate.
  - exists due, q'. split; [exact H1|]. intros te Hte Hi. exact (proj1 (H2 te Hte Hi)).
Defined.

(** ** The timerfd *)

(** The instant a setting of the timerfd stands for, in milliseconds. *)
Definition instant (t : timespec) : Z := tv_sec t * 1000 + tv_nsec t / 1000000.

Lemma instant_timespec_of p : 0 ≤ p < UINT64_MAX →
  instant (timespec_of p) = p ∧ 0 ≤ tv_nsec (timespec_of p) < 1000000000.
Proof.
  intros Hp. unfold instant, timespec_of. rewrite bool_decide_true by lia. simpl.
  rewrite Z.div_mul by lia. pose proof (Z.mod_pos_bound p 1000 eq_refl).
  pose proof (Z.div_mod p 1000 ltac:(lia)). lia.
Qed.

(** The timerfd of a heap-ordered queue is never late: with at least one
    timer queued and a deadline other than 0 and the reserved value, it is
    armed, its setting is a normalised [timespec], and the instant it is armed
    for is not after the expiry of any queued timer. *)
Theorem timerfd_never_late q :
  wf q → ordered q → 0 < _pioneer q < UINT64_MAX →
  _timerfd q ≠ Timespec 0 0 ∧ 0 ≤ tv_nsec (_timerfd q) < 1000000000 ∧
  ∀ te, te ∈ _event_lst q → instant (_timerfd q) ≤ ts te.
Proof.
  intros [Hq Hd] Ho Hp. destruct (instant_timespec_of (_pioneer q)) as [Hi Hn]; [lia|].
  rewrite (core_timerfd q Hq). split_and!; [|lia|lia|].
  - intros Heq. rewrite Heq in Hi. change (instant (Timespec 0 0)) with 0 in Hi. lia.
  - intros te Hte. rewrite Hi. by apply deadline_le.
Qed.

Lemma timerfd_never_late_witness :
  _timerfd sample ≠ Timespec 0 0 ∧
  ∀ te, te ∈ _event_lst sample → instant (_timerfd sample) ≤ ts te.
Proof.
  destruct (timerfd_never_late sample) as (H1 & _ & H2).
  - apply sample_wf.
  - apply sample_wf.
  - vm_compute. split; reflexivity.
  - split; [exact H1|exact H2].
Defined.

(** The deadline need not be the expiry of the top: deleting the earliest
    timer leaves the timerfd armed for the deleted timer. *)
Theorem del_timer_keeps_stale_deadline :
  ∃ q top, reachable true q ∧ ordered q ∧ _event_lst q !! 0%nat = Some top ∧
    ts top = 7 ∧ instant (_timerfd q) = 5.
Proof.
  eexists (run_state (del_timer 0) (queue_of [shot 5; shot 7])), _. split_and!.
  - apply queue_del_reachable; [typed_shots|vm_compute; discriminate|vm_compute; discriminate].
  - unfold ordered. eapply bool_decide_eq_true_1. vm_compute. reflexivity.
  - vm_compute. reflexivity.
  - reflexivity.
  - vm_compute. reflexivity.
Qed.

(** A timer that expires at instant 0 disarms the timerfd for as long as it
    is queued, so that neither it nor any timer behind it can ever fire. *)
Theorem zero_deadline_disarms q te :
  wf q → ordered q → te ∈ _event_lst q → ts te = 0 → _timerfd q = Timespec 0 0.
Proof.
  intros [Hq Hd] Ho Hte H0. pose proof (deadline_le q te Hd Ho Hte).
  pose proof (core_pioneer q Hq). rewrite (core_timerfd q Hq).
  by replace (_pioneer q) with 0 by lia.
Qed.

Definition stalled : timer_queue := queue_of [shot 50; shot 0; shot 40].

Lemma zero_deadline_disarms_witness : _timerfd stalled = Timespec 0 0.
Proof.
  destruct (queue_of_core [shot 50; shot 0; shot 40]) as [Hc Ho];
    [typed_shots|vm_compute; discriminate|].
  apply (zero_deadline_disarms stalled (with_timer_id 1 (shot 0))).
  - split; [exact Hc|]. vm_compute. discriminate.
  - exact Ho.
  - vm_compute. left.
  - reflexivity.
Defined.
