(* ===== verification/Kernel.v ===== *)
(** * The system calls the framework uses

    The operating system is not part of the program: its state is a type [K]
    and each system call an operation of the interface [Kernel].  What the
    program relies on is stated, where a theorem needs it, as a law about
    these operations; [Script] is a concrete kernel that answers from a list,
    for evaluating the model. *)
From Stdlib Require Export Strings.Byte.
From S2P Require Import Prelude.

Abbreviation byte := Byte.byte.
#[global] Instance byte_eq_dec : EqDecision byte := Byte.byte_eq_dec.

Inductive errno := EINTR | EAGAIN | EMFILE | EINPROGRESS | EOTHER (code : Z).

#[global] Instance errno_eq_dec : EqDecision errno.
Proof. solve_decision. Defined.

(** The operations of [epoll_ctl]. *)
Inductive epoll_op := EPOLL_CTL_ADD | EPOLL_CTL_MOD | EPOLL_CTL_DEL.

#[global] Instance epoll_op_eq_dec : EqDecision epoll_op.
Proof. solve_decision. Defined.

(** Each call returns its result, or the [errno] it fails with, and the new
    state of the system. *)
Class Kernel (K : Type) := {
  sys_fionread (fd : Z) : K → (errno + Z) * K;
  sys_read (fd count : Z) : K → (errno + list byte) * K;
  sys_write (fd : Z) (data : list byte) : K → (errno + Z) * K;
  sys_close (fd : Z) : K → K;
  sys_socket : K → (errno + Z) * K;
  sys_connect (fd : Z) : K → option errno * K;
  sys_bind (fd : Z) : K → option errno * K;
  sys_listen (fd : Z) : K → option errno * K;
  sys_dup (fd : Z) : K → (errno + Z) * K;
  sys_getsockopt_error (fd : Z) : K → Z * K;
  sys_accept (fd : Z) : K → (errno + Z) * K;
  sys_open_reserve : K → (errno + Z) * K;
  sys_set_nonblock (fd : Z) : K → K;
  sys_setsockopt (fd : Z) : K → option errno * K;
  sys_recvfrom (fd count : Z) : K → (errno + (list byte * Z)) * K;
  sys_sendto (fd : Z) (data : list byte) (peer : option Z) : K → (errno + Z) * K;
  sys_epoll_create : K → (errno + Z) * K;
  sys_timerfd_create : K → (errno + Z) * K;
  sys_eventfd : K → (errno + Z) * K;
  sys_pthread_create : K → Z * K;
  sys_epoll_ctl (epfd : Z) (op : epoll_op) (fd events : Z) : K → option errno * K;
  sys_epoll_wait (epfd maxevents : Z) : K → (errno + list (Z * Z)) * K;
  sys_clock_realtime : K → (Z * Z) * K;
}.

(** A system call as a computation. *)
Definition syscall {K A} (f : K → A * K) : M K A := λ k, Ok (f k).

Lemma wp_syscall {K A} (f : K → A * K) (Q : A → K → Prop) k :
  (∀ a k', f k = (a, k') → Q a k') → wp (syscall f) Q k.
Proof. unfold wp, syscall. destruct (f k) as [a k'] eqn:Hf. auto. Qed.

(** [do { ret = call } while (ret == -1 && errno == EINTR)] *)
Fixpoint retry {K A} (fuel : nat) (call : K → (errno + A) * K) : M K (errno + A) :=
  match fuel with
  | O => fail NoFuel
  | S fuel =>
      r ← syscall call;
      match r with
      | inl EINTR => retry fuel call
      | _ => mret r
      end
  end.

Lemma retry_more {K A} (call : K → (errno + A) * K) n m k r k' :
  (n ≤ m)%nat → retry n call k = Ok (r, k') → retry m call k = Ok (r, k').
Proof.
  revert m k. induction n as [|n IH]; intros m k Hm; [done|]. destruct m as [|m]; [lia|].
  cbn [retry]. unfold mbind, M_bind, syscall. destruct (call k) as [[[]|] k1]; try done.
  apply IH. lia.
Qed.

(** ** What the program relies on of epoll

    [interest epfd k] is the interest list of the epoll instance [epfd]: the
    event mask of each descriptor registered there (epoll_ctl(2)). *)
Class EpollLaws (K : Type) `{Kernel K} := {
  interest : Z → K → gmap Z Z;
  epoll_add epfd fd ev k : interest epfd k !! fd = None →
    ∃ k', sys_epoll_ctl epfd EPOLL_CTL_ADD fd ev k = (None, k') ∧
      interest epfd k' = <[fd := ev]> (interest epfd k);
  epoll_mod epfd fd ev k : is_Some (interest epfd k !! fd) →
    ∃ k', sys_epoll_ctl epfd EPOLL_CTL_MOD fd ev k = (None, k') ∧
      interest epfd k' = <[fd := ev]> (interest epfd k);
  epoll_del epfd fd ev k : ∃ r k', sys_epoll_ctl epfd EPOLL_CTL_DEL fd ev k = (r, k') ∧
    interest epfd k' = delete fd (interest epfd k);
  interest_close epfd fd k : interest epfd k !! fd = None →
    interest epfd (sys_close fd k) = interest epfd k;
  interest_write epfd fd bs k : interest epfd (sys_write fd bs k).2 = interest epfd k;
  interest_nonblock epfd fd k : interest epfd (sys_set_nonblock fd k) = interest epfd k;
  interest_setsockopt epfd fd k : interest epfd (sys_setsockopt fd k).2 = interest epfd k;
  interest_accept epfd fd k : interest epfd (sys_accept fd k).2 = interest epfd k;
  interest_open epfd k : interest epfd (sys_open_reserve k).2 = interest epfd k;
  interest_socket epfd k : interest epfd (sys_socket k).2 = interest epfd k;
  interest_connect epfd fd k : interest epfd (sys_connect fd k).2 = interest epfd k;
  interest_getsockopt epfd fd k : interest epfd (sys_getsockopt_error fd k).2 = interest epfd k;
}.

(** ** What the program relies on of descriptors

    [is_open fd k]: the process has [fd] open.  No call closes a descriptor but
    [close], which closes its own; [epoll_ctl] changes no other interest list, and closing a
    descriptor concerns only that descriptor. *)
Class DescriptorLaws (K : Type) `{EpollLaws K} := {
  is_open : Z → K → Prop;
  epoll_other e e' op fd ev k : e' ≠ e → interest e' (sys_epoll_ctl e op fd ev k).2 = interest e' k;
  close_others e f fd k : f ≠ fd → interest e (sys_close fd k) !! f = interest e k !! f;
  open_epoll f e op fd ev k : is_open f k → is_open f (sys_epoll_ctl e op fd ev k).2;
  open_close f fd k : f ≠ fd → is_open f k → is_open f (sys_close fd k);
  open_fionread f fd k : is_open f k → is_open f (sys_fionread fd k).2;
  open_read f fd n k : is_open f k → is_open f (sys_read fd n k).2;
  open_write f fd bs k : is_open f k → is_open f (sys_write fd bs k).2;
  open_nonblock f fd k : is_open f k → is_open f (sys_set_nonblock fd k);
  open_setsockopt f fd k : is_open f k → is_open f (sys_setsockopt fd k).2;
  open_accept f fd k : is_open f k → is_open f (sys_accept fd k).2;
  open_wait f e n k : is_open f k → is_open f (sys_epoll_wait e n k).2;
}.

(** What two states of the system have in common when only calls were made that
    concern neither the interest lists nor close anything. *)
Definition calm {K} `{DescriptorLaws K} (k k' : K) : Prop :=
  (∀ e, interest e k' = interest e k) ∧ ∀ f, is_open f k → is_open f k'.

#[global] Instance calm_preorder {K} `{DescriptorLaws K} : PreOrder calm.
Proof.
  split; [by split|]. intros k1 k2 k3 [Hi Ho] [Hi' Ho']. split; [intros e; by rewrite Hi'|auto].
Qed.

(** ** What the program relies on of a stream socket

    [sent fd k] are the bytes the socket [fd] has accepted; [write] accepts a
    prefix of what it is given, and is interrupted at most [patience] times in a
    row (write(2)). *)
Class SinkLaws (K : Type) `{Kernel K} := {
  sent : Z → K → list byte;
  patience : nat;
  sink_write fd bs k r k' : sys_write fd bs k = (r, k') →
    match r with
    | inr n => 0 ≤ n ≤ Z.of_nat (length bs) ∧ sent fd k' = sent fd k ++ take (Z.to_nat n) bs
    | inl _ => sent fd k' = sent fd k
    end;
  sink_epoll fd epfd op fd' ev k r k' :
    sys_epoll_ctl epfd op fd' ev k = (r, k') → sent fd k' = sent fd k;
  sink_patient fd bs k : ∃ a, retry (S patience) (sys_write fd bs) k = Ok a;
}.

(** [sent fd k] counts from the start of the process, for all that was open as [fd]:
    only [write] adds to it, and only for its own descriptor. *)
Class StreamLaws (K : Type) `{SinkLaws K} := {
  sent_write d fd bs k : d ≠ fd → sent d (sys_write fd bs k).2 = sent d k;
  sent_fionread d fd k : sent d (sys_fionread fd k).2 = sent d k;
  sent_read d fd n k : sent d (sys_read fd n k).2 = sent d k;
  sent_close d fd k : sent d (sys_close fd k) = sent d k;
  sent_accept d fd k : sent d (sys_accept fd k).2 = sent d k;
  sent_nonblock d fd k : sent d (sys_set_nonblock fd k) = sent d k;
  sent_setsockopt d fd k : sent d (sys_setsockopt fd k).2 = sent d k;
  sent_wait d e n k : sent d (sys_epoll_wait e n k).2 = sent d k;
  sent_create d k : sent d (sys_epoll_create k).2 = sent d k;
  sent_timerfd d k : sent d (sys_timerfd_create k).2 = sent d k;
}.

(** Nothing was sent but, at most, on [c]. *)
Definition mute {K} `{SinkLaws K} (c : Z) (k k' : K) : Prop := ∀ d, d ≠ c → sent d k' = sent d k.

#[global] Instance mute_preorder {K} `{SinkLaws K} c : PreOrder (mute c).
Proof. split; [by intros k d|]. intros k1 k2 k3 H12 H23 d Hd. by rewrite H23, H12. Qed.

(** ** What the program relies on of a listening socket

    [backlog k] are the answers [accept] is going to give; once they are used
    up it reports EAGAIN (accept(2)).  No other call consumes them.  [closes k] are
    the descriptors [close] was called for so far. *)
Class AcceptLaws (K : Type) `{Kernel K} := {
  backlog : K → list (errno + Z);
  accept_empty fd k : backlog k = [] → ∃ k', sys_accept fd k = (inl EAGAIN, k');
  accept_next fd k r l : backlog k = r :: l → ∃ k', sys_accept fd k = (r, k') ∧ backlog k' = l;
  backlog_close fd k : backlog (sys_close fd k) = backlog k;
  backlog_open k : backlog (sys_open_reserve k).2 = backlog k;
  backlog_nonblock fd k : backlog (sys_set_nonblock fd k) = backlog k;
  backlog_setsockopt fd k : backlog (sys_setsockopt fd k).2 = backlog k;
  backlog_epoll epfd op fd ev k : backlog (sys_epoll_ctl epfd op fd ev k).2 = backlog k;
  closes : K → list Z;
  closes_close fd k : closes (sys_close fd k) = closes k ++ [fd];
  closes_accept fd k : closes (sys_accept fd k).2 = closes k;
  closes_open k : closes (sys_open_reserve k).2 = closes k;
  closes_nonblock fd k : closes (sys_set_nonblock fd k) = closes k;
  closes_setsockopt fd k : closes (sys_setsockopt fd k).2 = closes k;
  closes_epoll epfd op fd ev k : closes (sys_epoll_ctl epfd op fd ev k).2 = closes k;
}.

(** ** What the program relies on of a datagram socket

    [inbox fd k] are the answers [recvfrom] is going to give on [fd]; once they
    are used up it reports EAGAIN.  A datagram longer than the buffer is cut to
    its size (recvfrom(2)).  Sending does not consume them. *)
Class DatagramLaws (K : Type) `{Kernel K} := {
  inbox : Z → K → list (errno + (list byte * Z));
  recv_empty fd n k : inbox fd k = [] →
    ∃ k', sys_recvfrom fd n k = (inl EAGAIN, k') ∧ inbox fd k' = [];
  recv_error fd n k e l : inbox fd k = inl e :: l →
    ∃ k', sys_recvfrom fd n k = (inl e, k') ∧ inbox fd k' = l;
  recv_datagram fd n k bs peer l : inbox fd k = inr (bs, peer) :: l →
    ∃ k', sys_recvfrom fd n k = (inr (take (Z.to_nat n) bs, peer), k') ∧ inbox fd k' = l;
  inbox_sendto fd fd' bs peer k : inbox fd (sys_sendto fd' bs peer k).2 = inbox fd k;
}.

(** [posted fd k] are the datagrams given to [sendto] on [fd], with their
    addresses; receiving adds none. *)
Class OutboxLaws (K : Type) `{Kernel K} := {
  posted : Z → K → list (list byte * option Z);
  posted_sendto fd bs dest k : posted fd (sys_sendto fd bs dest k).2 = posted fd k ++ [(bs, dest)];
  posted_recvfrom fd fd' n k : posted fd (sys_recvfrom fd' n k).2 = posted fd k;
}.

(** ** A kernel that answers from a list

    Every call takes the next answer; a call with no answer left, or with an
    answer of another kind, fails.  The calls with an effect on the outside
    world are logged, latest first. *)
Module Script.
Inductive answer :=
| ANum (n : Z)                    (** fionread, write, socket, accept, open, sendto, getsockopt *)
| ABytes (data : list byte)       (** read *)
| ADgram (data : list byte) (peer : Z)   (** recvfrom *)
| AEvents (evs : list (Z * Z))    (** epoll_wait *)
| AClock (sec nsec : Z)
| AOk
| AErr (e : errno).

Inductive call :=
| CWrite (fd : Z) (data : list byte)
| CClose (fd : Z)
| CEpoll (epfd : Z) (op : epoll_op) (fd events : Z)
| CSendto (fd : Z) (data : list byte) (peer : option Z).

Record state := State { answers : list answer; log : list call }.

Definition next (k : state) : answer * state :=
match answers k with
| [] => (AErr (EOTHER 0), k)
| a :: l => (a, State l (log k))
end.
Definition logged (c : call) (k : state) : state := State (answers k) (c :: log k).

Definition num (a : answer) : errno + Z :=
match a with ANum n => inr n | AErr e => inl e | _ => inl (EOTHER 0) end.
Definition bytes (a : answer) : errno + list byte :=
match a with ABytes n => inr n | AErr e => inl e | _ => inl (EOTHER 0) end.
Definition dgram (a : answer) : errno + (list byte * Z) :=
match a with ADgram d p => inr (d, p) | AErr e => inl e | _ => inl (EOTHER 0) end.
Definition events (a : answer) : errno + list (Z * Z) :=
match a with AEvents n => inr n | AErr e => inl e | _ => inl (EOTHER 0) end.
Definition ok (a : answer) : option errno :=
match a with AErr e => Some e | _ => None end.

(** Take an answer and read it with [f]. *)
Definition ask {A} (f : answer → A) (k : state) : A * state :=
let '(a, k) := next k in (f a, k).

#[export] Instance script_kernel : Kernel state := {
sys_fionread _ := ask num;
sys_read _ _ := ask bytes;
sys_write fd d k := ask num (logged (CWrite fd d) k);
sys_close fd k := logged (CClose fd) k;
sys_socket := ask num;
sys_connect _ := ask ok;
sys_bind _ := ask ok;
sys_listen _ := ask ok;
sys_dup _ := ask num;
sys_getsockopt_error _ := ask (λ a, match a with ANum n => n | _ => 1 end);
sys_accept _ := ask num;
sys_open_reserve := ask num;
sys_set_nonblock _ k := k;
sys_setsockopt _ k := (None, k);
sys_recvfrom _ _ := ask dgram;
sys_sendto fd d p k := ask num (logged (CSendto fd d p) k);
sys_epoll_create := ask num;
sys_timerfd_create := ask num;
sys_eventfd := ask num;
sys_pthread_create := ask (λ a, match a with ANum n => n | _ => 0 end);
sys_epoll_ctl epfd op fd ev k := (None, logged (CEpoll epfd op fd ev) k);
sys_epoll_wait _ _ := ask events;
sys_clock_realtime := ask (λ a, match a with AClock s n => (s, n) | _ => (0, 0) end);
}.
End Script.
#[global] Existing Instance Script.script_kernel.

(** The interest lists that the logged calls have built. *)
Fixpoint logged_interest (epfd : Z) (l : list Script.call) : gmap Z Z :=
  match l with
  | [] => ∅
  | Script.CEpoll e op fd ev :: l =>
      if e =? epfd then
        match op with
        | EPOLL_CTL_ADD | EPOLL_CTL_MOD => <[fd := ev]> (logged_interest epfd l)
        | EPOLL_CTL_DEL => delete fd (logged_interest epfd l)
        end
      else logged_interest epfd l
  | _ :: l => logged_interest epfd l
  end.

#[global] Instance script_epoll : EpollLaws Script.state.
Proof.
  refine {| interest epfd k := logged_interest epfd (Script.log k) |}; intros epfd; try done.
  1-3: intros fd ev k; try intros _; repeat eexists; simpl; by rewrite Z.eqb_refl.
  all: unfold Script.ask, Script.next; simpl.
  - intros fd bs k. unfold Script.ask, Script.next. simpl. by destruct (Script.answers k).
  - intros fd k. unfold Script.ask, Script.next. by destruct (Script.answers k).
  - intros k. unfold Script.ask, Script.next. by destruct (Script.answers k).
  - intros k. unfold Script.ask, Script.next. by destruct (Script.answers k).
  - intros fd k. unfold Script.ask, Script.next. by destruct (Script.answers k).
  - intros fd k. unfold Script.ask, Script.next. by destruct (Script.answers k).
Defined.

(** ** A kernel with one socket that has room for some more bytes, one epoll
    instance, and some connections to accept

    [write] accepts what fits and then reports EAGAIN; nothing can be read. *)
Module Pipe.
Record state := State {
room : nat;
out : list byte;
watch : gmap Z Z;
pending : list (errno + Z);
shut : list Z;
}.

Definition write (bs : list byte) (k : state) : (errno + Z) * state :=
match room k with
| O => (inl EAGAIN, k)
| _ => let n := Nat.min (room k) (length bs) in
       (inr (Z.of_nat n), State (room k - n) (out k ++ take n bs) (watch k) (pending k) (shut k))
end.

Definition ctl (op : epoll_op) (fd ev : Z) (k : state) : state :=
State (room k) (out k) (match op with
  | EPOLL_CTL_DEL => delete fd (watch k)
  | _ => <[fd := ev]> (watch k)
  end) (pending k) (shut k).

Definition close (fd : Z) (k : state) : state :=
State (room k) (out k) (watch k) (pending k) (shut k ++ [fd]).

Definition accept (k : state) : (errno + Z) * state :=
match pending k with
| [] => (inl EAGAIN, k)
| r :: l => (r, State (room k) (out k) (watch k) l (shut k))
end.

#[export] Instance pipe_kernel : Kernel state := {
sys_fionread _ k := (inr 0, k);
sys_read _ _ k := (inr [], k);
sys_write _ := write;
sys_close := close;
sys_socket k := (inl EMFILE, k);
sys_connect _ k := (None, k);
sys_bind _ k := (None, k);
sys_listen _ k := (None, k);
sys_dup _ k := (inl EMFILE, k);
sys_getsockopt_error _ k := (0, k);
sys_accept _ := accept;
sys_open_reserve k := (inr 6, k);
sys_set_nonblock _ k := k;
sys_setsockopt _ k := (None, k);
sys_recvfrom _ _ k := (inl EAGAIN, k);
sys_sendto _ _ _ k := (inl EAGAIN, k);
sys_epoll_create k := (inl EMFILE, k);
sys_timerfd_create k := (inl EMFILE, k);
sys_eventfd k := (inl EMFILE, k);
sys_pthread_create k := (0, k);
sys_epoll_ctl _ op fd ev k := (None, ctl op fd ev k);
sys_epoll_wait _ _ k := (inr [], k);
sys_clock_realtime k := ((0, 0), k);
}.
End Pipe.
#[global] Existing Instance Pipe.pipe_kernel.

#[global] Instance pipe_sink : SinkLaws Pipe.state.
Proof.
  refine {| sent _ k := Pipe.out k; patience := 0 |}.
  - intros fd bs k r k'. simpl. unfold Pipe.write. destruct (Pipe.room k) as [|n]; intros [= <- <-]; [done|].
    simpl. rewrite Nat2Z.id. split; [|done]. destruct (length bs); simpl; lia.
  - by intros fd epfd op fd' ev k r k' [= _ <-].
  - intros fd bs k. unfold retry, mbind, M_bind, syscall. simpl. unfold Pipe.write.
    destruct (Pipe.room k); by eexists.
Defined.

#[global] Instance pipe_epoll : EpollLaws Pipe.state.
Proof.
  refine {| interest _ k := Pipe.watch k |}; intros epfd fd; try done.
  1-3: intros ev k; try intros _; by repeat eexists.
  - intros bs k. simpl. unfold Pipe.write. by destruct (Pipe.room k).
  - intros k. simpl. unfold Pipe.accept. by destruct (Pipe.pending k).
Defined.

#[global] Instance pipe_accept : AcceptLaws Pipe.state.
Proof.
  refine {| backlog := Pipe.pending; closes := Pipe.shut |}; try done; intros fd k; simpl; unfold Pipe.accept.
  - intros ->. by eexists.
  - intros r l ->. by eexists.
  - by destruct (Pipe.pending k).
Defined.

(** ** A kernel with datagrams to receive; those sent are kept *)
Module Mail.
Record state := State {
waiting : list (errno + (list byte * Z));
posted : list (list byte * option Z);
}.

Definition recvfrom (count : Z) (k : state) : (errno + (list byte * Z)) * state :=
match waiting k with
| [] => (inl EAGAIN, k)
| inl e :: l => (inl e, State l (posted k))
| inr (bs, peer) :: l => (inr (take (Z.to_nat count) bs, peer), State l (posted k))
end.

#[export] Instance mail_kernel : Kernel state := {
sys_fionread _ k := (inr 0, k);
sys_read _ _ k := (inr [], k);
sys_write _ _ k := (inl EAGAIN, k);
sys_close _ k := k;
sys_socket k := (inr 4, k);
sys_connect _ k := (None, k);
sys_bind _ k := (None, k);
sys_listen _ k := (None, k);
sys_dup _ k := (inl EMFILE, k);
sys_getsockopt_error _ k := (0, k);
sys_accept _ k := (inl EAGAIN, k);
sys_open_reserve k := (inl EMFILE, k);
sys_set_nonblock _ k := k;
sys_setsockopt _ k := (None, k);
sys_recvfrom _ := recvfrom;
sys_sendto _ bs peer k := (inr (Z.of_nat (length bs)), State (waiting k) (posted k ++ [(bs, peer)]));
sys_epoll_create k := (inl EMFILE, k);
sys_timerfd_create k := (inl EMFILE, k);
sys_eventfd k := (inl EMFILE, k);
sys_pthread_create k := (0, k);
sys_epoll_ctl _ _ _ _ k := (None, k);
sys_epoll_wait _ _ k := (inr [], k);
sys_clock_realtime k := ((0, 0), k);
}.
End Mail.
#[global] Existing Instance Mail.mail_kernel.

#[global] Instance mail_outbox : OutboxLaws Mail.state.
Proof.
  refine {| posted _ := Mail.posted |}; [done|]. intros _ fd n k. simpl. unfold Mail.recvfrom.
  by destruct (Mail.waiting k) as [|[|[]] ?].
Defined.

#[global] Instance mail_datagrams : DatagramLaws Mail.state.
Proof.
  refine {| inbox _ := Mail.waiting |}; [..|done]; intros fd n k; simpl; unfold Mail.recvfrom.
  - intros Hk. rewrite Hk. by exists k.
  - intros e l ->. by eexists.
  - intros bs peer l ->. by eexists.
Defined.
