(* ===== verification/IoBuffer.v ===== *)
(** * Buffers and the buffer pool (include/io_buffer.h, src/io_buffer.cc)

    [io_buffer] objects live in a store and refer to each other by pointer:
    the free lists of the pool are linked through [next].  The contents of the
    [char] array of a buffer are a finite map from offsets to bytes; an offset
    that was never written has no byte. *)
From S2P Require Import Prelude Kernel.

(** ** State *)

Abbreviation ptr := positive.

Record io_buffer := IoBuffer {
  capacity : Z;
  b_length : Z;
  head : Z;
  next : option ptr;
  data : gmap Z byte;
}.

Record buffer_pool := BufferPool {
  store : gmap ptr io_buffer;
  fresh_ptr : ptr;               (** where the next [new] allocates *)
  _pool : gmap Z (option ptr);
  _total_mem : Z;                (** uint64_t, in KB *)
}.

Definition set_store s bp := BufferPool s (fresh_ptr bp) (_pool bp) (_total_mem bp).
Definition set_pool p bp := BufferPool (store bp) (fresh_ptr bp) p (_total_mem bp).
Definition set_total_mem t bp := BufferPool (store bp) (fresh_ptr bp) (_pool bp) t.

Definition set_next n b := IoBuffer (capacity b) (b_length b) (head b) n (data b).
Definition set_extent len hd b := IoBuffer (capacity b) len hd (next b) (data b).
Definition set_data d b := IoBuffer (capacity b) (b_length b) (head b) (next b) d.

(** [io_buffer(int size)]: the array is not initialised. *)
Definition io_buffer_new (size : Z) : io_buffer := IoBuffer size 0 0 None ∅.

(** [EXTRA_MEM_LIMIT], in KB *)
Definition EXTRA_MEM_LIMIT : Z := 5 * 1024 * 1024.

(** [enum MEM_CAP] *)
Definition u4K : Z := 4096.
Definition u16K : Z := 16384.
Definition u64K : Z := 65536.
Definition u256K : Z := 262144.
Definition u1M : Z := 1048576.
Definition u4M : Z := 4194304.
Definition u8M : Z := 8388608.

(** ** The array of a buffer *)

(** The [n] bytes from offset [off]: outside the array, or not initialised, is
    undefined. *)
Definition data_read (off n : Z) (b : io_buffer) : option (list byte) :=
  if (0 <=? off) && (0 <=? n) && (off + n <=? capacity b)
  then mapM (λ i, data b !! i) (seqZ off n) else None.

Definition data_write (off : Z) (bs : list byte) (b : io_buffer) : option io_buffer :=
  if (0 <=? off) && (off + Z.of_nat (length bs) <=? capacity b)
  then Some (set_data (map_seqZ off bs ∪ data b) b) else None.

Definition buf_at (p : ptr) : M buffer_pool io_buffer :=
  bp ← get; from_option_or Undefined (store bp !! p).
Definition buf_put (p : ptr) (b : io_buffer) : M buffer_pool unit :=
  modify (λ bp, set_store (<[p := b]> (store bp)) bp).

(** ** [struct io_buffer] *)

Definition io_clear (p : ptr) : M buffer_pool unit :=
  b ← buf_at p; buf_put p (set_extent 0 0 b).

Definition io_adjust (p : ptr) : M buffer_pool unit :=
  b ← buf_at p;
  when (bool_decide (head b ≠ 0)) (
    b' ← (if bool_decide (b_length b ≠ 0) then
            bs ← from_option_or Undefined (data_read (head b) (b_length b) b);
            from_option_or Undefined (data_write 0 bs b)
          else mret b);
    buf_put p (set_extent (b_length b') 0 b')).

Definition io_copy (p other : ptr) : M buffer_pool unit :=
  b ← buf_at p;
  o ← buf_at other;
  bs ← from_option_or Undefined (data_read (head o) (b_length o) o);
  b' ← from_option_or Undefined (data_write 0 bs b);
  buf_put p (set_extent (b_length o) 0 b').

Definition io_pop (p : ptr) (len : Z) : M buffer_pool unit :=
  b ← buf_at p;
  l ← cint (b_length b - len);
  h ← cint (head b + len);
  buf_put p (set_extent l h b).

(** ** [class buffer_pool] *)

(** [new io_buffer(size)] *)
Definition new_buffer (size : Z) : M buffer_pool ptr :=
  bp ← get;
  put (BufferPool (<[fresh_ptr bp := io_buffer_new size]> (store bp))
         (Pos.succ (fresh_ptr bp)) (_pool bp) (_total_mem bp)) ;;
  mret (fresh_ptr bp).

(** [_pool[index]]: reading an absent key of a hash_map inserts NULL. *)
Definition pool_at (index : Z) : M buffer_pool (option ptr) :=
  bp ← get;
  match _pool bp !! index with
  | Some p => mret p
  | None => put (set_pool (<[index := None]> (_pool bp)) bp) ;; mret None
  end.
Definition pool_put (index : Z) (p : option ptr) : M buffer_pool unit :=
  modify (λ bp, set_pool (<[index := p]> (_pool bp)) bp).
Definition add_total_mem (kb : Z) : M buffer_pool unit :=
  modify (λ bp, set_total_mem (u64 (_total_mem bp + kb)) bp).

(** The size class [alloc] serves a request from. *)
Definition class_of (N : Z) : option Z :=
  if N <=? u4K then Some u4K
  else if N <=? u16K then Some u16K
  else if N <=? u64K then Some u64K
  else if N <=? u256K then Some u256K
  else if N <=? u1M then Some u1M
  else if N <=? u4M then Some u4M
  else if N <=? u8M then Some u8M
  else None.

Definition alloc (N : Z) : M buffer_pool (option ptr) :=
  match class_of N with
  | None => mret None
  | Some index =>
      target ← pool_at index;
      match target with
      | None =>
          bp ← get;
          exit_if (EXTRA_MEM_LIMIT <=? u64 (_total_mem bp + index / 1024)) ;;
          new_buf ← new_buffer index;
          add_total_mem (index / 1024) ;;
          mret (Some new_buf)
      | Some target =>
          b ← buf_at target;
          pool_put index (next b) ;;
          buf_put target (set_next None b) ;;
          mret (Some target)
      end
  end.

Definition revert (buffer : ptr) : M buffer_pool unit :=
  b ← buf_at buffer;
  let index := capacity b in
  buf_put buffer (set_extent 0 0 b) ;;
  bp ← get;
  cassert (bool_decide (is_Some (_pool bp !! index))) ;;
  first ← pool_at index;
  b ← buf_at buffer;
  buf_put buffer (set_next first b) ;;
  pool_put index (Some buffer).

(** The loop of one block of the constructor: [k] more buffers, each linked
    behind [prev]. *)
Fixpoint link_new (k : nat) (size : Z) (prev : ptr) : M buffer_pool unit :=
  match k with
  | O => mret tt
  | S k =>
      p ← new_buffer size;
      b ← buf_at prev;
      buf_put prev (set_next (Some p) b) ;;
      link_new k size p
  end.

(** One block of the constructor: a free list of [n] buffers of [size] bytes,
    accounted as [kb * n] KB. *)
Definition preallocate (size kb n : Z) : M buffer_pool unit :=
  p ← new_buffer size;
  pool_put size (Some p) ;;
  link_new (Z.to_nat n - 1) size p ;;
  add_total_mem (kb * n).

Definition buffer_pool_ctor : M buffer_pool unit :=
  preallocate u4K 4 5000 ;;
  preallocate u16K 16 1000 ;;
  preallocate u64K 64 500 ;;
  preallocate u256K 256 200 ;;
  preallocate u1M 1024 50 ;;
  preallocate u4M 4096 20 ;;
  preallocate u8M 8192 10.

(** The pool before the body of its constructor runs. *)
Definition empty_pool : buffer_pool := BufferPool ∅ 1%positive ∅ 0.

(** ** [struct tcp_buffer]: its only field is the pointer [_buf], which the
    operations take and return. *)

Definition tbuf_length (buf : option ptr) : M buffer_pool Z :=
  match buf with
  | Some p => b ← buf_at p; mret (b_length b)
  | None => mret 0
  end.

Definition tbuf_clear (buf : option ptr) : M buffer_pool (option ptr) :=
  match buf with
  | Some p => revert p ;; mret None
  | None => mret None
  end.

Definition tbuf_pop (buf : option ptr) (len : Z) : M buffer_pool (option ptr) :=
  match buf with
  | None => fail AssertFailed
  | Some p =>
      b ← buf_at p;
      cassert (len <=? b_length b) ;;
      io_pop p len ;;
      b ← buf_at p;
      if bool_decide (b_length b = 0) then revert p ;; mret None
      else mret (Some p)
  end.

(** The part [read_data] and [send_data] share: a buffer with room for [n] more
    bytes; [None] when the pool has none. *)
Definition reserve (buf : option ptr) (n : Z) : M buffer_pool (option ptr) :=
  match buf with
  | None => alloc n
  | Some p =>
      b ← buf_at p;
      cassert (bool_decide (head b = 0)) ;;
      room ← cint (capacity b - b_length b);
      if room <? n then
        total ← cint (n + b_length b);
        new_buf ← alloc total;
        match new_buf with
        | None => mret None
        | Some q => io_copy q p ;; revert p ;; mret (Some q)
        end
      else mret (Some p)
  end.

(** Appending bytes behind the contents, as [read] and [memcpy] do here. *)
Definition append (p : ptr) (bs : list byte) : M buffer_pool unit :=
  b ← buf_at p;
  b' ← from_option_or Undefined (data_write (b_length b) bs b);
  l ← cint (b_length b + Z.of_nat (length bs));
  buf_put p (set_extent l (head b') b').

(** [memcpy(dst, data, datlen)] reads [datlen] bytes from [data]. *)
Definition take_bytes (dat : list byte) (datlen : Z) : option (list byte) :=
  if (0 <=? datlen) && (datlen <=? Z.of_nat (length dat))
  then Some (take (Z.to_nat datlen) dat) else None.

(** [output_buffer::send_data]: the new [_buf] and the result. *)
Definition obuf_send_data (buf : option ptr) (dat : list byte) (datlen : Z)
    : M buffer_pool (option ptr * Z) :=
  r ← reserve buf datlen;
  match r with
  | None => mret (buf, -1)
  | Some p =>
      bs ← from_option_or Undefined (take_bytes dat datlen);
      append p bs ;;
      mret (Some p, 0)
  end.

(** [input_buffer::data]: [_buf->data + _buf->head], as the bytes there. *)
Definition ibuf_data (buf : option ptr) (n : Z) : M buffer_pool (list byte) :=
  match buf with
  | Some p => b ← buf_at p; from_option_or Undefined (data_read (head b) n b)
  | None => if n =? 0 then mret [] else fail Undefined
  end.

Definition ibuf_adjust (buf : option ptr) : M buffer_pool unit :=
  match buf with Some p => io_adjust p | None => mret tt end.

(** ** Transfers between a buffer and a socket *)

Section transfers.
Context {K : Type} `{Kernel K}.

(** The kernel and the (global) pool. *)
Record io := Io { kern : K; bufs : buffer_pool }.

Definition io_kern : lens io K := Lens kern (λ k s, Io k (bufs s)).
Definition io_bufs : lens io buffer_pool := Lens bufs (λ b s, Io (kern s) b).

(** [input_buffer::read_data]: the new [_buf] and the result. *)
Definition read_data (fuel : nat) (buf : option ptr) (fd : Z) : M io (option ptr * Z) :=
  rn ← zoom io_kern (syscall (sys_fionread fd));
  match rn with
  | inl _ => mret (buf, -1)
  | inr rn =>
      r ← zoom io_bufs (reserve buf rn);
      match r with
      | None => mret (buf, -1)
      | Some p =>
          ret ← zoom io_kern (retry fuel (sys_read fd rn));
          match ret with
          | inl _ => mret (Some p, -1)
          | inr bs =>
              when (0 <? Z.of_nat (length bs)) (
                cassert (Z.of_nat (length bs) =? rn) ;;
                zoom io_bufs (append p bs)) ;;
              mret (Some p, Z.of_nat (length bs))
          end
      end
  end.

(** [output_buffer::write_fd] *)
Definition write_fd (fuel : nat) (buf : option ptr) (fd : Z) : M io Z :=
  match buf with
  | None => fail AssertFailed
  | Some p =>
      b ← zoom io_bufs (buf_at p);
      cassert (bool_decide (head b = 0)) ;;
      bs ← from_option_or Undefined (data_read 0 (b_length b) b);
      ret ← zoom io_kern (retry fuel (sys_write fd bs));
      match ret with
      | inr writed =>
          when (0 <? writed) (zoom io_bufs (io_pop p writed ;; io_adjust p)) ;;
          mret writed
      | inl EAGAIN => mret 0
      | inl _ => mret (-1)
      end
  end.
End transfers.
Arguments io K : clear implicits.
