(* ===== verification/BufferPool.v ===== *)
(** * The buffer pool

    The free lists of the pool are acyclic chains of empty buffers of their
    size class; [alloc] and [revert] move one buffer between the pool and its
    holder and leave every other buffer alone; the memory account is the sum of
    the capacities of all buffers that exist. *)
From S2P Require Import Prelude Kernel IoBuffer.

(** ** Size classes *)

Definition classes : list Z := [u4K; u16K; u64K; u256K; u1M; u4M; u8M].

Lemma class_of_spec N c :
  class_of N = Some c →
  c ∈ classes ∧ N ≤ c ∧ ∀ c', c' ∈ classes → N ≤ c' → c ≤ c'.
Proof.
  unfold class_of, classes, u4K, u16K, u64K, u256K, u1M, u4M, u8M.
  repeat (bcase; [intros [= <-]; split_and!; [set_solver|lia|
    intros c'; rewrite !elem_of_cons, elem_of_nil; lia]|]). done.
Qed.

Lemma class_of_None N : class_of N = None ↔ u8M < N.
Proof.
  unfold class_of, u4K, u16K, u64K, u256K, u1M, u4M, u8M.
  repeat (bcase; [split; [done|lia]|]). split; [lia|done].
Qed.

Lemma class_range c : c ∈ classes → 4096 ≤ c ≤ 8388608.
Proof.
  unfold classes, u4K, u16K, u64K, u256K, u1M, u4M, u8M.
  rewrite !elem_of_cons, elem_of_nil. lia.
Qed.

(** ** Chains of buffers *)

Fixpoint chain (st : gmap ptr io_buffer) (first : option ptr) (l : list ptr) : Prop :=
  match l with
  | [] => first = None
  | p :: l => first = Some p ∧ ∃ b, st !! p = Some b ∧ chain st (next b) l
  end.

Lemma chain_frame st st' first l :
  (∀ p b, p ∈ l → st !! p = Some b → ∃ b', st' !! p = Some b' ∧ next b' = next b) →
  chain st first l → chain st' first l.
Proof.
  revert first. induction l as [|p l IH]; intros first Hst; simpl; [done|].
  intros (-> & b & Hp & Hl). split; [done|].
  destruct (Hst p b) as (b' & Hp' & Hn); [by left|done|].
  exists b'. split; [done|]. rewrite Hn. apply IH; [|done].
  intros q ? ?. apply Hst. by right.
Qed.

Lemma chain_insert_ne st first l p b :
  p ∉ l → chain st first l → chain (<[p := b]> st) first l.
Proof.
  intros Hp. apply chain_frame. intros q b' Hq Hb'. exists b'.
  rewrite lookup_insert_ne; [done|]. by intros ->.
Qed.

(** ** The memory account *)

Definition total_kb (st : gmap ptr io_buffer) : Z :=
  map_fold (λ _ b acc, capacity b / 1024 + acc) 0 st.

Lemma total_kb_insert st p b :
  st !! p = None → total_kb (<[p := b]> st) = capacity b / 1024 + total_kb st.
Proof.
  intros Hp. unfold total_kb. rewrite map_fold_insert_L; [done| |done].
  intros. lia.
Qed.

Lemma total_kb_update st p b b' :
  st !! p = Some b → capacity b' = capacity b → total_kb (<[p := b']> st) = total_kb st.
Proof.
  intros Hp Hc. rewrite <- (insert_id st p b) at 2 by done.
  rewrite <- !(insert_delete_eq st). rewrite !total_kb_insert by apply lookup_delete_eq.
  by rewrite Hc.
Qed.

(** ** The invariant *)

(** [fl] gives the free list of each class; [cs] are the classes whose list has
    been built: all of them once the constructor is done. *)
Record pool_inv_on (cs : list Z) (bp : buffer_pool) (fl : Z → list ptr) : Prop := {
  inv_lists c : c ∈ cs →
    ∃ first, _pool bp !! c = Some first ∧ chain (store bp) first (fl c);
  inv_free c p : c ∈ cs → p ∈ fl c →
    ∃ b, store bp !! p = Some b ∧ capacity b = c ∧ b_length b = 0 ∧ head b = 0;
  inv_nodup c : c ∈ cs → NoDup (fl c);
  inv_store p b : store bp !! p = Some b → (p < fresh_ptr bp)%positive ∧ capacity b ∈ classes;
  inv_mem : _total_mem bp = total_kb (store bp);
  inv_limit : 0 ≤ _total_mem bp < EXTRA_MEM_LIMIT;
}.
Arguments inv_lists {cs} bp fl.
Arguments inv_free {cs} bp fl.
Arguments inv_nodup {cs} bp fl.
Arguments inv_store {cs} bp fl.
Arguments inv_mem {cs} bp fl.
Arguments inv_limit {cs} bp fl.

Abbreviation pool_inv := (pool_inv_on classes).

Definition upd (fl : Z → list ptr) (c : Z) (l : list ptr) : Z → list ptr :=
  λ c', if decide (c' = c) then l else fl c'.

Lemma upd_eq fl c l : upd fl c l c = l.
Proof. unfold upd. by rewrite decide_True. Qed.
Lemma upd_ne fl c l c' : c' ≠ c → upd fl c l c' = fl c'.
Proof. intros. unfold upd. by rewrite decide_False. Qed.

(** A buffer is held by a client: it exists and is in no free list. *)
Definition held (bp : buffer_pool) (fl : Z → list ptr) (p : ptr) : Prop :=
  is_Some (store bp !! p) ∧ ∀ c, c ∈ classes → p ∉ fl c.

(** Nothing but [p] changes, and no other buffer becomes free or stops to be. *)
Definition only_changes (p : ptr) (bp bp' : buffer_pool) (fl fl' : Z → list ptr) : Prop :=
  (∀ q, q ≠ p → is_Some (store bp !! q) → store bp' !! q = store bp !! q) ∧
  (∀ c q, c ∈ classes → q ∈ fl' c → q ≠ p → q ∈ fl c) ∧
  (∀ c q, c ∈ classes → q ∈ fl c → q ≠ p → q ∈ fl' c) ∧
  (∀ q, q ≠ p → is_Some (store bp' !! q) → is_Some (store bp !! q)).

(** No request can hit the memory limit. *)
Definition memory_left (bp : buffer_pool) : Prop :=
  _total_mem bp + u8M / 1024 < EXTRA_MEM_LIMIT.

Lemma free_one_class bp fl c c' p :
  pool_inv bp fl → c ∈ classes → c' ∈ classes → p ∈ fl c → p ∈ fl c' → c = c'.
Proof.
  intros Hi Hc Hc' Hp Hp'.
  destruct (inv_free _ _ Hi c p Hc Hp) as (b & Hb & <- & _).
  destruct (inv_free _ _ Hi c' p Hc' Hp') as (b' & Hb' & <- & _). by simplify_eq.
Qed.

Lemma wp_buf_at p b (Q : io_buffer → buffer_pool → Prop) bp :
  store bp !! p = Some b → Q b bp → wp (buf_at p) Q bp.
Proof. intros. unfold buf_at. wp_steps. by eapply wp_from_option. Qed.

Lemma wp_buf_put p b (Q : unit → buffer_pool → Prop) bp :
  Q tt (set_store (<[p := b]> (store bp)) bp) → wp (buf_put p b) Q bp.
Proof. done. Qed.

Lemma wp_pool_at c first (Q : option ptr → buffer_pool → Prop) bp :
  _pool bp !! c = Some first → Q first bp → wp (pool_at c) Q bp.
Proof. intros Hc HQ. unfold pool_at. wp_steps. by rewrite Hc. Qed.

(** ** [alloc] *)

(** What a successful [alloc] of class [c] hands out. *)
Definition allocated (c : Z) (p : ptr) (bp bp' : buffer_pool) (fl fl' : Z → list ptr) : Prop :=
  pool_inv bp' fl' ∧ held bp' fl' p ∧ ¬ held bp fl p ∧
  (∃ b, store bp' !! p = Some b ∧ capacity b = c ∧ b_length b = 0 ∧ head b = 0 ∧ next b = None) ∧
  only_changes p bp bp' fl fl'.

Lemma not_held_free bp fl c p : c ∈ classes → p ∈ fl c → ¬ held bp fl p.
Proof. intros Hc Hp [_ Hh]. by apply (Hh c). Qed.

(** The free lists without the first buffer of one of them. *)
Lemma tail_subset fl c p l c' q : fl c = p :: l → q ∈ upd fl c l c' → q ∈ fl c'.
Proof.
  intros Hfl Hq. destruct (decide (c' = c)) as [->|Hne]; [|by rewrite upd_ne in Hq].
  rewrite upd_eq in Hq. rewrite Hfl. by right.
Qed.

Lemma popped_out bp fl c p l c' :
  pool_inv bp fl → c ∈ classes → fl c = p :: l → c' ∈ classes → p ∉ upd fl c l c'.
Proof.
  intros Hi Hc Hfl Hc' Hin. assert (Hp : p ∈ fl c) by (rewrite Hfl; by left).
  destruct (decide (c' = c)) as [->|Hne].
  - pose proof (inv_nodup _ _ Hi _ Hc) as Hnd. rewrite Hfl in Hnd. apply NoDup_cons in Hnd as [Hpl _].
    by rewrite upd_eq in Hin.
  - rewrite upd_ne in Hin by done. by apply Hne, (free_one_class bp fl _ _ p).
Qed.

Lemma pool_inv_pop bp fl c p l b :
  pool_inv bp fl → c ∈ classes → fl c = p :: l → store bp !! p = Some b →
  pool_inv (set_store (<[p := set_next None b]> (store bp)) (set_pool (<[c := next b]> (_pool bp)) bp)) (upd fl c l).
Proof.
  intros Hi Hc Hfl Hb. pose proof (λ c', popped_out bp fl c p l c' Hi Hc Hfl) as Hout.
  split; simpl; [..|by apply Hi].
  - intros c' Hc'. destruct (decide (c' = c)) as [->|Hne].
    + rewrite upd_eq, lookup_insert_eq. eexists; split; [done|].
      specialize (Hout c Hc). rewrite upd_eq in Hout. apply chain_insert_ne; [done|].
      destruct (inv_lists _ _ Hi _ Hc) as (first & _ & Hch). rewrite Hfl in Hch.
      destruct Hch as (-> & b' & Hb' & Hch). by simplify_eq.
    + rewrite upd_ne, lookup_insert_ne by done.
      destruct (inv_lists _ _ Hi _ Hc') as (first & Hf & Hch).
      exists first. split; [done|]. apply chain_insert_ne; [|done].
      specialize (Hout c' Hc'). by rewrite upd_ne in Hout.
  - intros c' q Hc' Hq. rewrite lookup_insert_ne; [by apply (inv_free _ _ Hi), (tail_subset fl c p l)|].
    intros ->. by apply (Hout c').
  - intros c' Hc'. destruct (decide (c' = c)) as [->|Hne].
    + rewrite upd_eq. pose proof (inv_nodup _ _ Hi _ Hc) as Hnd. rewrite Hfl in Hnd. by apply NoDup_cons in Hnd as [_ ?].
    + rewrite upd_ne by done. by apply (inv_nodup _ _ Hi).
  - intros q b' [[<- <-]|[_ Hq]]%lookup_insert_Some;
      [by apply (inv_store _ _ Hi p b Hb)|by eapply (inv_store _ _ Hi)].
  - rewrite (total_kb_update _ p b) by done. by apply (inv_mem _ _ Hi).
Qed.

(** Taking the first buffer of a free list. *)
Lemma alloc_pop bp fl c p l b :
  pool_inv bp fl → c ∈ classes → fl c = p :: l → store bp !! p = Some b →
  allocated c p bp
    (set_store (<[p := set_next None b]> (store bp)) (set_pool (<[c := next b]> (_pool bp)) bp))
    fl (upd fl c l).
Proof.
  intros Hi Hc Hfl Hb. assert (Hp : p ∈ fl c) by (rewrite Hfl; by left).
  destruct (inv_free _ _ Hi c p Hc Hp) as (b0 & Hb0 & Hcap & Hlen & Hhead). simplify_eq.
  split_and!.
  - by apply pool_inv_pop with (p := p).
  - split; [simpl; by rewrite lookup_insert_eq|]. intros c' Hc'. by apply (popped_out bp).
  - by eapply not_held_free.
  - eexists. simpl. rewrite lookup_insert_eq. done.
  - split; [intros q ? _; simpl; by rewrite lookup_insert_ne|].
    split_and!.
    + intros c' q Hc' Hq _. by apply (tail_subset fl (capacity b) p l).
    + intros c' q Hc' Hq Hqp. destruct (decide (c' = capacity b)) as [->|Hne].
      * rewrite upd_eq. rewrite Hfl in Hq. by apply elem_of_cons in Hq as [|].
      * by rewrite upd_ne.
    + intros q ?. simpl. by rewrite lookup_insert_ne.
Qed.

(** Creating a buffer. *)
Lemma alloc_new bp fl c :
  pool_inv bp fl → c ∈ classes → _total_mem bp + c / 1024 < EXTRA_MEM_LIMIT →
  allocated c (fresh_ptr bp) bp
    (BufferPool (<[fresh_ptr bp := io_buffer_new c]> (store bp)) (Pos.succ (fresh_ptr bp))
       (_pool bp) (u64 (_total_mem bp + c / 1024))) fl fl.
Proof.
  intros Hi Hc Hmem. set (p := fresh_ptr bp).
  assert (Hp : store bp !! p = None).
  { apply eq_None_not_Some. intros [b Hb]. apply (inv_store _ _ Hi) in Hb. lia. }
  assert (Hout : ∀ c' q, c' ∈ classes → q ∈ fl c' → q ≠ p).
  { intros c' q Hc' Hq ->. destruct (inv_free _ _ Hi c' p Hc' Hq) as (b & Hb & _). congruence. }
  pose proof (class_range c Hc). pose proof (inv_limit _ _ Hi).
  assert (Hu : u64 (_total_mem bp + c / 1024) = c / 1024 + _total_mem bp).
  { rewrite u64_small; [lia|]. pose proof (Z.div_pos c 1024). unfold EXTRA_MEM_LIMIT in *. lia. }
  split_and!.
  - split; simpl.
    + intros c' Hc'. destruct (inv_lists _ _ Hi _ Hc') as (first & Hf & Hch).
      exists first. split; [done|]. apply chain_insert_ne; [|done]. intros Hin. by eapply Hout.
    + intros c' q Hc' Hq. rewrite lookup_insert_ne; [by apply (inv_free _ _ Hi)|].
      intros Heq. by eapply Hout.
    + apply (inv_nodup _ _ Hi).
    + intros q b' [[<- <-]|[_ Hq]]%lookup_insert_Some; [split; [lia|done]|].
      apply (inv_store _ _ Hi) in Hq as [? ?]. split; [lia|done].
    + rewrite Hu, total_kb_insert, (inv_mem _ _ Hi) by done. done.
    + rewrite Hu. pose proof (Z.div_pos c 1024). lia.
  - split; [simpl; by rewrite lookup_insert_eq|]. intros c' Hc' Hin. by eapply Hout.
  - intros [[b Hb] _]. congruence.
  - eexists. simpl. by rewrite lookup_insert_eq.
  - split_and!; [intros q ? _|done|done|intros q ?]; simpl; by rewrite lookup_insert_ne.
Qed.

Lemma alloc_spec N c bp fl :
  pool_inv bp fl → class_of N = Some c →
  (fl c = [] → _total_mem bp + c / 1024 < EXTRA_MEM_LIMIT) →
  wp (alloc N) (λ r bp', ∃ p fl', r = Some p ∧ allocated c p bp bp' fl fl' ∧
    (_total_mem bp' = _total_mem bp ∨ fl c = [])) bp.
Proof.
  intros Hi Hcl Hmem. unfold alloc. rewrite Hcl.
  destruct (class_of_spec N c Hcl) as (Hc & _ & _).
  destruct (inv_lists _ _ Hi c Hc) as (first & Hf & Hch).
  wp_step. eapply wp_pool_at; [done|].
  destruct (fl c) as [|p l] eqn:Hfl.
  - simpl in Hch. subst. specialize (Hmem eq_refl).
    assert (Hu : u64 (_total_mem bp + c / 1024) = _total_mem bp + c / 1024).
    { apply u64_small. pose proof (inv_limit _ _ Hi). pose proof (class_range c Hc).
      pose proof (Z.div_pos c 1024). unfold EXTRA_MEM_LIMIT in *. lia. }
    wp_steps. apply wp_exit_if; [rewrite Hu; apply Z.leb_gt; lia|].
    unfold new_buffer, add_total_mem. wp_steps.
    exists (fresh_ptr bp), fl. split; [done|]. split; [by apply alloc_new|by right].
  - destruct Hch as (-> & b & Hb & _).
    wp_step. eapply wp_buf_at; [done|]. unfold pool_put. wp_steps. apply wp_buf_put. wp_steps.
    exists p, (upd fl c l). split; [done|]. split; [by apply (alloc_pop bp fl c p l b)|by left].
Qed.

Lemma alloc_exits N c bp fl :
  pool_inv bp fl → class_of N = Some c → fl c = [] →
  EXTRA_MEM_LIMIT ≤ _total_mem bp + c / 1024 → alloc N bp = Fail Exited.
Proof.
  intros Hi Hcl Hfl Hmem. unfold alloc. rewrite Hcl.
  destruct (class_of_spec N c Hcl) as (Hc & _ & _). pose proof (class_range c Hc).
  destruct (inv_lists _ _ Hi c Hc) as (first & Hf & Hch). rewrite Hfl in Hch. simpl in Hch. subst.
  assert (Hu : u64 (_total_mem bp + c / 1024) = _total_mem bp + c / 1024).
  { apply u64_small. pose proof (inv_limit _ _ Hi). pose proof (Z.div_pos c 1024).
    pose proof (Z.div_le_upper_bound c 1024 8192). unfold EXTRA_MEM_LIMIT in *. lia. }
  unfold pool_at, mbind, M_bind, get. rewrite Hf. simpl.
  unfold exit_if. rewrite Hu. destruct (Z.leb_spec EXTRA_MEM_LIMIT (_total_mem bp + c / 1024)); [done|lia].
Qed.

Lemma alloc_too_large N bp : u8M < N → alloc N bp = Ok (None, bp).
Proof. intros HN%class_of_None. unfold alloc. by rewrite HN. Qed.

(** ** [revert] *)

Lemma revert_spec p b bp fl :
  pool_inv bp fl → held bp fl p → store bp !! p = Some b →
  wp (revert p) (λ _ bp',
    pool_inv bp' (upd fl (capacity b) (p :: fl (capacity b))) ∧
    (∀ q, q ≠ p → store bp' !! q = store bp !! q) ∧
    _total_mem bp' = _total_mem bp) bp.
Proof.
  intros Hi [_ Hheld] Hb. unfold revert.
  destruct (inv_store _ _ Hi p b Hb) as [Hfresh Hc].
  destruct (inv_lists _ _ Hi _ Hc) as (first & Hf & Hch).
  wp_step. eapply wp_buf_at; [done|]. wp_step. apply wp_buf_put. wp_step. wp_step. wp_step.
  apply wp_assert; [apply bool_decide_eq_true; by eexists|].
  wp_step. eapply wp_pool_at; [done|]. wp_step.
  apply (wp_buf_at p (set_extent 0 0 b)); [simpl; by rewrite lookup_insert_eq|].
  wp_step. apply wp_buf_put. unfold pool_put. wp_steps.
  simpl. rewrite insert_insert_eq. split_and!; [|intros; by rewrite lookup_insert_ne|done].
  split; simpl; [..|by apply Hi].
  - intros c' Hc'. destruct (decide (c' = capacity b)) as [->|Hne].
    + rewrite upd_eq, lookup_insert_eq. eexists; split; [done|]. simpl.
      split; [done|]. eexists. rewrite lookup_insert_eq. split; [done|]. simpl.
      apply chain_insert_ne; [by apply Hheld|done].
    + rewrite upd_ne, lookup_insert_ne by done.
      destruct (inv_lists _ _ Hi _ Hc') as (first' & Hf' & Hch').
      exists first'. split; [done|]. apply chain_insert_ne; [by apply Hheld|done].
  - intros c' q Hc' Hq. destruct (decide (q = p)) as [->|Hqp].
    + rewrite lookup_insert_eq. eexists; split; [done|]. simpl. split; [|done].
      destruct (decide (c' = capacity b)) as [->|Hne]; [done|].
      rewrite upd_ne in Hq by done. by destruct (Hheld c').
    + rewrite lookup_insert_ne by done. apply (inv_free _ _ Hi); [done|].
      destruct (decide (c' = capacity b)) as [->|Hne].
      * rewrite upd_eq in Hq. by apply elem_of_cons in Hq as [|].
      * by rewrite upd_ne in Hq.
  - intros c' Hc'. destruct (decide (c' = capacity b)) as [->|Hne].
    + rewrite upd_eq. apply NoDup_cons. split; [by apply Hheld|by apply (inv_nodup _ _ Hi)].
    + rewrite upd_ne by done. by apply (inv_nodup _ _ Hi).
  - intros q b' [[<- <-]|[_ Hq]]%lookup_insert_Some;
        [by apply (inv_store _ _ Hi p b Hb)|by eapply (inv_store _ _ Hi)].
  - rewrite (total_kb_update _ p b) by done. by apply (inv_mem _ _ Hi).
Qed.

(** ** The constructor *)

(** The buffers [l] are new in [bp'] and empty, of [size] bytes. *)
Definition fresh_buffers (size : Z) (l : list ptr) (bp bp' : buffer_pool) : Prop :=
  NoDup l ∧
  ∀ q, q ∈ l → (fresh_ptr bp ≤ q < fresh_ptr bp')%positive ∧
    ∃ b, store bp' !! q = Some b ∧ capacity b = size ∧ b_length b = 0 ∧ head b = 0.

Lemma fresh_buffers_cons size p l bp bp1 bp' :
  fresh_ptr bp1 = Pos.succ (fresh_ptr bp) → p = fresh_ptr bp →
  (fresh_ptr bp < fresh_ptr bp')%positive →
  (∃ b, store bp' !! p = Some b ∧ capacity b = size ∧ b_length b = 0 ∧ head b = 0) →
  fresh_buffers size l bp1 bp' → fresh_buffers size (p :: l) bp bp'.
Proof.
  intros Hf -> Hlt Hp [Hnd Hl]. split.
  - apply NoDup_cons. split; [|done]. intros Hin%Hl. lia.
  - intros q [->|Hq]%elem_of_cons; [split; [lia|done]|].
    destruct (Hl q Hq) as [? ?]. split; [lia|done].
Qed.

(** The state [bp'] extends [bp] by the buffers [l] of [size] bytes, and may
    have changed the [next] field of [prev]. *)
Record extends (size : Z) (prev : ptr) (l : list ptr) (bp bp' : buffer_pool) : Prop := {
  ext_new : fresh_buffers size l bp bp';
  ext_fresh : (fresh_ptr bp ≤ fresh_ptr bp')%positive;
  ext_old q : (q < fresh_ptr bp)%positive → q ≠ prev → store bp' !! q = store bp !! q;
  ext_prev b : store bp !! prev = Some b →
    ∃ n, store bp' !! prev = Some (set_next n b);
  ext_keys q b : store bp' !! q = Some b → q = prev ∨ q ∈ l ∨ store bp !! q = Some b;
  ext_pool : _pool bp' = _pool bp;
  ext_mem : _total_mem bp' = _total_mem bp;
  ext_kb : total_kb (store bp') = total_kb (store bp) + Z.of_nat (length l) * (size / 1024);
}.

(** Every allocated pointer is below the next one. *)
Definition below_fresh (bp : buffer_pool) : Prop :=
  ∀ q b, store bp !! q = Some b → (q < fresh_ptr bp)%positive.

Lemma below_fresh_None bp q : below_fresh bp → (fresh_ptr bp ≤ q)%positive → store bp !! q = None.
Proof. intros Hb Hq. apply eq_None_not_Some. intros [b H%Hb]. lia. Qed.

(** A new buffer behind [prev], and then the others behind it. *)
Lemma extends_cons size prev b l bp bp2 bp' :
  below_fresh bp → store bp !! prev = Some b → let p := fresh_ptr bp in
  store bp2 = <[prev := set_next (Some p) b]> (<[p := io_buffer_new size]> (store bp)) →
  fresh_ptr bp2 = Pos.succ p → _pool bp2 = _pool bp → _total_mem bp2 = _total_mem bp →
  extends size p l bp2 bp' →
  extends size prev (p :: l) bp bp' ∧ store bp' !! prev = Some (set_next (Some p) b).
Proof.
  intros Hbf Hp p Hst Hfr Hpool Hmem []. pose proof (Hbf prev b Hp) as Hlt.
  assert (Hpp : p ≠ prev) by (unfold p; intros Heq; rewrite Heq in Hlt; lia).
  assert (Hprev' : store bp' !! prev = Some (set_next (Some p) b)).
  { rewrite ext_old0; [by rewrite Hst, lookup_insert_eq|rewrite Hfr; unfold p; lia|done]. }
  assert (Hnew : ∃ c, store bp' !! p = Some c ∧ capacity c = size ∧ b_length c = 0 ∧ head c = 0).
  { destruct (ext_prev0 (io_buffer_new size)) as [n Hn'].
    - by rewrite Hst, lookup_insert_ne, lookup_insert_eq.
    - eexists. split; [exact Hn'|done]. }
  split; [split|done].
  - apply (fresh_buffers_cons size p l bp bp2); [done|done|unfold p in *; lia|done|done].
  - unfold p in *. lia.
  - intros q Hq Hne. assert (q ≠ p) by (unfold p; intros ->; lia).
    rewrite ext_old0 by (unfold p in *; lia || done). by rewrite Hst, !lookup_insert_ne.
  - intros b' Hb'. simplify_eq. eauto.
  - intros q c Hq. destruct (ext_keys0 q c Hq) as [->|[?|Hq2]]; [right; left; by left|right; left; by right|].
    rewrite Hst in Hq2. apply lookup_insert_Some in Hq2 as [[<- _]|[_ Hq2]]; [by left|].
    apply lookup_insert_Some in Hq2 as [[<- _]|[_ Hq2]]; [right; left; by left|auto].
  - congruence.
  - congruence.
  - rewrite ext_kb0, Hst, (total_kb_update _ prev b) by (rewrite ?lookup_insert_ne by done; done).
    rewrite total_kb_insert by (apply below_fresh_None; [done|lia]). simpl. lia.
Qed.

Lemma link_new_spec k size prev b bp :
  below_fresh bp → store bp !! prev = Some b → next b = None →
  wp (link_new k size prev) (λ _ bp', ∃ l, length l = k ∧ extends size prev l bp bp' ∧
    chain (store bp') (Some prev) (prev :: l) ∧ below_fresh bp') bp.
Proof.
  revert prev b bp. induction k as [|k IH]; intros prev b bp Hbf Hp Hn.
  { cbn [link_new]. wp_step. exists []. split; [done|]. split; [split; try done; try lia|].
    - split; [constructor|]. by intros q ?%elem_of_nil.
    - intros b' Hb'. exists (next b'). rewrite Hb'. by destruct b'.
    - auto.
    - simpl. lia.
    - split; [|done]. simpl. eauto. }
  cbn [link_new]. unfold new_buffer. wp_steps. pose proof (Hbf prev b Hp) as Hlt.
  set (bp1 := BufferPool _ _ _ _). assert (Hpp : fresh_ptr bp ≠ prev) by (intros Heq; rewrite Heq in Hlt; lia).
  apply (wp_buf_at prev b); [simpl; by rewrite lookup_insert_ne|].
  wp_step. apply wp_buf_put. set (bp2 := set_store _ bp1).
  assert (Hbf2 : below_fresh bp2).
  { intros q c. simpl. intros [[<- _]|[_ [[<- _]|[_ Hq]]%lookup_insert_Some]]%lookup_insert_Some; [lia|lia|].
    apply Hbf in Hq. lia. }
  eapply wp_mono; [apply (IH (fresh_ptr bp) (io_buffer_new size) bp2 Hbf2); [|done]|].
  { simpl. by rewrite lookup_insert_ne, lookup_insert_eq. }
  intros _ bp' (l & Hl & Hext & Hch & Hbf'). exists (fresh_ptr bp :: l). split; [simpl; lia|].
  destruct (extends_cons size prev b l bp bp2 bp') as [? Hprev]; try done.
  split; [done|]. split; [|done]. split; [done|]. by eexists.
Qed.

Lemma pool_inv_below_fresh cs bp fl : pool_inv_on cs bp fl → below_fresh bp.
Proof. intros Hi q b Hq. by apply (inv_store _ _ Hi) in Hq as [? _]. Qed.

(** A pool extended by one more free list. *)
Lemma pool_inv_add cs bp fl c p l bp1 bp' kb :
  pool_inv_on cs bp fl → c ∈ classes → c ∉ cs → p = fresh_ptr bp →
  bp1 = BufferPool (<[p := io_buffer_new c]> (store bp)) (Pos.succ p)
          (<[c := Some p]> (_pool bp)) (_total_mem bp) →
  extends c p l bp1 bp' → chain (store bp') (Some p) (p :: l) →
  kb = Z.of_nat (S (length l)) * (c / 1024) → _total_mem bp + kb < EXTRA_MEM_LIMIT →
  pool_inv_on (c :: cs) (set_total_mem (_total_mem bp + kb) bp') (upd fl c (p :: l)).
Proof.
  intros Hi Hc Hcs Hp -> [] Hch Hkb Hlim. simpl in *.
  pose proof (pool_inv_below_fresh _ _ _ Hi) as Hbf.
  destruct (ext_prev0 (io_buffer_new c)) as [n Hpn]; [by rewrite lookup_insert_eq|].
  destruct ext_new0 as [Hnd Hl]. simpl in Hl.
  assert (Hold : ∀ q b, store bp !! q = Some b → store bp' !! q = Some b).
  { intros q b Hq. pose proof (Hbf q b Hq). rewrite ext_old0 by (lia || (intros Hqp; lia)).
    by rewrite lookup_insert_ne by (intros Hqp; lia). }
  pose proof (inv_limit _ _ Hi). pose proof (class_range c Hc).
  pose proof (Z.div_pos c 1024).
  assert (Hne : ∀ c', c' ∈ c :: cs → c' ≠ c → c' ∈ cs).
  { intros c' [->|?]%elem_of_cons ?; done. }
  split; simpl.
  - intros c' Hc'. rewrite ext_pool0. destruct (decide (c' = c)) as [->|Hn].
    + rewrite upd_eq, lookup_insert_eq. by eexists.
    + rewrite upd_ne, lookup_insert_ne by done.
      destruct (inv_lists _ _ Hi c') as (first & Hf & Hchain); [by apply Hne|].
      exists first. split; [done|]. revert Hchain. apply chain_frame. eauto.
  - intros c' q Hc' Hq. destruct (decide (c' = c)) as [->|Hn].
    + rewrite upd_eq in Hq. apply elem_of_cons in Hq as [->|Hq]; [|by apply Hl].
      eexists. split; [exact Hpn|done].
    + rewrite upd_ne in Hq by done.
      destruct (inv_free _ _ Hi c' q) as (b & Hb & Hrest); [by apply Hne|done|]. eauto.
  - intros c' Hc'. destruct (decide (c' = c)) as [->|Hn].
    + rewrite upd_eq. apply NoDup_cons. split; [|done]. intros [? _]%Hl. lia.
    + rewrite upd_ne by done. apply (inv_nodup _ _ Hi). by apply Hne.
  - intros q b Hq. destruct (ext_keys0 q b Hq) as [Hqp|[Hql|Hq1]].
    + rewrite Hqp, Hpn in Hq. injection Hq as <-. rewrite Hqp. split; [lia|exact Hc].
    + destruct (Hl q Hql) as ([_ ?] & b' & Hb' & Hcap & _). simplify_eq. split; [lia|done].
    + apply lookup_insert_Some in Hq1 as [[<- <-]|[_ Hq1]]; [split; [lia|done]|].
      apply (inv_store _ _ Hi) in Hq1 as [? ?]. split; [lia|done].
  - rewrite ext_kb0, total_kb_insert, <- (inv_mem _ _ Hi).
    + simpl. lia.
    + apply below_fresh_None; [done|lia].
  - nia.
Qed.

Lemma preallocate_spec cs bp fl c kb n :
  pool_inv_on cs bp fl → c ∈ classes → c ∉ cs → kb = c / 1024 → 0 < n →
  _total_mem bp + kb * n < EXTRA_MEM_LIMIT →
  wp (preallocate c kb n) (λ _ bp', ∃ l, Z.of_nat (length l) = n ∧
    pool_inv_on (c :: cs) bp' (upd fl c l) ∧
    _total_mem bp' = _total_mem bp + kb * n) bp.
Proof.
  intros Hi Hc Hcs Hkb Hn Hlim. unfold preallocate, new_buffer, pool_put. wp_steps.
  set (p := fresh_ptr bp). set (bp1 := set_pool _ _).
  pose proof (pool_inv_below_fresh _ _ _ Hi) as Hbf.
  assert (Hbf1 : below_fresh bp1).
  { intros q b. simpl. intros [[<- _]|[_ Hq]]%lookup_insert_Some; [lia|].
    apply Hbf in Hq. lia. }
  eapply wp_mono; [apply (link_new_spec (Z.to_nat n - 1) c p (io_buffer_new c) bp1 Hbf1); [|done]|].
  { simpl. by rewrite lookup_insert_eq. }
  intros _ bp' (l & Hl & Hext & Hch & _). unfold add_total_mem. wp_steps.
  rewrite (ext_mem _ _ _ _ _ Hext). simpl.
  pose proof (inv_limit _ _ Hi). pose proof (class_range c Hc). pose proof (Z.div_pos c 1024).
  assert (0 ≤ kb * n) by nia.
  rewrite u64_small by (unfold EXTRA_MEM_LIMIT in *; lia).
  exists (p :: l). split; [simpl; lia|]. split; [|done].
  apply (pool_inv_add cs bp fl c p l bp1); try done.
  rewrite Hkb. replace (Z.of_nat (S (length l))) with n by lia. lia.
Qed.

(** The buffers the constructor creates, per class: sizes in KB and counts. *)
Definition pool_counts : list (Z * Z) :=
  [(u4K, 5000); (u16K, 1000); (u64K, 500); (u256K, 200); (u1M, 50); (u4M, 20); (u8M, 10)].

Lemma empty_pool_inv : pool_inv_on [] empty_pool (λ _, []).
Proof. split; try done; by intros ? ?%elem_of_nil || by intros ? ? ?%elem_of_nil. Qed.

Lemma pool_inv_classes cs bp fl :
  pool_inv_on cs bp fl → (∀ c, c ∈ classes → c ∈ cs) → pool_inv bp fl.
Proof. intros [] Hcs. split; eauto. Qed.
