(* ===== verification/TcpBuffer.v ===== *)
(** * Contents of the buffers

    What a [tcp_buffer] holds is a list of bytes, found in the array of its
    [io_buffer] at [head].  The operations of [io_buffer], [tcp_buffer],
    [input_buffer] and [output_buffer] are specified on those lists, under the
    invariant of the pool. *)
From S2P Require Import Prelude Kernel IoBuffer BufferPool.

(** ** The array *)

Lemma data_read_Some off n b bs :
  data_read off n b = Some bs ↔
    0 ≤ off ∧ off + n ≤ capacity b ∧ n = Z.of_nat (length bs) ∧
    ∀ i : nat, (i < length bs)%nat → data b !! (off + Z.of_nat i) = bs !! i.
Proof.
  unfold data_read. destruct (Z.leb_spec 0 off), (Z.leb_spec 0 n), (Z.leb_spec (off + n) (capacity b));
    simpl; try (split; [done|lia]).
  rewrite mapM_Some. split.
  - intros Hf. pose proof (Forall2_length _ _ _ Hf) as Hlen. rewrite length_seqZ in Hlen.
    split_and!; [done|done|lia|]. intros i Hi.
    destruct (lookup_lt_is_Some_2 bs i Hi) as [x Hx].
    destruct (Forall2_lookup_r _ _ _ _ _ Hf Hx) as (z & Hz & Hd).
    apply lookup_seqZ in Hz as [-> _]. by rewrite Hd.
  - intros (_ & _ & -> & Hi). apply Forall2_same_length_lookup. split.
    + rewrite length_seqZ. lia.
    + intros i z y Hz Hy. apply lookup_seqZ in Hz as [-> _].
      rewrite Hi; [done|]. by eapply lookup_lt_Some.
Qed.

Lemma data_write_Some off bs b :
  0 ≤ off → off + Z.of_nat (length bs) ≤ capacity b →
  data_write off bs b = Some (set_data (map_seqZ off bs ∪ data b) b).
Proof.
  intros. unfold data_write.
  destruct (Z.leb_spec 0 off), (Z.leb_spec (off + Z.of_nat (length bs)) (capacity b)); by (done || lia).
Qed.

Lemma data_read_app off b xs ys :
  data_read off (Z.of_nat (length xs)) b = Some xs →
  data_read (off + Z.of_nat (length xs)) (Z.of_nat (length ys)) b = Some ys →
  data_read off (Z.of_nat (length (xs ++ ys))) b = Some (xs ++ ys).
Proof.
  rewrite !data_read_Some, length_app. intros (? & ? & _ & Hx) (? & ? & _ & Hy).
  split_and!; try lia. intros i Hi. destruct (decide (i < length xs)%nat).
  - rewrite lookup_app_l by done. by apply Hx.
  - rewrite lookup_app_r by lia. rewrite <- Hy by lia. f_equal. lia.
Qed.

Lemma data_read_drop off n b bs k :
  data_read off n b = Some bs → (k ≤ length bs)%nat →
  data_read (off + Z.of_nat k) (n - Z.of_nat k) b = Some (drop k bs).
Proof.
  rewrite !data_read_Some, length_drop. intros (? & ? & -> & Hi) Hk.
  split_and!; try lia. intros i Hlt. rewrite lookup_drop, <- Hi by lia. f_equal. lia.
Qed.

Lemma data_read_take off n b bs k :
  data_read off n b = Some bs → (k ≤ length bs)%nat →
  data_read off (Z.of_nat k) b = Some (take k bs).
Proof.
  rewrite !data_read_Some, length_take. intros (? & ? & -> & Hi) Hk.
  split_and!; try lia. intros i Hlt. rewrite lookup_take_lt by lia. apply Hi. lia.
Qed.

(** Reading back what was written. *)
Lemma data_read_write off bs b :
  0 ≤ off → off + Z.of_nat (length bs) ≤ capacity b →
  data_read off (Z.of_nat (length bs)) (set_data (map_seqZ off bs ∪ data b) b) = Some bs.
Proof.
  intros. apply data_read_Some. split_and!; try done. intros i Hi. simpl.
  destruct (lookup_lt_is_Some_2 bs i Hi) as [x Hx]. rewrite Hx.
  apply lookup_union_Some_l. rewrite lookup_map_seqZ.
  rewrite option_guard_True by lia. by replace (Z.to_nat (off + Z.of_nat i - off)) with i by lia.
Qed.

(** A write behind a range does not change it. *)
Lemma data_read_write_before off n off' bs b xs :
  data_read off n b = Some xs → off + n ≤ off' →
  data_read off n (set_data (map_seqZ off' bs ∪ data b) b) = Some xs.
Proof.
  rewrite !data_read_Some. intros (? & ? & -> & Hi) Ho. split_and!; try done.
  intros i Hlt. simpl. rewrite <- Hi by done. apply lookup_union_r.
  rewrite lookup_map_seqZ. rewrite option_guard_False; [done|lia].
Qed.

(** The fields other than [data] do not matter. *)
Lemma data_read_ext off n b b' :
  capacity b' = capacity b → data b' = data b → data_read off n b' = data_read off n b.
Proof. unfold data_read. by intros -> ->. Qed.

(** ** Contents of a buffer *)

Definition contents (b : io_buffer) (bs : list byte) : Prop :=
  b_length b = Z.of_nat (length bs) ∧ data_read (head b) (b_length b) b = Some bs.

Lemma contents_bounds b bs :
  contents b bs → 0 ≤ head b ∧ head b + Z.of_nat (length bs) ≤ capacity b.
Proof. intros [Hl Hr]. rewrite Hl in Hr. apply data_read_Some in Hr. lia. Qed.

Lemma contents_nil b : b_length b = 0 → 0 ≤ head b ≤ capacity b → contents b [].
Proof.
  intros Hl ?. split; [done|]. rewrite Hl. apply data_read_Some. simpl.
  split_and!; by (lia || intros i Hi; lia).
Qed.

Lemma contents_take_read b bs k :
  contents b bs → (k ≤ length bs)%nat → data_read (head b) (Z.of_nat k) b = Some (take k bs).
Proof. intros [Hl Hr] Hk. by eapply data_read_take. Qed.

(** [io_pop] *)
Lemma contents_pop b bs k :
  contents b bs → (k ≤ length bs)%nat →
  contents (set_extent (b_length b - Z.of_nat k) (head b + Z.of_nat k) b) (drop k bs).
Proof.
  intros [Hl Hr] Hk. split; simpl; [rewrite length_drop; lia|].
  rewrite (data_read_ext _ _ b) by done. by apply data_read_drop.
Qed.

(** The same bytes at the start of the array: [io_adjust] and [io_copy]. *)
Lemma contents_move b bs n :
  Z.of_nat (length bs) ≤ capacity b → n = Z.of_nat (length bs) →
  contents (set_extent n 0 (set_data (map_seqZ 0 bs ∪ data b) b)) bs.
Proof.
  intros Hc ->. split; [done|]. simpl.
  rewrite (data_read_ext _ _ (set_data (map_seqZ 0 bs ∪ data b) b)) by done.
  apply data_read_write; lia.
Qed.

(** [append] *)
Lemma contents_append b bs ys n :
  contents b bs → head b = 0 →
  Z.of_nat (length bs) + Z.of_nat (length ys) ≤ capacity b →
  n = Z.of_nat (length bs) + Z.of_nat (length ys) →
  contents (set_extent n 0 (set_data (map_seqZ (b_length b) ys ∪ data b) b)) (bs ++ ys).
Proof.
  intros [Hl Hr] Hh Hc ->. split; [simpl; rewrite length_app; lia|]. simpl.
  rewrite (data_read_ext _ _ (set_data (map_seqZ (b_length b) ys ∪ data b) b)) by done.
  rewrite Hh, Hl in *.
  replace (Z.of_nat (length bs) + Z.of_nat (length ys)) with (Z.of_nat (length (bs ++ ys)))
    by (rewrite length_app; lia).
  apply data_read_app; [apply data_read_write_before; [done|lia]|].
  rewrite Z.add_0_l. apply data_read_write; lia.
Qed.

(** ** What an operation on one buffer may do to the pool

    [step own own' bp bp' fl fl']: the operation took the buffer [own] and
    leaves the buffer [own'] in its place.  Every buffer some other client
    holds is still held and has not changed, and [own'] is none of them. *)
Record step (own own' : option ptr) (bp bp' : buffer_pool) (fl fl' : Z → list ptr) : Prop := {
  step_inv : pool_inv bp' fl';
  step_keeps q b : own ≠ Some q → held bp fl q → store bp !! q = Some b →
    held bp' fl' q ∧ store bp' !! q = Some b;
  step_own q : own' = Some q → own = Some q ∨ ¬ held bp fl q;
}.

(** The [tcp_buffer] [buf] holds [bs]. *)
Definition tbuf (bp : buffer_pool) (fl : Z → list ptr) (buf : option ptr) (bs : list byte) : Prop :=
  match buf with
  | None => bs = []
  | Some p => held bp fl p ∧ ∃ b, store bp !! p = Some b ∧ contents b bs
  end.

(** Its data starts at the beginning of the array. *)
Definition at_start (bp : buffer_pool) (buf : option ptr) : Prop :=
  ∀ p b, buf = Some p → store bp !! p = Some b → head b = 0.

Lemma step_refl own bp fl : pool_inv bp fl → step own own bp bp fl fl.
Proof. intros. split; auto. Qed.

Lemma step_trans o1 o2 o3 bp1 bp2 bp3 fl1 fl2 fl3 :
  step o1 o2 bp1 bp2 fl1 fl2 → step o2 o3 bp2 bp3 fl2 fl3 → step o1 o3 bp1 bp3 fl1 fl3.
Proof.
  intros [Hi1 Hk1 Ho1] [Hi2 Hk2 Ho2]. split; [done| |].
  - intros q b Hne Hq Hb. destruct (Hk1 q b Hne Hq Hb) as [Hq2 Hb2].
    apply Hk2; [|done..]. intros ->. by destruct (Ho1 q eq_refl).
  - intros q Hq. destruct (decide (o1 = Some q)); [by left|]. right. intros Hheld.
    pose proof Hheld as [[b Hb] _]. destruct (Hk1 q b) as [Hq2 _]; [done..|].
    destruct (Ho2 q Hq) as [->|]; [|done]. by destruct (Ho1 q eq_refl).
Qed.

(** Two clients do not share a buffer. *)
Definition apart (a b : option ptr) : Prop := ∀ p, a = Some p → b ≠ Some p.

(** The buffer another client holds. *)
Lemma step_tbuf own own' other bp bp' fl fl' bs :
  step own own' bp bp' fl fl' → apart other own →
  tbuf bp fl other bs → tbuf bp' fl' other bs.
Proof.
  intros [_ Hk _] Hne. destruct other as [q|]; [|done]. intros [Hq (b & Hb & Hc)].
  destruct (Hk q b) as [? ?]; [by apply Hne|done..|]. split; [done|eauto].
Qed.

Lemma step_at_start own own' other bp bp' fl fl' bs :
  step own own' bp bp' fl fl' → apart other own →
  tbuf bp fl other bs → at_start bp other → at_start bp' other.
Proof.
  intros [_ Hk _] Hne Ht Hs p b -> Hb. destruct Ht as [Hh (b0 & Hb0 & _)].
  destruct (Hk p b0) as [_ Hb']; [by apply Hne|done..|]. simplify_eq. by eapply Hs.
Qed.

Lemma step_apart own own' other bp bp' fl fl' bs :
  step own own' bp bp' fl fl' → apart other own → tbuf bp fl other bs → apart other own'.
Proof.
  intros [_ _ Ho] Hne Ht p -> Hp. destruct Ht as [Hh _].
  destruct (Ho p Hp) as [->|]; [by apply (Hne p)|done].
Qed.

Lemma tbuf_held bp fl buf bs p : tbuf bp fl buf bs → buf = Some p → held bp fl p.
Proof. by intros Ht ->; destruct Ht. Qed.

(** ** Changing a held buffer in place *)

Lemma pool_inv_update bp fl p b b' :
  pool_inv bp fl → held bp fl p → store bp !! p = Some b → capacity b' = capacity b →
  step (Some p) (Some p) bp (set_store (<[p := b']> (store bp)) bp) fl fl.
Proof.
  intros Hi [_ Hh] Hb Hcap. split; [split; simpl| |by intros q [= ->]; left]; [..|apply Hi|].
  - intros c Hc. destruct (inv_lists _ _ Hi c Hc) as (first & Hf & Hch).
    exists first. split; [done|]. apply chain_insert_ne; [by apply Hh|done].
  - intros c q Hc Hq. rewrite lookup_insert_ne; [by apply (inv_free _ _ Hi)|].
    intros ->. by apply (Hh c).
  - apply Hi.
  - intros q b0 [[<- <-]|[_ Hq]]%lookup_insert_Some.
    + rewrite Hcap. by apply (inv_store _ _ Hi p b).
    + by eapply (inv_store _ _ Hi).
  - rewrite (total_kb_update _ p b) by done. by apply (inv_mem _ _ Hi).
  - intros q b0 Hne [Hs Hfree] Hq. assert (q ≠ p) by congruence.
    split; [split; [|done]|]; simpl; rewrite lookup_insert_ne by done; [by eexists|done].
Qed.

Lemma tbuf_update bp fl p b' bs :
  held bp fl p → contents b' bs →
  tbuf (set_store (<[p := b']> (store bp)) bp) fl (Some p) bs.
Proof.
  intros [_ Hh] Hc. split; [split; [|done]|exists b'; split; [|done]]; simpl;
    rewrite lookup_insert_eq; [by eexists|done].
Qed.

Lemma at_start_update bp p b' :
  head b' = 0 → at_start (set_store (<[p := b']> (store bp)) bp) (Some p).
Proof. intros Hh q b [= <-]. simpl. rewrite lookup_insert_eq. by intros [= <-]. Qed.

Lemma store_range bp fl p b bs :
  pool_inv bp fl → store bp !! p = Some b → contents b bs →
  4096 ≤ capacity b ≤ 8388608 ∧ 0 ≤ b_length b ∧ b_length b = Z.of_nat (length bs) ∧
  0 ≤ head b ∧ head b + b_length b ≤ capacity b.
Proof.
  intros Hi Hb Hc. apply (inv_store _ _ Hi) in Hb as [_ Hcl].
  pose proof (class_range _ Hcl). pose proof (contents_bounds _ _ Hc).
  destruct Hc as [Hl _]. lia.
Qed.

(** ** The operations *)

Lemma data_read_contents b bs :
  contents b bs → data_read (head b) (b_length b) b = Some bs.
Proof. by intros [_ ?]. Qed.

Lemma wp_io_pop p b bs bp (k : nat) (Q : unit → buffer_pool → Prop) :
  store bp !! p = Some b → contents b bs → (k ≤ length bs)%nat → capacity b ≤ u8M →
  (let b' := set_extent (b_length b - Z.of_nat k) (head b + Z.of_nat k) b in
   contents b' (drop k bs) → Q tt (set_store (<[p := b']> (store bp)) bp)) →
  wp (io_pop p (Z.of_nat k)) Q bp.
Proof.
  intros Hb Hc Hk Hcap HQ. unfold io_pop, u8M in *.
  pose proof (contents_bounds _ _ Hc). pose proof (proj1 Hc).
  wp_step. eapply wp_buf_at; [done|].
  wp_step. apply wp_cint; [int_lia|]. wp_step. apply wp_cint; [int_lia|].
  apply wp_buf_put, HQ. by apply contents_pop.
Qed.

Lemma wp_io_adjust p b bs bp (Q : unit → buffer_pool → Prop) :
  store bp !! p = Some b → contents b bs →
  (head b = 0 → Q tt bp) →
  (∀ b', contents b' bs → head b' = 0 → capacity b' = capacity b →
     Q tt (set_store (<[p := b']> (store bp)) bp)) →
  wp (io_adjust p) Q bp.
Proof.
  intros Hb Hc HQ0 HQ. unfold io_adjust. pose proof (contents_bounds _ _ Hc).
  wp_step. eapply wp_buf_at; [done|].
  apply wp_when; [|intros Hh%bool_decide_eq_false; apply HQ0; by destruct (decide (head b = 0))].
  intros _. wp_step. apply wp_if; intros Hl.
  - wp_step. eapply wp_from_option; [by apply data_read_contents|].
    eapply wp_from_option; [apply data_write_Some; lia|].
    apply wp_buf_put, HQ; [|done..]. apply contents_move; [lia|apply Hc].
  - wp_step. apply wp_buf_put, HQ; [|done..]. apply bool_decide_eq_false in Hl.
    assert (b_length b = 0) as Hl0 by (destruct (decide (b_length b = 0)); [done|tauto]).
    destruct bs as [|x bs]; [|pose proof (proj1 Hc); simpl in *; lia].
    apply contents_nil; simpl in *; lia.
Qed.

(** A new, empty buffer. *)
Lemma allocated_step c p bp bp' fl fl' :
  allocated c p bp bp' fl fl' →
  step None (Some p) bp bp' fl fl' ∧ tbuf bp' fl' (Some p) [] ∧ at_start bp' (Some p) ∧
  ∃ b, store bp' !! p = Some b ∧ capacity b = c ∧ b_length b = 0 ∧ head b = 0.
Proof.
  intros (Hi & Hh & Hn & (b & Hb & Hcap & Hl & Hhd & _) & Hs & Hf & _).
  assert (0 ≤ capacity b) by (apply (inv_store _ _ Hi) in Hb as [_ ?%class_range]; lia).
  split_and!.
  - split; [done| |by intros q [= <-]; right].
    intros q b0 _ Hq Hb0. assert (q ≠ p) by (by intros ->).
    destruct Hq as [Hsome Hfree]. rewrite Hs by done.
    split; [|done]. split; [by rewrite Hs|]. intros c' Hc' Hin. by eapply Hfree, Hf.
  - split; [done|]. exists b. split; [done|]. apply contents_nil; lia.
  - intros q b0 [= <-] Hb0. by simplify_eq.
  - eauto 6.
Qed.

Lemma class_of_Some N : N ≤ u8M → ∃ c, class_of N = Some c.
Proof.
  intros. destruct (class_of N) as [c|] eqn:Hc; [by eexists|].
  apply class_of_None in Hc. lia.
Qed.

Lemma alloc_step N bp fl :
  pool_inv bp fl → memory_left bp → N ≤ u8M →
  wp (alloc N) (λ r bp', ∃ p fl', r = Some p ∧ step None (Some p) bp bp' fl fl' ∧
    tbuf bp' fl' (Some p) [] ∧ at_start bp' (Some p) ∧
    ∃ b, store bp' !! p = Some b ∧ N ≤ capacity b ∧ b_length b = 0) bp.
Proof.
  intros Hi Hm HN. destruct (class_of_Some N HN) as [c Hc].
  destruct (class_of_spec N c Hc) as (Hin & HNc & _). pose proof (class_range c Hin).
  eapply wp_mono; [apply (alloc_spec N c bp fl Hi Hc)|].
  { intros _. unfold memory_left, u8M in *. pose proof (Z.div_le_mono c 8388608 1024). lia. }
  intros r bp' (p & fl' & -> & Ha & _). exists p, fl'. split; [done|].
  apply allocated_step in Ha as (? & ? & ? & b & ? & ? & ? & ?).
  split_and!; [done..|]. exists b. split_and!; [done|lia|done].
Qed.

(** Giving a buffer back. *)
Lemma revert_step p b bp fl :
  pool_inv bp fl → held bp fl p → store bp !! p = Some b →
  wp (revert p) (λ _ bp', ∃ fl', step (Some p) None bp bp' fl fl') bp.
Proof.
  intros Hi Hh Hb. eapply wp_mono; [by apply revert_spec|].
  intros _ bp' (Hi' & Hs & _). eexists. split; [done| |done].
  intros q b0 Hne [Hsome Hfree] Hq. assert (q ≠ p) by congruence.
  rewrite Hs by done. split; [|done]. split; [by rewrite Hs|].
  intros c Hc. unfold upd. case_decide; [|by apply Hfree]. subst.
  rewrite not_elem_of_cons. split; [done|by apply Hfree].
Qed.

Lemma wp_io_copy p q b o bs bp (Q : unit → buffer_pool → Prop) :
  store bp !! p = Some b → store bp !! q = Some o → contents o bs →
  Z.of_nat (length bs) ≤ capacity b →
  (∀ b', contents b' bs → head b' = 0 → capacity b' = capacity b →
     Q tt (set_store (<[p := b']> (store bp)) bp)) →
  wp (io_copy p q) Q bp.
Proof.
  intros Hb Ho Hc Hcap HQ. unfold io_copy.
  wp_step. eapply wp_buf_at; [done|]. wp_step. eapply wp_buf_at; [done|].
  wp_step. eapply wp_from_option; [by apply data_read_contents|].
  wp_step. eapply wp_from_option; [apply data_write_Some; lia|].
  apply wp_buf_put, HQ; [|done..]. apply contents_move; [done|apply Hc].
Qed.

(** Moving the contents of [p] to a new buffer [q] that is large enough. *)
Lemma move_step p q b c bs bp bp1 fl fl1 :
  held bp fl p → store bp !! p = Some b → contents b bs →
  step None (Some q) bp bp1 fl fl1 → tbuf bp1 fl1 (Some q) [] →
  store bp1 !! q = Some c → Z.of_nat (length bs) ≤ capacity c →
  wp (io_copy q p ;; revert p ;; mret (Some q)) (λ r bp', ∃ fl', r = Some q ∧
    step (Some p) (Some q) bp bp' fl fl' ∧ tbuf bp' fl' (Some q) bs ∧ at_start bp' (Some q) ∧
    ∃ b', store bp' !! q = Some b' ∧ capacity b' = capacity c) bp1.
Proof.
  intros Hh Hb Hc Hst Htq Hcq Hcap.
  assert (Hpq : p ≠ q).
  { intros ->. by destruct (step_own _ _ _ _ _ _ Hst q eq_refl). }
  destruct (step_keeps _ _ _ _ _ _ Hst p b) as [Hh1 Hb1]; [done..|].
  pose proof (tbuf_held _ _ _ _ q Htq eq_refl) as Hhq.
  wp_step. eapply wp_io_copy; [exact Hcq|exact Hb1|exact Hc|lia|].
  intros c' Hc' Hhd' Hcap'. set (bp2 := set_store _ _).
  assert (Hst2 : step (Some q) (Some q) bp1 bp2 fl1 fl1).
  { eapply pool_inv_update; [apply Hst|done..]. }
  destruct (step_keeps _ _ _ _ _ _ Hst2 p b) as [Hh2 Hb2]; [congruence|done..|].
  wp_step. eapply wp_mono; [eapply revert_step; [apply Hst2|done..]|].
  intros [] bp3 (fl3 & Hst3). wp_steps. exists fl3. split; [done|].
  assert (apart (Some q) (Some p)) by (intros ? [= <-]; congruence).
  assert (tbuf bp2 fl1 (Some q) bs) by (by apply tbuf_update).
  assert (Hq2 : store bp2 !! q = Some c') by (simpl; by rewrite lookup_insert_eq).
  destruct (step_keeps _ _ _ _ _ _ Hst3 q c') as [? Hq3]; [congruence|by split; [eexists|apply Hhq]|done|].
  split_and!.
  - split; [apply Hst3| |].
    + intros x d Hne Hx Hd. destruct (step_keeps _ _ _ _ _ _ Hst x d) as [Hx1 Hd1]; [done..|].
      assert (x ≠ q) by (intros ->; by destruct (step_own _ _ _ _ _ _ Hst q eq_refl)).
      destruct (step_keeps _ _ _ _ _ _ Hst2 x d) as [? ?]; [congruence|done..|].
      by apply (step_keeps _ _ _ _ _ _ Hst3).
    + intros x [= <-]. right. by destruct (step_own _ _ _ _ _ _ Hst q eq_refl).
  - by eapply step_tbuf.
  - intros x d [= <-] Hd. by simplify_eq.
  - by exists c'.
Qed.

(** The part of [reserve] that replaces the buffer. *)
Lemma replace_step n p b bs bp fl :
  pool_inv bp fl → held bp fl p → store bp !! p = Some b → contents b bs →
  memory_left bp → n ≤ u8M → Z.of_nat (length bs) ≤ n →
  wp (new_buf ← alloc n;
      match new_buf with
      | None => mret None
      | Some q => io_copy q p ;; revert p ;; mret (Some q)
      end) (λ r bp', ∃ q fl', r = Some q ∧ step (Some p) (Some q) bp bp' fl fl' ∧
    tbuf bp' fl' (Some q) bs ∧ at_start bp' (Some q) ∧
    ∃ b', store bp' !! q = Some b' ∧ n ≤ capacity b') bp.
Proof.
  intros Hi Hh Hb Hc Hm Hn Hlen. wp_step.
  eapply wp_mono; [by apply alloc_step|].
  intros r bp1 (q & fl1 & -> & Hst & Htq & _ & c & Hcq & Hcap & _).
  eapply wp_mono; [eapply (move_step p q b c bs); try done; lia|].
  intros r bp' (fl' & -> & ? & ? & ? & b' & ? & Hb'). exists q, fl'. split_and!; [done..|].
  exists b'. split; [done|lia].
Qed.

(** [reserve]: room for [n] more bytes, with the contents unchanged. *)
Lemma reserve_spec buf n bs bp fl :
  pool_inv bp fl → tbuf bp fl buf bs → at_start bp buf → memory_left bp →
  0 ≤ n → Z.of_nat (length bs) + n ≤ u8M →
  wp (reserve buf n) (λ r bp', ∃ p fl', r = Some p ∧ step buf (Some p) bp bp' fl fl' ∧
    tbuf bp' fl' (Some p) bs ∧ at_start bp' (Some p) ∧
    ∃ b, store bp' !! p = Some b ∧ Z.of_nat (length bs) + n ≤ capacity b) bp.
Proof.
  intros Hi Ht Hs Hm Hn Hmax. unfold u8M in *. unfold reserve. destruct buf as [p|].
  - destruct Ht as [Hh (b & Hb & Hc)].
    pose proof (store_range _ _ _ _ _ Hi Hb Hc).
    wp_step. eapply wp_buf_at; [done|]. wp_step.
    apply wp_assert; [apply bool_decide_eq_true; by apply (Hs p)|].
    wp_step. apply wp_cint; [int_lia|]. apply wp_if; intros Hroom.
    + wp_step. apply wp_cint; [int_lia|].
      eapply wp_mono; [eapply (replace_step _ p b bs); try done; unfold u8M; lia|].
      intros r bp' (q & fl' & -> & ? & ? & ? & b' & ? & ?). exists q, fl'.
      split_and!; try done. exists b'. split; [done|lia].
    + wp_steps. apply Z.ltb_ge in Hroom. exists p, fl.
      split_and!; [done|by apply step_refl|by split; eauto|done|]. exists b. split; [done|lia].
  - simpl in Ht. subst. eapply wp_mono; [by apply alloc_step|].
    intros r bp' (q & fl' & -> & ? & ? & ? & b' & ? & ? & _). exists q, fl'.
    split_and!; try done. exists b'. by split.
Qed.

(** A request that no class can hold leaves everything as it was. *)
Lemma reserve_too_large buf n bs bp fl :
  pool_inv bp fl → tbuf bp fl buf bs → at_start bp buf →
  u8M < Z.of_nat (length bs) + n ≤ INT_MAX → reserve buf n bp = Ok (None, bp).
Proof.
  intros Hi Ht Hs Hn. cut (wp (reserve buf n) (λ r bp', r = None ∧ bp' = bp) bp).
  { rewrite wp_elim. by intros (r & bp' & -> & -> & ->). }
  unfold u8M, reserve in *. destruct buf as [p|].
  - destruct Ht as [Hh (b & Hb & Hc)]. pose proof (store_range _ _ _ _ _ Hi Hb Hc).
    wp_step. eapply wp_buf_at; [done|]. wp_step.
    apply wp_assert; [apply bool_decide_eq_true; by apply (Hs p)|].
    wp_step. apply wp_cint; [int_lia|]. apply wp_if; intros Hroom; [|apply Z.ltb_ge in Hroom; lia].
    wp_step. apply wp_cint; [int_lia|]. unfold wp.
    rewrite (bind_ok _ _ _ None bp); [done|]. apply alloc_too_large. unfold u8M. lia.
  - simpl in Ht. subst. unfold wp. rewrite alloc_too_large; [done|]. unfold u8M. simpl in *. lia.
Qed.

(** [append] adds bytes behind the contents. *)
Lemma append_spec p b bs ys bp fl :
  pool_inv bp fl → held bp fl p → store bp !! p = Some b → contents b bs → head b = 0 →
  Z.of_nat (length bs) + Z.of_nat (length ys) ≤ capacity b →
  wp (append p ys) (λ _ bp', step (Some p) (Some p) bp bp' fl fl ∧
    tbuf bp' fl (Some p) (bs ++ ys) ∧ at_start bp' (Some p)) bp.
Proof.
  intros Hi Hh Hb Hc Hhd Hcap. unfold append.
  pose proof (store_range _ _ _ _ _ Hi Hb Hc).
  wp_step. eapply wp_buf_at; [done|].
  wp_step. eapply wp_from_option; [apply data_write_Some; lia|].
  wp_step. apply wp_cint; [int_lia|]. apply wp_buf_put.
  split_and!.
  - by eapply pool_inv_update.
  - apply tbuf_update; [done|]. cbn [head set_data]. rewrite Hhd.
    apply contents_append; [done..|lia].
  - by apply at_start_update.
Qed.

Lemma take_bytes_all bs : take_bytes bs (Z.of_nat (length bs)) = Some bs.
Proof.
  unfold take_bytes. destruct (Z.leb_spec 0 (Z.of_nat (length bs))); [|lia].
  rewrite Z.leb_refl. simpl. by rewrite Nat2Z.id, firstn_all.
Qed.

(** [reserve] and [append] together, for [send_data] and [read_data]. *)
Lemma reserve_append_spec buf bs ys bp fl :
  pool_inv bp fl → tbuf bp fl buf bs → at_start bp buf → memory_left bp →
  Z.of_nat (length bs) + Z.of_nat (length ys) ≤ u8M →
  wp (reserve buf (Z.of_nat (length ys))) (λ r bp1, ∃ p, r = Some p ∧
    (∃ fl1, step buf (Some p) bp bp1 fl fl1 ∧ tbuf bp1 fl1 (Some p) bs ∧
      at_start bp1 (Some p)) ∧
    wp (append p ys) (λ _ bp', ∃ fl', step buf (Some p) bp bp' fl fl' ∧
      tbuf bp' fl' (Some p) (bs ++ ys) ∧ at_start bp' (Some p)) bp1) bp.
Proof.
  intros Hi Ht Hs Hm Hmax. eapply wp_mono; [apply reserve_spec; try done; lia|].
  intros r bp1 (p & fl1 & -> & Hst & [Hh (b & Hb & Hc)] & Hs1 & b' & Hb' & Hcap).
  rewrite Hb in Hb'. injection Hb' as <-. exists p. split; [done|].
  split; [exists fl1; split_and!; [done|split; eauto|done]|].
  eapply wp_mono; [apply (append_spec p b bs ys bp1 fl1); try done; [apply Hst|by eapply Hs1]|].
  intros [] bp' (Hst' & ? & ?). exists fl1. split; [by eapply step_trans|done].
Qed.

Lemma obuf_send_data_spec buf bs dat bp fl :
  pool_inv bp fl → tbuf bp fl buf bs → at_start bp buf → memory_left bp →
  Z.of_nat (length bs) + Z.of_nat (length dat) ≤ u8M →
  wp (obuf_send_data buf dat (Z.of_nat (length dat))) (λ r bp', ∃ p fl', r = (Some p, 0) ∧
    step buf (Some p) bp bp' fl fl' ∧
    tbuf bp' fl' (Some p) (bs ++ dat) ∧ at_start bp' (Some p)) bp.
Proof.
  intros Hi Ht Hs Hm Hmax. unfold obuf_send_data. wp_step.
  eapply wp_mono; [by eapply reserve_append_spec|].
  intros r bp1 (p & -> & _ & Happ). wp_step. eapply wp_from_option; [apply take_bytes_all|].
  wp_step. eapply wp_mono; [exact Happ|].
  intros [] bp' (fl' & ? & ? & ?). wp_steps. by exists p, fl'.
Qed.

Lemma obuf_send_data_too_large buf bs dat n bp fl :
  pool_inv bp fl → tbuf bp fl buf bs → at_start bp buf →
  u8M < Z.of_nat (length bs) + n ≤ INT_MAX →
  obuf_send_data buf dat n bp = Ok ((buf, -1), bp).
Proof.
  intros. unfold obuf_send_data.
  rewrite (bind_ok _ _ _ None bp); [done|]. by eapply reserve_too_large.
Qed.

(** [tbuf_pop]: the first [k] bytes go; an emptied buffer returns to the pool. *)
Lemma tbuf_pop_spec p bs k bp fl :
  pool_inv bp fl → tbuf bp fl (Some p) bs → (k ≤ length bs)%nat →
  wp (tbuf_pop (Some p) (Z.of_nat k)) (λ r bp', ∃ fl',
    r = (if decide (k = length bs) then None else Some p) ∧
    step (Some p) r bp bp' fl fl' ∧ tbuf bp' fl' r (drop k bs)) bp.
Proof.
  intros Hi [Hh (b & Hb & Hc)] Hk. unfold tbuf_pop.
  pose proof (store_range _ _ _ _ _ Hi Hb Hc).
  wp_step. eapply wp_buf_at; [done|]. wp_step. apply wp_assert; [apply Z.leb_le; lia|].
  wp_step. eapply wp_io_pop; [done..|unfold u8M; lia|]. intros b' Hc'. set (bp1 := set_store _ _).
  assert (Hb1 : store bp1 !! p = Some b') by (simpl; by rewrite lookup_insert_eq).
  assert (Hst : step (Some p) (Some p) bp bp1 fl fl) by (by eapply pool_inv_update).
  assert (Ht : tbuf bp1 fl (Some p) (drop k bs)) by (by apply tbuf_update).
  wp_step. eapply wp_buf_at; [exact Hb1|].
  assert (Hl : b_length b' = Z.of_nat (length bs) - Z.of_nat k) by (simpl; lia).
  apply wp_if; intros Hz.
  - apply bool_decide_eq_true in Hz. wp_step.
    eapply wp_mono; [eapply revert_step; [apply Hst|apply Ht|exact Hb1]|].
    intros [] bp2 (fl2 & Hst2). wp_steps. exists fl2. rewrite decide_True by lia.
    split_and!; [done|by eapply step_trans|]. simpl. apply drop_ge. lia.
  - apply bool_decide_eq_false in Hz. wp_steps. exists fl. rewrite decide_False by lia.
    by split_and!.
Qed.

(** Popping less than everything moves [head]. *)
Lemma tbuf_pop_head p b bs k bp fl :
  pool_inv bp fl → store bp !! p = Some b → contents b bs → (k < length bs)%nat →
  wp (tbuf_pop (Some p) (Z.of_nat k)) (λ r bp', ∃ b', r = Some p ∧
    store bp' !! p = Some b' ∧ head b' = head b + Z.of_nat k) bp.
Proof.
  intros Hi Hb Hc Hk. unfold tbuf_pop. pose proof (store_range _ _ _ _ _ Hi Hb Hc).
  wp_step. eapply wp_buf_at; [done|]. wp_step. apply wp_assert; [apply Z.leb_le; lia|].
  wp_step. eapply wp_io_pop; [done..|lia|unfold u8M; lia|]. intros b' Hc'.
  assert (Hb1 : store (set_store (<[p := b']> (store bp)) bp) !! p = Some b')
    by (simpl; by rewrite lookup_insert_eq).
  wp_step. eapply wp_buf_at; [exact Hb1|]. rewrite bool_decide_eq_false_2 by (simpl; lia).
  wp_step. exists b'. by split_and!.
Qed.

Lemma tbuf_clear_spec buf bs bp fl :
  pool_inv bp fl → tbuf bp fl buf bs →
  wp (tbuf_clear buf) (λ r bp', ∃ fl', r = None ∧ step buf None bp bp' fl fl') bp.
Proof.
  intros Hi Ht. unfold tbuf_clear. destruct buf as [p|].
  - destruct Ht as [Hh (b & Hb & _)]. wp_step. eapply wp_mono; [by eapply revert_step|].
    intros [] bp' (fl' & ?). wp_steps. by exists fl'.
  - wp_steps. exists fl. split; [done|by apply step_refl].
Qed.

Lemma ibuf_adjust_spec buf bs bp fl :
  pool_inv bp fl → tbuf bp fl buf bs →
  wp (ibuf_adjust buf) (λ _ bp', step buf buf bp bp' fl fl ∧
    tbuf bp' fl buf bs ∧ at_start bp' buf) bp.
Proof.
  intros Hi Ht. unfold ibuf_adjust. destruct buf as [p|]; [|wp_steps; by split; [apply step_refl|]].
  destruct Ht as [Hh (b & Hb & Hc)]. eapply wp_io_adjust; [done..| |].
  - intros Hhd. split_and!; [by apply step_refl|by split; eauto|].
    intros q b' [= <-] Hb'. by simplify_eq.
  - intros b' Hc' Hhd Hcap. split_and!; [by eapply pool_inv_update|by apply tbuf_update|].
    by apply at_start_update.
Qed.

Lemma tbuf_length_spec buf bs bp fl (Q : Z → buffer_pool → Prop) :
  tbuf bp fl buf bs → Q (Z.of_nat (length bs)) bp → wp (tbuf_length buf) Q bp.
Proof.
  intros Ht HQ. unfold tbuf_length. destruct buf as [p|]; simpl in Ht.
  - destruct Ht as [Hh (b & Hb & Hc)]. wp_step. eapply wp_buf_at; [done|]. wp_step.
    by rewrite (proj1 Hc).
  - by subst.
Qed.

(** [ibuf_data]: the first bytes of the contents. *)
Lemma ibuf_data_spec buf bs k bp fl (Q : list byte → buffer_pool → Prop) :
  tbuf bp fl buf bs → (k ≤ length bs)%nat → Q (take k bs) bp →
  wp (ibuf_data buf (Z.of_nat k)) Q bp.
Proof.
  intros Ht Hk HQ. unfold ibuf_data. destruct buf as [p|]; simpl in Ht.
  - destruct Ht as [Hh (b & Hb & Hc)]. wp_step. eapply wp_buf_at; [done|].
    eapply wp_from_option; [by eapply contents_take_read|done].
  - subst. simpl in Hk. assert (k = 0)%nat as -> by lia. done.
Qed.

(** ** Memory

    [grows n m]: [m] takes at most [n] KB from the system. *)
Definition grows {A} (n : Z) (m : M buffer_pool A) : Prop :=
  ∀ bp a bp', 0 ≤ _total_mem bp → m bp = Ok (a, bp') →
    0 ≤ _total_mem bp' ≤ _total_mem bp + n.

Lemma grows_bind {A B} n1 n2 n (m : M buffer_pool A) (f : A → M buffer_pool B) :
  grows n1 m → (∀ a, grows n2 (f a)) → n = n1 + n2 → grows n (m ≫= f).
Proof.
  intros Hm Hf -> bp a bp' H0. unfold mbind, M_bind.
  destruct (m bp) as [[x bp1]|] eqn:Hx; [|done]. intros Ha.
  pose proof (Hm _ _ _ H0 Hx). pose proof (Hf x bp1 a bp' ltac:(lia) Ha). lia.
Qed.

Lemma grows_same {A} (m : M buffer_pool A) :
  (∀ bp a bp', m bp = Ok (a, bp') → _total_mem bp' = _total_mem bp) → grows 0 m.
Proof. intros Hm bp a bp' H0 Ha. rewrite (Hm _ _ _ Ha). lia. Qed.

Lemma grows_ret {A} (a : A) : grows 0 (mret a).
Proof. apply grows_same. by intros bp a' bp' [= _ <-]. Qed.

Lemma grows_weaken {A} n n' (m : M buffer_pool A) : grows n m → n ≤ n' → grows n' m.
Proof. intros Hm Hn bp a bp' H0 Ha. pose proof (Hm _ _ _ H0 Ha). lia. Qed.

Create HintDb memory.
Ltac grows_simple :=
  apply grows_same; intros ???; unfold buf_at, buf_put, pool_at, pool_put, new_buffer, from_option_or,
    cassert, exit_if, cint, get, put, modify, fail, mret, M_ret, mbind, M_bind;
  repeat case_match; intros; simplify_eq; try done.
Ltac grows_go :=
  repeat (first
    [ eassumption
    | solve [auto with memory]
    | eapply (grows_bind 0 0); [|intros|reflexivity]
    | case_match ]).

Lemma grows_buf_at p : grows 0 (buf_at p).
Proof. grows_simple. Qed.
Lemma grows_buf_put p b : grows 0 (buf_put p b).
Proof. grows_simple. Qed.
Lemma grows_get : grows 0 get.
Proof. grows_simple. Qed.
Lemma grows_pool_at c : grows 0 (pool_at c).
Proof. grows_simple. Qed.
Lemma grows_pool_put c p : grows 0 (pool_put c p).
Proof. grows_simple. Qed.
Lemma grows_new_buffer c : grows 0 (new_buffer c).
Proof. grows_simple. Qed.
Lemma grows_from_option {A} e (o : option A) : grows 0 (from_option_or e o).
Proof. grows_simple. Qed.
Lemma grows_cassert b : grows 0 (cassert b).
Proof. grows_simple. Qed.
Lemma grows_exit_if b : grows 0 (exit_if b).
Proof. grows_simple. Qed.
Lemma grows_cint z : grows 0 (cint z).
Proof. grows_simple. Qed.
#[export] Hint Resolve grows_ret grows_buf_at grows_buf_put grows_get grows_pool_at grows_pool_put
  grows_new_buffer grows_from_option grows_cassert grows_exit_if grows_cint : memory.

Lemma grows_alloc N : grows 8192 (alloc N).
Proof.
  unfold alloc. destruct (class_of N) as [c|] eqn:Hc; [|eapply grows_weaken; [apply grows_ret|lia]].
  apply class_of_spec in Hc as (Hc%class_range & _).
  pose proof (Z.div_le_upper_bound c 1024 8192). pose proof (Z.div_pos c 1024).
  eapply (grows_bind 0 8192); [apply grows_pool_at|intros [p|]|lia].
  - eapply grows_weaken; [grows_go|lia].
  - eapply (grows_bind 0 8192); [apply grows_get|intros bp|lia].
    eapply (grows_bind 0 8192); [apply grows_exit_if|intros _|lia].
    eapply (grows_bind 0 8192); [apply grows_new_buffer|intros q|lia].
    eapply (grows_bind 8192 0); [|intros _; apply grows_ret|lia].
    intros bp1 a bp2 Hpos [= _ <-]. simpl. unfold u64.
    pose proof (Z.mod_le (_total_mem bp1 + c / 1024) (2 ^ 64)).
    pose proof (Z.mod_pos_bound (_total_mem bp1 + c / 1024) (2 ^ 64)). lia.
Qed.

Lemma grows_revert p : grows 0 (revert p).
Proof. unfold revert. grows_go. Qed.
Lemma grows_io_copy p q : grows 0 (io_copy p q).
Proof. unfold io_copy. grows_go. Qed.
Lemma grows_append p bs : grows 0 (append p bs).
Proof. unfold append. grows_go. Qed.
#[export] Hint Resolve grows_revert grows_io_copy grows_append : memory.

Lemma grows_reserve buf n : grows 8192 (reserve buf n).
Proof.
  unfold reserve. destruct buf as [p|]; [|apply grows_alloc].
  eapply (grows_bind 0 8192); [apply grows_buf_at|intros b|lia].
  eapply (grows_bind 0 8192); [apply grows_cassert|intros _|lia].
  eapply (grows_bind 0 8192); [apply grows_cint|intros r|lia].
  destruct (r <? n); [|eapply grows_weaken; [apply grows_ret|lia]].
  eapply (grows_bind 0 8192); [apply grows_cint|intros t|lia].
  eapply (grows_bind 8192 0); [apply grows_alloc|intros [q|]|lia]; grows_go.
Qed.

Lemma grows_obuf_send_data buf dat n : grows 8192 (obuf_send_data buf dat n).
Proof.
  unfold obuf_send_data. eapply (grows_bind 8192 0); [apply grows_reserve|intros [q|]|lia]; grows_go.
Qed.

Lemma grows_tbuf_pop buf n : grows 0 (tbuf_pop buf n).
Proof. unfold tbuf_pop, io_pop. destruct buf; [grows_go|]. apply grows_same. done. Qed.
Lemma grows_ibuf_adjust buf : grows 0 (ibuf_adjust buf).
Proof. unfold ibuf_adjust, io_adjust, when. grows_go. Qed.
#[export] Hint Resolve grows_tbuf_pop grows_ibuf_adjust grows_obuf_send_data : memory.

Lemma wp_grows {A} n (m : M buffer_pool A) (Q : A → buffer_pool → Prop) bp :
  grows n m → 0 ≤ _total_mem bp → wp m Q bp →
  wp m (λ a bp', Q a bp' ∧ _total_mem bp' ≤ _total_mem bp + n) bp.
Proof.
  intros Hg Hpos (a & bp' & Hr & HQ)%wp_elim. unfold wp. rewrite Hr. split; [done|].
  by apply (Hg bp a bp' Hpos).
Qed.

(** ** Transfers *)
Section transfers.
Context {K : Type} `{Kernel K}.
Implicit Types k : K.

Lemma read_data_grows fuel buf fd (s s' : io K) r :
  0 ≤ _total_mem (bufs s) → read_data fuel buf fd s = Ok (r, s') →
  _total_mem (bufs s') ≤ _total_mem (bufs s) + 8192.
Proof.
  intros Hpos. unfold read_data, zoom, syscall, mbind, M_bind. cbn [view update io_kern io_bufs kern bufs].
  destruct (sys_fionread fd (kern s)) as [[e|n] k1]; [intros [= <- <-]; simpl; lia|]. cbn [bufs kern].
  destruct (reserve buf n (bufs s)) as [[[p|] bp1]|] eqn:Hres; [| |done].
  2:{ apply grows_reserve in Hres; [|done]. intros [= <- <-]. simpl. lia. }
  apply grows_reserve in Hres; [|done]. cbn [bufs kern].
  destruct (retry fuel (sys_read fd n) k1) as [[[e|bs] k2]|]; [intros [= <- <-]; simpl; lia| |done]. cbn [bufs kern].
  unfold when. destruct (0 <? _); [|intros [= <- <-]; simpl; lia]. unfold cassert.
  destruct (_ =? n); [|done]. unfold mret, M_ret. cbn [bufs kern].
  destruct (append p bs bp1) as [[[] bp2]|] eqn:Happ; [|done]. apply grows_append in Happ; [|lia].
  intros [= <- <-]. simpl. lia.
Qed.

(** The call is interrupted [j] times from [k] to [k']. *)
Inductive interrupted {A} (call : K → (errno + A) * K) : nat → K → K → Prop :=
  | interrupted_0 k : interrupted call 0 k k
  | interrupted_S j k k1 k2 : call k = (inl EINTR, k1) → interrupted call j k1 k2 →
      interrupted call (S j) k k2.

Lemma retry_spec {A} (call : K → (errno + A) * K) j k k1 r k2 fuel :
  interrupted call j k k1 → call k1 = (r, k2) → r ≠ inl EINTR → (j < fuel)%nat →
  retry fuel call k = Ok (r, k2).
Proof.
  intros Hj. revert fuel. induction Hj as [k|j k k1' k2' Hc _ IH]; intros fuel Hr Hne Hf;
    (destruct fuel as [|fuel]; [lia|]); cbn [retry]; unfold mbind, M_bind, syscall.
  - rewrite Hr. by destruct r as [[]|].
  - rewrite Hc. apply IH; [done..|lia].
Qed.

(** [read_data], the kernel delivering [ys]: nothing at the end of the stream. *)
Lemma read_data_spec fuel buf fd bs ys k k1 k2 bp fl :
  pool_inv bp fl → tbuf bp fl buf bs → at_start bp buf → memory_left bp →
  sys_fionread fd k = (inr (Z.of_nat (length ys)), k1) →
  retry fuel (sys_read fd (Z.of_nat (length ys))) k1 = Ok (inr ys, k2) →
  Z.of_nat (length bs) + Z.of_nat (length ys) ≤ u8M →
  wp (read_data fuel buf fd) (λ r s', ∃ p fl', r = (Some p, Z.of_nat (length ys)) ∧
    kern s' = k2 ∧ step buf (Some p) bp (bufs s') fl fl' ∧
    tbuf (bufs s') fl' (Some p) (bs ++ ys) ∧ at_start (bufs s') (Some p)) (Io k bp).
Proof.
  intros Hi Ht Hs Hm Hn Hr Hmax. unfold read_data. wp_step. wp_step.
  apply wp_syscall. simpl. intros a k' Ha. rewrite Hn in Ha. injection Ha as <- <-.
  wp_step. wp_step. simpl. eapply wp_mono; [by apply reserve_append_spec|].
  intros r bp1 (p & -> & Hres & Happ). wp_step. wp_step. simpl.
  unfold wp at 1. rewrite Hr. wp_step. apply wp_when.
  - intros _. wp_step. apply wp_assert; [by apply Z.eqb_eq|]. wp_step. simpl.
    eapply wp_mono; [exact Happ|]. intros [] bp' (fl' & ? & ? & ?). wp_steps.
    exists p, fl'. do 3 (split; [done|]). by split.
  - intros Hz%Z.ltb_ge. assert (ys = []) as ->.
    { destruct ys; [done|]. simpl in Hz. lia. }
    destruct Hres as (fl1 & ? & ? & ?). wp_steps. exists p, fl1.
    rewrite app_nil_r. do 3 (split; [done|]). by split.
Qed.

(** [write_fd], the kernel accepting [n] bytes, or none. *)
Lemma write_fd_spec fuel p fd bs r k k1 bp fl :
  pool_inv bp fl → tbuf bp fl (Some p) bs → at_start bp (Some p) →
  retry fuel (sys_write fd bs) k = Ok (r, k1) →
  (∀ n, r = inr n → 0 ≤ n ≤ Z.of_nat (length bs)) →
  wp (write_fd fuel (Some p) fd) (λ ret s',
    ret = match r with inr n => n | inl EAGAIN => 0 | inl _ => -1 end ∧
    kern s' = k1 ∧ step (Some p) (Some p) bp (bufs s') fl fl ∧
    tbuf (bufs s') fl (Some p) (drop (Z.to_nat (Z.max 0 ret)) bs) ∧
    at_start (bufs s') (Some p)) (Io k bp).
Proof.
  intros Hi Ht Hs Hr Hn. pose proof Ht as [Hh (b & Hb & Hc)].
  unfold write_fd. wp_step. wp_step.
  pose proof (store_range _ _ _ _ _ Hi Hb Hc) as Hrange.
  simpl. eapply wp_buf_at; [done|]. wp_step.
  pose proof (Hs p b eq_refl Hb) as Hhd.
  apply wp_assert; [by apply bool_decide_eq_true|].
  wp_step. eapply wp_from_option; [rewrite <- Hhd; by apply data_read_contents|].
  wp_step. wp_step. simpl. unfold wp at 1. rewrite Hr.
  assert (Hsame : step (Some p) (Some p) bp bp fl fl) by (by apply step_refl).
  destruct r as [e|n].
  - destruct e; wp_steps; (do 3 (split; [done|]); split; [exact Ht|done]).
  - specialize (Hn n eq_refl). wp_step. apply wp_when; intros Hw.
    + wp_step. simpl. wp_step.
      pose proof (Z2Nat.id n) as Hid. rewrite <- Hid by lia. eapply wp_io_pop; [done..|lia|unfold u8M; lia|].
      intros b' Hc'. set (bp1 := set_store _ _).
      assert (Hb1 : store bp1 !! p = Some b') by (simpl; by rewrite lookup_insert_eq).
      assert (Hst : step (Some p) (Some p) bp bp1 fl fl) by (by eapply pool_inv_update).
      eapply wp_mono; [apply (ibuf_adjust_spec (Some p)); [apply Hst|by apply tbuf_update]|].
      intros [] bp2 (? & ? & ?). wp_steps. simpl.
      rewrite Z.max_r, Hid by lia. split; [done|]. split; [done|]. split; [by eapply step_trans|]. by split.
    + apply Z.ltb_ge in Hw. assert (n = 0) as -> by lia. wp_steps.
      do 3 (split; [done|]). split; [exact Ht|done].
Qed.

(** The kernel announces the bytes [ys] on [fd] and then delivers them, after
    fewer than [retries] interrupted calls. *)
Definition delivers (retries : nat) (fd : Z) (ys : list byte) (k k' : K) : Prop :=
  let n := Z.of_nat (length ys) in
  ∃ j k1 k2, sys_fionread fd k = (inr n, k1) ∧ interrupted (sys_read fd n) j k1 k2 ∧
    (j < retries)%nat ∧ sys_read fd n k2 = (inr ys, k').

Lemma retry_sent `{!SinkLaws K} fuel fd bs k r k' :
  retry fuel (sys_write fd bs) k = Ok (r, k') →
  match r with
  | inr n => 0 ≤ n ≤ Z.of_nat (length bs) ∧ sent fd k' = sent fd k ++ take (Z.to_nat n) bs
  | inl _ => sent fd k' = sent fd k
  end.
Proof.
  revert k. induction fuel as [|fuel IH]; intros k; [done|]. cbn [retry].
  unfold mbind, M_bind, syscall. destruct (sys_write fd bs k) as [r1 k1] eqn:Hw.
  pose proof (sink_write _ _ _ _ _ Hw) as Hs.
  destruct r1 as [[]|n]; try by intros [= <- <-].
  intros Hr. apply IH in Hr. rewrite Hs in Hr. exact Hr.
Qed.

Lemma retry_keeps (R : K → Prop) fuel fd bs k r k' :
  (∀ k r k', sys_write fd bs k = (r, k') → R k → R k') →
  retry fuel (sys_write fd bs) k = Ok (r, k') → R k → R k'.
Proof.
  intros HR. revert k. induction fuel as [|fuel IH]; intros k; [done|]. cbn [retry].
  unfold mbind, M_bind, syscall. destruct (sys_write fd bs k) as [r1 k1] eqn:Hw.
  pose proof (HR _ _ _ Hw) as Hs. destruct r1 as [[]|n]; try (intros [= _ <-]; exact Hs).
  intros Hr Hk. by apply (IH k1); [|apply Hs].
Qed.
End transfers.
