(* ===== verification/BufferProps.v ===== *)
(** * Correctness of the buffer pool and the tcp buffers

    The claims about src/io_buffer.cc, each with a concrete instance. *)
From S2P Require Import Prelude Kernel IoBuffer BufferPool TcpBuffer.

(** ** A small pool for the concrete instances: every free list is empty *)

Definition bare_pool : buffer_pool :=
  BufferPool ∅ 1%positive (list_to_map ((λ c, (c, None)) <$> classes)) 0.

Lemma bare_pool_inv : pool_inv bare_pool (λ _, []).
Proof.
  split; [|by intros ? ? ? ?%elem_of_nil|by constructor|done|done|done].
  intros c Hc. exists None. split; [|done].
  unfold classes in Hc. repeat (apply elem_of_cons in Hc as [->|Hc]; [done|]).
  by apply elem_of_nil in Hc.
Qed.

Lemma bare_pool_memory_left : memory_left bare_pool.
Proof. done. Qed.

(** A state after [m] from the bare pool. *)
Definition after {A} (m : M buffer_pool A) : buffer_pool := run_state m bare_pool.

(** ** The constructor *)

(** The blocks [done] have been built. *)
Definition built (done : list (Z * Z)) (total : Z) (bp : buffer_pool) : Prop :=
  ∃ fl, pool_inv_on done.*1 bp fl ∧
    (∀ c n, (c, n) ∈ done → Z.of_nat (length (fl c)) = n) ∧ _total_mem bp = total.

Lemma preallocate_next done bp c kb n total :
  built done total bp → c ∈ classes → c ∉ done.*1 → kb = c / 1024 → 0 < n →
  total + kb * n < EXTRA_MEM_LIMIT →
  wp (preallocate c kb n) (λ _ bp', built ((c, n) :: done) (total + kb * n) bp') bp.
Proof.
  intros (fl & Hi & Hl & <-) Hc Hcs Hkb Hn Hlim.
  eapply wp_mono; [by apply (preallocate_spec done.*1 bp fl c kb n)|].
  intros [] bp' (l & Hlen & Hi' & Ht). eexists. split; [exact Hi'|]. split; [|done].
  intros c' n' [[= -> ->]|Hin]%elem_of_cons; [by rewrite upd_eq|].
  rewrite upd_ne; [by apply Hl|]. intros ->. apply Hcs, list_elem_of_fmap. by exists (c, n').
Qed.

Ltac next_block Hi :=
  eapply wp_mono; [apply (preallocate_next _ _ _ _ _ _ Hi);
    [set_solver|by apply (bool_decide_unpack _); vm_compute|done|done|by vm_compute]|];
  clear Hi; intros [] ? Hi.

Lemma buffer_pool_ctor_built : wp buffer_pool_ctor (λ _ bp, built (reverse pool_counts) 334240 bp) empty_pool.
Proof.
  unfold buffer_pool_ctor.
  assert (Hi : built [] 0 empty_pool).
  { exists (λ _, []). split; [apply empty_pool_inv|]. by split; [intros ? ? ?%elem_of_nil|]. }
  do 6 (wp_step; next_block Hi). next_block Hi. exact Hi.
Qed.

(** The constructor of the pool returns a pool in which every size class has
    its free list of empty buffers, of exactly the documented number of buffers
    (5000, 1000, 500, 200, 50, 20 and 10), the account is 334240 KB, and
    no request can yet hit the memory limit. *)
Theorem buffer_pool_ctor_ok :
  ∃ bp fl, buffer_pool_ctor empty_pool = Ok (tt, bp) ∧ pool_inv bp fl ∧
    (∀ c n, (c, n) ∈ pool_counts → Z.of_nat (length (fl c)) = n) ∧
    _total_mem bp = 334240 ∧ memory_left bp.
Proof.
  destruct (proj1 (wp_elim _ _ _) buffer_pool_ctor_built) as ([] & bp & Hrun & fl & Hi & Hl & Hm).
  exists bp, fl. split; [exact Hrun|]. split; [|split; [|split; [exact Hm|]]].
  - eapply pool_inv_classes; [exact Hi|]. intros c Hc. by apply elem_of_reverse in Hc.
  - intros c n Hcn. by apply Hl, elem_of_reverse.
  - unfold memory_left. rewrite Hm. by vm_compute.
Qed.

(** ** The buffers handed out *)

(** A client of the pool asks for a buffer, or gives back the [i]-th of those
    it has. *)
Inductive client_op := OpAlloc (N : Z) | OpRevert (i : nat).

Definition client_step (op : client_op) (out : list ptr) : M buffer_pool (list ptr) :=
  match op with
  | OpAlloc N => r ← alloc N; mret (match r with Some p => p :: out | None => out end)
  | OpRevert i =>
      match out !! i with
      | Some p => revert p ;; mret (delete i out)
      | None => mret out
      end
  end.

Fixpoint client_run (ops : list client_op) (out : list ptr) : M buffer_pool (list ptr) :=
  match ops with
  | [] => mret out
  | op :: ops => out ← client_step op out; client_run ops out
  end.

(** Every buffer is in the hands of one client or in one free list. *)
Definition accounted (out : list ptr) (bp : buffer_pool) : Prop :=
  ∃ fl, pool_inv bp fl ∧ NoDup out ∧
    ∀ p, is_Some (store bp !! p) → p ∈ out ↔ held bp fl p.

Definition all_exist (out : list ptr) (bp : buffer_pool) : Prop :=
  ∀ p, p ∈ out → is_Some (store bp !! p).

Lemma accounted_alloc N out bp :
  accounted out bp → all_exist out bp →
  alloc N bp = Fail Exited ∨
  wp (alloc N) (λ r bp', let out' := match r with Some p => p :: out | None => out end in
    accounted out' bp' ∧ all_exist out' bp') bp.
Proof.
  intros (fl & Hi & Hnd & Hacc) Hex. destruct (class_of N) as [c|] eqn:Hcl.
  2:{ right. unfold wp. rewrite alloc_too_large by by apply class_of_None.
      split; [by exists fl|done]. }
  destruct (decide (fl c = [] ∧ EXTRA_MEM_LIMIT ≤ _total_mem bp + c / 1024)) as [[Hfl Hm]|Hlim].
  { left. by eapply alloc_exits. }
  right. eapply wp_mono; [apply (alloc_spec N c bp fl Hi Hcl); intros Hfl; apply Z.nle_gt; tauto|].
  intros r bp' (p & fl' & -> & (Hi' & Hh & Hn & (b & Hb & _) & Hs & Hf & Hf' & Hk) & _).
  assert (Hp : p ∉ out). { intros Hp. apply Hn, Hacc; [by apply Hex|done]. }
  split.
  - exists fl'. split; [done|]. split; [by constructor|]. intros q Hq.
    rewrite elem_of_cons. destruct (decide (q = p)) as [->|Hne]; [by split; [|left]|].
    assert (Hq0 : is_Some (store bp !! q)) by by apply Hk.
    rewrite (Hacc q Hq0). split.
    + intros [|[_ Hfree]]; [done|]. split; [done|]. intros c' Hc' Hin. by eapply Hfree, Hf.
    + intros [_ Hfree]. right. split; [done|]. intros c' Hc' Hin. by eapply Hfree, Hf'.
  - intros q [->|Hq]%elem_of_cons; [by eexists|]. rewrite Hs; [by apply Hex| |by apply Hex].
    by intros ->.
Qed.

Lemma accounted_revert i p out bp :
  accounted out bp → all_exist out bp → out !! i = Some p →
  wp (revert p) (λ _ bp', accounted (delete i out) bp' ∧ all_exist (delete i out) bp') bp.
Proof.
  intros (fl & Hi & Hnd & Hacc) Hex Hip.
  assert (Hin : p ∈ out) by by eapply list_elem_of_lookup_2.
  destruct (Hex p Hin) as [b Hb].
  assert (Hh : held bp fl p) by (apply Hacc; [by eexists|done]).
  pose proof (delete_Permutation out i p Hip) as Hperm.
  assert (Hmem : ∀ q, q ∈ out ↔ q = p ∨ q ∈ delete i out).
  { intros q. by rewrite <- elem_of_cons, <- Hperm. }
  rewrite Hperm in Hnd. apply NoDup_cons in Hnd as [Hpo Hnd].
  eapply wp_mono; [by apply revert_spec|]. intros [] bp' (Hi' & Hs & _).
  split.
  - eexists. split; [exact Hi'|]. split; [done|]. intros q Hq.
    destruct (decide (q = p)) as [->|Hne].
    + split; [done|]. intros [_ Hfree]. destruct (Hfree (capacity b)).
      * by apply (inv_store _ _ Hi) in Hb as [_ ?].
      * rewrite upd_eq. by left.
    + rewrite Hs in Hq by done. trans (q ∈ out).
      { rewrite Hmem. naive_solver. }
      rewrite (Hacc q Hq). unfold held. rewrite Hs by done.
      split; intros [? Hfree]; (split; [done|]); intros c' Hc'; specialize (Hfree c' Hc');
        unfold upd in *; case_decide; subst; rewrite ?elem_of_cons in *; naive_solver.
  - intros q Hq. assert (q ∈ out) by (apply Hmem; by right).
    rewrite Hs by (by intros ->). by apply Hex.
Qed.

Lemma client_run_accounted ops out bp :
  accounted out bp → all_exist out bp →
  match client_run ops out bp with
  | Ok (out', bp') => accounted out' bp' ∧ all_exist out' bp'
  | Fail e => e = Exited
  end.
Proof.
  revert out bp. induction ops as [|op ops IH]; intros out bp Ha He; [done|].
  cbn [client_run]. destruct op as [N|i]; cbn [client_step].
  - destruct (accounted_alloc N out bp Ha He) as [Hx|Hw].
    + rewrite (bind_fail _ _ _ Exited); [done|]. by apply bind_fail.
    + apply wp_elim in Hw as (r & bp' & Hr & Ha' & He').
      erewrite bind_ok by (by erewrite bind_ok by done). by apply IH.
  - destruct (out !! i) as [p|] eqn:Hi; [|by apply IH].
    pose proof (accounted_revert i p out bp Ha He Hi) as ([] & bp' & Hr & Ha' & He')%wp_elim.
    erewrite bind_ok by (by erewrite bind_ok by done). by apply IH.
Qed.

Lemma built_accounted bp fl : pool_inv bp fl → (∀ p, ¬ held bp fl p) → accounted [] bp.
Proof.
  intros Hi Hh. exists fl. split; [done|]. split; [constructor|].
  intros p _. split; [by intros ?%elem_of_nil|by intros ?%Hh].
Qed.

(** ** Claims *)

(** C22 A request of at most 8 MB, with memory left, gets an empty buffer of the
    smallest size class that can hold it; nobody else had that buffer, every
    other buffer is unchanged, and memory is taken from the system only when the
    free list of the class is empty. *)
Theorem alloc_smallest_class N bp fl :
  pool_inv bp fl → memory_left bp → N ≤ u8M →
  ∃ p b bp' fl', alloc N bp = Ok (Some p, bp') ∧ pool_inv bp' fl' ∧
    store bp' !! p = Some b ∧ b_length b = 0 ∧ head b = 0 ∧
    N ≤ capacity b ∧ (∀ c, c ∈ classes → N ≤ c → capacity b ≤ c) ∧
    ¬ held bp fl p ∧ held bp' fl' p ∧
    (∀ q, q ≠ p → is_Some (store bp !! q) → store bp' !! q = store bp !! q) ∧
    (_total_mem bp' = _total_mem bp ∨ fl (capacity b) = []).
Proof.
  intros Hi Hm HN. destruct (class_of_Some N HN) as [c Hc].
  destruct (class_of_spec N c Hc) as (Hin & HNc & Hmin). pose proof (class_range c Hin).
  assert (Hlim : fl c = [] → _total_mem bp + c / 1024 < EXTRA_MEM_LIMIT).
  { intros _. unfold memory_left, u8M in *. pose proof (Z.div_le_mono c 8388608 1024). lia. }
  pose proof (alloc_spec N c bp fl Hi Hc Hlim) as (r & bp' & Hr & p & fl' & -> & Ha & Ht)%wp_elim.
  destruct Ha as (Hi' & Hh & Hn & (b & Hb & <- & Hl & Hhd & _) & Hs & _).
  exists p, b, bp', fl'. by split_and!.
Qed.

Lemma alloc_smallest_class_witness :
  ∃ p b bp', alloc 5000 bare_pool = Ok (Some p, bp') ∧ store bp' !! p = Some b ∧
    capacity b ≤ 16384.
Proof.
  destruct (alloc_smallest_class 5000 bare_pool (λ _, []) bare_pool_inv bare_pool_memory_left)
    as (p & b & bp' & fl' & Hr & _ & Hb & _ & _ & _ & Hmin & _); [done|].
  exists p, b, bp'. split; [done|]. split; [done|].
  apply (Hmin 16384); [set_solver|done].
Defined.

(** A request above 8 MB gets NULL and changes nothing; a request whose
    class has no free buffer when one more would reach the 5 GB limit ends
    the process. *)
Theorem alloc_refuses N bp fl :
  pool_inv bp fl →
  (u8M < N → alloc N bp = Ok (None, bp)) ∧
  (∀ c, class_of N = Some c → fl c = [] → EXTRA_MEM_LIMIT ≤ _total_mem bp + c / 1024 →
    alloc N bp = Fail Exited).
Proof.
  intros Hi. split; [apply alloc_too_large|]. intros c Hc Hfl Hm. by eapply alloc_exits.
Qed.

Lemma alloc_refuses_witness : alloc 8388609 bare_pool = Ok (None, bare_pool).
Proof. apply (alloc_refuses 8388609 bare_pool (λ _, []) bare_pool_inv). done. Defined.

(** C21 Whatever requests and returns a client of the pool makes, from a pool
    none of whose buffers is handed out: either the process has ended at the
    memory limit, or the invariant of the pool holds, no buffer is handed out
    twice, and every buffer is either in exactly the client's hands or in a free
    list: none is lost. *)
Theorem pool_never_shares_or_leaks ops bp fl :
  pool_inv bp fl → (∀ p, ¬ held bp fl p) →
  match client_run ops [] bp with
  | Ok (out, bp') => accounted out bp'
  | Fail e => e = Exited
  end.
Proof.
  intros Hi Hh.
  pose proof (client_run_accounted ops [] bp (built_accounted bp fl Hi Hh)) as H.
  destruct (client_run ops [] bp) as [[out bp']|e].
  - apply H. by intros ? ?%elem_of_nil.
  - apply H. by intros ? ?%elem_of_nil.
Qed.

Definition sample_ops : list client_op :=
  [OpAlloc 100; OpAlloc 5000; OpRevert 0; OpAlloc 6000; OpAlloc 200; OpRevert 1].

Lemma pool_never_shares_or_leaks_witness :
  ∃ out bp', client_run sample_ops [] bare_pool = Ok (out, bp') ∧ accounted out bp' ∧
    out = [3%positive; 1%positive].
Proof.
  assert (Hh : ∀ p, ¬ held bare_pool (λ _, []) p) by (intros p [[b Hb] _]; done).
  pose proof (pool_never_shares_or_leaks sample_ops bare_pool _ bare_pool_inv Hh) as H.
  destruct (client_run sample_ops [] bare_pool) as [[out bp']|e] eqn:Hr; vm_compute in Hr;
    [|discriminate].
  injection Hr as <- <-. eexists _, _. split; [reflexivity|]. by split.
Defined.

(** The [tcp_buffer] [buf] of a sound pool holds [bs], at the start of its
    array. *)
Definition holds (bp : buffer_pool) (fl : Z → list ptr) (buf : option ptr) (bs : list byte) : Prop :=
  pool_inv bp fl ∧ tbuf bp fl buf bs ∧ at_start bp buf.

Lemma holds_bare : holds bare_pool (λ _, []) None [].
Proof. split; [apply bare_pool_inv|]. by split. Qed.

(** [output_buffer::send_data] appends the data behind what the buffer
    holds, growing the buffer when needed, and leaves every other buffer alone;
    when the total would exceed 8 MB it returns -1 and changes nothing. *)
Theorem send_data_appends buf bs dat bp fl :
  holds bp fl buf bs → memory_left bp →
  let total := Z.of_nat (length bs) + Z.of_nat (length dat) in
  (total ≤ u8M → ∃ p bp' fl',
     obuf_send_data buf dat (Z.of_nat (length dat)) bp = Ok ((Some p, 0), bp') ∧
     holds bp' fl' (Some p) (bs ++ dat) ∧ step buf (Some p) bp bp' fl fl') ∧
  (u8M < total ≤ INT_MAX →
     obuf_send_data buf dat (Z.of_nat (length dat)) bp = Ok ((buf, -1), bp)).
Proof.
  intros (Hi & Ht & Hs) Hm total. split.
  - intros Hmax.
    pose proof (obuf_send_data_spec buf bs dat bp fl Hi Ht Hs Hm Hmax)
      as (r & bp' & Hr & p & fl' & -> & Hst & Ht' & Hs')%wp_elim.
    exists p, bp', fl'. split; [done|]. split; [|done]. split; [apply Hst|done].
  - intros Hbig. by eapply obuf_send_data_too_large.
Qed.

Lemma send_data_appends_witness :
  ∃ p bp' fl', obuf_send_data None [x68; x69]%byte 2 bare_pool = Ok ((Some p, 0), bp') ∧
    holds bp' fl' (Some p) [x68; x69]%byte.
Proof.
  destruct (send_data_appends None [] [x68; x69]%byte bare_pool _ holds_bare
    bare_pool_memory_left) as [(p & bp' & fl' & Hr & Hh & _) _]; [vm_compute; discriminate|].
  by exists p, bp', fl'.
Defined.

Section transfers.
Context {K : Type} `{Kernel K}.

(** [input_buffer::read_data], when the kernel announces and then delivers
    the bytes [ys] (none at the end of the stream), possibly after interrupted
    calls: it returns their number, and the buffer holds the old bytes followed
    by the new ones. *)
Theorem read_data_delivers fuel buf fd bs ys j (k k1 k2 k3 : K) bp fl :
  holds bp fl buf bs → memory_left bp →
  sys_fionread fd k = (inr (Z.of_nat (length ys)), k1) →
  interrupted (sys_read fd (Z.of_nat (length ys))) j k1 k2 → (j < fuel)%nat →
  sys_read fd (Z.of_nat (length ys)) k2 = (inr ys, k3) →
  Z.of_nat (length bs) + Z.of_nat (length ys) ≤ u8M →
  ∃ p bp' fl', read_data fuel buf fd (Io k bp) =
      Ok ((Some p, Z.of_nat (length ys)), Io k3 bp') ∧
    holds bp' fl' (Some p) (bs ++ ys) ∧ step buf (Some p) bp bp' fl fl'.
Proof.
  intros (Hi & Ht & Hs) Hm Hn Hint Hf Hr Hmax.
  assert (Hret : retry fuel (sys_read fd (Z.of_nat (length ys))) k1 = Ok (inr ys, k3)).
  { by eapply retry_spec. }
  pose proof (read_data_spec fuel buf fd bs ys k k1 k3 bp fl Hi Ht Hs Hm Hn Hret Hmax)
    as (r & [k' bp'] & Hrun & p & fl' & -> & Hk & Hst & Ht' & Hs')%wp_elim. simpl in Hk. subst k'.
  exists p, bp', fl'. split; [done|]. split; [|done]. split; [apply Hst|done].
Qed.

(** [output_buffer::write_fd], when the kernel accepts [n] of the bytes:
    exactly these leave the front of the buffer and the rest moves to the start
    of the array; when the socket is full it returns 0 and nothing is lost, and
    on an error it returns -1 and nothing is lost. *)
Theorem write_fd_drains fuel p fd bs j r (k k1 k2 : K) bp fl :
  holds bp fl (Some p) bs →
  interrupted (sys_write fd bs) j k k1 → (j < fuel)%nat →
  sys_write fd bs k1 = (r, k2) → r ≠ inl EINTR →
  (∀ n, r = inr n → 0 ≤ n ≤ Z.of_nat (length bs)) →
  let ret := match r with inr n => n | inl EAGAIN => 0 | inl _ => -1 end in
  ∃ bp', write_fd fuel (Some p) fd (Io k bp) = Ok (ret, Io k2 bp') ∧
    holds bp' fl (Some p) (drop (Z.to_nat (Z.max 0 ret)) bs) ∧
    step (Some p) (Some p) bp bp' fl fl.
Proof.
  intros (Hi & Ht & Hs) Hint Hf Hw Hne Hn ret.
  assert (Hret : retry fuel (sys_write fd bs) k = Ok (r, k2)) by by eapply retry_spec.
  pose proof (write_fd_spec fuel p fd bs r k k2 bp fl Hi Ht Hs Hret Hn)
    as (ret' & [k' bp'] & Hrun & -> & Hk & Hst & Ht' & Hs')%wp_elim. simpl in Hk. subst k'.
  exists bp'. split; [done|]. split; [|done]. split; [apply Hst|by split].
Qed.
End transfers.

Lemma read_data_delivers_witness :
  let k := Script.State [Script.ANum 2; Script.AErr EINTR; Script.ABytes [x68; x69]%byte] [] in
  ∃ p bp' fl', read_data 2 None 5 (Io k bare_pool) = Ok ((Some p, 2), Io (Script.State [] []) bp') ∧
    holds bp' fl' (Some p) [x68; x69]%byte.
Proof.
  intros k.
  destruct (read_data_delivers 2 None 5 [] [x68; x69]%byte 1 k
    (Script.State [Script.AErr EINTR; Script.ABytes [x68; x69]%byte] [])
    (Script.State [Script.ABytes [x68; x69]%byte] []) (Script.State [] []) bare_pool _
    holds_bare bare_pool_memory_left) as (p & bp' & fl' & Hr & Hh & _);
    [reflexivity| |lia|reflexivity|vm_compute; discriminate|].
  - eapply interrupted_S; [reflexivity|apply interrupted_0].
  - by exists p, bp', fl'.
Defined.

(** A pool whose buffer 1 holds two bytes. *)
Definition two_bytes : buffer_pool := after (obuf_send_data None [x68; x69]%byte 2).

Lemma holds_two_bytes : holds two_bytes (λ _, []) (Some 1%positive) [x68; x69]%byte.
Proof.
  destruct holds_bare as (Hi & Ht & Hs).
  assert (Ha : allocated 4096 1 bare_pool
    (BufferPool {[1%positive := io_buffer_new 4096]} 2 (_pool bare_pool) 4) (λ _, []) (λ _, [])).
  { apply (alloc_new bare_pool _ 4096 Hi); [set_solver|done]. }
  apply allocated_step in Ha as (Hst & [Hh _] & _).
  pose proof (append_spec 1 (io_buffer_new 4096) [] [x68; x69]%byte _ _
    (step_inv _ _ _ _ _ _ Hst) Hh eq_refl) as Hw.
  apply wp_elim in Hw as ([] & bp' & Hr & Hst' & Ht' & Hs'); [|by apply contents_nil|done|done].
  vm_compute in Hr. injection Hr as <-. split; [exact (step_inv _ _ _ _ _ _ Hst')|].
  by split.
Qed.

Lemma write_fd_drains_witness :
  let k := Script.State [Script.ANum 1] [] in
  ∃ bp', write_fd 1 (Some 1%positive) 5 (Io k two_bytes) =
      Ok (1, Io (Script.State [] [Script.CWrite 5 [x68; x69]%byte]) bp') ∧
    holds bp' (λ _, []) (Some 1%positive) [x69]%byte.
Proof.
  intros k. destruct (write_fd_drains 1 1 5 [x68; x69]%byte 0 (inr 1) k k
    (Script.State [] [Script.CWrite 5 [x68; x69]%byte]) two_bytes _ holds_two_bytes)
    as (bp' & Hr & Hh & _); [apply interrupted_0|lia|reflexivity|discriminate| |by exists bp'].
  intros n [= <-]. simpl. lia.
Defined.
