(* ===== verification/PoolMutex.v ===== *)
(** * The buffer pool and its mutex (src/io_buffer.cc, include/io_buffer.h)

    The threads of a server share one [buffer_pool].  Here its two operations are
    programs of small steps, each with at most one access to the memory the threads
    share, between which the steps of other threads may come; [_mutex] is what keeps
    them apart.  Run without a break they are [alloc] and [revert] of IoBuffer.v. *)
From S2P Require Import Prelude IoBuffer BufferPool.

(** A program: a step on the pool, or [pthread_mutex_lock] or [_unlock]. *)
Inductive prog (A : Type) : Type :=
  | Ret (a : A)
  | Lock (k : prog A)
  | Unlock (k : prog A)
  | Act {X : Type} (m : M buffer_pool X) (k : X → prog A).
Arguments Ret {A} a.
Arguments Lock {A} k.
Arguments Unlock {A} k.
Arguments Act {A X} m k.

(** Without a break, and with the mutex free. *)
Fixpoint alone {A} (P : prog A) : M buffer_pool A :=
  match P with
  | Ret a => mret a
  | Lock k | Unlock k => alone k
  | Act m k => x ← m; alone (k x)
  end.

(** An assignment to members of a buffer. *)
Definition on_buf (p : ptr) (f : io_buffer → io_buffer) : M buffer_pool unit :=
  b ← buf_at p; buf_put p (f b).

(** ** [buffer_pool::alloc] *)

Definition check_total_mem (index : Z) : M buffer_pool unit :=
  bp ← get; exit_if (EXTRA_MEM_LIMIT <=? u64 (_total_mem bp + index / 1024)).

Definition alloc_count (index : Z) (new_buf : ptr) : prog (option ptr) :=
  Act (add_total_mem (index / 1024)) (λ _, Unlock (Ret (Some new_buf))).

Definition alloc_clear (target : ptr) : prog (option ptr) :=
  Act (on_buf target (set_next None)) (λ _, Ret (Some target)).

(** With [_pool[index]] read. *)
Definition alloc_at (index : Z) (target : option ptr) : prog (option ptr) :=
  match target with
  | None => Act (check_total_mem index) (λ _, Act (new_buffer index) (alloc_count index))
  | Some target =>
      Act (buf_at target) (λ b, Act (pool_put index (next b)) (λ _, Unlock (alloc_clear target)))
  end.

Definition alloc_prog (N : Z) : prog (option ptr) :=
  match class_of N with
  | None => Ret None
  | Some index => Lock (Act (pool_at index) (alloc_at index))
  end.

(** ** [buffer_pool::revert] *)

Definition revert_put (buffer : ptr) (index : Z) : prog (option ptr) :=
  Act (pool_put index (Some buffer)) (λ _, Unlock (Ret None)).

Definition revert_link (buffer : ptr) (index : Z) (first : option ptr) : prog (option ptr) :=
  Act (on_buf buffer (set_next first)) (λ _, revert_put buffer index).

Definition find_class (index : Z) : M buffer_pool unit :=
  bp ← get; cassert (bool_decide (is_Some (_pool bp !! index))).

Definition revert_locked (buffer : ptr) (index : Z) : prog (option ptr) :=
  Act (find_class index) (λ _, Act (pool_at index) (revert_link buffer index)).

Definition revert_head (buffer : ptr) (index : Z) : prog (option ptr) :=
  Act (on_buf buffer (λ b, set_extent (b_length b) 0 b)) (λ _, Lock (revert_locked buffer index)).

Definition revert_length (buffer : ptr) (index : Z) : prog (option ptr) :=
  Act (on_buf buffer (λ b, set_extent 0 (head b) b)) (λ _, revert_head buffer index).

Definition revert_prog (buffer : ptr) : prog (option ptr) :=
  Act (buf_at buffer) (λ b, revert_length buffer (capacity b)).

(** ** They are the operations of IoBuffer.v *)

Lemma alloc_prog_alone N bp : alone (alloc_prog N) bp = alloc N bp.
Proof.
  unfold alloc_prog, alloc. destruct (class_of N) as [index|]; [|done]. cbn [alone].
  unfold mbind, M_bind. destruct (pool_at index bp) as [[[target|] bp1]|]; [|cbn [alloc_at alone]|done].
  - cbn [alloc_at alone]. unfold mbind, M_bind. destruct (buf_at target bp1) as [[b bp2]|] eqn:Hb; [|done].
    unfold buf_at, mbind, M_bind, get in Hb. destruct (store bp1 !! target) as [b'|] eqn:Ht; [|done]. injection Hb as <- <-.
    cbn. unfold on_buf, buf_at, mbind, M_bind, get. cbn. by rewrite Ht.
  - unfold check_total_mem, exit_if, get, mbind, M_bind. by destruct (_ <=? _).
Qed.

Lemma revert_prog_alone p bp : (_ ← alone (revert_prog p); mret tt) bp = revert p bp.
Proof.
  unfold revert_prog, revert. cbn [alone]. unfold mbind, M_bind.
  destruct (buf_at p bp) as [[b bp1]|] eqn:Hb; [|done].
  unfold buf_at, mbind, M_bind, get in Hb. destruct (store bp !! p) as [b'|] eqn:Ht; [|done]. injection Hb as <- <-.
  cbn. unfold on_buf, buf_at, mbind, M_bind, get. cbn. rewrite Ht. cbn. rewrite lookup_insert_eq. cbn.
  unfold find_class, mbind, M_bind, get. cbn. destruct (_pool bp !! capacity b') as [first|] eqn:Hc; [|done].
  rewrite bool_decide_true by by eexists. cbn. unfold pool_at, mbind, M_bind, get. cbn. rewrite Hc. cbn.
  rewrite !insert_insert_eq, !lookup_insert_eq. reflexivity.
Qed.

(** ** The threads *)

(** What a thread has: the buffers in its hands, and the call it is in. *)
Record thread := Thread { hand : list ptr; job : option (prog (option ptr)) }.

(** The mutex: who holds it. *)
Record machine := Machine { shared : buffer_pool; owner : option nat; threads : list thread }.

(** What a thread outside of a call can do next: ask for a buffer, give back one of
    its own, or write to one of its own. *)
Inductive request :=
  | Ask (N : Z)
  | GiveBack (j : nat)
  | Fill (j : nat) (len hd : Z) (dat : gmap Z Byte.byte).

Definition go (i : nat) (th : thread) (o : option nat) (bp : buffer_pool) (m : machine) : result (unit * machine) :=
  Ok (tt, Machine bp o (<[i := th]> (threads m))).

Definition start_request (i : nat) (th : thread) (r : request) : M machine unit := λ m,
  match r with
  | Ask N => go i (Thread (hand th) (Some (alloc_prog N))) (owner m) (shared m) m
  | GiveBack j =>
      match hand th !! j with
      | Some p => go i (Thread (delete j (hand th)) (Some (revert_prog p))) (owner m) (shared m) m
      | None => Ok (tt, m)
      end
  | Fill j len hd dat =>
      match hand th !! j with
      | Some p =>
          match on_buf p (λ b, set_data dat (set_extent len hd b)) (shared m) with
          | Ok (_, bp) => go i th (owner m) bp m
          | Fail e => Fail e
          end
      | None => Ok (tt, m)
      end
  end.

(** The next step of thread [i].  Nobody gets a mutex that is taken, and whoever
    gives it back must have it. *)
Definition micro_step (i : nat) (th : thread) (P : prog (option ptr)) : M machine unit := λ m,
  match P with
  | Ret r => go i (Thread (option_list r ++ hand th) None) (owner m) (shared m) m
  | Lock k =>
      match owner m with
      | None => go i (Thread (hand th) (Some k)) (Some i) (shared m) m
      | Some _ => Ok (tt, m)
      end
  | Unlock k =>
      if decide (owner m = Some i) then go i (Thread (hand th) (Some k)) None (shared m) m
      else Fail Undefined
  | Act a k =>
      match a (shared m) with
      | Ok (x, bp) => go i (Thread (hand th) (Some (k x))) (owner m) bp m
      | Fail e => Fail e
      end
  end.

Definition pool_turn (i : nat) (r : request) : M machine unit :=
  m ← get;
  match threads m !! i with
  | None => mret tt
  | Some th => match job th with None => start_request i th r | Some P => micro_step i th P end
  end.

(** The threads run as the schedule lets them. *)
Definition run_pool (sched : list (nat * request)) : M machine unit :=
  for_each sched (λ s, pool_turn s.1 s.2).

Definition pool_start (n : nat) (bp : buffer_pool) : machine := Machine bp None (replicate n (Thread [] None)).
