(* ===== verification/PoolMutexProps.v ===== *)
(** * The threads of a pool never share a buffer

    An invariant of the machine of PoolMutex.v: between any two small steps of its
    threads, each call is at a place where what it has read still holds, because
    only the holder of the mutex changes the free lists. *)
From S2P Require Import Prelude IoBuffer BufferPool TcpBuffer BufferProps PoolMutex.

(** ** Where a call can be *)

Section places.
Variable bp : buffer_pool.
Variable fl : Z → list ptr.

(** What is known of the buffer a call is about. *)
Definition is_buf (p : ptr) (P : io_buffer → Prop) : Prop := ∃ b, store bp !! p = Some b ∧ P b.

Definition empty_buf (c : Z) (b : io_buffer) : Prop := capacity b = c ∧ b_length b = 0 ∧ head b = 0.

(** [doing locked pend way P]: [P] is left of a call of a thread that has the mutex
    or has not, [pend] is what it has taken from the system and not added to
    [_total_mem] yet, and [way] the buffers that are on their way between the pool
    and the caller. *)
Inductive doing : bool → Z → list ptr → prog (option ptr) → Prop :=
  | at_return r : doing false 0 (option_list r) (Ret r)
  | at_ask c : c ∈ classes → doing false 0 [] (Lock (Act (pool_at c) (alloc_at c)))
  | at_search c : c ∈ classes → doing true 0 [] (Act (pool_at c) (alloc_at c))
  | at_check c : c ∈ classes → doing true 0 [] (alloc_at c None)
  | at_new c : c ∈ classes → _total_mem bp + c / 1024 < EXTRA_MEM_LIMIT →
      doing true 0 [] (Act (new_buffer c) (alloc_count c))
  | at_count c p : c ∈ classes → _total_mem bp + c / 1024 < EXTRA_MEM_LIMIT →
      doing true (c / 1024) [p] (alloc_count c p)
  | at_counted p : doing true 0 [p] (Unlock (Ret (Some p)))
  | at_first c p l : c ∈ classes → fl c = p :: l → doing true 0 [] (alloc_at c (Some p))
  | at_pop c p l nxt : c ∈ classes → fl c = p :: l → is_buf p (λ b, next b = nxt) →
      doing true 0 [] (Act (pool_put c nxt) (λ _, Unlock (alloc_clear p)))
  | at_popped p : doing true 0 [p] (Unlock (alloc_clear p))
  | at_clear p : doing false 0 [p] (alloc_clear p)
  | at_revert p : doing false 0 [p] (revert_prog p)
  | at_length p c : is_buf p (λ b, capacity b = c) → doing false 0 [p] (revert_length p c)
  | at_head p c : is_buf p (λ b, capacity b = c ∧ b_length b = 0) → doing false 0 [p] (revert_head p c)
  | at_give p c : is_buf p (empty_buf c) → doing false 0 [p] (Lock (revert_locked p c))
  | at_find p c : is_buf p (empty_buf c) → doing true 0 [p] (revert_locked p c)
  | at_link p c : is_buf p (empty_buf c) → doing true 0 [p] (Act (pool_at c) (revert_link p c))
  | at_linked p c first : is_buf p (empty_buf c) → _pool bp !! c = Some first →
      doing true 0 [p] (revert_link p c first)
  | at_put p c : is_buf p (λ b, empty_buf c b ∧ _pool bp !! c = Some (next b)) → doing true 0 [p] (revert_put p c)
  | at_end : doing true 0 [] (Unlock (Ret None)).
End places.

(** Nothing of this is touched by the others: they change no buffer that is on its
    way here, and, while the mutex is taken, neither the lists nor the account. *)
Lemma doing_stable bp fl bp' fl' locked pend way P :
  doing bp fl locked pend way P →
  (∀ p, p ∈ way → store bp' !! p = store bp !! p) →
  (locked = true → fl' = fl ∧ _pool bp' = _pool bp ∧ _total_mem bp' = _total_mem bp ∧
     ∀ c p, c ∈ classes → p ∈ fl c → store bp' !! p = store bp !! p) →
  doing bp' fl' locked pend way P.
Proof.
  intros Hd Hway Hlock.
  assert (Hbuf : ∀ p Q, p ∈ way → is_buf bp p Q → is_buf bp' p Q).
  { intros p Q Hp (b & Hb & HQ). exists b. by rewrite Hway. }
  destruct Hd as [r|c Hc|c Hc|c Hc|c Hc Hm|c p Hc Hm|p|c p l Hc Hfl|c p l nxt Hc Hfl Hb|p|p|p|p c Hb|p c Hb|p c Hb|p c Hb
    |p c Hb|p c first Hb Hf|p c Hb|];
    try (destruct (Hlock eq_refl) as (-> & Hpool & Htot & Hfree)); clear Hlock;
    try (econstructor; solve [done | apply Hbuf; [by left|done]]).
  - apply at_new; [done|by rewrite Htot].
  - apply at_count; [done|by rewrite Htot].
  - eapply at_pop; [done..|]. destruct Hb as (b & Hb & Hn). exists b. rewrite (Hfree c); [done..|]. rewrite Hfl. by left.
  - apply at_linked; [apply Hbuf; [by left|done]|by rewrite Hpool].
  - apply at_put. rewrite Hpool. apply Hbuf; [by left|done].
Qed.

(** ** The pool, when a step changes it *)

(** What is not counted yet, counted. *)
Definition settled (pend : Z) (bp : buffer_pool) : buffer_pool := set_total_mem (_total_mem bp + pend) bp.

Lemma settled_0 bp : settled 0 bp = bp.
Proof. destruct bp. unfold settled, set_total_mem. simpl. by rewrite Z.add_0_r. Qed.

(** The holder of a buffer writes to it. *)
Lemma pool_inv_write bp fl p b b' :
  pool_inv bp fl → held bp fl p → store bp !! p = Some b → capacity b' = capacity b →
  pool_inv (set_store (<[p := b']> (store bp)) bp) fl.
Proof.
  intros Hi [_ Hout] Hb Hcap. split; cbn [set_store store _pool _total_mem fresh_ptr]; [..|apply Hi].
  - intros c Hc. destruct (inv_lists _ _ Hi c Hc) as (first & Hf & Hch). exists first. split; [done|].
    apply chain_insert_ne; [by apply Hout|done].
  - intros c q Hc Hq. rewrite lookup_insert_ne; [by apply (inv_free _ _ Hi)|]. intros ->. by apply (Hout c).
  - apply (inv_nodup _ _ Hi).
  - intros q bq [[<- <-]|[_ Hq]]%lookup_insert_Some; [rewrite Hcap; by apply (inv_store _ _ Hi p b)|by apply (inv_store _ _ Hi q)].
  - rewrite (total_kb_update _ p b) by done. apply (inv_mem _ _ Hi).
Qed.

(** [_pool[index] = buffer->next]: the first buffer leaves its list. *)
Lemma pool_inv_unlink bp fl c p l b :
  pool_inv bp fl → c ∈ classes → fl c = p :: l → store bp !! p = Some b →
  pool_inv (set_pool (<[c := next b]> (_pool bp)) bp) (upd fl c l).
Proof.
  intros Hi Hc Hfl Hb. pose proof (alloc_pop bp fl c p l b Hi Hc Hfl Hb) as (Hi' & Hheld & _).
  pose proof (pool_inv_write _ _ p (set_next None b) b Hi' Hheld (lookup_insert_eq _ _ _) eq_refl) as Hw.
  cbn [set_store store set_pool] in Hw. rewrite insert_insert_eq, insert_id in Hw by done. by destruct bp.
Qed.

(** [_pool[index] = buffer]: an empty buffer that points to the first one becomes
    the first. *)
Lemma pool_inv_link bp fl c p b :
  pool_inv bp fl → held bp fl p → store bp !! p = Some b → empty_buf c b → _pool bp !! c = Some (next b) →
  pool_inv (set_pool (<[c := Some p]> (_pool bp)) bp) (upd fl c (p :: fl c)).
Proof.
  intros Hi [_ Hout] Hb (Hcap & Hlen & Hhd) Hf.
  assert (Hc : c ∈ classes) by (rewrite <- Hcap; by apply (inv_store _ _ Hi p b)).
  split; cbn [set_pool store _pool _total_mem fresh_ptr]; [..|apply Hi].
  - intros c' Hc'. destruct (inv_lists _ _ Hi c' Hc') as (first & Hf' & Hch).
    destruct (decide (c' = c)) as [->|Hne]; [|rewrite upd_ne, lookup_insert_ne by done; by exists first].
    rewrite upd_eq, lookup_insert_eq. eexists. split; [done|]. split; [done|]. exists b. split; [done|].
    by simplify_eq.
  - intros c' q Hc'. destruct (decide (c' = c)) as [->|Hne]; [|rewrite upd_ne by done; by apply (inv_free _ _ Hi)].
    rewrite upd_eq. intros [->|Hq]%elem_of_cons; [by exists b|by apply (inv_free _ _ Hi)].
  - intros c' Hc'. destruct (decide (c' = c)) as [->|Hne]; [|rewrite upd_ne by done; by apply (inv_nodup _ _ Hi)].
    rewrite upd_eq. apply NoDup_cons. split; [by apply Hout|by apply (inv_nodup _ _ Hi)].
  - apply (inv_store _ _ Hi).
  - apply (inv_mem _ _ Hi).
Qed.

(** ** The machine *)

Definition hands (m : machine) (i : nat) : list ptr := from_option hand [] (threads m !! i).

(** The call of a thread, if there is one. *)
Definition job_ok (bp : buffer_pool) fl (o : option nat) (pend : Z) (i : nat) (way : list ptr)
    (j : option (prog (option ptr))) : Prop :=
  match j with
  | None => way = [] ∧ o ≠ Some i
  | Some P => ∃ pe, doing bp fl (bool_decide (o = Some i)) pe way P ∧ (o = Some i → pe = pend)
  end.

(** The buffers outside of the free lists are in the hands of one thread each, or on
    their way to or from them. *)
Record machine_inv (m : machine) (fl : Z → list ptr) (way : nat → list ptr) (pend : Z) : Prop := {
  mi_pool : pool_inv (settled pend (shared m)) fl;
  mi_free : owner m = None → pend = 0;
  mi_job i th : threads m !! i = Some th → job_ok (shared m) fl (owner m) pend i (way i) (job th);
  mi_absent i : threads m !! i = None → way i = [];
  mi_nodup i : NoDup (way i ++ hands m i);
  mi_apart i j p : p ∈ way i ++ hands m i → p ∈ way j ++ hands m j → i = j;
  mi_held p : held (shared m) fl p ↔ ∃ i, p ∈ way i ++ hands m i;
}.

(** What a step of thread [i] owes to the others. *)
Record leaves_others (m : machine) (fl : Z → list ptr) (pend : Z) (i : nat) (own : list ptr)
    (bp' : buffer_pool) (fl' : Z → list ptr) (o' : option nat) (pend' : Z) : Prop := {
  lo_owner j : j ≠ i → o' = Some j ↔ owner m = Some j;
  lo_store q : q ∉ own → held (shared m) fl q → store bp' !! q = store (shared m) !! q;
  lo_locked j : owner m = Some j → j ≠ i → pend' = pend ∧ fl' = fl ∧ _pool bp' = _pool (shared m) ∧
    _total_mem bp' = _total_mem (shared m) ∧
    ∀ c p, c ∈ classes → p ∈ fl c → store bp' !! p = store (shared m) !! p;
}.

Section step.
Context {m : machine} {fl : Z → list ptr} {way : nat → list ptr} {pend : Z} {i : nat} {th : thread}.
Hypothesis Hm : machine_inv m fl way pend.
Hypothesis Hi : threads m !! i = Some th.

Lemma machine_step th' bp' o' fl' wi pend' :
  pool_inv (settled pend' bp') fl' → (o' = None → pend' = 0) →
  job_ok bp' fl' o' pend' i wi (job th') →
  leaves_others m fl pend i (way i ++ hand th) bp' fl' o' pend' →
  NoDup (wi ++ hand th') →
  (∀ p, p ∈ wi ++ hand th' → p ∈ way i ++ hand th ∨ ¬ held (shared m) fl p) →
  (∀ p, held bp' fl' p ↔ p ∈ wi ++ hand th' ∨ (held (shared m) fl p ∧ p ∉ way i ++ hand th)) →
  machine_inv (Machine bp' o' (<[i := th']> (threads m))) fl' (λ j, if decide (j = i) then wi else way j) pend'.
Proof.
  intros Hp Hfree Hjob [Ho Hst Hlock] Hnd Hown Hheld.
  assert (Hhi : hands m i = hand th) by (unfold hands; by rewrite Hi).
  assert (Hsame : ∀ j, j ≠ i → hands (Machine bp' o' (<[i := th']> (threads m))) j = hands m j).
  { intros j Hne. unfold hands. cbn [threads]. by rewrite list_lookup_insert_ne. }
  assert (Hnew : hands (Machine bp' o' (<[i := th']> (threads m))) i = hand th').
  { unfold hands. cbn [threads]. rewrite list_lookup_insert_eq; [done|by eapply lookup_lt_Some]. }
  assert (Hother : ∀ j p, j ≠ i → p ∈ way j ++ hands m j → held (shared m) fl p ∧ p ∉ way i ++ hand th).
  { intros j p Hne Hin. split; [apply (mi_held _ _ _ _ Hm); by exists j|]. rewrite <- Hhi. intros Hin'.
    apply Hne. by apply (mi_apart _ _ _ _ Hm j i p). }
  split; cbn [shared owner threads]; [done|done|..].
  - intros j thj Hj. destruct (decide (j = i)) as [->|Hne].
    { rewrite list_lookup_insert_eq in Hj by by eapply lookup_lt_Some. by injection Hj as <-. }
    rewrite list_lookup_insert_ne in Hj by done. pose proof (mi_job _ _ _ _ Hm j thj Hj) as Hold.
    unfold job_ok in *. destruct (job thj) as [P|]; [|split; [apply Hold|rewrite Ho by done; apply Hold]].
    destruct Hold as (pe & Hd & Hpe). exists pe. split.
    + rewrite (bool_decide_ext _ (owner m = Some j)) by by apply Ho.
      eapply doing_stable; [exact Hd| |].
      * intros p Hin. destruct (Hother j p Hne) as [? ?]; [by apply elem_of_app; left|]. by apply Hst.
      * intros Hl%bool_decide_eq_true. apply (Hlock j Hl Hne).
    + rewrite Ho by done. intros Hl. rewrite Hpe by done. by destruct (Hlock j Hl Hne) as [-> _].
  - intros j Hj. case_decide as Hd; [subst j|].
    + rewrite list_lookup_insert_eq in Hj by by eapply lookup_lt_Some. done.
    + rewrite list_lookup_insert_ne in Hj by done. by apply (mi_absent _ _ _ _ Hm).
  - intros j. case_decide as Hd; [subst j; by rewrite Hnew|]. rewrite Hsame by done. apply (mi_nodup _ _ _ _ Hm).
  - intros j j' p. destruct (decide (j = i)) as [->|Hj], (decide (j' = i)) as [->|Hj'];
      rewrite ?Hnew, ?(Hsame j), ?(Hsame j') by done.
    + done.
    + intros Hin Hin'. destruct (Hother j' p Hj' Hin'), (Hown p Hin); naive_solver.
    + intros Hin Hin'. destruct (Hother j p Hj Hin), (Hown p Hin'); naive_solver.
    + by apply (mi_apart _ _ _ _ Hm).
  - intros p. rewrite Hheld. split.
    + intros [Hin|[Hh Hno]]; [exists i; rewrite decide_True by done; by rewrite Hnew|].
      apply (mi_held _ _ _ _ Hm) in Hh as [j Hj]. exists j.
      destruct (decide (j = i)) as [->|Hne]; [by rewrite Hhi in Hj|]. by rewrite Hsame.
    + intros [j Hj]. destruct (decide (j = i)) as [->|Hne]; [left; by rewrite Hnew in Hj|].
      right. rewrite Hsame in Hj by done. by apply Hother with (j := j).
Qed.

(** What a thread owns is in no free list. *)
Lemma own_held p : p ∈ way i ++ hand th → held (shared m) fl p.
Proof. intros Hp. apply (mi_held _ _ _ _ Hm). exists i. unfold hands. by rewrite Hi. Qed.

Lemma own_buf p : p ∈ way i ++ hand th → ∃ b, store (shared m) !! p = Some b.
Proof. intros Hp. by destruct (own_held p Hp) as [[b Hb] _]; exists b. Qed.

Lemma own_nodup : NoDup (way i ++ hand th).
Proof. pose proof (mi_nodup _ _ _ _ Hm i) as Hn. unfold hands in Hn. by rewrite Hi in Hn. Qed.

(** The same buffers, held by somebody else or not at all. *)
Lemma held_own q : held (shared m) fl q ↔ q ∈ way i ++ hand th ∨ (held (shared m) fl q ∧ q ∉ way i ++ hand th).
Proof. pose proof (own_held q). destruct (decide (q ∈ way i ++ hand th)); tauto. Qed.

(** The thread goes on: it only looked, or passed the mutex. *)
Lemma machine_local th' o' wi :
  (o' = None → pend = 0) → job_ok (shared m) fl o' pend i wi (job th') →
  (∀ j, j ≠ i → o' = Some j ↔ owner m = Some j) → wi ++ hand th' ≡ₚ way i ++ hand th →
  machine_inv (Machine (shared m) o' (<[i := th']> (threads m))) fl (λ j, if decide (j = i) then wi else way j) pend.
Proof.
  intros Hfree Hjob Ho Hperm. apply machine_step; [apply (mi_pool _ _ _ _ Hm)|done|done|..].
  - by split.
  - rewrite Hperm. apply own_nodup.
  - intros p. rewrite Hperm. by left.
  - intros p. rewrite Hperm. apply held_own.
Qed.

(** It writes to a buffer of its own. *)
Lemma machine_write p b b' th' wi :
  p ∈ way i ++ hand th → store (shared m) !! p = Some b → capacity b' = capacity b →
  let bp' := set_store (<[p := b']> (store (shared m))) (shared m) in
  job_ok bp' fl (owner m) pend i wi (job th') → wi ++ hand th' ≡ₚ way i ++ hand th →
  machine_inv (Machine bp' (owner m) (<[i := th']> (threads m))) fl (λ j, if decide (j = i) then wi else way j) pend.
Proof.
  intros Hp Hb Hcap bp' Hjob Hperm. pose proof (own_held p Hp) as Hheld.
  apply machine_step; [|by apply (mi_free _ _ _ _ Hm)|done|..].
  - exact (pool_inv_write (settled pend (shared m)) fl p b b' (mi_pool _ _ _ _ Hm) Hheld Hb Hcap).
  - split; [done| |].
    + intros q Hq _. cbn [bp' set_store store]. rewrite lookup_insert_ne; [done|]. by intros ->.
    + intros j _ _. do 4 (split; [done|]). intros c q Hc Hq. cbn [bp' set_store store].
      rewrite lookup_insert_ne; [done|]. intros ->. by destruct Hheld as [_ Hno]; apply (Hno c).
  - rewrite Hperm. apply own_nodup.
  - intros q. rewrite Hperm. by left.
  - intros q. rewrite Hperm, <- held_own. unfold held. cbn [bp' set_store store].
    assert (is_Some (<[p := b']> (store (shared m)) !! q) ↔ is_Some (store (shared m) !! q)) as ->; [|done].
    rewrite lookup_insert_is_Some'. split; [by intros [<-|?]; [eexists|]|by right].
Qed.

(** It has the mutex: nobody else relies on anything but the buffers of his own. *)
Lemma machine_locked th' bp' fl' wi pend' :
  owner m = Some i → pool_inv (settled pend' bp') fl' → job_ok bp' fl' (Some i) pend' i wi (job th') →
  (∀ q, held (shared m) fl q → store bp' !! q = store (shared m) !! q) →
  NoDup (wi ++ hand th') →
  (∀ p, p ∈ wi ++ hand th' → p ∈ way i ++ hand th ∨ ¬ held (shared m) fl p) →
  (∀ p, held bp' fl' p ↔ p ∈ wi ++ hand th' ∨ (held (shared m) fl p ∧ p ∉ way i ++ hand th)) →
  machine_inv (Machine bp' (owner m) (<[i := th']> (threads m))) fl' (λ j, if decide (j = i) then wi else way j) pend'.
Proof.
  intros Ho Hp Hjob Hst Hnd Hown Hheld. rewrite Ho. apply machine_step; try done.
  split; [by rewrite Ho|by intros q _; apply Hst|]. intros j. rewrite Ho. by intros [= ->] ?.
Qed.
End step.

(** ** Steps under the mutex *)

Lemma held_unlink bp fl c p l b q :
  pool_inv bp fl → c ∈ classes → fl c = p :: l → store bp !! p = Some b →
  held (set_pool (<[c := next b]> (_pool bp)) bp) (upd fl c l) q ↔ q = p ∨ held bp fl q.
Proof.
  intros Hi Hc Hfl Hb. pose proof (alloc_pop bp fl c p l b Hi Hc Hfl Hb) as (_ & Hp & _ & _ & _ & Hf & Hf' & _).
  unfold held. cbn [set_pool store]. split.
  - intros [Hq Hno]. destruct (decide (q = p)) as [->|Hne]; [by left|right]. split; [done|].
    intros c' Hc' Hin. by apply (Hno c' Hc'), Hf'.
  - intros [->|[Hq Hno]]; [split; [by eexists|apply Hp]|]. split; [done|]. intros c' Hc' Hin.
    destruct (decide (q = p)) as [->|Hne]; [by destruct Hp as [_ Hp]; apply (Hp c')|]. by apply (Hno c' Hc'), Hf.
Qed.

Lemma held_link bp fl c p q :
  c ∈ classes → held bp fl p →
  held (set_pool (<[c := Some p]> (_pool bp)) bp) (upd fl c (p :: fl c)) q ↔ q ≠ p ∧ held bp fl q.
Proof.
  intros Hc Hp. unfold held. cbn [set_pool store]. split.
  - intros [Hq Hno]. split.
    + intros ->. apply (Hno c Hc). rewrite upd_eq. by left.
    + split; [done|]. intros c' Hc' Hin. apply (Hno c' Hc').
      destruct (decide (c' = c)) as [->|Hne]; [rewrite upd_eq; by right|by rewrite upd_ne].
  - intros (Hne & Hq & Hno). split; [done|]. intros c' Hc'.
    destruct (decide (c' = c)) as [->|Hne']; [rewrite upd_eq|rewrite upd_ne by done; by apply Hno].
    intros [->|Hin]%elem_of_cons; [done|]. by apply (Hno c).
Qed.

(** A step ends well: in a state in order, or with the process at the limit. *)
Definition ends_well (r : result (unit * machine)) : Prop :=
  match r with Ok (_, m) => ∃ fl way pend, machine_inv m fl way pend | Fail e => e = Exited end.

Lemma ends_ok m fl way pend : machine_inv m fl way pend → ends_well (Ok (tt, m)).
Proof. intros Hm. by exists fl, way, pend. Qed.

Lemma on_buf_run p f bp b :
  store bp !! p = Some b → on_buf p f bp = Ok (tt, set_store (<[p := f b]> (store bp)) bp).
Proof. intros Hb. unfold on_buf, buf_at, mbind, M_bind, get. by rewrite Hb. Qed.

Lemma buf_at_run p bp b : store bp !! p = Some b → buf_at p bp = Ok (b, bp).
Proof. intros Hb. unfold buf_at, mbind, M_bind, get. by rewrite Hb. Qed.

Lemma pool_at_run c first bp : _pool bp !! c = Some first → pool_at c bp = Ok (first, bp).
Proof. intros Hc. unfold pool_at, mbind, M_bind, get. by rewrite Hc. Qed.

Section turns.
Variables (m : machine) (fl : Z → list ptr) (way : nat → list ptr) (pend : Z) (i : nat) (th : thread).
Hypothesis Hm : machine_inv m fl way pend.
Hypothesis Hi : threads m !! i = Some th.

Lemma start_request_ends r : job th = None → ends_well (start_request i th r m).
Proof.
  intros Hj. pose proof (mi_job _ _ _ _ Hm i th Hi) as Hjob. rewrite Hj in Hjob. destruct Hjob as [Hway Ho].
  destruct r as [N|j|j len hd dat]; cbn [start_request].
  - eapply ends_ok. apply (machine_local Hm Hi (Thread (hand th) _) (owner m) []); [apply Hm| |done|by rewrite Hway].
    exists 0. split; [|done]. rewrite bool_decide_false by done. unfold alloc_prog.
    destruct (class_of N) as [c|] eqn:Hc; [apply at_ask; by apply (class_of_spec N)|apply (at_return _ _ None)].
  - destruct (hand th !! j) as [p|] eqn:Hp; [|by eapply ends_ok].
    eapply ends_ok. apply (machine_local Hm Hi (Thread (delete j (hand th)) _) (owner m) [p]); [apply Hm| |done|].
    + exists 0. split; [|done]. rewrite bool_decide_false by done. apply at_revert.
    + rewrite Hway. cbn [app hand]. symmetry. by apply delete_Permutation.
  - destruct (hand th !! j) as [p|] eqn:Hp; [|by eapply ends_ok].
    assert (Hin : p ∈ way i ++ hand th) by (apply elem_of_app; right; by eapply list_elem_of_lookup_2).
    destruct (own_buf Hm Hi p Hin) as [b Hb]. erewrite on_buf_run by done.
    eapply ends_ok. apply (machine_write Hm Hi p b _ th [] Hin Hb); [done| |by rewrite Hway].
    by rewrite Hj.
Qed.

(** Reading [_pool[index]]. *)
Lemma class_read c : c ∈ classes → ∃ first, _pool (shared m) !! c = Some first ∧ chain (store (shared m)) first (fl c).
Proof. intros Hc. apply (inv_lists _ _ (mi_pool _ _ _ _ Hm) c Hc). Qed.

Lemma empty_class p c : p ∈ way i ++ hand th → is_buf (shared m) p (empty_buf c) → c ∈ classes.
Proof.
  intros Hp (b & Hb & <- & _). by apply (inv_store _ _ (mi_pool _ _ _ _ Hm) p b Hb).
Qed.

(** A new buffer. *)
Lemma new_ends c :
  c ∈ classes → _total_mem (shared m) + c / 1024 < EXTRA_MEM_LIMIT → owner m = Some i → way i = [] → pend = 0 →
  ends_well (micro_step i th (Act (new_buffer c) (alloc_count c)) m).
Proof.
  intros Hc Hlim Ho Hway Hp0. pose proof (mi_pool _ _ _ _ Hm) as Hinv. rewrite Hp0, settled_0 in Hinv.
  destruct (alloc_new _ fl c Hinv Hc Hlim) as (Hi' & Hheld & Hno & _ & Hst & Hf & Hf' & Hback).
  pose proof (own_held Hm Hi) as Hown. pose proof (own_nodup Hm Hi) as Hnd. rewrite Hway in Hown, Hnd.
  cbn [micro_step new_buffer]. unfold mbind, M_bind, get, put, mret, M_ret.
  eapply ends_ok, (machine_locked Hm Hi (Thread (hand th) _) _ fl [fresh_ptr (shared m)] (c / 1024) Ho).
  - assert (Hu : u64 (_total_mem (shared m) + c / 1024) = _total_mem (shared m) + c / 1024).
    { apply u64_small. pose proof (inv_limit _ _ Hinv). pose proof (class_range c Hc). pose proof (Z.div_pos c 1024).
      unfold EXTRA_MEM_LIMIT in *. lia. }
    rewrite Hu in Hi'. exact Hi'.
  - exists (c / 1024). split; [|done]. rewrite bool_decide_true by done. by apply at_count.
  - intros q Hq. apply Hst; [by intros ->|apply Hq].
  - cbn [app hand] in *. apply NoDup_cons. split; [|done]. by intros Hin%Hown.
  - rewrite Hway. cbn [app hand]. intros q [->|Hq]%elem_of_cons; [by right|by left].
  - rewrite Hway. cbn [app hand] in *. intros q. rewrite elem_of_cons. destruct (decide (q = fresh_ptr (shared m))) as [->|Hne].
    + split; [by left; left|]. intros _. split; [apply Hheld|]. apply Hheld.
    + assert (Hq : held (BufferPool (<[fresh_ptr (shared m) := io_buffer_new c]> (store (shared m)))
        (Pos.succ (fresh_ptr (shared m))) (_pool (shared m)) (_total_mem (shared m))) fl q ↔ held (shared m) fl q).
      { unfold held. cbn [store]. by rewrite lookup_insert_ne by by apply not_eq_sym. }
      rewrite Hq. specialize (Hown q). destruct (decide (q ∈ hand th)); tauto.
Qed.

(** The first buffer of a list is taken. *)
Lemma pop_ends c p l nxt :
  c ∈ classes → fl c = p :: l → is_buf (shared m) p (λ b, next b = nxt) → owner m = Some i → way i = [] → pend = 0 →
  ends_well (micro_step i th (Act (pool_put c nxt) (λ _, Unlock (alloc_clear p))) m).
Proof.
  intros Hc Hfl (b & Hb & <-) Ho Hway Hp0. pose proof (mi_pool _ _ _ _ Hm) as Hinv. rewrite Hp0, settled_0 in Hinv.
  pose proof (own_held Hm Hi) as Hown. pose proof (own_nodup Hm Hi) as Hnd. rewrite Hway in Hown, Hnd.
  assert (Hno : ¬ held (shared m) fl p) by (apply (not_held_free _ _ c); [done|rewrite Hfl; by left]).
  eapply ends_ok, (machine_locked Hm Hi (Thread (hand th) _) _ (upd fl c l) [p] 0 Ho).
  - rewrite settled_0. by apply (pool_inv_unlink _ fl c p l).
  - exists 0. split; [|done]. rewrite bool_decide_true by done. apply at_popped.
  - done.
  - cbn [app hand] in *. apply NoDup_cons. split; [|done]. by intros Hin%Hown.
  - rewrite Hway. cbn [app hand]. intros q [->|Hq]%elem_of_cons; [by right|by left].
  - rewrite Hway. cbn [app hand] in *. intros q. rewrite elem_of_cons.
    rewrite (held_unlink _ fl c p l b q Hinv Hc Hfl Hb). specialize (Hown q). destruct (decide (q ∈ hand th)); tauto.
Qed.

(** A buffer is put in front of its list. *)
Lemma put_ends p c :
  is_buf (shared m) p (λ b, empty_buf c b ∧ _pool (shared m) !! c = Some (next b)) → owner m = Some i → way i = [p] → pend = 0 →
  ends_well (micro_step i th (revert_put p c) m).
Proof.
  intros (b & Hb & He & Hf) Ho Hway Hp0. pose proof (mi_pool _ _ _ _ Hm) as Hinv. rewrite Hp0, settled_0 in Hinv.
  pose proof (own_held Hm Hi) as Hown. pose proof (own_nodup Hm Hi) as Hnd. rewrite Hway in Hown, Hnd.
  pose proof (Hown p ltac:(by left)) as Hheld. cbn [app hand] in Hnd. apply NoDup_cons in Hnd as [Hout Hnd].
  assert (Hc : c ∈ classes) by (apply (empty_class p); [rewrite Hway; by left|by exists b]).
  eapply ends_ok, (machine_locked Hm Hi (Thread (hand th) _) _ (upd fl c (p :: fl c)) [] 0 Ho).
  - rewrite settled_0. by apply (pool_inv_link _ fl c p b).
  - exists 0. split; [|done]. rewrite bool_decide_true by done. apply at_end.
  - done.
  - done.
  - rewrite Hway. cbn [app hand]. intros q Hq. left. by right.
  - rewrite Hway. cbn [app hand] in *. intros q. rewrite elem_of_cons, (held_link _ fl c p q Hc Hheld).
    specialize (Hown q). rewrite elem_of_cons in Hown. split; [|intros [Hq|Hq]].
    + intros [Hne Hq]. destruct (decide (q ∈ hand th)); tauto.
    + split; [by intros ->|]. apply Hown. by right.
    + tauto.
Qed.

(** A step that only looks, or passes the mutex. *)
Lemma local_ends o' wi j' :
  (o' = None → pend = 0) → job_ok (shared m) fl o' pend i wi j' →
  (∀ j, j ≠ i → o' = Some j ↔ owner m = Some j) → wi = way i →
  ends_well (go i (Thread (hand th) j') o' (shared m) m).
Proof. intros Hfree Hjob Ho ->. by eapply ends_ok, (machine_local Hm Hi (Thread (hand th) j') o' (way i)). Qed.

(** An assignment to a buffer that is on its way. *)
Lemma write_ends p f k :
  way i = [p] → (∀ b, capacity (f b) = capacity b) →
  (∀ b, store (shared m) !! p = Some b →
     job_ok (set_store (<[p := f b]> (store (shared m))) (shared m)) fl (owner m) pend i (way i) (Some (k tt))) →
  ends_well (micro_step i th (Act (on_buf p f) k) m).
Proof.
  intros Hway Hcap Hjob. assert (Hin : p ∈ way i ++ hand th) by (rewrite Hway; by left).
  destruct (own_buf Hm Hi p Hin) as [b Hb]. cbn [micro_step]. erewrite on_buf_run by done.
  eapply ends_ok. by apply (machine_write Hm Hi p b (f b) (Thread (hand th) (Some (k tt))) (way i) Hin Hb); auto.
Qed.

Lemma written p (f : io_buffer → io_buffer) (Q : io_buffer → Prop) b :
  Q (f b) → is_buf (set_store (<[p := f b]> (store (shared m))) (shared m)) p Q.
Proof. intros HQ. exists (f b). cbn [set_store store]. by rewrite lookup_insert_eq. Qed.

(** The steps of a thread that has not the mutex. *)
Lemma unlocked_ends P : owner m ≠ Some i → doing (shared m) fl false 0 (way i) P → ends_well (micro_step i th P m).
Proof.
  intros Ho Hd.
  assert (Hjob : ∀ bp wi P', doing bp fl false 0 wi P' → job_ok bp fl (owner m) pend i wi (Some P')).
  { intros bp wi P' Hd'. exists 0. by rewrite bool_decide_false. }
  assert (Hlock : ∀ P', doing (shared m) fl true 0 (way i) P' → ends_well (micro_step i th (Lock P') m)).
  { intros P' Hd'. cbn [micro_step]. destruct (owner m) as [j|] eqn:Hj; [by eapply ends_ok|].
    apply (local_ends _ (way i)); [done| |intros ? ?; split; congruence|done].
    exists 0. rewrite bool_decide_true by done. split; [done|]. intros _. symmetry. by apply (mi_free _ _ _ _ Hm). }
  inversion Hd as [r Hf Hz Hw HP|c Hc Hf Hz Hw HP| | | | | | | | |p Hf Hz Hw HP|p Hf Hz Hw HP|p c Hb Hf Hz Hw HP
    |p c Hb Hf Hz Hw HP|p c Hb Hf Hz Hw HP| | | | |]; clear Hf Hz; subst P; symmetry in Hw.
  - cbn [micro_step]. eapply ends_ok, (machine_local Hm Hi (Thread (option_list r ++ hand th) None) (owner m) []);
      [apply Hm|by split|done|by rewrite Hw].
  - apply Hlock. rewrite Hw. by apply at_search.
  - apply write_ends; [done|done|]. intros b Hb. apply Hjob. rewrite Hw. apply (at_return _ _ (Some p)).
  - assert (Hin : p ∈ way i ++ hand th) by (rewrite Hw; by left). destruct (own_buf Hm Hi p Hin) as [b Hb].
    cbn [micro_step revert_prog]. erewrite buf_at_run by done. apply (local_ends _ (way i)); [apply Hm| |done|done].
    apply Hjob. rewrite Hw. apply at_length. by exists b.
  - destruct Hb as (b0 & Hb0 & Hcap). apply write_ends; [done|done|]. intros b Hb. assert (b0 = b) as -> by congruence.
    apply Hjob. rewrite Hw. by apply at_head, written.
  - destruct Hb as (b0 & Hb0 & Hcap & Hlen). apply write_ends; [done|done|]. intros b Hb. assert (b0 = b) as -> by congruence.
    apply Hjob. rewrite Hw. by apply at_give, written.
  - apply Hlock. rewrite Hw. by apply at_find.
Qed.

(** The steps of the thread that has it. *)
Lemma locked_ends P : owner m = Some i → doing (shared m) fl true pend (way i) P → ends_well (micro_step i th P m).
Proof.
  intros Ho Hd.
  assert (Hjob : ∀ wi P', doing (shared m) fl true pend wi P' → job_ok (shared m) fl (owner m) pend i wi (Some P')).
  { intros wi P' Hd'. exists pend. by rewrite bool_decide_true. }
  assert (Hnext : ∀ P', doing (shared m) fl true pend (way i) P' → ends_well (go i (Thread (hand th) (Some P')) (owner m) (shared m) m)).
  { intros P' Hd'. apply (local_ends _ (way i)); [by rewrite Ho|by apply Hjob|done|done]. }
  assert (Hunlock : ∀ P', pend = 0 → doing (shared m) fl false 0 (way i) P' → ends_well (micro_step i th (Unlock P') m)).
  { intros P' Hz Hd'. cbn [micro_step]. rewrite decide_True by done.
    apply (local_ends _ (way i)); [done|exists 0; by rewrite bool_decide_false| |done].
    intros j Hne. rewrite Ho. split; [done|by intros [= ->]]. }
  pose proof (mi_pool _ _ _ _ Hm) as Hinv.
  inversion Hd as [| |c Hc Hf Hz Hw HP|c Hc Hf Hz Hw HP|c Hc Hlim Hf Hz Hw HP|c p Hc Hlim Hf Hz Hw HP|p Hf Hz Hw HP|c p l Hc Hfl Hf Hz Hw HP
    |c p l nxt Hc Hfl Hb Hf Hz Hw HP|p Hf Hz Hw HP| | | | | |p c Hb Hf Hz Hw HP|p c Hb Hf Hz Hw HP|p c first Hb Hfirst Hf Hz Hw HP|p c Hb Hf Hz Hw HP
    |Hf Hz Hw HP]; clear Hf; subst P; symmetry in Hw, Hz.
  - destruct (class_read c Hc) as (first & Hf & Hch). cbn [micro_step]. erewrite pool_at_run by done.
    apply Hnext. rewrite Hz, Hw. destruct (fl c) as [|p l] eqn:Hfl.
    + simpl in Hch. subst first. by apply at_check.
    + destruct Hch as [-> _]. by apply (at_first _ _ c p l).
  - cbn [micro_step alloc_at]. unfold check_total_mem, exit_if, mbind, M_bind, get.
    rewrite Hz, settled_0 in Hinv. pose proof (inv_limit _ _ Hinv). pose proof (class_range c Hc).
    pose proof (Z.div_pos c 1024). pose proof (Z.div_le_upper_bound c 1024 8192).
    rewrite u64_small by (unfold EXTRA_MEM_LIMIT in *; lia).
    destruct (Z.leb_spec EXTRA_MEM_LIMIT (_total_mem (shared m) + c / 1024)); [done|]. apply Hnext. rewrite Hz, Hw. by apply at_new.
  - by apply new_ends.
  - cbn [micro_step alloc_count add_total_mem]. eapply ends_ok.
    apply (machine_locked Hm Hi (Thread (hand th) _) _ fl (way i) 0 Ho); [|..|by apply (own_nodup Hm Hi)|by left|].
    + rewrite settled_0. rewrite Hz in Hinv. pose proof (inv_limit _ _ Hinv) as Hl. cbn [settled set_total_mem _total_mem] in Hl.
      rewrite u64_small by (unfold EXTRA_MEM_LIMIT in *; lia). exact Hinv.
    + exists 0. rewrite bool_decide_true by done. split; [|done]. rewrite Hw. apply at_counted.
    + done.
    + intros q. apply (held_own Hm Hi).
  - apply Hunlock; [done|]. rewrite Hw. apply (at_return _ _ (Some p)).
  - destruct (class_read c Hc) as (first & _ & Hch). rewrite Hfl in Hch. destruct Hch as (_ & b & Hb & _).
    cbn [micro_step alloc_at]. erewrite buf_at_run by done. apply Hnext. rewrite Hz, Hw. eapply at_pop; [done..|by exists b].
  - by apply (pop_ends c p l).
  - apply Hunlock; [done|]. rewrite Hw. apply at_clear.
  - assert (Hc : c ∈ classes) by (apply (empty_class p); [rewrite Hw; by left|done]).
    destruct (class_read c Hc) as (first & Hf & _). cbn [micro_step revert_locked].
    unfold find_class, mbind, M_bind, get. rewrite bool_decide_true by by eexists. apply Hnext. rewrite Hz, Hw. by apply at_link.
  - assert (Hc : c ∈ classes) by (apply (empty_class p); [rewrite Hw; by left|done]).
    destruct (class_read c Hc) as (first & Hf & _). cbn [micro_step]. erewrite pool_at_run by done.
    apply Hnext. rewrite Hz, Hw. by apply at_linked.
  - destruct Hb as (b0 & Hb0 & He). apply write_ends; [done|done|]. intros b Hb. assert (b0 = b) as -> by congruence.
    exists pend. rewrite bool_decide_true by done. split; [|done]. rewrite Hz, Hw. by apply at_put, written.
  - by apply put_ends.
  - apply Hunlock; [done|]. rewrite Hw. apply (at_return _ _ None).
Qed.

Lemma pool_turn_ends r : ends_well (pool_turn i r m).
Proof.
  unfold pool_turn, mbind, M_bind, get. rewrite Hi. destruct (job th) as [P|] eqn:Hj; [|by apply start_request_ends].
  pose proof (mi_job _ _ _ _ Hm i th Hi) as Hjob. rewrite Hj in Hjob. destruct Hjob as (pe & Hd & Hpe).
  destruct (decide (owner m = Some i)) as [Ho|Ho].
  - rewrite bool_decide_true in Hd by done. rewrite (Hpe Ho) in Hd. by apply locked_ends.
  - rewrite bool_decide_false in Hd by done. assert (pe = 0) as -> by by inversion Hd. by apply unlocked_ends.
Qed.
End turns.

(** ** The claim *)

(** No buffer is in the hands of two threads, or twice in those of one. *)
Definition nothing_shared (m : machine) : Prop :=
  ∀ i j a b p, hands m i !! a = Some p → hands m j !! b = Some p → i = j ∧ a = b.

(** No thread is in a call. *)
Definition all_idle (m : machine) : Prop := ∀ i th, threads m !! i = Some th → job th = None.

Lemma run_pool_ends sched m : (∃ fl way pend, machine_inv m fl way pend) → ends_well (run_pool sched m).
Proof.
  unfold run_pool. revert m. induction sched as [|[i r] sched IH]; intros m Hm; [exact Hm|]. cbn [for_each fst snd].
  unfold mbind, M_bind in *. destruct Hm as (fl & way & pend & Hm).
  destruct (threads m !! i) as [th|] eqn:Hi.
  - pose proof (pool_turn_ends m fl way pend i th Hm Hi r) as Hr. unfold ends_well in Hr at 1.
    destruct (pool_turn i r m) as [[[] m1]|]; [by apply IH|done].
  - unfold pool_turn at 1, mbind, M_bind, get. rewrite Hi. apply IH. by exists fl, way, pend.
Qed.

Lemma pool_start_inv n bp fl :
  pool_inv bp fl → (∀ p, ¬ held bp fl p) → machine_inv (pool_start n bp) fl (λ _, []) 0.
Proof.
  intros Hi Hno. assert (Hh : ∀ i, hands (pool_start n bp) i = []).
  { intros i. unfold hands, pool_start. cbn [threads]. destruct (replicate n _ !! i) as [th|] eqn:Hth; [|done].
    by apply lookup_replicate in Hth as [-> _]. }
  split; try done.
  - by rewrite settled_0.
  - intros i th [-> _]%lookup_replicate. by split.
  - intros i. rewrite Hh. constructor.
  - intros i j p. by rewrite Hh, elem_of_nil.
  - intros p. split; [by intros ?%Hno|]. intros [i Hp]. rewrite Hh in Hp. by apply elem_of_nil in Hp.
Qed.

(** C2 The pool is safe to share: however the small steps of its threads come in
    between each other, while they ask for buffers, give them back and write into
    those they have, no step goes wrong (the process can only end at the memory
    limit), and no buffer is ever in the hands of two threads.  Whenever the mutex
    is free the invariant of the pool holds, and a buffer in somebody's hands is in
    no free list; and when no thread is in a call, every buffer is in a free list or
    in the hands of one of them: none has been lost. *)
Theorem pool_threads_apart sched n bp fl :
  pool_inv bp fl → (∀ p, ¬ held bp fl p) →
  match run_pool sched (pool_start n bp) with
  | Ok (_, m) => nothing_shared m ∧
      (owner m = None → ∃ fl', pool_inv (shared m) fl' ∧
         (∀ i p, p ∈ hands m i → held (shared m) fl' p) ∧
         (all_idle m → ∀ p, held (shared m) fl' p → ∃ i, p ∈ hands m i))
  | Fail e => e = Exited
  end.
Proof.
  intros Hi Hno. pose proof (run_pool_ends sched (pool_start n bp)) as Hr. unfold ends_well in Hr.
  specialize (Hr (ex_intro _ _ (ex_intro _ _ (ex_intro _ _ (pool_start_inv n bp fl Hi Hno))))).
  destruct (run_pool sched (pool_start n bp)) as [[[] m]|]; [|done]. destruct Hr as (fl' & way & pend & Hm). split.
  - intros i j a b p Ha Hb. assert (i = j) as ->.
    { apply (mi_apart _ _ _ _ Hm i j p); apply elem_of_app; right; by eapply list_elem_of_lookup_2. }
    split; [done|]. pose proof (mi_nodup _ _ _ _ Hm j) as [_ [_ Hnd]]%NoDup_app. by eapply NoDup_lookup.
  - intros Ho. exists fl'. pose proof (mi_pool _ _ _ _ Hm) as Hp. rewrite (mi_free _ _ _ _ Hm Ho), settled_0 in Hp.
    split; [done|]. split.
    + intros i p Hp'. apply (mi_held _ _ _ _ Hm). exists i. apply elem_of_app. by right.
    + intros Hidle p [i Hin]%(mi_held _ _ _ _ Hm). exists i. apply elem_of_app in Hin as [Hin|Hin]; [|done].
      destruct (threads m !! i) as [th|] eqn:Hth; [|rewrite (mi_absent _ _ _ _ Hm i Hth) in Hin; by apply elem_of_nil in Hin].
      pose proof (mi_job _ _ _ _ Hm i th Hth) as Hj. rewrite (Hidle i th Hth) in Hj. destruct Hj as [Hw _].
      rewrite Hw in Hin. by apply elem_of_nil in Hin.
Qed.

(** Two threads whose steps alternate: both ask for a small buffer, the first gives
    its own back while the second asks again. *)
Definition alternating : list (nat * request) :=
  concat (replicate 16 [(0%nat, Ask 100); (1%nat, Ask 100)]) ++
  concat (replicate 12 [(0%nat, GiveBack 0); (1%nat, Ask 5000)]).

Example alternating_runs :
  match run_pool alternating (pool_start 2 bare_pool) with
  | Ok (_, m) => hands m 0 ≠ [] ∧ hands m 1 ≠ []
  | Fail _ => False
  end.
Proof. vm_compute. by split. Qed.

Lemma pool_threads_apart_witness :
  match run_pool alternating (pool_start 2 bare_pool) with
  | Ok (_, m) => nothing_shared m
  | Fail e => e = Exited
  end.
Proof.
  assert (Hno : ∀ p, ¬ held bare_pool (λ _, []) p) by (intros p [[b Hb] _]; done).
  pose proof (pool_threads_apart alternating 2 bare_pool _ bare_pool_inv Hno) as Hr.
  destruct (run_pool alternating (pool_start 2 bare_pool)) as [[[] m]|]; [apply Hr|exact Hr].
Defined.
