(* ===== verification/Wire.v ===== *)
(** * The wire format (include/msg_head.h)

    A message is a [commu_head] followed by its payload.  The program copies
    the struct to and from the buffers byte by byte, so the format is the memory
    layout of the struct: two 4-byte little-endian two's complement integers (the
    targets of the makefiles).  [parse] is the reference decoder: what a byte
    stream means, as the specification of [tcp_conn::handle_read]. *)
From S2P Require Import Prelude Kernel.

Record commu_head := CommuHead { cmdid : Z; h_length : Z }.

Definition COMMU_HEAD_LENGTH : Z := 8.
Definition MSG_LENGTH_LIMIT : Z := 65536 - COMMU_HEAD_LENGTH.

(** ** An [int] in memory *)

Definition byte_of (z : Z) : byte :=
  default x00 (Byte.of_N (Z.to_N (z mod 256))).
Definition byte_val (b : byte) : Z := Z.of_N (Byte.to_N b).

Definition int_bytes (z : Z) : list byte :=
  [byte_of z; byte_of (Z.shiftr z 8); byte_of (Z.shiftr z 16); byte_of (Z.shiftr z 24)].

Definition int_of_bytes (bs : list byte) : Z :=
  match bs with
  | [b0; b1; b2; b3] =>
      to_int (byte_val b0 + 256 * (byte_val b1 + 256 * (byte_val b2 + 256 * byte_val b3)))
  | _ => 0
  end.

(** [(const char* )&head] and [memcpy(&head, data, COMMU_HEAD_LENGTH)] *)
Definition head_bytes (h : commu_head) : list byte :=
  int_bytes (cmdid h) ++ int_bytes (h_length h).
Definition head_of_bytes (bs : list byte) : commu_head :=
  CommuHead (int_of_bytes (take 4 bs)) (int_of_bytes (take 4 (drop 4 bs))).

(** ** Messages and streams *)

Definition message : Type := Z * list byte.

(** The bytes [tcp_conn::send_data] puts in the output buffer. *)
Definition frame (m : message) : list byte :=
  head_bytes (CommuHead m.1 (Z.of_nat (length m.2))) ++ m.2.

Definition bad_length (h : commu_head) : bool :=
  (MSG_LENGTH_LIMIT <? h_length h) || (h_length h <? 0).

(** Why decoding stopped: more bytes are needed, the header is malformed, or the
    command has no callback. *)
Inductive stop := Partial | BadLength | UnknownCmd.

Section parse.
Variable known : Z → bool.

(** The next step of decoding: the message at the front, or the reason to stop. *)
Definition parse_one (bs : list byte) : message * list byte + stop :=
  if Z.of_nat (length bs) <? COMMU_HEAD_LENGTH then inr Partial
  else
    let h := head_of_bytes (take 8 bs) in
    if bad_length h then inr BadLength
    else if Z.of_nat (length bs) <? COMMU_HEAD_LENGTH + h_length h then inr Partial
    else if known (cmdid h) then
      let n := Z.to_nat (h_length h) in
      inl ((cmdid h, take n (drop 8 bs)), drop (8 + n) bs)
    else inr UnknownCmd.

Fixpoint parse_fuel (fuel : nat) (bs : list byte) : list message * list byte * stop :=
  match fuel with
  | O => ([], bs, Partial)
  | S fuel =>
      match parse_one bs with
      | inr st => ([], bs, st)
      | inl (m, bs') =>
          let '(ms, rest, st) := parse_fuel fuel bs' in (m :: ms, rest, st)
      end
  end.

(** The messages at the front of [bs], the bytes behind them, and why it stops
    there. *)
Definition parse (bs : list byte) : list message * list byte * stop :=
  parse_fuel (S (length bs)) bs.
End parse.

(** ** Bytes *)

Lemma byte_val_range b : 0 ≤ byte_val b < 256.
Proof.
  unfold byte_val. pose proof (Byte.to_N_bounded b). lia.
Qed.

Lemma byte_val_of z : byte_val (byte_of z) = z mod 256.
Proof.
  unfold byte_of, byte_val. pose proof (Z.mod_pos_bound z 256 ltac:(lia)) as Hz.
  destruct (Byte.of_N (Z.to_N (z mod 256))) as [b|] eqn:Hb.
  - simpl. apply Byte.to_of_N in Hb. rewrite Hb. lia.
  - apply Byte.of_N_None_iff in Hb. lia.
Qed.

Lemma length_int_bytes z : length (int_bytes z) = 4%nat.
Proof. done. Qed.
Lemma length_head_bytes h : length (head_bytes h) = 8%nat.
Proof. done. Qed.

Lemma int_of_bytes_range bs : is_int (int_of_bytes bs).
Proof.
  unfold int_of_bytes. do 5 (destruct bs as [|? bs]; [first [apply to_int_range|int_lia]|]). int_lia.
Qed.

Lemma int_bytes_roundtrip z : is_int z → int_of_bytes (int_bytes z) = z.
Proof.
  intros Hz. unfold int_of_bytes, int_bytes. rewrite !byte_val_of, !Z.shiftr_div_pow2 by lia.
  assert (H : z mod 256 + 256 * ((z / 2 ^ 8) mod 256 + 256 * ((z / 2 ^ 16) mod 256 +
    256 * ((z / 2 ^ 24) mod 256))) = z mod 2 ^ 32).
  { change (2 ^ 8) with 256. change (2 ^ 16) with (256 * 256).
    change (2 ^ 24) with (256 * 256 * 256). change (2 ^ 32) with (256 * (256 * (256 * 256))).
    rewrite <- !Z.div_div by lia. rewrite !Z.rem_mul_r by lia.
    lia. }
  rewrite H. unfold to_int. rewrite Z.mod_mod by lia. by apply to_int_small.
Qed.

Lemma head_bytes_roundtrip h :
  is_int (cmdid h) → is_int (h_length h) → head_of_bytes (head_bytes h) = h.
Proof.
  intros Hc Hl. unfold head_of_bytes, head_bytes.
  rewrite (take_app_length' _ _ 4), (drop_app_length' _ _ 4), (take_ge (int_bytes (h_length h))) by done.
  rewrite !int_bytes_roundtrip by done. by destruct h.
Qed.

Lemma byte_of_val b : byte_of (byte_val b) = b.
Proof.
  unfold byte_of. rewrite Z.mod_small by apply byte_val_range. unfold byte_val.
  by rewrite N2Z.id, Byte.of_to_N.
Qed.

Lemma byte_of_mod z z' : z mod 256 = z' mod 256 → byte_of z = byte_of z'.
Proof. unfold byte_of. by intros ->. Qed.

Lemma to_int_mod z : to_int z mod 2 ^ 32 = z mod 2 ^ 32.
Proof.
  unfold to_int. destruct (Z.ltb_spec (z mod 2 ^ 32) (2 ^ 31)); [by rewrite Z.mod_mod by lia|].
  replace (z mod 2 ^ 32 - 2 ^ 32) with (z mod 2 ^ 32 + (-1) * 2 ^ 32) by lia.
  by rewrite Z.mod_add, Z.mod_mod by lia.
Qed.

(** The bytes of an [int] are determined by its value modulo [2^32]. *)
Lemma shiftr_to_int z k : 0 ≤ k ≤ 24 → Z.shiftr (to_int z) k mod 256 = Z.shiftr z k mod 256.
Proof.
  intros Hk. change 256 with (2 ^ 8). rewrite <- !Z.land_ones by lia. apply Z.bits_inj'. intros n Hn.
  rewrite !Z.land_spec, !Z.shiftr_spec by lia.
  destruct (Z.ltb_spec n 8); [|by rewrite !Z.ones_spec_high, !andb_false_r by lia].
  rewrite Z.ones_spec_low, !andb_true_r by lia.
  rewrite <- (Z.mod_pow2_bits_low (to_int z) 32), <- (Z.mod_pow2_bits_low z 32) by lia.
  by rewrite to_int_mod.
Qed.

Lemma bytes_int_roundtrip bs : length bs = 4%nat → int_bytes (int_of_bytes bs) = bs.
Proof.
  destruct bs as [|b0 [|b1 [|b2 [|b3 [|]]]]]; try done. intros _. unfold int_of_bytes, int_bytes.
  set (v := byte_val b0 + _).
  pose proof (byte_val_range b0); pose proof (byte_val_range b1).
  pose proof (byte_val_range b2); pose proof (byte_val_range b3).
  assert (Hb : ∀ k b, 0 ≤ k ≤ 24 → Z.shiftr v k mod 256 = byte_val b →
    byte_of (Z.shiftr (to_int v) k) = b).
  { intros k b Hk Hv. rewrite <- (byte_of_val b). apply byte_of_mod.
    rewrite shiftr_to_int, Hv by done. symmetry. apply Z.mod_small, byte_val_range. }
  rewrite <- (Z.shiftr_0_r (to_int v)) at 1.
  rewrite (Hb 0 b0), (Hb 8 b1), (Hb 16 b2), (Hb 24 b3); [done|lia|..];
    try lia; rewrite Z.shiftr_div_pow2 by lia; unfold v.
  - change (2 ^ 24) with 16777216. Z.div_mod_to_equations. lia.
  - change (2 ^ 16) with 65536. Z.div_mod_to_equations. lia.
  - change (2 ^ 8) with 256. Z.div_mod_to_equations. lia.
  - rewrite Z.pow_0_r, Z.div_1_r. Z.div_mod_to_equations. lia.
Qed.

Lemma bytes_head_roundtrip bs : length bs = 8%nat → head_bytes (head_of_bytes bs) = bs.
Proof.
  intros Hl. unfold head_bytes, head_of_bytes. cbn [cmdid h_length].
  rewrite !bytes_int_roundtrip by (rewrite length_take, ?length_drop; lia).
  rewrite (take_ge (drop 4 bs)) by (rewrite length_drop; lia). by rewrite take_drop.
Qed.

Lemma length_frame m : length (frame m) = (8 + length m.2)%nat.
Proof. unfold frame. by rewrite length_app, length_head_bytes. Qed.

(** ** Decoding *)

Section parse_facts.
Variable known : Z → bool.

Abbreviation parse_one := (parse_one known).
Abbreviation parse_fuel := (parse_fuel known).
Abbreviation parse := (parse known).

Lemma parse_one_inl bs m bs' :
  parse_one bs = inl (m, bs') ↔
    (8 ≤ length bs)%nat ∧
    let h := head_of_bytes (take 8 bs) in let n := Z.to_nat (h_length h) in
    0 ≤ h_length h ≤ MSG_LENGTH_LIMIT ∧ (8 + n ≤ length bs)%nat ∧ known (cmdid h) = true ∧
    m = (cmdid h, take n (drop 8 bs)) ∧ bs' = drop (8 + n) bs.
Proof.
  unfold Wire.parse_one, bad_length, COMMU_HEAD_LENGTH. cbv zeta.
  bcase; [split; [done|lia]|].
  destruct (Z.ltb_spec MSG_LENGTH_LIMIT (h_length (head_of_bytes (take 8 bs))));
    [split; [done|lia]|].
  destruct (Z.ltb_spec (h_length (head_of_bytes (take 8 bs))) 0); [split; [done|lia]|].
  cbn [orb]. bcase; [split; [done|lia]|].
  destruct (known _) eqn:Hk; [|split; [done|naive_solver]].
  split; [intros [= <- <-]; split_and!; (done || lia)|]. by intros (_ & _ & _ & _ & -> & ->).
Qed.

Lemma parse_one_shorter bs m bs' :
  parse_one bs = inl (m, bs') → (8 + length m.2 + length bs' = length bs)%nat.
Proof.
  intros (? & _ & ? & _ & -> & ->)%parse_one_inl. simpl.
  rewrite length_take, !length_drop. lia.
Qed.

(** More bytes at the end do not change a step, unless it was short of bytes. *)
Lemma parse_one_app bs ys m bs' :
  parse_one bs = inl (m, bs') → parse_one (bs ++ ys) = inl (m, bs' ++ ys).
Proof.
  rewrite !parse_one_inl. cbv zeta. intros (Hl & Hh & Hn & Hk & -> & ->).
  rewrite length_app, (take_app_le bs) by lia. split; [lia|]. split; [done|].
  split; [lia|]. split; [done|]. split.
  - f_equal. rewrite drop_app_le, take_app_le by (rewrite ?length_drop; lia). done.
  - by rewrite drop_app_le by lia.
Qed.

Lemma parse_one_stop bs ys st :
  parse_one bs = inr st → st ≠ Partial → parse_one (bs ++ ys) = inr st.
Proof.
  unfold Wire.parse_one, COMMU_HEAD_LENGTH. rewrite length_app.
  destruct (Z.ltb_spec (Z.of_nat (length bs)) 8); [by intros [= <-]|].
  destruct (Z.ltb_spec (Z.of_nat (length bs + length ys)) 8); [lia|].
  rewrite (take_app_le bs) by lia. cbv zeta.
  set (h := head_of_bytes _). destruct (bad_length h); [done|].
  destruct (Z.ltb_spec (Z.of_nat (length bs)) (8 + h_length h)); [by intros [= <-]|].
  destruct (Z.ltb_spec (Z.of_nat (length bs + length ys)) (8 + h_length h)); [lia|].
  by destruct (known _).
Qed.

Lemma parse_fuel_ext fuel fuel' bs :
  (length bs < fuel)%nat → (length bs < fuel')%nat → parse_fuel fuel bs = parse_fuel fuel' bs.
Proof.
  revert fuel' bs. induction fuel as [|fuel IH]; intros fuel' bs Hf Hf'; [lia|].
  destruct fuel' as [|fuel']; [lia|]. simpl.
  destruct (parse_one bs) as [[m bs']|st] eqn:Hp; [|done].
  apply parse_one_shorter in Hp. by rewrite (IH fuel') by lia.
Qed.

(** The defining equation of [parse]. *)
Lemma parse_unfold bs :
  parse bs = match parse_one bs with
             | inr st => ([], bs, st)
             | inl (m, bs') => let '(ms, rest, st) := parse bs' in (m :: ms, rest, st)
             end.
Proof.
  unfold Wire.parse. cbn [Wire.parse_fuel].
  destruct (parse_one bs) as [[m bs']|st] eqn:Hp; [|done].
  apply parse_one_shorter in Hp. by rewrite (parse_fuel_ext _ (S (length bs'))) by lia.
Qed.

(** Induction along the messages of a stream. *)
Lemma parse_ind (P : list byte → Prop) :
  (∀ bs st, parse_one bs = inr st → P bs) →
  (∀ bs m bs', parse_one bs = inl (m, bs') → P bs' → P bs) →
  ∀ bs, P bs.
Proof.
  intros Hstop Hmsg bs. induction bs as [bs IH] using (well_founded_induction (well_founded_ltof _ length)).
  destruct (parse_one bs) as [[m bs']|st] eqn:Hp; [|by eapply Hstop].
  eapply Hmsg; [done|]. apply IH. unfold ltof. apply parse_one_shorter in Hp. lia.
Qed.

(** A stream may be decoded piecewise. *)
Lemma parse_app bs ys :
  parse (bs ++ ys) =
    let '(ms, rest, st) := parse bs in
    match st with
    | Partial => let '(ms', rest', st') := parse (rest ++ ys) in (ms ++ ms', rest', st')
    | _ => (ms, rest ++ ys, st)
    end.
Proof.
  induction bs as [bs st Hp|bs m bs' Hp IH] using parse_ind.
  - rewrite (parse_unfold bs), Hp. destruct st; [by destruct (parse (bs ++ ys)) as [[??]?]|..];
      by rewrite parse_unfold, (parse_one_stop _ ys _ Hp).
  - rewrite (parse_unfold bs), Hp, parse_unfold, (parse_one_app _ ys _ _ Hp), IH.
    destruct (parse bs') as [[ms rest] [| |]]; [|done..].
    by destruct (parse (rest ++ ys)) as [[??]?].
Qed.

(** A message the receiver accepts. *)
Definition sendable (m : message) : Prop :=
  is_int m.1 ∧ Z.of_nat (length m.2) ≤ MSG_LENGTH_LIMIT ∧ known m.1 = true.

Lemma parse_one_frame m bs : sendable m → parse_one (frame m ++ bs) = inl (m, bs).
Proof.
  intros (Hc & Hl & Hk). apply parse_one_inl. unfold frame. rewrite <- app_assoc.
  rewrite (take_app_length' (head_bytes _)), (drop_app_length' (head_bytes _)) by done.
  rewrite head_bytes_roundtrip; [|done|unfold MSG_LENGTH_LIMIT, COMMU_HEAD_LENGTH in *; simpl; int_lia].
  cbv zeta. cbn [cmdid h_length]. rewrite !length_app, length_head_bytes, Nat2Z.id.
  split; [lia|]. split; [lia|]. split; [lia|]. split; [done|].
  rewrite take_app_length by done. destruct m as [c p]. split; [done|].
  cbn [snd]. by rewrite <- drop_drop, (drop_app_length' (head_bytes _)), drop_app_length by done.
Qed.

Lemma parse_frames ms bs :
  Forall sendable ms →
  parse (concat (frame <$> ms) ++ bs) = let '(ms', rest, st) := parse bs in (ms ++ ms', rest, st).
Proof.
  induction 1 as [|m ms Hm _ IH]; [simpl; by destruct (parse bs) as [[??]?]|].
  rewrite fmap_cons. cbn [concat app].
  rewrite <- app_assoc, (parse_unfold (frame m ++ _)), parse_one_frame, IH by done.
  by destruct (parse bs) as [[??]?].
Qed.

(** A frame that is not complete waits for more. *)
Lemma parse_one_short m xs ys : sendable m → xs ++ ys = frame m → ys ≠ [] → parse_one xs = inr Partial.
Proof.
  intros Hm Heq Hys. pose proof (parse_one_frame m [] Hm) as Hf. rewrite app_nil_r, <- Heq in Hf.
  destruct (parse_one xs) as [[m' bs']|st] eqn:Hp.
  - rewrite (parse_one_app xs ys m' bs' Hp) in Hf. injection Hf as _ Hnil. by apply app_eq_nil in Hnil as [_ ?].
  - destruct st; [done|by rewrite (parse_one_stop xs ys _ Hp) in Hf..].
Qed.

(** A part [xs] of a stream of frames: the complete ones are decoded, and what is
    left is a part of the stream of the others. *)
Lemma parse_prefix ms : ∀ xs zs, Forall sendable ms → xs ++ zs = concat (frame <$> ms) →
  ∃ ms1 ms2 rest, parse xs = (ms1, rest, Partial) ∧ ms = ms1 ++ ms2 ∧
    rest ++ zs = concat (frame <$> ms2) ∧
    (∀ m ms3, ms2 = m :: ms3 → (length rest < length (frame m))%nat).
Proof.
  induction ms as [|m ms IH]; intros xs zs Hms Heq.
  - destruct xs; [|done]. exists [], [], []. by split_and!.
  - apply Forall_cons in Hms as [Hm Hms]. rewrite fmap_cons in Heq. cbn [concat] in Heq.
    destruct (decide (length (frame m) ≤ length xs)%nat) as [Hlen|Hlen].
    + pose proof (f_equal (take (length (frame m))) Heq) as Ht. pose proof (f_equal (drop (length (frame m))) Heq) as Hd.
      rewrite take_app_le, take_app_length in Ht by done. rewrite drop_app_le, drop_app_length in Hd by done.
      destruct (IH _ zs Hms Hd) as (ms1 & ms2 & rest & Hp & -> & Hrest). exists (m :: ms1), ms2, rest.
      split; [|done]. rewrite <- (take_drop (length (frame m)) xs), Ht, parse_unfold, parse_one_frame by done.
      by rewrite Hp.
    + exists [], (m :: ms), xs. split; [|split; [done|split; [by rewrite fmap_cons|by intros ? ? [= <- <-]; lia]]]. rewrite parse_unfold.
      rewrite (parse_one_short m xs (drop (length xs) (frame m))); [done|done| |].
      * rewrite <- (take_drop (length xs) (frame m)) at 2. f_equal.
        apply (f_equal (take (length xs))) in Heq. rewrite take_app_length, take_app_le in Heq by lia. done.
      * intros Hnil. apply (f_equal length) in Hnil. rewrite length_drop in Hnil. cbn [length] in Hnil. lia.
Qed.
End parse_facts.
