(* ===== verification/EventLoop.v ===== *)
(** * The event loop (include/event_loop.h, src/event_loop.cc)

    Registration of descriptors and timers, the task list, and one round of
    [process_evs]. *)
From S2P Require Import Prelude EventBase TimerQueue Kernel.

Definition MAXEVENTS : Z := 10.

(** ** The vector of pending tasks

    The capacity matters: [push_back] at full capacity moves the elements and
    invalidates the iterators, which [moves] counts.  The growth is that of
    libstdc++, the library of the compiler the makefiles name. *)
Record task_vector := TaskVector {
  tasks : list (pendingFunc * void_ptr);
  tv_capacity : nat;
  moves : nat;
}.

Definition task_vector_new : task_vector := TaskVector [] 0 0.

Definition push_back (x : pendingFunc * void_ptr) (v : task_vector) : task_vector :=
  if (length (tasks v) <? tv_capacity v)%nat
  then TaskVector (tasks v ++ [x]) (tv_capacity v) (moves v)
  else TaskVector (tasks v ++ [x]) (Nat.max 1 (2 * tv_capacity v)) (S (moves v)).

Definition tv_clear (v : task_vector) : task_vector := TaskVector [] (tv_capacity v) (moves v).

(** ** State *)

Record event_loop := EventLoop {
  _epfd : Z;
  _io_evs : gmap Z io_event;
  _timer_que : timer_queue;
  timer_fd : Z;                   (** [_timer_que->notifier()] *)
  _pendingFactors : task_vector;
  listening : gset Z;
}.

Definition set_io_evs m l :=
  EventLoop (_epfd l) m (_timer_que l) (timer_fd l) (_pendingFactors l) (listening l).
Definition set_timer_que q l :=
  EventLoop (_epfd l) (_io_evs l) q (timer_fd l) (_pendingFactors l) (listening l).
Definition set_pending v l :=
  EventLoop (_epfd l) (_io_evs l) (_timer_que l) (timer_fd l) v (listening l).
Definition set_listening s l :=
  EventLoop (_epfd l) (_io_evs l) (_timer_que l) (timer_fd l) (_pendingFactors l) s.

Definition set_mask m ev := IoEvent m (read_cb ev) (write_cb ev) (rcb_args ev) (wcb_args ev).
Definition set_read proc args ev := IoEvent (mask ev) (Some proc) (write_cb ev) args (wcb_args ev).
Definition set_write proc args ev := IoEvent (mask ev) (read_cb ev) (Some proc) (rcb_args ev) args.

(** [m & bit] as a condition. *)
Definition has (bit m : Z) : bool := negb (Z.land m bit =? 0).

(** ** Operations *)

Section ops.
Context {K : Type} `{Kernel K}.

(** A loop and the system it runs on. *)
Record ev_st := EvSt { ev_kern : K; ev_loop : event_loop }.

Definition lp_kern : lens ev_st K := Lens ev_kern (λ k s, EvSt k (ev_loop s)).
Definition lp_loop : lens ev_st event_loop := Lens ev_loop (λ l s, EvSt (ev_kern s) l).
Definition lp_timers : lens ev_st timer_queue :=
  Lens (λ s, _timer_que (ev_loop s))
       (λ q s, EvSt (ev_kern s) (set_timer_que q (ev_loop s))).

Definition modify_loop (f : event_loop → event_loop) : M ev_st unit :=
  zoom lp_loop (modify f).

Definition epoll_ctl (op : epoll_op) (fd events : Z) : M ev_st (option errno) :=
  s ← get;
  zoom lp_kern (syscall (sys_epoll_ctl (_epfd (ev_loop s)) op fd events)).

(** [_io_evs[fd]]: a new entry has the mask found in memory, [garbage]; it is
    overwritten before it is read. *)
Definition add_ioev (fd : Z) (proc : io_callback) (msk : Z) (args : void_ptr) : M ev_st unit :=
  let garbage := 0 in
  s ← get;
  let it := _io_evs (ev_loop s) !! fd in
  let f_mask := match it with None => msk | Some e => Z.lor (mask e) msk end in
  let op := match it with None => EPOLL_CTL_ADD | Some _ => EPOLL_CTL_MOD end in
  let ev := default (io_event_new garbage) it in
  let ev := if has EPOLLIN msk then set_read proc args ev
            else if has EPOLLOUT msk then set_write proc args ev else ev in
  modify_loop (λ l, set_io_evs (<[fd := set_mask f_mask ev]> (_io_evs l)) l) ;;
  epoll_ctl op fd f_mask ;;
  modify_loop (λ l, set_listening ({[fd]} ∪ listening l) l).

(** [del_ioev(int fd, int mask)] *)
Definition del_ioev_mask (fd msk : Z) : M ev_st unit :=
  s ← get;
  match _io_evs (ev_loop s) !! fd with
  | None => mret tt
  | Some ev =>
      let o_mask := Z.land (mask ev) (Z.lnot msk) in
      if o_mask =? 0 then
        modify_loop (λ l, set_io_evs (delete fd (_io_evs l)) l) ;;
        epoll_ctl EPOLL_CTL_DEL fd 0 ;;
        modify_loop (λ l, set_listening (listening l ∖ {[fd]}) l)
      else
        modify_loop (λ l, set_io_evs (<[fd := set_mask o_mask ev]> (_io_evs l)) l) ;;
        epoll_ctl EPOLL_CTL_MOD fd o_mask ;;
        mret tt
  end.

(** [del_ioev(int fd)] *)
Definition del_ioev (fd : Z) : M ev_st unit :=
  modify_loop (λ l, set_io_evs (delete fd (_io_evs l)) l) ;;
  modify_loop (λ l, set_listening (listening l ∖ {[fd]}) l) ;;
  epoll_ctl EPOLL_CTL_DEL fd 0 ;;
  mret tt.

(** [event_loop::event_loop()]; [timerfd_create] is called by the constructor of
    the timer queue. *)
Definition event_loop_ctor (k : K) : result ev_st :=
  match sys_epoll_create k with
  | (inl _, _) => Fail Exited
  | (inr epfd, k) =>
      match sys_timerfd_create k with
      | (inl _, _) => Fail Exited
      | (inr tfd, k) =>
          let l := EventLoop epfd ∅ timer_queue_new tfd task_vector_new ∅ in
          match add_ioev tfd timerqueue_cb EPOLLIN v_timer_queue (EvSt k l) with
          | Ok (_, s) => Ok s
          | Fail e => Fail e
          end
      end
  end.

(** ** Timers *)

(** [tpc.tv_sec * 1000 + tpc.tv_nsec / 1000000UL] *)
Definition now_millis : M ev_st Z :=
  tpc ← zoom lp_kern (syscall sys_clock_realtime);
  mret (u64 (u64 (tpc.1 * 1000) + tpc.2 / 1000000)).

Definition run_at (cb : timer_callback) (args : void_ptr) (ts : Z) : M ev_st Z :=
  zoom lp_timers (add_timer (timer_event_new cb args ts 0 0)).

(** [sec * 1000 + millis] in [int] *)
Definition delay (sec millis : Z) : M ev_st Z := p ← cint (sec * 1000); cint (p + millis).

Definition run_after (cb : timer_callback) (args : void_ptr) (sec millis : Z) : M ev_st Z :=
  ts ← now_millis;
  d ← delay sec millis;
  zoom lp_timers (add_timer (timer_event_new cb args (u64 (ts + d)) 0 0)).

Definition run_every (cb : timer_callback) (args : void_ptr) (sec millis : Z) : M ev_st Z :=
  d ← delay sec millis;
  let interval := u32 d in
  now ← now_millis;
  zoom lp_timers (add_timer (timer_event_new cb args (u64 (now + interval)) interval 0)).

Definition loop_del_timer (timer_id : Z) : M ev_st unit := zoom lp_timers (del_timer timer_id).

Definition add_task (func : pendingFunc) (args : void_ptr) : M ev_st unit :=
  modify_loop (λ l, set_pending (push_back (func, args) (_pendingFactors l)) l).

(** ** What the classes tell of their state, and the end of a timer queue *)

Definition nlistenings : M ev_st (gset Z) := gets (λ s, listening (ev_loop s)).
Definition notifier : M ev_st Z := gets (λ s, timer_fd (ev_loop s)).
Definition timers_size : M ev_st Z := gets (λ s, _count (_timer_que (ev_loop s))).
Definition timer_queue_dtor : M ev_st unit :=
  fd ← notifier; modify (λ s, EvSt (sys_close fd (ev_kern s)) (ev_loop s)).
End ops.
Arguments ev_st K : clear implicits.

(** ** The loop

    The callbacks are computations on the state [W] of the whole process, in
    which the loop is found through the lens [lp]. *)
Section rounds.
Context {K W : Type} `{Kernel K} (lp : lens W (ev_st K)).
Variable call_io : io_callback → Z → void_ptr → M W unit.
Variable call_timer : timer_callback → void_ptr → M W unit.
Variable call_task : pendingFunc → void_ptr → M W unit.

(** The body of the [for] loop of [process_evs], for one entry of
    [_fired_evs]. *)
Definition handle_event (fired : Z * Z) : M W unit :=
  let '(fd, events) := fired in
  s ← gets (view lp);
  match _io_evs (ev_loop s) !! fd with
  | None => fail AssertFailed
  | Some ev =>
      if has EPOLLIN events then
        f ← from_option_or Undefined (read_cb ev); call_io f fd (rcb_args ev)
      else if has EPOLLOUT events then
        f ← from_option_or Undefined (write_cb ev); call_io f fd (wcb_args ev)
      else when (has (Z.lor EPOLLHUP EPOLLERR) events)
        match read_cb ev, write_cb ev with
        | Some f, _ => call_io f fd (rcb_args ev)
        | None, Some f => call_io f fd (wcb_args ev)
        | None, None => zoom lp (del_ioev fd)
        end
  end.

(** The loop of [run_task], at index [i].  [version] is the [moves] of the vector
    the iterator was made for: with another, the iterator is stale. *)
Fixpoint run_task_loop (fuel version i : nat) : M W unit :=
  match fuel with
  | O => fail NoFuel
  | S fuel =>
      s ← gets (view lp);
      let v := _pendingFactors (ev_loop s) in
      if bool_decide (moves v = version) then
        if (i <? length (tasks v))%nat then
          t ← from_option_or Undefined (tasks v !! i);
          call_task t.1 t.2 ;;
          run_task_loop fuel version (S i)
        else mret tt
      else fail Undefined
  end.

Definition run_task : M W unit :=
  s ← gets (view lp);
  let v := _pendingFactors (ev_loop s) in
  run_task_loop (S (tv_capacity v)) (moves v) 0 ;;
  zoom lp (modify_loop (λ l, set_pending (tv_clear (_pendingFactors l)) l)).

(** One iteration of the [while (true)] of [process_evs]. *)
Definition process_round : M W unit :=
  s ← gets (view lp);
  r ← zoom lp (zoom lp_kern (syscall (sys_epoll_wait (_epfd (ev_loop s)) MAXEVENTS)));
  for_each (match r with inl _ => [] | inr fired => fired end) handle_event ;;
  run_task.

(** The first [n] iterations of [process_evs], which never returns. *)
Definition process_evs (n : nat) : M W unit := iter_m n process_round.

Definition timerqueue_cb_body : M W unit :=
  fired_evs ← zoom lp (zoom lp_timers (get_timo []));
  for_each fired_evs (λ te, call_timer (cb te) (cb_data te)).
End rounds.
