(* ===== verification/EventLoopProps.v ===== *)
(** * Correctness of the event loop

    The table of handlers mirrors the interest list of the kernel; every ready
    descriptor reaches the right handler; pending tasks run once, in order,
    unless a task adds a task to a full vector. *)
From S2P Require Import Prelude EventBase TimerQueue HeapFacts TimerHeap TimerQueueSpec Kernel EventLoop.

(** ** Masks *)

Lemma has_lor bit m n : has bit (Z.lor m n) = has bit m || has bit n.
Proof.
  unfold has. rewrite Z.land_lor_distr_l.
  destruct (Z.eqb_spec (Z.land m bit) 0) as [H1|H1], (Z.eqb_spec (Z.land n bit) 0) as [H2|H2];
    destruct (Z.eqb_spec (Z.lor (Z.land m bit) (Z.land n bit)) 0) as [H|H]; try done;
    rewrite ?Z.lor_eq_0_iff in H; tauto.
Qed.

Lemma has_ldiff bit m n : has bit (Z.land m n) = true → has bit m = true.
Proof.
  unfold has. rewrite !negb_true_iff, !Z.eqb_neq. intros H Hm. apply H.
  by rewrite (Z.land_comm m n), <- Z.land_assoc, Hm, Z.land_0_r.
Qed.

(** ** The registration invariant *)

Section registration.
Context {K : Type} `{EpollLaws K}.
Implicit Types s : ev_st K.

(** The interest list of the loop. *)
Definition interests s : gmap Z Z := interest (_epfd (ev_loop s)) (ev_kern s).

Definition handlers_ok (ev : io_event) : Prop :=
  (has EPOLLIN (mask ev) = true → is_Some (read_cb ev)) ∧
  (has EPOLLOUT (mask ev) = true → is_Some (write_cb ev)).

Record loop_inv s : Prop := {
  loop_mirror : interests s = mask <$> _io_evs (ev_loop s);
  loop_handlers : map_Forall (λ _, handlers_ok) (_io_evs (ev_loop s));
  loop_listening : listening (ev_loop s) = dom (_io_evs (ev_loop s));
  loop_tasks : (length (tasks (_pendingFactors (ev_loop s))) ≤
    tv_capacity (_pendingFactors (ev_loop s)))%nat;
}.

(** Calls that do not concern the interest list keep the invariant. *)
Lemma loop_inv_kern k k' l :
  loop_inv (EvSt k l) → interest (_epfd l) k' = interest (_epfd l) k → loop_inv (EvSt k' l).
Proof.
  intros [Hm ? ? ?] Hk. split; [|done..]. unfold interests in *. simpl in *. by rewrite Hk.
Qed.

(** The reading and the writing side of a registration. *)
Definition reader s (fd : Z) : option (io_callback * void_ptr) :=
  ev ← _io_evs (ev_loop s) !! fd; f ← read_cb ev; Some (f, rcb_args ev).
Definition writer s (fd : Z) : option (io_callback * void_ptr) :=
  ev ← _io_evs (ev_loop s) !! fd; f ← write_cb ev; Some (f, wcb_args ev).

(** Nothing of the loop but its registrations is different. *)
Definition same_rest s s' : Prop :=
  _epfd (ev_loop s') = _epfd (ev_loop s) ∧
  _timer_que (ev_loop s') = _timer_que (ev_loop s) ∧
  _pendingFactors (ev_loop s') = _pendingFactors (ev_loop s).

Lemma wp_epoll_ctl op fd ev k l (Q : option errno → ev_st K → Prop) :
  (∀ r k', sys_epoll_ctl (_epfd l) op fd ev k = (r, k') → Q r (EvSt k' l)) →
  wp (epoll_ctl op fd ev) Q (EvSt k l).
Proof.
  intros HQ. unfold epoll_ctl. wp_steps. apply wp_syscall. exact HQ.
Qed.

Lemma interest_add k epfd fd ev op :
  op = (match interest epfd k !! fd with None => EPOLL_CTL_ADD | Some _ => EPOLL_CTL_MOD end) →
  ∃ k', sys_epoll_ctl epfd op fd ev k = (None, k') ∧
    interest epfd k' = <[fd := ev]> (interest epfd k).
Proof.
  intros ->. destruct (interest epfd k !! fd) eqn:Hk; [by apply epoll_mod|by apply epoll_add].
Qed.

(** The entry [add_ioev] stores. *)
Definition added (proc : io_callback) (msk : Z) (args : void_ptr) (it : option io_event) : io_event :=
  let ev := default (io_event_new 0) it in
  set_mask (match it with None => msk | Some e => Z.lor (mask e) msk end)
    (if has EPOLLIN msk then set_read proc args ev
     else if has EPOLLOUT msk then set_write proc args ev else ev).

Lemma added_ok proc msk args it :
  (has EPOLLIN msk && has EPOLLOUT msk = false) →
  (∀ ev, it = Some ev → handlers_ok ev) → handlers_ok (added proc msk args it).
Proof.
  intros Hone Hit. unfold added, handlers_ok. simpl.
  destruct it as [ev|]; simpl.
  - specialize (Hit ev eq_refl) as [Hr Hw]. rewrite !has_lor.
    destruct (has EPOLLIN msk), (has EPOLLOUT msk); simpl in *; try done;
      rewrite ?orb_true_r, ?orb_false_r; split; eauto.
  - destruct (has EPOLLIN msk), (has EPOLLOUT msk); simpl in *; try done; split; (done || eauto).
Qed.

Lemma add_ioev_spec fd proc msk args s :
  loop_inv s → has EPOLLIN msk && has EPOLLOUT msk = false →
  wp (add_ioev fd proc msk args) (λ _ s', loop_inv s' ∧ same_rest s s' ∧
    _io_evs (ev_loop s') =
      <[fd := added proc msk args (_io_evs (ev_loop s) !! fd)]> (_io_evs (ev_loop s))) s.
Proof.
  intros [Hm Hh Hl Ht] Hone. unfold add_ioev. wp_steps. unfold modify_loop. wp_steps. simpl.
  destruct s as [k l]. simpl in *. unfold interests in *. simpl in *.
  set (ev' := set_mask _ _).
  assert (Hev : ev' = added proc msk args (_io_evs l !! fd)) by done. clearbody ev'.
  set (fm := match _io_evs l !! fd with None => msk | Some e => Z.lor (mask e) msk end).
  assert (Hmask : mask ev' = fm) by (by rewrite Hev).
  apply wp_epoll_ctl. simpl. intros r k'.
  destruct (interest_add k (_epfd l) fd fm
    (match _io_evs l !! fd with None => EPOLL_CTL_ADD | Some _ => EPOLL_CTL_MOD end)) as (k1 & -> & Hk1).
  { rewrite Hm, lookup_fmap. by destruct (_io_evs l !! fd). }
  intros [= <- <-]. wp_steps. simpl. split; [|by rewrite Hev]. split; simpl.
  - unfold interests. simpl. by rewrite Hk1, Hm, fmap_insert, Hmask.
  - apply map_Forall_insert_2; [|done]. rewrite Hev. apply added_ok; [done|].
    intros ev He. by apply (Hh fd).
  - by rewrite Hl, dom_insert_L.
  - done.
Qed.

Lemma del_ioev_spec fd s :
  loop_inv s →
  wp (del_ioev fd) (λ _ s', loop_inv s' ∧ same_rest s s' ∧
    _io_evs (ev_loop s') = delete fd (_io_evs (ev_loop s))) s.
Proof.
  intros [Hm Hh Hl Ht]. unfold del_ioev, modify_loop. wp_steps. simpl.
  destruct s as [k l]. simpl in *. unfold interests in *. simpl in *.
  apply wp_epoll_ctl. simpl. intros r k'.
  destruct (epoll_del (_epfd l) fd 0 k) as (r1 & k1 & -> & Hk1). intros [= <- <-]. wp_steps. simpl.
  split; [|done]. split; simpl.
  - unfold interests. simpl. by rewrite Hk1, Hm, fmap_delete.
  - by apply map_Forall_delete.
  - by rewrite Hl, dom_delete_L.
  - done.
Qed.

Lemma push_back_ok x v :
  (length (tasks v) ≤ tv_capacity v)%nat →
  (length (tasks (push_back x v)) ≤ tv_capacity (push_back x v))%nat.
Proof.
  intros Hv. unfold push_back.
  destruct (Nat.ltb_spec (length (tasks v)) (tv_capacity v)); simpl; rewrite length_app; simpl; lia.
Qed.

(** What [del_ioev] with a mask leaves of an entry. *)
Definition reduced (msk : Z) (ev : io_event) : option io_event :=
  let o_mask := Z.land (mask ev) (Z.lnot msk) in
  if o_mask =? 0 then None else Some (set_mask o_mask ev).

Lemma reduced_ok msk ev ev' : handlers_ok ev → reduced msk ev = Some ev' → handlers_ok ev'.
Proof.
  intros [Hr Hw]. unfold reduced. case_match; [done|]. intros [= <-].
  split; simpl; intros Hhas%has_ldiff; auto.
Qed.

Lemma del_ioev_mask_spec fd msk s :
  loop_inv s →
  wp (del_ioev_mask fd msk) (λ _ s', loop_inv s' ∧ same_rest s s' ∧
    _io_evs (ev_loop s') = partial_alter (λ it, it ≫= reduced msk) fd (_io_evs (ev_loop s))) s.
Proof.
  intros Hs. pose proof Hs as [Hm Hh Hl Ht]. unfold del_ioev_mask. wp_steps.
  destruct s as [k l]. simpl in *. unfold interests in *. simpl in *.
  destruct (_io_evs l !! fd) as [ev|] eqn:Hev.
  2:{ wp_steps. split; [done|]. split; [done|]. symmetry. apply map_eq. intros i.
      destruct (decide (i = fd)) as [->|?]; [by rewrite lookup_partial_alter_eq, Hev|].
      by rewrite lookup_partial_alter_ne. }
  pose proof (Hh fd ev Hev) as Hok. pose proof (reduced_ok msk ev) as Hred.
  destruct (Z.land (mask ev) (Z.lnot msk) =? 0) eqn:Hz; unfold modify_loop; wp_steps; simpl;
    apply wp_epoll_ctl; simpl; intros r k'.
  - destruct (epoll_del (_epfd l) fd 0 k) as (r1 & k1 & -> & Hk1). intros [= <- <-]. wp_steps.
    split; [split; simpl|split; [done|]].
    + unfold interests. simpl. by rewrite Hk1, Hm, fmap_delete.
    + by apply map_Forall_delete.
    + by rewrite Hl, dom_delete_L.
    + done.
    + simpl. apply map_eq. intros i. destruct (decide (i = fd)) as [->|?].
      * rewrite lookup_delete_eq, lookup_partial_alter_eq, Hev. simpl. unfold reduced. by rewrite Hz.
      * by rewrite lookup_delete_ne, lookup_partial_alter_ne.
  - destruct (epoll_mod (_epfd l) fd (Z.land (mask ev) (Z.lnot msk)) k) as (k1 & -> & Hk1).
    { rewrite Hm, lookup_fmap, Hev. by eexists. }
    intros [= <- <-]. wp_steps. unfold reduced in Hred. rewrite Hz in Hred.
    split; [split; simpl|split; [done|]].
    + unfold interests. simpl. by rewrite Hk1, Hm, fmap_insert.
    + apply map_Forall_insert_2; [|done]. by apply Hred.
    + rewrite Hl, dom_insert_L. apply elem_of_dom_2 in Hev. set_solver.
    + done.
    + simpl. apply map_eq. intros i. destruct (decide (i = fd)) as [->|?].
      * rewrite lookup_insert_eq, lookup_partial_alter_eq, Hev. simpl. unfold reduced. by rewrite Hz.
      * by rewrite lookup_insert_ne, lookup_partial_alter_ne.
Qed.

(** What registering and deregistering do to the system: at most one [epoll_ctl]. *)
Definition by_ctl s s' : Prop :=
  ev_kern s' = ev_kern s ∨
  ∃ op fd ev, ev_kern s' = (sys_epoll_ctl (_epfd (ev_loop s)) op fd ev (ev_kern s)).2.

Lemma ctl_ind (R : K → Prop) s s' :
  by_ctl s s' → R (ev_kern s) → (∀ e op fd ev k, R k → R (sys_epoll_ctl e op fd ev k).2) → R (ev_kern s').
Proof. intros [-> | (op & fd & ev & ->)] HR Hctl; [done|by apply Hctl]. Qed.

Lemma add_ioev_ctl fd proc msk args s s' : add_ioev fd proc msk args s = Ok (tt, s') → by_ctl s s'.
Proof.
  unfold add_ioev, modify_loop, epoll_ctl, syscall, zoom, modify, mbind, M_bind, get. simpl.
  destruct (sys_epoll_ctl _ _ _ _ _) as [r k'] eqn:Hctl. intros [= <-]. right. do 3 eexists. by rewrite Hctl.
Qed.

Lemma del_ioev_ctl fd s s' : del_ioev fd s = Ok (tt, s') → by_ctl s s'.
Proof.
  unfold del_ioev, modify_loop, epoll_ctl, syscall, zoom, modify, mbind, M_bind, get. simpl.
  destruct (sys_epoll_ctl _ _ _ _ _) as [r k'] eqn:Hctl. intros [= <-]. right. do 3 eexists. by rewrite Hctl.
Qed.

Lemma del_ioev_mask_ctl fd msk s s' : del_ioev_mask fd msk s = Ok (tt, s') → by_ctl s s'.
Proof.
  unfold del_ioev_mask, modify_loop, epoll_ctl, syscall, zoom, modify, mbind, M_bind, get.
  destruct (_io_evs (ev_loop s) !! fd) as [ev|]; [|intros [= <-]; by left].
  case_match; simpl; destruct (sys_epoll_ctl _ _ _ _ _) as [r k'] eqn:Hctl;
    intros [= <-]; right; do 3 eexists; by rewrite Hctl.
Qed.

(** They write to no socket. *)
Lemma ctl_sent `{!SinkLaws K} s s' fd' : by_ctl s s' → sent fd' (ev_kern s') = sent fd' (ev_kern s).
Proof.
  intros Hc. apply (ctl_ind (λ k, sent fd' k = sent fd' (ev_kern s)) s s' Hc); [done|]. intros e op fd ev k <-.
  destruct (sys_epoll_ctl e op fd ev k) as [r k'] eqn:Hctl. by apply (sink_epoll fd') in Hctl.
Qed.

Lemma has_cleared bit m : has bit (Z.land m (Z.lnot bit)) = false.
Proof.
  unfold has. by rewrite <- Z.land_assoc, (Z.land_comm (Z.lnot bit)), Z.land_lnot_diag, Z.land_0_r.
Qed.

(** After [del_ioev] with a mask the loop does not watch for it. *)
Lemma unwatched fd msk s m k :
  loop_inv s → _io_evs (ev_loop s) = partial_alter (λ it, it ≫= reduced msk) fd m →
  interests s !! fd = Some k → has msk k = false.
Proof.
  intros Hi He. rewrite (loop_mirror _ Hi), He, lookup_fmap, lookup_partial_alter_eq.
  destruct (m !! fd) as [ev|]; [|done]. simpl. unfold reduced.
  case_match; [done|]. intros [= <-]. apply has_cleared.
Qed.
End registration.

(** ** Dispatching *)

Section dispatch.
Context {K W : Type} `{EpollLaws K} (lp : lens W (ev_st K)) {valid : W → Prop} `{!LensLaws lp valid}.
Variable call_io : io_callback → Z → void_ptr → M W unit.
Variable call_timer : timer_callback → void_ptr → M W unit.
Variable call_task : pendingFunc → void_ptr → M W unit.
Implicit Types w : W.

(** The handler a ready descriptor is to be served by. *)
Definition chosen (s : ev_st K) (fd events : Z) : option (io_callback * void_ptr) :=
  if has EPOLLIN events then reader s fd
  else if has EPOLLOUT events then writer s fd
  else if has (Z.lor EPOLLHUP EPOLLERR) events then
    match reader s fd with Some h => Some h | None => writer s fd end
  else None.

(** The kernel reports only what a descriptor was registered for, and errors. *)
Definition reported (s : ev_st K) (fd events : Z) : Prop :=
  ∃ m, interests s !! fd = Some m ∧
    (has EPOLLIN events = true → has EPOLLIN m = true) ∧
    (has EPOLLOUT events = true → has EPOLLOUT m = true).

Lemma handle_event_chosen w fd events :
  loop_inv (view lp w) → reported (view lp w) fd events →
  handle_event lp call_io (fd, events) w =
    match chosen (view lp w) fd events with
    | Some (f, args) => call_io f fd args w
    | None => if has (Z.lor EPOLLHUP EPOLLERR) events &&
                 negb (has EPOLLIN events) && negb (has EPOLLOUT events)
              then zoom lp (del_ioev fd) w else Ok (tt, w)
    end.
Proof.
  intros Hi (m & Hm & Hin & Hout). set (s := view lp w) in *.
  rewrite (loop_mirror _ Hi), lookup_fmap in Hm.
  destruct (_io_evs (ev_loop s) !! fd) as [ev|] eqn:Hev; [|done]. injection Hm as <-.
  destruct (loop_handlers _ Hi fd ev Hev) as [Hr Hw].
  unfold handle_event, chosen, reader, writer. unfold mbind, M_bind, gets. fold s. rewrite Hev.
  cbn [option_bind mbind].
  destruct (has EPOLLIN events).
  - destruct (Hr (Hin eq_refl)) as [f Hf]. unfold mbind, option_bind. by rewrite Hf.
  - destruct (has EPOLLOUT events).
    + destruct (Hw (Hout eq_refl)) as [f Hf]. unfold mbind, option_bind. by rewrite Hf.
    + unfold mbind, option_bind, when.
      destruct (has (Z.lor EPOLLHUP EPOLLERR) events); simpl; [|done].
      by destruct (read_cb ev), (write_cb ev).
Qed.

(** ** A batch of ready descriptors *)

(** The contract of a handler: it keeps the registration invariant, and the
    registrations of the other descriptors of the batch stay as they are. *)
Definition handler_contract (Inv : W → Prop) : Prop :=
  ∀ f fd args w, Inv w → loop_inv (view lp w) →
    wp (call_io f fd args) (λ _ w', Inv w' ∧ loop_inv (view lp w') ∧
      ∀ fd', fd' ≠ fd → is_Some (_io_evs (ev_loop (view lp w)) !! fd') →
        _io_evs (ev_loop (view lp w')) !! fd' = _io_evs (ev_loop (view lp w)) !! fd') w.

Lemma reported_same s s' fd events :
  loop_inv s → loop_inv s' → _io_evs (ev_loop s') !! fd = _io_evs (ev_loop s) !! fd →
  reported s fd events → reported s' fd events.
Proof.
  intros Hi Hi' Heq (m & Hm & Hr). exists m. split; [|done].
  rewrite (loop_mirror _ Hi'), lookup_fmap, Heq.
  by rewrite (loop_mirror _ Hi), lookup_fmap in Hm.
Qed.

Lemma batch_spec Inv batch w :
  handler_contract Inv → (∀ w, Inv w → valid w) →
  (∀ w s', Inv w → same_rest (view lp w) s' → loop_inv s' → Inv (update lp s' w)) →
  Inv w → loop_inv (view lp w) → NoDup batch.*1 →
  Forall (λ e, reported (view lp w) e.1 e.2) batch →
  wp (for_each batch (handle_event lp call_io)) (λ _ w', Inv w' ∧ loop_inv (view lp w')) w.
Proof.
  intros Hc Hval Hdel. revert w. induction batch as [|[fd events] batch IH]; intros w HI Hi Hnd Hrep.
  { by apply wp_ret. }
  apply NoDup_cons in Hnd as [Hfd Hnd]. apply Forall_cons in Hrep as [Hrep0 Hrep].
  cbn [fst snd for_each] in *. wp_step.
  assert (Hnext : ∀ w', Inv w' → loop_inv (view lp w') →
    (∀ fd', fd' ≠ fd → is_Some (_io_evs (ev_loop (view lp w)) !! fd') →
      _io_evs (ev_loop (view lp w')) !! fd' = _io_evs (ev_loop (view lp w)) !! fd') →
    wp (for_each batch (handle_event lp call_io)) (λ _ w', Inv w' ∧ loop_inv (view lp w')) w').
  { intros w' HI' Hi' Hsame. apply IH; [done..|]. apply Forall_forall. intros [fd' ev'] Hin.
    pose proof (proj1 (Forall_forall _ _) Hrep _ Hin) as Hr. cbn [fst snd] in *.
    eapply reported_same; [exact Hi|done| |done]. apply Hsame.
    - intros ->. apply Hfd, list_elem_of_fmap. by exists (fd, ev').
    - destruct Hr as (m & Hm & _). rewrite (loop_mirror _ Hi), lookup_fmap in Hm.
      by destruct (_io_evs _ !! fd'). }
  unfold wp at 1. rewrite handle_event_chosen by done.
  destruct (chosen (view lp w) fd events) as [[f args]|].
  - specialize (Hc f fd args w HI Hi). unfold wp in Hc.
    destruct (call_io f fd args w) as [[[] w']|]; [|done]. destruct Hc as (? & ? & ?). by apply Hnext.
  - destruct (has _ events && _ && _); [|by apply Hnext].
    pose proof (del_ioev_spec fd (view lp w) Hi) as Hd.
    unfold zoom. unfold wp in Hd. destruct (del_ioev fd (view lp w)) as [[[] s']|]; [|done].
    destruct Hd as (Hi' & Hs & Hev). apply Hnext; rewrite ?view_update by auto; [by apply Hdel|done|].
    intros fd' Hne _. by rewrite Hev, lookup_delete_ne.
Qed.

(** ** Pending tasks *)

Abbreviation pending w := (_pendingFactors (ev_loop (view lp w))).

Lemma run_task_loop_step fuel version i w t :
  moves (pending w) = version → tasks (pending w) !! i = Some t →
  run_task_loop lp call_task (S fuel) version i w =
    (call_task t.1 t.2 ;; run_task_loop lp call_task fuel version (S i)) w.
Proof.
  intros Hv Ht. cbn [run_task_loop]. unfold mbind at 1, M_bind at 1, gets.
  rewrite bool_decide_eq_true_2 by done.
  pose proof (lookup_lt_Some _ _ _ Ht). destruct (Nat.ltb_spec i (length (tasks (pending w)))); [|lia].
  by rewrite Ht.
Qed.

Lemma run_task_loop_stale fuel version i w :
  moves (pending w) ≠ version → run_task_loop lp call_task (S fuel) version i w = Fail Undefined.
Proof.
  intros Hv. cbn [run_task_loop]. unfold mbind at 1, M_bind at 1, gets.
  by rewrite bool_decide_eq_false_2.
Qed.

Lemma run_task_loop_stable (fuel i : nat) v w :
  (∀ f args w u w', call_task f args w = Ok (u, w') → pending w' = pending w) →
  pending w = v → (length (tasks v) - i < fuel)%nat →
  run_task_loop lp call_task fuel (moves v) i w =
    for_each (drop i (tasks v)) (λ t, call_task t.1 t.2) w.
Proof.
  intros Hstable. revert i w. induction fuel as [|fuel IH]; intros i w Hv Hf; [lia|].
  cbn [run_task_loop]. unfold mbind, M_bind, gets. rewrite Hv, bool_decide_eq_true_2 by done.
  destruct (Nat.ltb_spec i (length (tasks v))) as [Hlt|Hge].
  - destruct (lookup_lt_is_Some_2 (tasks v) i Hlt) as [t Ht]. rewrite Ht.
    cbn [from_option_or mret M_ret].
    rewrite (drop_S _ _ _ Ht). cbn [for_each]. unfold mbind, M_bind.
    destruct (call_task t.1 t.2 w) as [[u w']|e] eqn:Hcall; [|done].
    apply IH; [|lia]. by rewrite (Hstable _ _ _ _ _ Hcall).
  - by rewrite drop_ge.
Qed.
End dispatch.

(** ** Claims *)

(** A loop with nothing registered, on a system with no calls yet. *)
Definition idle : ev_st Script.state :=
  EvSt (Script.State [] []) (EventLoop 3 ∅ timer_queue_new 4 task_vector_new ∅).

Lemma idle_inv : loop_inv idle.
Proof. split; simpl; [done|apply map_Forall_empty|by rewrite dom_empty_L|lia]. Qed.

Section claims.
Context {K : Type} `{EpollLaws K}.
Implicit Types s : ev_st K.

(** [add_ioev] for reading or for writing, on a new descriptor or on one
    registered before: the kernel now watches the descriptor for the old and the
    new events, the handler of that side is the one given and the other side
    keeps its own, every other descriptor is as before, and the table of handlers
    still mirrors the interest list of the kernel. *)
Theorem add_ioev_registers fd proc msk args s :
  loop_inv s → has EPOLLIN msk && has EPOLLOUT msk = false →
  ∃ s', add_ioev fd proc msk args s = Ok (tt, s') ∧ loop_inv s' ∧
    interests s' = <[fd := Z.lor (default 0 (interests s !! fd)) msk]> (interests s) ∧
    (has EPOLLIN msk = true → reader s' fd = Some (proc, args) ∧ writer s' fd = writer s fd) ∧
    (has EPOLLOUT msk = true → writer s' fd = Some (proc, args) ∧ reader s' fd = reader s fd) ∧
    (∀ fd', fd' ≠ fd → reader s' fd' = reader s fd' ∧ writer s' fd' = writer s fd').
Proof.
  intros Hi Hone.
  pose proof (add_ioev_spec fd proc msk args s Hi Hone) as ([] & s' & Hr & Hi' & _ & He)%wp_elim.
  exists s'. split; [done|]. split; [done|].
  assert (Hfd : _io_evs (ev_loop s') !! fd = Some (added proc msk args (_io_evs (ev_loop s) !! fd))).
  { by rewrite He, lookup_insert_eq. }
  split.
  { rewrite (loop_mirror s' Hi'), He, fmap_insert, <- (loop_mirror s Hi). f_equal.
    rewrite (loop_mirror s Hi), lookup_fmap. by destruct (_io_evs (ev_loop s) !! fd). }
  unfold reader, writer. split_and!.
  - intros Hin. rewrite Hfd. unfold added. rewrite Hin. simpl.
    by destruct (_io_evs (ev_loop s) !! fd).
  - intros Hout. rewrite Hout, andb_true_r in Hone. rewrite Hfd. unfold added. rewrite Hone, Hout. simpl.
    by destruct (_io_evs (ev_loop s) !! fd).
  - intros fd' Hne. by rewrite He, lookup_insert_ne.
Qed.

(** [del_ioev] with a mask takes these events out of the kernel's interest in
    the descriptor, and the whole registration when none is left; without a mask
    it always takes the whole registration.  Neither touches another descriptor,
    and the table of handlers still mirrors the interest list. *)
Theorem del_ioev_unregisters fd msk s :
  loop_inv s →
  (∃ s', del_ioev_mask fd msk s = Ok (tt, s') ∧ loop_inv s' ∧
     (∀ fd', fd' ≠ fd → interests s' !! fd' = interests s !! fd') ∧
     interests s' !! fd = (m ← interests s !! fd;
       if Z.land m (Z.lnot msk) =? 0 then None else Some (Z.land m (Z.lnot msk))) ∧
     (∀ fd', is_Some (interests s' !! fd') →
        reader s' fd' = reader s fd' ∧ writer s' fd' = writer s fd')) ∧
  (∃ s', del_ioev fd s = Ok (tt, s') ∧ loop_inv s' ∧
     interests s' = delete fd (interests s) ∧ fd ∉ listening (ev_loop s')).
Proof.
  intros Hi. split.
  - pose proof (del_ioev_mask_spec fd msk s Hi) as ([] & s' & Hr & Hi' & _ & He)%wp_elim.
    exists s'. split; [done|]. split; [done|].
    rewrite (loop_mirror s' Hi'), (loop_mirror s Hi), He. split_and!.
    + intros fd' Hne. by rewrite !lookup_fmap, lookup_partial_alter_ne.
    + rewrite !lookup_fmap, lookup_partial_alter_eq.
      destruct (_io_evs (ev_loop s) !! fd) as [ev|]; [|done]. simpl. unfold reduced. by case_match.
    + intros fd' Hsome. unfold reader, writer. rewrite He in *.
      destruct (decide (fd' = fd)) as [->|Hne]; [|by rewrite lookup_partial_alter_ne].
      rewrite lookup_fmap, lookup_partial_alter_eq in Hsome. rewrite lookup_partial_alter_eq.
      destruct (_io_evs (ev_loop s) !! fd) as [ev|]; [|by destruct Hsome].
      simpl in *. unfold reduced in *. case_match; [by destruct Hsome|done].
  - pose proof (del_ioev_spec fd s Hi) as ([] & s' & Hr & Hi' & _ & He)%wp_elim.
    exists s'. split; [done|]. split; [done|]. split.
    + by rewrite (loop_mirror s' Hi'), (loop_mirror s Hi), He, fmap_delete.
    + rewrite (loop_listening s' Hi'), He, dom_delete_L. set_solver.
Qed.
End claims.

(** A loop with a handler for reading on descriptor 7. *)
Definition one_reader : ev_st Script.state :=
  run_state (add_ioev 7 tcp_rcb EPOLLIN (v_tcp_conn 7)) idle.

Lemma one_reader_inv : loop_inv one_reader.
Proof.
  pose proof (add_ioev_spec 7 tcp_rcb EPOLLIN (v_tcp_conn 7) idle idle_inv eq_refl) as Hw.
  destruct (wp_run_state _ _ _ Hw) as (_ & Hi & _). exact Hi.
Qed.

Lemma add_ioev_registers_witness :
  ∃ s', add_ioev 7 tcp_wcb EPOLLOUT (v_tcp_conn 7) one_reader = Ok (tt, s') ∧
    interests s' !! 7 = Some (Z.lor EPOLLIN EPOLLOUT) ∧
    reader s' 7 = Some (tcp_rcb, v_tcp_conn 7) ∧ writer s' 7 = Some (tcp_wcb, v_tcp_conn 7).
Proof.
  destruct (add_ioev_registers 7 tcp_wcb EPOLLOUT (v_tcp_conn 7) one_reader one_reader_inv eq_refl)
    as (s' & Hr & _ & Hint & _ & Hout & _).
  exists s'. split; [exact Hr|]. rewrite Hint. split; [reflexivity|].
  destruct (Hout eq_refl) as [-> ->]. by split.
Defined.

Lemma del_ioev_unregisters_witness :
  ∃ s', del_ioev_mask 7 EPOLLIN one_reader = Ok (tt, s') ∧ interests s' !! 7 = None.
Proof.
  destruct (del_ioev_unregisters 7 EPOLLIN one_reader one_reader_inv)
    as [(s' & Hr & _ & _ & Hint & _) _].
  exists s'. split; [exact Hr|]. rewrite Hint. reflexivity.
Defined.

Section rounds.
Context {K W : Type} `{EpollLaws K} (lp : lens W (ev_st K)) {valid : W → Prop} `{!LensLaws lp valid}.
Variable call_io : io_callback → Z → void_ptr → M W unit.
Variable call_timer : timer_callback → void_ptr → M W unit.
Variable call_task : pendingFunc → void_ptr → M W unit.
Implicit Types w : W.

(** For an event the kernel may report of a registered descriptor,
    [process_evs] calls exactly one handler, and reading goes before writing:
    the read handler when data is ready, else the write handler, and on a bare
    error or hang-up the read handler, else the write handler; if there is
    neither, it drops the registration. *)
Theorem dispatch_priority w fd events :
  loop_inv (view lp w) → reported (view lp w) fd events →
  let s := view lp w in
  let run := handle_event lp call_io (fd, events) w in
  (has EPOLLIN events = true →
     ∃ f a, reader s fd = Some (f, a) ∧ run = call_io f fd a w) ∧
  (has EPOLLIN events = false → has EPOLLOUT events = true →
     ∃ f a, writer s fd = Some (f, a) ∧ run = call_io f fd a w) ∧
  (has EPOLLIN events = false → has EPOLLOUT events = false →
     has (Z.lor EPOLLHUP EPOLLERR) events = true →
     match reader s fd, writer s fd with
     | Some (f, a), _ => run = call_io f fd a w
     | None, Some (f, a) => run = call_io f fd a w
     | None, None => run = zoom lp (del_ioev fd) w
     end).
Proof.
  intros Hi Hrep s run. pose proof (handle_event_chosen lp call_io w fd events Hi Hrep) as Hrun.
  fold run s in Hrun. unfold chosen in Hrun. destruct Hrep as (m & Hm & Hin & Hout).
  rewrite (loop_mirror _ Hi), lookup_fmap in Hm. fold s in Hm. unfold reader, writer in *.
  destruct (_io_evs (ev_loop s) !! fd) as [ev|] eqn:Hev; [|done]. injection Hm as <-.
  destruct (loop_handlers _ Hi fd ev Hev) as [Hr Hw]. cbn [mbind option_bind] in *.
  split_and!.
  - intros Hev'. rewrite Hev' in *. destruct (Hr (Hin eq_refl)) as [f Hf].
    rewrite Hf in *. by exists f, (rcb_args ev).
  - intros H1 Hev'. rewrite H1, Hev' in *. destruct (Hw (Hout eq_refl)) as [f Hf].
    rewrite Hf in *. by exists f, (wcb_args ev).
  - intros H1 H2 H3. rewrite H1, H2, H3 in *.
    by destruct (read_cb ev), (write_cb ev).
Qed.

(** What a task may do: keep the invariants and leave the task list alone. *)
Definition task_contract (Inv : W → Prop) : Prop :=
  ∀ f args w, Inv w → loop_inv (view lp w) →
    wp (call_task f args) (λ _ w', Inv w' ∧ loop_inv (view lp w') ∧
      _pendingFactors (ev_loop (view lp w')) = _pendingFactors (ev_loop (view lp w))) w.

(** A round of the loop never stops the process by itself: when the kernel
    reports distinct descriptors, for events they are registered for, and each
    handler touches only the registration of its own descriptor, the assertion
    and every handler pointer of the round are sound, all tasks run, the task
    list is empty at the end, and the invariants hold for the next round. *)
Theorem round_never_faults Inv w batch k1 :
  handler_contract lp call_io Inv → task_contract Inv → (∀ w, Inv w → valid w) →
  (∀ w s', Inv w → loop_inv s' → Inv (update lp s' w)) →
  Inv w → loop_inv (view lp w) →
  sys_epoll_wait (_epfd (ev_loop (view lp w))) MAXEVENTS (ev_kern (view lp w)) = (inr batch, k1) →
  interest (_epfd (ev_loop (view lp w))) k1 = interests (view lp w) →
  NoDup batch.*1 → Forall (λ e, reported (view lp w) e.1 e.2) batch →
  ∃ w', process_round lp call_io call_task w = Ok (tt, w') ∧ Inv w' ∧ loop_inv (view lp w') ∧
    tasks (_pendingFactors (ev_loop (view lp w'))) = [].
Proof.
  intros Hc Ht Hval Hupd HI Hi Hwait Hint Hnd Hrep.
  cut (wp (process_round lp call_io call_task) (λ _ w', Inv w' ∧ loop_inv (view lp w') ∧
    tasks (_pendingFactors (ev_loop (view lp w'))) = []) w).
  { intros ([] & w' & Hr & HQ)%wp_elim. by exists w'. }
  unfold process_round. do 2 wp_step. wp_step. wp_step. wp_step. apply wp_syscall.
  intros a k' Hw. cbn [view lp_kern] in Hw. rewrite Hwait in Hw. injection Hw as <- <-.
  set (s1 := update lp_kern k1 (view lp w)).
  assert (Hi1 : loop_inv s1).
  { apply (loop_inv_kern (ev_kern (view lp w))); [by destruct (view lp w)|done]. }
  wp_step. eapply wp_mono.
  { apply (batch_spec lp call_io Inv batch); [done|done| |by apply Hupd|rewrite view_update; auto|done|].
    - intros w1 s' ? _ ?. by apply Hupd.
    - rewrite view_update by auto. eapply Forall_impl; [exact Hrep|]. intros [fd events].
      by apply reported_same. }
  intros [] w1 [HI1 Hi1']. unfold run_task. wp_step. wp_step. wp_step.
  set (v := _pendingFactors (ev_loop (view lp w1))).
  assert (Hloop : ∀ l w2, Inv w2 → loop_inv (view lp w2) →
    _pendingFactors (ev_loop (view lp w2)) = v → ∀ fuel i, l = drop i (tasks v) →
    (length l < fuel)%nat →
    wp (run_task_loop lp call_task fuel (moves v) i) (λ _ w', Inv w' ∧ loop_inv (view lp w')) w2).
  { induction l as [|t l IH]; intros w2 HI2 Hi2 Hv fuel i Hl Hf;
      (destruct fuel as [|fuel]; [simpl in Hf; lia|]); cbn [run_task_loop]; do 2 wp_step;
      rewrite Hv, bool_decide_eq_true_2 by done.
    - destruct (Nat.ltb_spec i (length (tasks v))); [|by wp_steps].
      apply (f_equal length) in Hl. rewrite length_drop in Hl. simpl in Hl. lia.
    - assert (Hti : tasks v !! i = Some t) by (rewrite <- (Nat.add_0_r i), <- lookup_drop, <- Hl; done).
      pose proof (lookup_lt_Some _ _ _ Hti). destruct (Nat.ltb_spec i (length (tasks v))); [|lia].
      wp_step. eapply wp_from_option; [exact Hti|]. wp_step.
      eapply wp_mono; [by apply Ht|]. intros [] w3 (HI3 & Hi3 & Hv3).
      apply (IH w3 HI3 Hi3); [by rewrite Hv3| |simpl in Hf; lia].
      rewrite (drop_S _ _ _ Hti) in Hl. by injection Hl. }
  eapply wp_mono.
  { apply (Hloop (tasks v) w1 HI1 Hi1' eq_refl); [done|]. pose proof (loop_tasks _ Hi1'). fold v in H1. lia. }
  intros [] w2 [HI2 Hi2]. wp_step. unfold modify_loop. wp_step. wp_step. simpl.
  assert (Hi3 : loop_inv (EvSt (ev_kern (view lp w2))
    (set_pending (tv_clear (_pendingFactors (ev_loop (view lp w2)))) (ev_loop (view lp w2))))).
  { destruct Hi2 as [? ? ? ?]. split; [done..|]. simpl. lia. }
  rewrite view_update by auto. split; [by apply Hupd|]. by split.
Qed.

(** When the tasks leave the task list alone, [run_task] runs every pending
    task once, in the order they were added, and then empties the list; if one
    of them stops the process, so does [run_task]. *)
Theorem run_task_runs_all w :
  let v := _pendingFactors (ev_loop (view lp w)) in
  (length (tasks v) ≤ tv_capacity v)%nat →
  (∀ f args w u w', call_task f args w = Ok (u, w') →
     _pendingFactors (ev_loop (view lp w')) = _pendingFactors (ev_loop (view lp w))) →
  run_task lp call_task w =
    (for_each (tasks v) (λ t, call_task t.1 t.2) ;;
     zoom lp (modify_loop (λ l, set_pending (tv_clear (_pendingFactors l)) l))) w.
Proof.
  intros v Hv Hstable. unfold run_task, mbind at 1, M_bind, gets. unfold mbind, M_bind.
  fold v. by rewrite (run_task_loop_stable _ _ _ 0 v) by (done || lia).
Qed.

(** When the vector of tasks is full and its first task adds a task (as a
    task may, through the loop it is given), the vector moves and the loop of
    [run_task] goes on with a stale iterator: undefined behaviour. *)
Theorem task_adding_task_is_undefined f args rest g args' w :
  let v := _pendingFactors (ev_loop (view lp w)) in
  valid w → tasks v = (f, args) :: rest → length (tasks v) = tv_capacity v →
  call_task f args = zoom lp (add_task g args') →
  run_task lp call_task w = Fail Undefined.
Proof.
  intros v Hval Hv Hfull Hf. unfold run_task. erewrite bind_ok by reflexivity.
  apply bind_fail. fold v.
  assert (tv_capacity v = S (length rest)) as -> by (rewrite <- Hfull, Hv; done).
  rewrite (run_task_loop_step _ _ _ _ _ _ (f, args)); [|done|fold v; by rewrite Hv].
  cbn [fst snd]. rewrite Hf. erewrite bind_ok by reflexivity.
  apply run_task_loop_stale. rewrite view_update by done. simpl. fold v.
  unfold push_back. rewrite Hfull, Nat.ltb_irrefl. simpl. lia.
Qed.
End rounds.

(** ** The concrete instances of the claims on rounds *)

Definition whole {S} : lens S S := Lens (λ s, s) (λ t _, t).
#[global] Instance whole_laws {S} : LensLaws (@whole S) (λ _, True).
Proof. by split. Qed.

(** A handler that drops the registration of its descriptor, and a task that does
    nothing. *)
Definition drop_own (_ : io_callback) (fd : Z) (_ : void_ptr) : M (ev_st Script.state) unit :=
  del_ioev fd.
Definition no_op (_ : pendingFunc) (_ : void_ptr) : M (ev_st Script.state) unit := mret tt.

Lemma drop_own_contract : handler_contract whole drop_own (λ _, True).
Proof.
  intros f fd args s _ Hi. eapply wp_mono; [by apply del_ioev_spec|].
  intros [] s' (Hi' & _ & He). split; [done|]. split; [done|].
  intros fd' Hne _. simpl. by rewrite He, lookup_delete_ne.
Qed.

Lemma no_op_contract : task_contract whole no_op (λ _, True).
Proof. intros f args s _ Hi. by apply wp_ret. Qed.

(** [one_reader], when the next [epoll_wait] reports its descriptor readable, and
    a task is pending. *)
Definition ready_reader : ev_st Script.state :=
  let s := run_state (add_task (user_task 1) vnull) one_reader in
  EvSt (Script.State [Script.AEvents [(7, EPOLLIN)]] (Script.log (ev_kern s))) (ev_loop s).

Lemma ready_reader_inv : loop_inv ready_reader.
Proof. destruct one_reader_inv as [Hm Hh Hl Ht]. split; [exact Hm|exact Hh|exact Hl|simpl; lia]. Qed.

Lemma ready_reader_reported : reported ready_reader 7 EPOLLIN.
Proof. exists EPOLLIN. split_and!; (reflexivity || discriminate). Qed.

Lemma dispatch_priority_witness :
  handle_event whole drop_own (7, EPOLLIN) ready_reader = del_ioev 7 ready_reader.
Proof.
  destruct (dispatch_priority whole drop_own ready_reader 7 EPOLLIN ready_reader_inv
    ready_reader_reported) as [Hin _].
  destruct (Hin eq_refl) as (f & a & _ & ->). reflexivity.
Defined.

Lemma round_never_faults_witness :
  ∃ s', process_round whole drop_own no_op ready_reader = Ok (tt, s') ∧ loop_inv s' ∧
    tasks (_pendingFactors (ev_loop s')) = [].
Proof.
  destruct (round_never_faults whole drop_own no_op (λ _, True) ready_reader [(7, EPOLLIN)]
    (Script.State [] (Script.log (ev_kern ready_reader)))) as (s' & Hr & _ & Hi & Ht).
  - apply drop_own_contract.
  - apply no_op_contract.
  - done.
  - done.
  - done.
  - apply ready_reader_inv.
  - reflexivity.
  - reflexivity.
  - apply NoDup_singleton.
  - apply Forall_singleton, ready_reader_reported.
  - by exists s'.
Defined.

Lemma run_task_runs_all_witness :
  run_task whole no_op ready_reader =
    (for_each [(user_task 1, vnull)] (λ t, no_op t.1 t.2) ;;
     zoom whole (modify_loop (λ l, set_pending (tv_clear (_pendingFactors l)) l))) ready_reader.
Proof.
  apply (run_task_runs_all whole no_op ready_reader).
  - vm_compute. lia.
  - intros f args w u w'. unfold no_op. by intros [= _ <-].
Defined.

(** A task that adds itself again. *)
Definition again (f : pendingFunc) (args : void_ptr) : M (ev_st Script.state) unit :=
  zoom whole (add_task f args).

Lemma task_adding_task_is_undefined_witness :
  run_task whole again ready_reader = Fail Undefined.
Proof.
  apply (task_adding_task_is_undefined whole again (user_task 1) vnull [] (user_task 1) vnull);
    reflexivity.
Defined.

(** ** Relative timers *)

Section timers.
Context {K : Type} `{Kernel K}.

Lemma add_timer_wp te q :
  wf q → timer_typed te → _count q < TIMER_LIMIT → _next_timer_id q < INT_MAX →
  wp (add_timer te) (λ id q', id = _next_timer_id q ∧ wf q' ∧
    timers q' = <[id := with_timer_id id te]> (timers q) ∧ _next_timer_id q' = id + 1 ∧
    (_event_lst q = [] → _event_lst q' = [with_timer_id id te] ∧ _pioneer q' = ts te)) q.
Proof.
  intros [Hq Hd] Hte Hlim Hnext. eapply wp_mono; [by apply add_timer_core|].
  intros id q' (-> & Hw & Hp & Hn & _ & _ & Hfirst). split; [done|]. split; [done|]. split; [|split; [done|]].
  - unfold timers. rewrite (timers_of_Permutation _ _ (core_NoDup q' (proj1 Hw)) Hp). apply timers_of_cons.
  - intros Hnil. split; [|by apply Hfirst]. rewrite Hnil in Hp. by apply Permutation_singleton_r in Hp.
Qed.

Lemma wp_now_millis (s : ev_st K) sec nsec k1 (Q : Z → ev_st K → Prop) :
  sys_clock_realtime (ev_kern s) = ((sec, nsec), k1) →
  0 ≤ sec → 0 ≤ nsec → sec * 1000 + nsec / 1000000 < 2 ^ 64 →
  Q (sec * 1000 + nsec / 1000000) (EvSt k1 (ev_loop s)) → wp now_millis Q s.
Proof.
  intros Hk Hs Hn Hlt HQ. unfold now_millis. wp_step. wp_step. apply wp_syscall.
  intros a k' Ha. cbn [view lp_kern] in Ha. rewrite Hk in Ha. injection Ha as <- <-.
  pose proof (Z.div_pos nsec 1000000). wp_step. simpl.
  rewrite (u64_small (sec * 1000)) by lia. rewrite u64_small by lia. exact HQ.
Qed.

(** The delays [run_after] and [run_every] accept. *)
Definition delay_ok (sec millis : Z) : Prop :=
  0 ≤ sec ∧ 0 ≤ millis ∧ sec * 1000 + millis ≤ INT_MAX.

Lemma wp_delay sec millis (Q : Z → ev_st K → Prop) s :
  delay_ok sec millis → Q (sec * 1000 + millis) s → wp (delay sec millis) Q s.
Proof.
  intros (? & ? & ?) HQ. unfold delay. wp_step. apply wp_cint; [int_lia|]. apply wp_cint; [int_lia|done].
Qed.

(** The id a timer gets and what the clock and the queue must allow. *)
Definition can_add_timer (s : ev_st K) (csec cnsec : Z) (k1 : K) : Prop :=
  let q := _timer_que (ev_loop s) in
  sys_clock_realtime (ev_kern s) = ((csec, cnsec), k1) ∧ 0 ≤ csec ∧ 0 ≤ cnsec ∧
  csec * 1000 + cnsec / 1000000 + INT_MAX < 2 ^ 64 ∧
  wf q ∧ _count q < TIMER_LIMIT ∧ _next_timer_id q < INT_MAX.

(** One more timer, [te] apart from its id, in the queue of [s]; when it is the
    only one, the deadline is its expiry. *)
Definition timer_added (s : ev_st K) (k1 : K) (te : timer_event) (r : Z) (s' : ev_st K) : Prop :=
  let q := _timer_que (ev_loop s) in
  let id := _next_timer_id q in
  r = id ∧ ∃ q', s' = EvSt k1 (set_timer_que q' (ev_loop s)) ∧ wf q' ∧
    timers q' = <[id := with_timer_id id te]> (timers q) ∧ _next_timer_id q' = id + 1 ∧
    (_event_lst q = [] → _event_lst q' = [with_timer_id id te] ∧ _pioneer q' = ts te).

Lemma run_after_spec f args sec millis (s : ev_st K) csec cnsec k1 :
  can_add_timer s csec cnsec k1 → delay_ok sec millis →
  wp (run_after f args sec millis)
    (timer_added s k1 (TimerEvent f args (csec * 1000 + cnsec / 1000000 + (sec * 1000 + millis)) 0 0)) s.
Proof.
  intros (Hk & Hs & Hn & Hlt & Hw & Hlim & Hnext) Hd. set (now := csec * 1000 + cnsec / 1000000) in *.
  set (d := sec * 1000 + millis). pose proof Hd as (? & ? & ?). pose proof (Z.div_pos cnsec 1000000).
  assert (Hnow : 0 ≤ now) by (unfold now; lia). unfold INT_MAX in *.
  unfold run_after. wp_step. eapply wp_now_millis; [done..|fold now; lia|]. wp_step.
  apply wp_delay; [done|]. wp_step. fold now d. rewrite (u64_small (now + d)) by lia.
  unfold timer_event_new. rewrite u64_small by lia.
  eapply wp_mono; [apply add_timer_wp; [exact Hw|split; simpl; [lia|done]|done|exact Hnext]|].
  intros r q' (-> & Hw' & Ht & Hf). split; [done|]. by exists q'.
Qed.

Lemma run_every_spec f args sec millis (s : ev_st K) csec cnsec k1 :
  can_add_timer s csec cnsec k1 → delay_ok sec millis →
  let d := sec * 1000 + millis in
  wp (run_every f args sec millis)
    (timer_added s k1 (TimerEvent f args (csec * 1000 + cnsec / 1000000 + d) d 0)) s.
Proof.
  intros (Hk & Hs & Hn & Hlt & Hw & Hlim & Hnext) Hd d. set (now := csec * 1000 + cnsec / 1000000) in *.
  pose proof Hd as (? & ? & ?). pose proof (Z.div_pos cnsec 1000000).
  assert (Hnow : 0 ≤ now) by (unfold now; lia). unfold INT_MAX in *.
  assert (Hd32 : 0 ≤ d < 2 ^ 32) by lia.
  unfold run_every. wp_step. apply wp_delay; [done|]. fold d. wp_step.
  eapply wp_now_millis; [done..|fold now; lia|]. wp_step. fold now. rewrite (u32_small d) by done.
  rewrite (u64_small (now + d)) by lia.
  unfold timer_event_new. rewrite u64_small, u32_small by lia.
  eapply wp_mono; [apply add_timer_wp; [exact Hw|split; simpl; lia|done|exact Hnext]|].
  intros r q' (-> & Hw' & Ht & Hf). split; [done|]. by exists q'.
Qed.

(** [run_after] and [run_every] add one timer, due the given delay after the
    current time in milliseconds, one-shot or with the delay as its period; the
    result is its id, and the timer queue stays well-formed.  A delay of more
    than 2147483 seconds overflows [int]: undefined behaviour. *)
Theorem relative_timers f args sec millis (s : ev_st K) csec cnsec k1 :
  let now := csec * 1000 + cnsec / 1000000 in
  let d := sec * 1000 + millis in
  can_add_timer s csec cnsec k1 →
  (delay_ok sec millis →
   (∃ r s', run_after f args sec millis s = Ok (r, s') ∧
      timer_added s k1 (TimerEvent f args (now + d) 0 0) r s') ∧
   (∃ r s', run_every f args sec millis s = Ok (r, s') ∧
      timer_added s k1 (TimerEvent f args (now + d) d 0) r s')) ∧
  (2147483 < sec →
   run_after f args sec millis s = Fail Undefined ∧ run_every f args sec millis s = Fail Undefined).
Proof.
  intros now d Hc. split.
  - intros Hd. split; apply wp_elim; [by apply run_after_spec|by apply run_every_spec].
  - intros Hsec. assert (Hov : ∀ s', delay (K:=K) sec millis s' = Fail Undefined).
    { intros s'. apply bind_fail, cint_out. int_lia. }
    split.
    + destruct Hc as (Hk & Hs & Hn & Hlt & _). unfold run_after.
      assert (Hw : wp now_millis (λ _ _, True) s) by (eapply wp_now_millis; [done..|unfold INT_MAX in *; lia|done]).
      apply wp_elim in Hw as (a & s' & Ha & _). erewrite bind_ok by exact Ha. by apply bind_fail.
    + by apply bind_fail.
Qed.
End timers.

Lemma relative_timers_witness :
  let s := EvSt (Script.State [Script.AClock 1000 5000000] []) (ev_loop idle) in
  ∃ q', run_every (user_timer_cb 1) vnull 2 500 s =
      Ok (0, EvSt (Script.State [] []) (set_timer_que q' (ev_loop idle))) ∧
    timers q' = <[0 := TimerEvent (user_timer_cb 1) vnull 1002505 2500 0]> ∅.
Proof.
  intros s.
  destruct (relative_timers (user_timer_cb 1) vnull 2 500 s 1000 5000000 (Script.State [] []))
    as [Hok _].
  - split_and!; [reflexivity|lia|lia|vm_compute; reflexivity|exact wf_new|reflexivity|reflexivity].
  - destruct Hok as (_ & r & s' & Hr & -> & q' & -> & _ & Ht & _).
    + split; [lia|]. split; [lia|]. vm_compute. discriminate.
    + exists q'. split; [exact Hr|exact Ht].
Defined.
