(* ===== verification/Net.v ===== *)
(** * What a server relies on of the network

    The laws under which a server is safe whatever its peers do, and a concrete
    kernel with any number of connections that satisfies them. *)
From S2P Require Import Prelude EventBase TimerQueue Kernel EventLoop EventLoopProps.

(** An accepted descriptor is new: it was not open, and it is in no interest list,
    since closing a descriptor takes it out of them.  FIONREAD is bounded by the size of a socket buffer; [read] returns at most what it is asked
    for, and is interrupted at most [patience] times in a row.  [epoll_wait] reports
    distinct descriptors, for events they are registered for, errors and hang-ups. *)
Class NetLaws (K : Type) `{EpollLaws K} `{!SinkLaws K} `{!DescriptorLaws K} `{!StreamLaws K} := {
  accept_fresh fd k c k' : sys_accept fd k = (inr c, k') →
    0 ≤ c ∧ (∀ e, interest e k !! c = None) ∧ ¬ is_open c k ∧ is_open c k';
  fionread_range fd k n k' : sys_fionread fd k = (inr n, k') → 0 ≤ n ≤ 2 ^ 30;
  interest_fionread epfd fd k : interest epfd (sys_fionread fd k).2 = interest epfd k;
  read_length fd n k bs k' : sys_read fd n k = (inr bs, k') → 0 ≤ n → Z.of_nat (length bs) ≤ n;
  interest_read epfd fd n k : interest epfd (sys_read fd n k).2 = interest epfd k;
  read_patient fd n k : ∃ a, retry (S patience) (sys_read fd n) k = Ok a;
  wait_distinct epfd n k evs k' : sys_epoll_wait epfd n k = (inr evs, k') → NoDup evs.*1;
  wait_reports epfd n k evs k' fd events :
    sys_epoll_wait epfd n k = (inr evs, k') → (fd, events) ∈ evs →
    ∃ m, interest epfd k !! fd = Some m ∧
      (has EPOLLIN events = true → has EPOLLIN m = true) ∧
      (has EPOLLOUT events = true → has EPOLLOUT m = true);
  interest_wait epfd epfd' n k : interest epfd (sys_epoll_wait epfd' n k).2 = interest epfd k;
}.

(** *** The environment of a server

    Two assumptions on what goes on outside of the process, which the safety of a
    server needs as well.  Connections arrive at a rate the server can follow:
    [arriving k] bounds the answers [accept] can give before EAGAIN, and is never
    above [burst]. *)
Class AcceptEnds (K : Type) `{Kernel K} := {
  arriving : K → nat;
  burst : nat;
  arriving_burst k : (arriving k ≤ burst)%nat;
  arriving_accept fd k r k' : sys_accept fd k = (r, k') → r ≠ inl EAGAIN → (arriving k' < arriving k)%nat;
  arriving_close fd k : (arriving (sys_close fd k) ≤ arriving k)%nat;
  arriving_nonblock fd k : (arriving (sys_set_nonblock fd k) ≤ arriving k)%nat;
  arriving_setsockopt fd k : (arriving (sys_setsockopt fd k).2 ≤ arriving k)%nat;
  arriving_epoll epfd op fd ev k : (arriving (sys_epoll_ctl epfd op fd ev k).2 ≤ arriving k)%nat;
}.

(** And descriptors do not run out: without this the server is not safe
    ([do_accept_emfile_closes_live] of TcpServerProps.v). *)
Definition descriptors_suffice (K : Type) `{Kernel K} : Prop :=
  ∀ fd (k : K) e k', sys_accept fd k = (inl e, k') → e ≠ EMFILE.

(** A descriptor the system has just given out, in state [k]: it is in no interest
    list, and was not open. *)
Definition given {K} `{DescriptorLaws K} (fd : Z) (k k' : K) : Prop :=
  (∀ e, interest e k !! fd = None) ∧ ¬ is_open fd k ∧ is_open fd k'.

(** What setting up loops, queues and a server relies on: a new epoll instance
    watched nothing, the descriptors of new objects are new, and the other calls
    concern no descriptor that is open. *)
Class SetupLaws (K : Type) `{DescriptorLaws K} := {
  create_empty k epfd k' : sys_epoll_create k = (inr epfd, k') → interest epfd k = ∅;
  create_calm k : calm k (sys_epoll_create k).2;
  timerfd_given k fd k' : sys_timerfd_create k = (inr fd, k') → 0 ≤ fd ∧ given fd k k';
  timerfd_calm k : calm k (sys_timerfd_create k).2;
  eventfd_given k fd k' : sys_eventfd k = (inr fd, k') → 0 ≤ fd ∧ given fd k k';
  eventfd_calm k : calm k (sys_eventfd k).2;
  socket_given k fd k' : sys_socket k = (inr fd, k') → 0 ≤ fd ∧ given fd k k';
  socket_calm k : calm k (sys_socket k).2;
  dup_given k fd k' : sys_dup 1 k = (inr fd, k') → 0 ≤ fd ≤ 2 ^ 30 ∧ given fd k k';
  dup_calm fd k : calm k (sys_dup fd k).2;
  open_calm k : calm k (sys_open_reserve k).2;
  bind_calm fd k : calm k (sys_bind fd k).2;
  listen_calm fd k : calm k (sys_listen fd k).2;
  pthread_calm k : calm k (sys_pthread_create k).2;
}.

(** The most a datagram of UDP over IPv4 can carry: 65535 bytes without the headers
    of 20 and 8. *)
Definition MAX_DATAGRAM : Z := 65507.

(** What a UDP server relies on: a datagram is not longer than the buffer, nor than
    UDP allows (recvfrom(2), udp(7)). *)
Class MailLaws (K : Type) `{DescriptorLaws K} := {
  datagram_length fd n k bs peer k' : sys_recvfrom fd n k = (inr (bs, peer), k') → 0 ≤ n →
    Z.of_nat (length bs) ≤ Z.min n MAX_DATAGRAM;
  calm_recvfrom fd n k : calm k (sys_recvfrom fd n k).2;
  calm_sendto fd bs dest k : calm k (sys_sendto fd bs dest k).2;
}.

(** The environment of a UDP server: datagrams arrive at a rate it can follow.
    [awaiting k] bounds the datagrams and interrupts that [recvfrom] can give before it
    fails with another error, and is never above [mail_burst]. *)
Class MailEnds (K : Type) `{Kernel K} := {
  awaiting : K → nat;
  mail_burst : nat;
  awaiting_burst k : (awaiting k ≤ mail_burst)%nat;
  awaiting_recvfrom fd n k r k' : sys_recvfrom fd n k = (r, k') →
    match r with inr _ | inl EINTR => (awaiting k' < awaiting k)%nat | inl _ => True end;
  awaiting_sendto fd bs dest k : (awaiting (sys_sendto fd bs dest k).2 ≤ awaiting k)%nat;
}.

(** The calls of a running server that concern no descriptor that is open. *)
Section calm.
Context {K : Type} `{NetLaws K}.

Lemma calm_fionread fd (k : K) : calm k (sys_fionread fd k).2.
Proof. split; [intros e; apply interest_fionread|intros f; apply open_fionread]. Qed.
Lemma calm_read fd n (k : K) : calm k (sys_read fd n k).2.
Proof. split; [intros e; apply interest_read|intros f; apply open_read]. Qed.
Lemma calm_write fd bs (k : K) : calm k (sys_write fd bs k).2.
Proof. split; [intros e; apply interest_write|intros f; apply open_write]. Qed.
Lemma calm_nonblock fd (k : K) : calm k (sys_set_nonblock fd k).
Proof. split; [intros e; apply interest_nonblock|intros f; apply open_nonblock]. Qed.
Lemma calm_setsockopt fd (k : K) : calm k (sys_setsockopt fd k).2.
Proof. split; [intros e; apply interest_setsockopt|intros f; apply open_setsockopt]. Qed.
Lemma calm_accept fd (k : K) : calm k (sys_accept fd k).2.
Proof. split; [intros e; apply interest_accept|intros f; apply open_accept]. Qed.
Lemma calm_wait e n (k : K) : calm k (sys_epoll_wait e n k).2.
Proof. split; [intros e'; apply interest_wait|intros f; apply open_wait]. Qed.

Lemma mute_close c fd (k : K) : mute c k (sys_close fd k).
Proof. intros d _. apply sent_close. Qed.
Lemma mute_ctl c s s' : by_ctl s s' → mute (K := K) c (ev_kern s) (ev_kern s').
Proof. intros Hctl d _. by apply ctl_sent. Qed.

(** They send nothing, and [write] only on its own descriptor. *)
Definition calm_for (c : Z) (k k' : K) : Prop := calm k k' ∧ mute c k k'.

#[global] Instance calm_for_preorder c : PreOrder (calm_for c).
Proof. split; [by split|]. intros k1 k2 k3 [H12 Hm] [H23 Hm']. by split; etrans. Qed.

Lemma calm_for_fionread c fd (k : K) : calm_for c k (sys_fionread fd k).2.
Proof. split; [apply calm_fionread|intros d _; apply sent_fionread]. Qed.
Lemma calm_for_read c fd n (k : K) : calm_for c k (sys_read fd n k).2.
Proof. split; [apply calm_read|intros d _; apply sent_read]. Qed.
Lemma calm_for_write fd bs (k : K) : calm_for fd k (sys_write fd bs k).2.
Proof. split; [apply calm_write|intros d Hd; by apply sent_write]. Qed.
Lemma calm_for_nonblock c fd (k : K) : calm_for c k (sys_set_nonblock fd k).
Proof. split; [apply calm_nonblock|intros d _; apply sent_nonblock]. Qed.
Lemma calm_for_setsockopt c fd (k : K) : calm_for c k (sys_setsockopt fd k).2.
Proof. split; [apply calm_setsockopt|intros d _; apply sent_setsockopt]. Qed.
Lemma calm_for_accept c fd (k : K) : calm_for c k (sys_accept fd k).2.
Proof. split; [apply calm_accept|intros d _; apply sent_accept]. Qed.
Lemma calm_for_wait c e n (k : K) : calm_for c k (sys_epoll_wait e n k).2.
Proof. split; [apply calm_wait|intros d _; apply sent_wait]. Qed.
End calm.

Lemma swp_syscall {K A} (f : K → A * K) (Q : A → K → Prop) k :
  (∀ a k', f k = (a, k') → Q a k') → swp (syscall f) Q k.
Proof. intros HQ. unfold swp, syscall. destruct (f k) as [a k']. by apply HQ. Qed.

(** What a system call keeps, a call that is retried keeps. *)
Lemma retry_invariant {K A} (call : K → (errno + A) * K) (R : K → Prop) fuel k a k' :
  (∀ k, R k → R (call k).2) → retry fuel call k = Ok (a, k') → R k → R k'.
Proof.
  intros HR. revert k. induction fuel as [|fuel IH]; intros k; [done|]. cbn [retry].
  unfold mbind, M_bind, syscall. destruct (call k) as [r k1] eqn:Hc. intros Hr Hk.
  pose proof (HR k Hk) as Hk1. rewrite Hc in Hk1. simpl in Hk1.
  destruct r as [[]|]; try (by injection Hr as _ <-). by apply (IH k1).
Qed.

(** The last answer of a retried call is one of the call. *)
Lemma retry_last {K A} (call : K → (errno + A) * K) fuel k a k' :
  retry fuel call k = Ok (a, k') → ∃ k0, call k0 = (a, k').
Proof.
  revert k. induction fuel as [|fuel IH]; intros k; [done|]. cbn [retry].
  unfold mbind, M_bind, syscall. destruct (call k) as [r k1] eqn:Hc. intros Hr.
  destruct r as [[]|]; try (injection Hr as <- <-; by exists k). by apply (IH k1).
Qed.

(** ** A kernel with connections

    [watch] are the interest lists, [opened] the open descriptors; [inputs] are the
    pieces in which bytes arrive on each descriptor, [arrivals] the connections
    still to come, and [polls] the descriptors that [epoll_wait] finds ready in its
    next calls, if they are registered; [mail] are the datagrams. *)
Module Sim.
Record state := State {
watch : gmap Z (gmap Z Z);
inputs : gmap Z (list (list byte));
outs : gmap Z (list byte);
arrivals : nat;
polls : list (list (Z * Z));
opened : gset Z;
mail : Mail.state;
}.

(** At the start: the standard streams are open. *)
Definition start (ins : gmap Z (list (list byte))) (n : nat) (ps : list (list (Z * Z))) : state :=
State ∅ ins ∅ n ps {[0; 1; 2]} (Mail.State [] []).

(** With datagrams to come. *)
Definition start_mail (dgs : list (errno + (list byte * Z))) (ps : list (list (Z * Z))) : state :=
State ∅ ∅ ∅ 0 ps {[0; 1; 2]} (Mail.State dgs []).

Definition set_watch w k := State w (inputs k) (outs k) (arrivals k) (polls k) (opened k) (mail k).
Definition set_mail m k := State (watch k) (inputs k) (outs k) (arrivals k) (polls k) (opened k) m.
Definition set_opened o k := State (watch k) (inputs k) (outs k) (arrivals k) (polls k) o (mail k).

Definition watched (e : Z) (k : state) : gmap Z Z := default ∅ (watch k !! e).

Definition chunk (fd : Z) (k : state) : list byte :=
let bs := default [] (head (default [] (inputs k !! fd))) in
if Z.of_nat (length bs) <=? 2 ^ 30 then bs else [].

Definition read (fd n : Z) (k : state) : (errno + list byte) * state :=
(inr (take (Z.to_nat n) (chunk fd k)),
 State (watch k) (<[fd := tail (default [] (inputs k !! fd))]> (inputs k)) (outs k) (arrivals k) (polls k) (opened k) (mail k)).

Definition write (fd : Z) (bs : list byte) (k : state) : (errno + Z) * state :=
(inr (Z.of_nat (length bs)),
 State (watch k) (inputs k) (<[fd := default [] (outs k !! fd) ++ bs]> (outs k)) (arrivals k) (polls k) (opened k) (mail k)).

Definition ctl (e : Z) (op : epoll_op) (fd ev : Z) (k : state) : state :=
set_watch (<[e := match op with
  | EPOLL_CTL_DEL => delete fd (watched e k)
  | _ => <[fd := ev]> (watched e k)
  end]> (watch k)) k.

Definition close (fd : Z) (k : state) : state :=
set_opened (opened k ∖ {[fd]}) (set_watch (delete fd <$> watch k) k).

(** The descriptors that mean something. *)
Definition used (k : state) : gset Z :=
opened k ∪ dom (watch k) ∪ map_fold (λ _ m s, dom m ∪ s) ∅ (watch k).

(** A descriptor above all of these. *)
Definition new_fd (k : state) : Z := set_fold (λ fd m, Z.max m (fd + 1)) 0 (used k).

Definition new {A} (f : Z → A) (k : state) : A * state :=
(f (new_fd k), set_opened ({[new_fd k]} ∪ opened k) k).

Definition accept (k : state) : (errno + Z) * state :=
match arrivals k with
| O => (inl EAGAIN, k)
| S n => (inr (new_fd k),
    State (watch k) (inputs k) (outs k) (Nat.min n 499) (polls k) ({[new_fd k]} ∪ opened k) (mail k))
end.

(** What is reported of a descriptor: the events it is registered for. *)
Definition report (e : Z) (k : state) (fe : Z * Z) : option (Z * Z) :=
m ← watched e k !! fe.1; Some (fe.1, Z.land fe.2 m).

Definition remove_dups (l : list (Z * Z)) : list (Z * Z) :=
foldr (λ fe l, if decide (fe.1 ∈ l.*1) then l else fe :: l) [] l.

Definition wait (e : Z) (k : state) : (errno + list (Z * Z)) * state :=
match polls k with
| [] => (inl EINTR, k)
| l :: ls => (inr (remove_dups (omap (report e k) l)),
    State (watch k) (inputs k) (outs k) (arrivals k) ls (opened k) (mail k))
end.

Definition recvfrom (n : Z) (k : state) : (errno + (list byte * Z)) * state :=
match Mail.waiting (mail k) with
| [] => (inl EAGAIN, k)
| r :: l => (match r with
    | inl e => inl e
    | inr (bs, peer) => inr (take (Z.to_nat (Z.min n MAX_DATAGRAM)) bs, peer)
    end, set_mail (Mail.State (take 499 l) (Mail.posted (mail k))) k)
end.

Definition sendto (bs : list byte) (dest : option Z) (k : state) : (errno + Z) * state :=
(inr (Z.of_nat (length bs)), set_mail (Mail.State (Mail.waiting (mail k)) (Mail.posted (mail k) ++ [(bs, dest)])) k).

#[export] Instance sim_kernel : Kernel state := {
sys_fionread fd k := (inr (Z.of_nat (length (chunk fd k))), k);
sys_read := read;
sys_write := write;
sys_close := close;
sys_socket := new inr;
sys_connect _ k := (None, k);
sys_bind _ k := (None, k);
sys_listen _ k := (None, k);
sys_dup _ k := if new_fd k <=? 2 ^ 30 then new inr k else (inl EMFILE, k);
sys_getsockopt_error _ k := (0, k);
sys_accept _ := accept;
sys_open_reserve := new inr;
sys_set_nonblock _ k := k;
sys_setsockopt _ k := (None, k);
sys_recvfrom _ := recvfrom;
sys_sendto _ := sendto;
sys_epoll_create := new inr;
sys_timerfd_create := new inr;
sys_eventfd := new inr;
sys_pthread_create k := (0, k);
sys_epoll_ctl e op fd ev k := (None, ctl e op fd ev k);
sys_epoll_wait e _ := wait e;
sys_clock_realtime k := ((0, 0), k);
}.
End Sim.
#[global] Existing Instance Sim.sim_kernel.

Lemma sim_new_fd k : 0 ≤ Sim.new_fd k ∧ ∀ fd, fd ∈ Sim.used k → fd < Sim.new_fd k.
Proof.
  unfold Sim.new_fd. generalize (Sim.used k). intros X.
  apply (set_fold_ind_L (λ r (Y : gset Z), 0 ≤ r ∧ ∀ fd, fd ∈ Y → fd < r)).
  - split; [done|]. intros fd. set_solver.
  - intros x Y r Hx [Hr IH]. split; [lia|]. intros fd [->%elem_of_singleton|Hfd]%elem_of_union; [lia|].
    specialize (IH fd Hfd). lia.
Qed.

Lemma sim_used_watched e k fd : is_Some (Sim.watched e k !! fd) → fd ∈ Sim.used k.
Proof.
  intros Hs. unfold Sim.used. apply elem_of_union. right. unfold Sim.watched in Hs.
  destruct (Sim.watch k !! e) as [m|] eqn:He; simpl in Hs; [|by destruct Hs].
  revert m e He Hs. generalize (Sim.watch k). intros W.
  apply (map_fold_weak_ind (λ (r : gset Z) W, ∀ m e, W !! e = Some m → is_Some (m !! fd) → fd ∈ r)).
  - intros m e. by rewrite lookup_empty.
  - intros e' m' W' r _ IH m e [[<- <-]|[_ He]]%lookup_insert_Some Hs; apply elem_of_union.
    + left. by apply elem_of_dom.
    + right. by eapply IH.
Qed.

Lemma sim_new_free k : let fd := Sim.new_fd k in
  (∀ e, Sim.watched e k !! fd = None) ∧ Sim.watched fd k = ∅ ∧ fd ∉ Sim.opened k.
Proof.
  intros fd. destruct (sim_new_fd k) as [_ Hfd]. fold fd in Hfd.
  assert (Hnot : fd ∉ Sim.used k) by (intros Hin%Hfd; lia). split; [|split].
  - intros e. apply eq_None_not_Some. by intros ?%sim_used_watched.
  - unfold Sim.watched. destruct (Sim.watch k !! fd) eqn:He; [|done]. destruct Hnot. unfold Sim.used.
    apply elem_of_union. left. apply elem_of_union. right. by eapply elem_of_dom_2.
  - intros Hin. apply Hnot. unfold Sim.used. set_solver.
Qed.

Lemma sim_watched_ctl e op fd ev k :
  Sim.watched e (Sim.ctl e op fd ev k) =
    match op with EPOLL_CTL_DEL => delete fd (Sim.watched e k) | _ => <[fd := ev]> (Sim.watched e k) end.
Proof. unfold Sim.ctl, Sim.watched at 1. simpl. by rewrite lookup_insert_eq. Qed.

#[global] Instance sim_epoll : EpollLaws Sim.state.
Proof.
  refine {| interest := Sim.watched |}; intros epfd; try done.
  - intros fd ev k _. eexists. split; [done|]. apply sim_watched_ctl.
  - intros fd ev k _. eexists. split; [done|]. apply sim_watched_ctl.
  - intros fd ev k. do 2 eexists. split; [done|]. apply sim_watched_ctl.
  - intros fd k. unfold Sim.watched. simpl. rewrite lookup_fmap. destruct (Sim.watch k !! epfd) as [m|]; [|done].
    simpl. intros Hn. by apply delete_id.
  - intros fd k. simpl. unfold Sim.accept. by destruct (Sim.arrivals k).
Defined.

#[global] Instance sim_sink : SinkLaws Sim.state.
Proof.
  refine {| sent fd k := default [] (Sim.outs k !! fd); patience := 0 |}.
  - intros fd bs k r k' [= <- <-]. simpl. rewrite Nat2Z.id, firstn_all. split; [lia|].
    by rewrite lookup_insert_eq.
  - by intros fd epfd op fd' ev k r k' [= _ <-].
  - intros fd bs k. by eexists.
Defined.

#[global] Instance sim_streams : StreamLaws Sim.state.
Proof.
  split; try done.
  - intros d fd bs k Hne. cbn [sent sim_sink snd sys_write Sim.sim_kernel Sim.write Sim.outs]. by rewrite lookup_insert_ne.
  - intros d fd k. simpl. unfold Sim.accept. by destruct (Sim.arrivals k).
  - intros d e n k. simpl. unfold Sim.wait. by destruct (Sim.polls k).
Qed.

#[global] Instance sim_descriptors : DescriptorLaws Sim.state.
Proof.
  refine {| is_open fd k := fd ∈ Sim.opened k |}; try done.
  - intros e e' op fd ev k Hne. cbn [interest sim_epoll snd sys_epoll_ctl Sim.sim_kernel]. unfold Sim.ctl, Sim.watched. simpl.
    by rewrite lookup_insert_ne.
  - intros e f fd k Hne. cbn [interest sim_epoll sys_close Sim.sim_kernel]. unfold Sim.close, Sim.watched. simpl.
    rewrite lookup_fmap. destruct (Sim.watch k !! e); simpl; [by rewrite lookup_delete_ne|done].
  - intros f fd k Hne Hf. simpl. set_solver.
  - intros f fd k Hf. simpl. unfold Sim.accept. destruct (Sim.arrivals k); simpl; set_solver.
  - intros f e n k Hf. simpl. unfold Sim.wait. by destruct (Sim.polls k).
Defined.

Lemma sim_remove_dups l : NoDup (Sim.remove_dups l).*1 ∧ ∀ fe, fe ∈ Sim.remove_dups l → fe ∈ l.
Proof.
  unfold Sim.remove_dups. induction l as [|fe l [IH1 IH2]]; cbn [foldr]; [by split; [constructor|]|].
  case_decide as Hin; split.
  - done.
  - intros fe' Hfe. right. by apply IH2.
  - cbn [fmap list_fmap]. by constructor.
  - intros fe' [->|Hfe]%elem_of_cons; [left|right]. by apply IH2.
Qed.

Lemma has_land bit m n : has bit (Z.land m n) = true → has bit n = true.
Proof.
  unfold has. rewrite !negb_true_iff, !Z.eqb_neq. intros Hne Hz. apply Hne.
  by rewrite <- Z.land_assoc, Hz, Z.land_0_r.
Qed.

Lemma sim_given k k' : k' = Sim.set_opened ({[Sim.new_fd k]} ∪ Sim.opened k) k → given (Sim.new_fd k) k k'.
Proof.
  intros ->. destruct (sim_new_free k) as (Hn & _ & Ho). split; [exact Hn|]. split; [exact Ho|]. simpl. set_solver.
Qed.

Lemma sim_new_calm {A} (f : Z → A) k : calm k (Sim.new f k).2.
Proof. split; [done|]. intros fd Hfd. simpl in *. set_solver. Qed.

#[global] Instance sim_net : NetLaws Sim.state.
Proof.
  split; try done.
  - intros fd k c k'. simpl. unfold Sim.accept. destruct (Sim.arrivals k) as [|n]; [done|]. intros [= <- <-].
    destruct (sim_new_free k) as (Hn & _ & Ho). split; [apply sim_new_fd|].
    split; [exact Hn|]. split; [exact Ho|]. simpl. set_solver.
  - intros fd k n k' [= <- <-]. unfold Sim.chunk.
    destruct (Z.leb_spec (Z.of_nat (length (default [] (head (default [] (Sim.inputs k !! fd)))))) (2 ^ 30)); simpl length; lia.
  - intros fd n k bs k' [= <- <-] Hn. rewrite length_take. lia.
  - intros fd n k. by eexists.
  - intros epfd n k evs k'. simpl. unfold Sim.wait. destruct (Sim.polls k) as [|l ls]; [done|]. intros [= <- <-].
    apply sim_remove_dups.
  - intros epfd n k evs k' fd events. simpl. unfold Sim.wait. destruct (Sim.polls k) as [|l ls]; [done|].
    intros [= <- <-] Hin. apply sim_remove_dups, list_elem_of_omap in Hin as ([fd' ev] & _ & Hr).
    unfold Sim.report in Hr. simpl in Hr. destruct (Sim.watched epfd k !! fd') as [m|] eqn:Hm; [|done].
    injection Hr as <- <-. exists m. split; [done|]. split; apply has_land.
  - intros epfd epfd' n k. simpl. unfold Sim.wait. by destruct (Sim.polls k).
Qed.

#[global] Instance sim_accept_ends : AcceptEnds Sim.state.
Proof.
  refine {| arriving k := Nat.min (Sim.arrivals k) 500; burst := 500 |}; try done.
  - lia.
  - intros fd k r k'. simpl. unfold Sim.accept. destruct (Sim.arrivals k) as [|n]; intros [= <- <-]; [done|]. simpl. lia.
Defined.

Lemma sim_suffices : descriptors_suffice Sim.state.
Proof. intros fd k e k'. simpl. unfold Sim.accept. destruct (Sim.arrivals k); [|done]. by intros [= <- _]. Qed.

#[global] Instance sim_setup : SetupLaws Sim.state.
Proof.
  split; try (intros; apply sim_new_calm); try done.
  - intros k epfd k' [= <- _]. apply sim_new_free.
  - intros k fd k' [= <- <-]. split; [apply sim_new_fd|by apply sim_given].
  - intros k fd k' [= <- <-]. split; [apply sim_new_fd|by apply sim_given].
  - intros k fd k' [= <- <-]. split; [apply sim_new_fd|by apply sim_given].
  - intros k fd k' Hdup. simpl in Hdup. destruct (Z.leb_spec (Sim.new_fd k) (2 ^ 30)); [|done]. injection Hdup as <- <-.
    split; [|by apply sim_given]. split; [apply sim_new_fd|done].
  - intros fd k. simpl. destruct (_ <=? _); [apply sim_new_calm|done].
Qed.

#[global] Instance sim_mail_ends : MailEnds Sim.state.
Proof.
  refine {| awaiting k := Nat.min (length (Mail.waiting (Sim.mail k))) 500; mail_burst := 500 |}; try done.
  - lia.
  - intros fd n k r k'. simpl. unfold Sim.recvfrom. destruct (Mail.waiting (Sim.mail k)) as [|a l]; intros [= <- <-]; [done|].
    simpl. rewrite length_take. destruct a as [[]|[]]; lia || done.
Defined.

#[global] Instance sim_mail : MailLaws Sim.state.
Proof.
  split; try done.
  - intros fd n k bs peer k'. simpl. unfold Sim.recvfrom. destruct (Mail.waiting (Sim.mail k)) as [|[|[dg p]] l]; [done..|].
    intros [= <- _ _] Hn. rewrite length_take. unfold MAX_DATAGRAM. lia.
  - intros fd n k. simpl. unfold Sim.recvfrom. by destruct (Mail.waiting (Sim.mail k)).
Qed.
