(* ===== verification/BufferSafe.v ===== *)
(** * The buffer operations are safe

    What the operations of src/io_buffer.cc do to any buffer with contents,
    without a bound on the memory in use and without knowing where in the array
    the data starts: they succeed, or an assertion of theirs fails, or the
    process exits at the memory limit, and nothing else. *)
From S2P Require Import Prelude EventBase TimerQueue Kernel IoBuffer BufferPool TcpBuffer EventLoop Net.

(** Lengths the [int] arithmetic of the buffers can cope with. *)
Definition MAX_REQUEST : Z := 2 ^ 30.

Lemma swp_buf_at p b (Q : io_buffer → buffer_pool → Prop) bp :
  store bp !! p = Some b → Q b bp → swp (buf_at p) Q bp.
Proof. intros. apply wp_swp. by eapply wp_buf_at. Qed.

Lemma alloc_swp N bp fl :
  pool_inv bp fl →
  swp (alloc N) (λ r bp',
    match r with
    | None => bp' = bp
    | Some p => ∃ fl', step None (Some p) bp bp' fl fl' ∧ tbuf bp' fl' (Some p) [] ∧
        at_start bp' (Some p) ∧ ∃ b, store bp' !! p = Some b ∧ N ≤ capacity b
    end) bp.
Proof.
  intros Hi. destruct (class_of N) as [c|] eqn:Hcl; [|unfold alloc; by rewrite Hcl].
  destruct (class_of_spec N c Hcl) as (Hin & HNc & _).
  destruct (decide (fl c = [] ∧ EXTRA_MEM_LIMIT ≤ _total_mem bp + c / 1024)) as [[Hfl Hm]|Hroom].
  { unfold swp. rewrite (alloc_exits N c bp fl) by done. by right. }
  apply wp_swp. eapply wp_mono; [apply (alloc_spec N c bp fl Hi Hcl)|].
  { intros Hfl. destruct (Z.lt_ge_cases (_total_mem bp + c / 1024) EXTRA_MEM_LIMIT); [done|tauto]. }
  intros r bp' (p & fl' & -> & Ha & _). exists fl'.
  apply allocated_step in Ha as (? & ? & ? & b & ? & <- & _). split_and!; [done..|]. by exists b.
Qed.

Lemma reserve_swp buf n bs bp fl :
  pool_inv bp fl → tbuf bp fl buf bs → 0 ≤ n ≤ MAX_REQUEST →
  swp (reserve buf n) (λ r bp',
    match r with
    | None => bp' = bp
    | Some p => ∃ fl', step buf (Some p) bp bp' fl fl' ∧ tbuf bp' fl' (Some p) bs ∧
        at_start bp' (Some p) ∧
        ∃ b, store bp' !! p = Some b ∧ Z.of_nat (length bs) + n ≤ capacity b
    end) bp.
Proof.
  intros Hi Ht Hn. unfold reserve, MAX_REQUEST in *. destruct buf as [p|].
  - pose proof Ht as [Hh (b & Hb & Hc)]. pose proof (store_range _ _ _ _ _ Hi Hb Hc).
    swp_step. apply wp_swp. eapply wp_buf_at; [done|]. swp_step.
    apply swp_assert. intros Hhd%bool_decide_eq_true.
    swp_step. apply swp_cint; [int_lia|]. apply swp_if; intros Hroom.
    + swp_step. apply swp_cint; [int_lia|]. swp_step. eapply swp_mono; [by apply alloc_swp|].
      intros [q|] bp1; [|by intros ->]. intros (fl1 & Hst & Htq & _ & c & Hcq & Hcap).
      apply wp_swp. eapply wp_mono; [eapply (move_step p q b c bs); try done; lia|].
      intros r bp' (fl' & -> & ? & ? & ? & b' & ? & Hb'). exists fl'. split_and!; [done..|].
      exists b'. split; [done|lia].
    + apply Z.ltb_ge in Hroom. exists fl.
      split_and!; [by apply step_refl|done|intros q b' [= <-] Hb'; by simplify_eq|].
      exists b. split; [done|lia].
  - simpl in Ht. subst. eapply swp_mono; [by apply alloc_swp|].
    intros [q|] bp'; [|done]. intros (fl' & ? & ? & ? & b & ? & ?). exists fl'. split_and!; [done..|].
    exists b. split; [done|simpl; lia].
Qed.

(** [send_data] of an outgoing buffer. *)
Lemma obuf_send_data_swp buf bs dat bp fl :
  pool_inv bp fl → tbuf bp fl buf bs → Z.of_nat (length dat) ≤ MAX_REQUEST →
  swp (obuf_send_data buf dat (Z.of_nat (length dat))) (λ r bp', ∃ fl' bs',
    step buf r.1 bp bp' fl fl' ∧ tbuf bp' fl' r.1 bs' ∧ (r.2 = 0 → bs' = bs ++ dat)) bp.
Proof.
  intros Hi Ht Hn. unfold obuf_send_data. swp_step.
  eapply swp_mono; [apply (reserve_swp buf _ bs bp fl); [done..|lia]|].
  intros [p|] bp1.
  - intros (fl1 & Hst & [Hh (b & Hb & Hc)] & Hs & b' & Hb' & Hcap). rewrite Hb in Hb'. injection Hb' as <-.
    swp_step. eapply swp_from_option; [apply take_bytes_all|]. swp_step. apply wp_swp.
    eapply wp_mono; [apply (append_spec p b bs dat bp1 fl1); try done; [apply Hst|by apply (Hs p)]|].
    intros [] bp' (Hst' & ? & _). apply wp_ret. exists fl1, (bs ++ dat). split; [by eapply step_trans|]. by split.
  - intros ->. swp_step. exists fl, bs. split; [by apply step_refl|]. by split.
Qed.

Lemma tbuf_pop_swp buf bs n bp fl :
  pool_inv bp fl → tbuf bp fl buf bs → 0 ≤ n →
  swp (tbuf_pop buf n) (λ r bp', ∃ fl', step buf r bp bp' fl fl' ∧ tbuf bp' fl' r (drop (Z.to_nat n) bs)) bp.
Proof.
  intros Hi Ht Hn. destruct buf as [p|]; [|by left].
  destruct (decide (n ≤ Z.of_nat (length bs))) as [Hle|Hgt].
  - rewrite <- (Z2Nat.id n) at 1 by done. apply wp_swp. eapply wp_mono; [apply (tbuf_pop_spec p bs (Z.to_nat n) bp fl); [done..|lia]|].
    intros r bp' (fl' & _ & ? & ?). by exists fl'.
  - destruct Ht as [Hh (b & Hb & Hc)]. pose proof (store_range _ _ _ _ _ Hi Hb Hc).
    unfold tbuf_pop. swp_step. eapply swp_buf_at; [done|]. swp_step.
    apply swp_assert. intros ?%Z.leb_le. lia.
Qed.

(** ** Transfers *)
Section transfers.
Context {K : Type} `{NetLaws K}.

Lemma read_returns fuel fd n k :
  (patience < fuel)%nat → 0 ≤ n →
  ∃ r k', retry fuel (sys_read fd n) k = Ok (r, k') ∧
    (∀ bs, r = inr bs → Z.of_nat (length bs) ≤ n) ∧ (∀ c, calm_for c k k').
Proof.
  intros Hf Hn. destruct (read_patient fd n k) as [[r k'] Hr].
  apply (retry_more _ _ fuel) in Hr; [|lia]. exists r, k'. split; [done|]. split.
  - intros bs ->. destruct (retry_last _ _ _ _ _ Hr) as (k0 & Hk0). by eapply read_length.
  - refine (retry_invariant _ (λ k1, ∀ c, calm_for c k k1) _ _ _ _ _ Hr (λ c, reflexivity k)).
    intros k1 Hk c. etrans; [apply Hk|apply calm_for_read].
Qed.

Lemma read_data_swp fuel buf fd bs k bp fl :
  pool_inv bp fl → tbuf bp fl buf bs → (patience < fuel)%nat →
  swp (read_data fuel buf fd) (λ r s', ∃ fl' bs',
    step buf r.1 bp (bufs s') fl fl' ∧ tbuf (bufs s') fl' r.1 bs' ∧
    ∀ c, calm_for c k (kern s')) (Io k bp).
Proof.
  intros Hi Ht Hf. unfold read_data. swp_step. swp_step.
  destruct (sys_fionread fd (kern (Io k bp))) as [rn k1] eqn:Hn. cbn [kern] in Hn.
  pose proof (λ c, calm_for_fionread c fd k : calm_for c k _) as Hk1. rewrite Hn in Hk1. cbn [snd] in Hk1.
  cbn [view io_kern kern]. unfold swp at 1, syscall. rewrite Hn.
  destruct rn as [e|rn].
  { swp_step. exists fl, bs. split_and!; [by apply step_refl|done..]. }
  pose proof (fionread_range _ _ _ _ Hn) as Hrn.
  swp_step. swp_step. cbn [view io_bufs bufs].
  eapply swp_mono; [by apply reserve_swp|]. intros [p|] bp1.
  2:{ intros ->. swp_step. exists fl, bs. split_and!; [by apply step_refl|done..]. }
  intros (fl1 & Hst & Htp & Hs & b & Hb & Hcap). swp_step. swp_step. cbn [view io_kern kern].
  destruct (read_returns fuel fd rn k1 Hf) as (r & k2 & Hr & Hlen & Hk2); [lia|].
  unfold swp at 1. cbn [view update io_bufs io_kern kern bufs]. rewrite Hr.
  assert (Hkk : ∀ c, calm_for c k k2) by (intros c; etrans; [apply Hk1|apply Hk2]).
  destruct r as [e|ys]; [swp_step; by exists fl1, bs|].
  specialize (Hlen ys eq_refl). swp_step. apply swp_when; [|intros _; swp_step; by exists fl1, bs].
  intros _. swp_step. apply swp_assert. intros _. swp_step. cbn [view io_bufs bufs update io_kern].
  destruct Htp as [Hh (b' & Hb' & Hc)]. rewrite Hb in Hb'. injection Hb' as <-.
  apply wp_swp. eapply wp_mono; [apply (append_spec p b bs ys bp1 fl1); try done; [apply Hst|by apply (Hs p)|lia]|].
  intros [] bp2 (Hst2 & Ht2 & _). apply wp_ret. exists fl1, (bs ++ ys).
  split_and!; [by eapply step_trans|done..].
Qed.

Lemma write_returns fuel fd bs k :
  (patience < fuel)%nat →
  ∃ r k', retry fuel (sys_write fd bs) k = Ok (r, k') ∧
    (∀ n, r = inr n → 0 ≤ n ≤ Z.of_nat (length bs)) ∧ calm_for fd k k'.
Proof.
  intros Hf. destruct (sink_patient fd bs k) as [[r k'] Hr].
  apply (retry_more _ _ fuel) in Hr; [|lia]. exists r, k'. split; [done|]. split.
  - intros n ->. by apply retry_sent in Hr as [? _].
  - refine (retry_invariant _ (λ k1, calm_for fd k k1) _ _ _ _ _ Hr (reflexivity k)).
    intros k1 Hk. etrans; [exact Hk|apply calm_for_write].
Qed.

(** [write_fd]: unless it fails or writes nothing, the buffer is shorter then. *)
Lemma write_fd_swp fuel buf fd bs k bp fl :
  pool_inv bp fl → tbuf bp fl buf bs → (patience < fuel)%nat →
  swp (write_fd fuel buf fd) (λ ret s', ∃ bs',
    step buf buf bp (bufs s') fl fl ∧ tbuf (bufs s') fl buf bs' ∧
    (ret ≠ -1 → ret ≠ 0 → (length bs' < length bs)%nat) ∧
    calm_for fd k (kern s')) (Io k bp).
Proof.
  intros Hi Ht Hf. destruct buf as [p|]; [|by left].
  destruct (write_returns fuel fd bs k Hf) as (r & k' & Hr & Hn & Hk).
  pose proof Ht as [_ (b & Hb & _)]. destruct (decide (head b = 0)) as [Hhd|Hhd].
  - assert (Hs : at_start bp (Some p)) by (intros q b' [= <-] Hb'; by simplify_eq).
    apply wp_swp. eapply wp_mono; [by apply write_fd_spec|].
    intros ret s' (Hret & -> & Hst & Ht' & _). exists (drop (Z.to_nat (Z.max 0 ret)) bs).
    split_and!; [done..| |done]. intros Hne Hne0. rewrite length_drop.
    destruct r as [e|n]; [by destruct e|]. specialize (Hn n eq_refl). lia.
  - unfold write_fd. swp_step. swp_step. cbn [view io_bufs bufs]. eapply swp_buf_at; [done|]. swp_step.
    apply swp_assert. by intros ?%bool_decide_eq_true.
Qed.
End transfers.
