(* ===== verification/World.v ===== *)
(** * The state of a server process

    The objects the server components share: the connection objects, the static
    members of [tcp_server], the event loops of the threads and the queues
    between them (include/tcp_conn.h, tcp_server.h, msg_dispatcher.h,
    thread_pool.h, thread_queue.h, msg_head.h).

    A [tcp_conn*] is modelled by the slot [conns] keeps it in, which is the
    descriptor it was created for: connection objects are never freed and only
    reused for that descriptor.  An [event_loop*] is modelled by the index of its
    thread: 0 is the loop of the accepting thread, [i + 1] that of the [i]-th
    thread of the pool. *)
From S2P Require Import Prelude EventBase TimerQueue Kernel IoBuffer EventLoop.

(** ** The message dispatcher (include/msg_dispatcher.h) *)

(** The name of a [msg_callback*]. *)
Inductive msg_callback := user_msg_cb (name : Z).
(** The name of a [tcp_server::conn_callback]. *)
Inductive conn_callback := user_conn_cb (name : Z).

Record msg_dispatcher := MsgDispatcher {
  _dispatcher : gmap Z msg_callback;
  _args : gmap Z void_ptr;
}.

Definition msg_dispatcher_new : msg_dispatcher := MsgDispatcher ∅ ∅.

Definition add_msg_cb (cmdid : Z) (msg_cb : msg_callback) (usr_data : void_ptr)
    (d : msg_dispatcher) : Z * msg_dispatcher :=
  match _dispatcher d !! cmdid with
  | Some _ => (-1, d)
  | None => (0, MsgDispatcher (<[cmdid := msg_cb]> (_dispatcher d)) (<[cmdid := usr_data]> (_args d)))
  end.

Definition exist (cmdid : Z) (d : msg_dispatcher) : bool :=
  bool_decide (is_Some (_dispatcher d !! cmdid)).

(** The first statements of [msg_dispatcher::cb]: the callback of a command and
    the argument registered with it. *)
Definition callback_of {S} (cmdid : Z) (d : msg_dispatcher) : M S (msg_callback * void_ptr) :=
  cassert (exist cmdid d) ;;
  func ← from_option_or Undefined (_dispatcher d !! cmdid);
  usr_data ← from_option_or Undefined (_args d !! cmdid);
  mret (func, usr_data).

(** Both maps have the same keys. *)
Definition dispatcher_ok (d : msg_dispatcher) : Prop := dom (_args d) = dom (_dispatcher d).

Lemma dispatcher_new_ok : dispatcher_ok msg_dispatcher_new.
Proof. done. Qed.

Lemma add_msg_cb_ok cmd cb u d : dispatcher_ok d → dispatcher_ok (add_msg_cb cmd cb u d).2.
Proof.
  unfold dispatcher_ok, add_msg_cb. intros Hd. destruct (_dispatcher d !! cmd); [done|].
  simpl. by rewrite !dom_insert_L, Hd.
Qed.

Lemma wp_callback_of {S} cmd d (Q : msg_callback * void_ptr → S → Prop) s :
  dispatcher_ok d → exist cmd d = true →
  (∀ f u, _dispatcher d !! cmd = Some f → _args d !! cmd = Some u → Q (f, u) s) →
  wp (callback_of cmd d) Q s.
Proof.
  intros Hd He HQ. unfold callback_of. wp_step. apply wp_assert; [done|].
  unfold exist in He. apply bool_decide_eq_true in He as [f Hf].
  assert (is_Some (_args d !! cmd)) as [u Hu].
  { apply elem_of_dom. rewrite Hd. by eapply elem_of_dom_2. }
  wp_step. eapply wp_from_option; [exact Hf|]. wp_step. eapply wp_from_option; [exact Hu|].
  wp_step. by apply HQ.
Qed.

(** ** Connections (include/tcp_conn.h) *)

Record tcp_conn := TcpConn {
  _connfd : Z;
  _loop : option nat;
  ibuf : option ptr;
  obuf : option ptr;
  parameter : void_ptr;
}.

(** The members of a new object before its constructor runs [init]. *)
Definition tcp_conn_new : tcp_conn := TcpConn 0 None None None vnull.

Definition set_connfd fd c := TcpConn fd (_loop c) (ibuf c) (obuf c) (parameter c).
Definition set_conn_loop l c := TcpConn (_connfd c) l (ibuf c) (obuf c) (parameter c).
Definition set_ibuf b c := TcpConn (_connfd c) (_loop c) b (obuf c) (parameter c).
Definition set_obuf b c := TcpConn (_connfd c) (_loop c) (ibuf c) b (parameter c).

(** ** Queues between threads (include/thread_queue.h, include/msg_head.h) *)

Inductive queue_msg :=
  | NEW_CONN (connfd : Z)
  | STOP_THD
  | NEW_TASK (task : pendingFunc) (args : void_ptr).

Record thread_queue := ThreadQueue {
  _evfd : Z;
  tq_loop : option nat;
  _queue : list queue_msg;
  ev_count : Z;          (** the counter of the eventfd *)
}.

Record thread_pool := ThreadPool {
  _curr_index : Z;
  _thread_cnt : Z;
}.

(** ** The server (include/tcp_server.h) *)

Record tcp_server := TcpServer {
  _sockfd : Z;
  _reservfd : Z;
  srv_loop : nat;
  _thd_pool : option thread_pool;
  _keepalive : bool;
  _conns_size : Z;
  _max_conns : Z;
  _curr_conns : Z;
  dispatcher : msg_dispatcher;
  conns : gmap Z Z;                    (** the non-NULL entries of the array *)
  connBuildCb : option conn_callback;
  connCloseCb : option conn_callback;
}.

Definition set_reservfd r s :=
  TcpServer (_sockfd s) r (srv_loop s) (_thd_pool s) (_keepalive s) (_conns_size s)
    (_max_conns s) (_curr_conns s) (dispatcher s) (conns s) (connBuildCb s) (connCloseCb s).
Definition set_thd_pool p s :=
  TcpServer (_sockfd s) (_reservfd s) (srv_loop s) p (_keepalive s) (_conns_size s)
    (_max_conns s) (_curr_conns s) (dispatcher s) (conns s) (connBuildCb s) (connCloseCb s).
Definition set_curr_conns n s :=
  TcpServer (_sockfd s) (_reservfd s) (srv_loop s) (_thd_pool s) (_keepalive s) (_conns_size s)
    (_max_conns s) n (dispatcher s) (conns s) (connBuildCb s) (connCloseCb s).
Definition set_conns c s :=
  TcpServer (_sockfd s) (_reservfd s) (srv_loop s) (_thd_pool s) (_keepalive s) (_conns_size s)
    (_max_conns s) (_curr_conns s) (dispatcher s) c (connBuildCb s) (connCloseCb s).

(** ** The process *)

Section world.
Context {K U : Type}.

(** [user] is the state of the user's callbacks. *)
Record world := World {
w_kern : K;
w_bufs : buffer_pool;
w_loops : gmap nat event_loop;
w_queues : gmap nat thread_queue;
w_server : tcp_server;
w_conns : gmap Z tcp_conn;
w_user : U;
}.

Definition set_kern k w := World k (w_bufs w) (w_loops w) (w_queues w) (w_server w) (w_conns w) (w_user w).
Definition set_bufs b w := World (w_kern w) b (w_loops w) (w_queues w) (w_server w) (w_conns w) (w_user w).
Definition set_loops l w := World (w_kern w) (w_bufs w) l (w_queues w) (w_server w) (w_conns w) (w_user w).
Definition set_queues q w := World (w_kern w) (w_bufs w) (w_loops w) q (w_server w) (w_conns w) (w_user w).
Definition set_server s w := World (w_kern w) (w_bufs w) (w_loops w) (w_queues w) s (w_conns w) (w_user w).
Definition set_w_conns c w := World (w_kern w) (w_bufs w) (w_loops w) (w_queues w) (w_server w) c (w_user w).
Definition set_user u w := World (w_kern w) (w_bufs w) (w_loops w) (w_queues w) (w_server w) (w_conns w) u.

Definition w_io : lens world (io K) :=
Lens (λ w, Io (w_kern w) (w_bufs w)) (λ s w, set_bufs (bufs s) (set_kern (kern s) w)).
Definition w_kernel : lens world K := Lens w_kern set_kern.
Definition w_pool : lens world buffer_pool := Lens w_bufs set_bufs.

(** Running an operation of the loop a pointer refers to; NULL is undefined. *)
Definition on_loop {A} (l : option nat) (m : M (ev_st K) A) : M world A :=
w ← get;
i ← from_option_or Undefined l;
lp ← from_option_or Undefined (w_loops w !! i);
match m (EvSt (w_kern w) lp) with
| Ok (a, s) =>
    put (set_loops (<[i := ev_loop s]> (w_loops w)) (set_kern (ev_kern s) w)) ;; mret a
| Fail e => fail e
end.

(** The members of the connection object in slot [c]. *)
Definition conn_at (c : Z) : M world tcp_conn :=
w ← get; from_option_or Undefined (w_conns w !! c).
Definition conn_put (c : Z) (x : tcp_conn) : M world unit :=
modify (λ w, set_w_conns (<[c := x]> (w_conns w)) w).
Definition modify_server (f : tcp_server → tcp_server) : M world unit :=
modify (λ w, set_server (f (w_server w)) w).
End world.
Arguments world K U : clear implicits.
