(* ===== verification/TcpConn.v ===== *)
(** * TCP connections of the server (src/tcp_conn.cc)

    Framing of the incoming stream, the outgoing buffer, and the life cycle of a
    connection object.  The user's callbacks are arbitrary computations on the
    process: they may send on the connection, register timers and tasks, and so
    on. *)
From S2P Require Import Prelude EventBase TimerQueue Kernel IoBuffer Wire EventLoop World.

Section tcp_conn.
Context {K U : Type} `{Kernel K}.
Variable msg_fn : msg_callback → list byte → Z → Z → Z → void_ptr → M (world K U) unit.
Variable conn_fn : conn_callback → Z → M (world K U) unit.
Abbreviation W := (world K U).

(** ** The connection counter (src/tcp_server.cc); the mutex makes each update
    one step. *)

Definition inc_conn : M W unit :=
  w ← get; n ← cint (_curr_conns (w_server w) + 1); modify_server (set_curr_conns n).
Definition dec_conn : M W unit :=
  w ← get; n ← cint (_curr_conns (w_server w) - 1); modify_server (set_curr_conns n).
Definition get_conn_num : M W Z := gets (λ w, _curr_conns (w_server w)).

(** ** The two buffers of a connection *)

Definition ibuf_op {A} (c : Z) (m : option ptr → M W (option ptr * A)) : M W A :=
  x ← conn_at c;
  r ← m (ibuf x);
  x ← conn_at c;
  conn_put c (set_ibuf r.1 x) ;;
  mret r.2.

Definition obuf_op {A} (c : Z) (m : option ptr → M W (option ptr * A)) : M W A :=
  x ← conn_at c;
  r ← m (obuf x);
  x ← conn_at c;
  conn_put c (set_obuf r.1 x) ;;
  mret r.2.

Definition drop_result (m : M W (option ptr)) : M W (option ptr * unit) := b ← m; mret (b, tt).

Definition ibuf_pop (c len : Z) : M W unit :=
  ibuf_op c (λ b, drop_result (zoom w_pool (tbuf_pop b len))).
Definition ibuf_clear (c : Z) : M W unit :=
  ibuf_op c (λ b, drop_result (zoom w_pool (tbuf_clear b))).
Definition obuf_pop (c len : Z) : M W unit :=
  obuf_op c (λ b, drop_result (zoom w_pool (tbuf_pop b len))).
Definition obuf_clear (c : Z) : M W unit :=
  obuf_op c (λ b, drop_result (zoom w_pool (tbuf_clear b))).

Definition ibuf_length (c : Z) : M W Z := x ← conn_at c; zoom w_pool (tbuf_length (ibuf x)).
Definition obuf_length (c : Z) : M W Z := x ← conn_at c; zoom w_pool (tbuf_length (obuf x)).

(** ** Life cycle *)

Definition clean_conn (c : Z) : M W unit :=
  w ← get;
  match connCloseCb (w_server w) with Some f => conn_fn f c | None => mret tt end ;;
  dec_conn ;;
  x ← conn_at c;
  on_loop (_loop x) (del_ioev (_connfd x)) ;;
  x ← conn_at c;
  conn_put c (set_conn_loop None x) ;;
  ibuf_clear c ;;
  obuf_clear c ;;
  x ← conn_at c;
  let fd := _connfd x in
  conn_put c (set_connfd (-1) x) ;;
  modify (λ w, set_kern (sys_close fd (w_kern w)) w).

Definition init (c connfd : Z) (loop : nat) : M W unit :=
  x ← conn_at c;
  conn_put c (set_conn_loop (Some loop) (set_connfd connfd x)) ;;
  modify (λ w, set_kern (sys_set_nonblock connfd (w_kern w)) w) ;;
  zoom w_kernel (syscall (sys_setsockopt connfd)) ;;
  w ← get;
  match connBuildCb (w_server w) with Some f => conn_fn f c | None => mret tt end ;;
  x ← conn_at c;
  on_loop (_loop x) (add_ioev (_connfd x) tcp_rcb EPOLLIN (v_tcp_conn c)) ;;
  inc_conn.

(** ** Sending *)

Definition tcp_send_data (c : Z) (dat : list byte) (datlen cmdid : Z) : M W Z :=
  len ← obuf_length c;
  let need_listen := len =? 0 in
  let head := CommuHead cmdid datlen in
  ret ← obuf_op c (λ b, zoom w_pool (obuf_send_data b (head_bytes head) COMMU_HEAD_LENGTH));
  if negb (ret =? 0) then mret (-1) else
  ret ← obuf_op c (λ b, zoom w_pool (obuf_send_data b dat datlen));
  if negb (ret =? 0) then obuf_pop c COMMU_HEAD_LENGTH ;; mret (-1) else
  x ← conn_at c;
  when need_listen
    (on_loop (_loop x) (add_ioev (_connfd x) tcp_wcb EPOLLOUT (v_tcp_conn c))) ;;
  mret 0.

(** The [while] loop of [handle_write]; the result is [false] when the
    connection was closed.  [retries] bounds the interrupted calls. *)
Fixpoint handle_write_loop (fuel retries : nat) (c : Z) : M W bool :=
  match fuel with
  | O => fail NoFuel
  | S fuel =>
      len ← obuf_length c;
      if negb (len =? 0) then
        x ← conn_at c;
        ret ← zoom w_io (write_fd retries (obuf x) (_connfd x));
        if ret =? -1 then clean_conn c ;; mret false
        else if ret =? 0 then mret true
        else handle_write_loop fuel retries c
      else mret true
  end.

Definition handle_write (fuel retries : nat) (c : Z) : M W unit :=
  open ← handle_write_loop fuel retries c;
  when open (
    len ← obuf_length c;
    when (len =? 0) (
      x ← conn_at c;
      on_loop (_loop x) (del_ioev_mask (_connfd x) EPOLLOUT))).

(** ** Receiving *)

(** [msg_dispatcher::cb] *)
Definition dispatch (dat : list byte) (len cmdid c : Z) : M W unit :=
  w ← get;
  f ← callback_of cmdid (dispatcher (w_server w));
  msg_fn f.1 dat len cmdid c f.2.

(** The [while] loop of [handle_read]. *)
Fixpoint handle_read_loop (fuel : nat) (c : Z) : M W unit :=
  match fuel with
  | O => fail NoFuel
  | S fuel =>
      len ← ibuf_length c;
      if COMMU_HEAD_LENGTH <=? len then
        x ← conn_at c;
        hb ← zoom w_pool (ibuf_data (ibuf x) COMMU_HEAD_LENGTH);
        let head := head_of_bytes hb in
        if bad_length head then clean_conn c
        else
          len ← ibuf_length c;
          if len <? COMMU_HEAD_LENGTH + h_length head then mret tt
          else
            w ← get;
            if negb (exist (cmdid head) (dispatcher (w_server w))) then clean_conn c
            else
              ibuf_pop c COMMU_HEAD_LENGTH ;;
              x ← conn_at c;
              dat ← zoom w_pool (ibuf_data (ibuf x) (h_length head));
              dispatch dat (h_length head) (cmdid head) c ;;
              ibuf_pop c (h_length head) ;;
              handle_read_loop fuel c
      else mret tt
  end.

Definition handle_read (fuel retries : nat) (c : Z) : M W unit :=
  x ← conn_at c;
  ret ← ibuf_op c (λ b, zoom w_io (read_data retries b (_connfd x)));
  if ret =? -1 then clean_conn c
  else if ret =? 0 then clean_conn c
  else
    handle_read_loop fuel c ;;
    x ← conn_at c;
    zoom w_pool (ibuf_adjust (ibuf x)).
End tcp_conn.
