(* ===== verification/TcpConnSpec.v ===== *)
(** * The connection operations, specified on buffer contents

    Lemmas about src/tcp_conn.cc: [handle_read] against the reference decoder,
    sending and writing against the contents of the outgoing buffer. *)
From S2P Require Import Prelude EventBase TimerQueue Kernel IoBuffer BufferPool TcpBuffer.
From S2P Require Import Wire EventLoop World TcpConn.

Section spec.
Context {K U : Type} `{Kernel K}.
Variable msg_fn : msg_callback → list byte → Z → Z → Z → void_ptr → M (world K U) unit.
Variable conn_fn : conn_callback → Z → M (world K U) unit.
Abbreviation W := (world K U).
Implicit Types w : W.

(** ** Access to a connection *)

Lemma wp_conn_at c x (Q : tcp_conn → W → Prop) w :
  w_conns w !! c = Some x → Q x w → wp (conn_at c) Q w.
Proof. intros Hx HQ. unfold conn_at. wp_steps. by eapply wp_from_option. Qed.

(** The process with other buffers: [b] becomes the input buffer of [c]. *)
Definition rx_upd (c : Z) (x : tcp_conn) (b : option ptr) (bp : buffer_pool) w : W :=
  set_w_conns (<[c := set_ibuf b x]> (w_conns w)) (set_bufs bp w).
Definition tx_upd (c : Z) (x : tcp_conn) (b : option ptr) (bp : buffer_pool) w : W :=
  set_w_conns (<[c := set_obuf b x]> (w_conns w)) (set_bufs bp w).

Lemma wp_ibuf_pool c x (m : option ptr → M buffer_pool (option ptr)) (Q : unit → W → Prop) w :
  w_conns w !! c = Some x →
  wp (m (ibuf x)) (λ b bp', Q tt (rx_upd c x b bp' w)) (w_bufs w) →
  wp (ibuf_op c (λ b, drop_result (zoom w_pool (m b)))) Q w.
Proof.
  intros Hx Hm. unfold ibuf_op, drop_result. wp_step. eapply wp_conn_at; [done|].
  wp_step. wp_step. wp_step. cbn [view w_pool]. eapply wp_mono; [exact Hm|].
  intros b bp' HQ. wp_step. wp_step. eapply wp_conn_at; [exact Hx|]. done.
Qed.

Lemma wp_obuf_pool {A} c x (m : option ptr → M buffer_pool (option ptr * A)) (Q : A → W → Prop) w :
  w_conns w !! c = Some x →
  wp (m (obuf x)) (λ r bp', Q r.2 (tx_upd c x r.1 bp' w)) (w_bufs w) →
  wp (obuf_op c (λ b, zoom w_pool (m b))) Q w.
Proof.
  intros Hx Hm. unfold obuf_op. wp_step. eapply wp_conn_at; [done|].
  wp_step. wp_step. cbn [view w_pool]. eapply wp_mono; [exact Hm|].
  intros r bp' HQ. wp_step. eapply wp_conn_at; [exact Hx|]. done.
Qed.

(** ** Receiving *)

(** The input buffer of connection [c] holds [bs]. *)
Definition rx w (fl : Z → list ptr) (c : Z) (bs : list byte) : Prop :=
  ∃ x, w_conns w !! c = Some x ∧ pool_inv (w_bufs w) fl ∧ tbuf (w_bufs w) fl (ibuf x) bs.

(** The pointer in the input buffer object of [c]. *)
Definition ibuf_of w (c : Z) : option (option ptr) := ibuf <$> w_conns w !! c.

(** What a callback is given: which callback it is, the argument it was registered
    with, and the message. *)
Definition delivery : Type := option msg_callback * option void_ptr * message.

(** The delivery of a message to the callback of its command. *)
Definition handed (d : msg_dispatcher) (m : message) : delivery := (_dispatcher d !! m.1, _args d !! m.1, m).

(** The contract of the user's message callbacks, for connection [c]: they
    record in [log] what they are given, leave the input buffer of the connection
    and the dispatcher alone, and keep [Inv], which does not depend on the input
    buffer either. *)
Record observer (c : Z) (Inv : W → (Z → list ptr) → Prop) (log : W → list delivery) : Prop := {
  obs_frame w fl x b bp' fl' :
    Inv w fl → w_conns w !! c = Some x → step (ibuf x) b (w_bufs w) bp' fl fl' →
    Inv (rx_upd c x b bp' w) fl' ∧ log (rx_upd c x b bp' w) = log w;
  obs_read w fl retries fd ys k' :
    Inv w fl → delivers retries fd ys (w_kern w) k' →
    Inv (set_kern k' w) fl ∧ log (set_kern k' w) = log w;
  obs_msg func args cmd dat bs w fl :
    Inv w fl → rx w fl c bs →
    wp (msg_fn func dat (Z.of_nat (length dat)) cmd c args) (λ _ w', ∃ fl',
      Inv w' fl' ∧ rx w' fl' c bs ∧ ibuf_of w' c = ibuf_of w c ∧
      log w' = log w ++ [(Some func, Some args, (cmd, dat))] ∧
      dispatcher (w_server w') = dispatcher (w_server w)) w;
}.

(** A finer contract: [Pre l] holds before the connection is read, [Inv l] after the
    messages [l], and the callbacks need only keep it as long as these are
    [allowed], which depends on what the callbacks do with them (an answer has to
    fit into the outgoing buffer), and they are the ones registered for the command
    of the message.  Only reading may take memory, a buffer at most. *)
Record serves (c : Z) (allowed : list message → Prop)
    (Pre Inv : list message → W → (Z → list ptr) → Prop) : Prop := {
  sv_prefix l l' : allowed (l ++ l') → allowed l;
  sv_read l w fl retries fd ys k' x b bp' fl' :
    Pre l w fl → delivers retries fd ys (w_kern w) k' →
    w_conns w !! c = Some x → step (ibuf x) b (w_bufs w) bp' fl fl' →
    _total_mem bp' ≤ _total_mem (w_bufs w) + 8192 →
    Inv l (rx_upd c x b bp' (set_kern k' w)) fl';
  sv_frame l w fl x b bp' fl' :
    Inv l w fl → w_conns w !! c = Some x → step (ibuf x) b (w_bufs w) bp' fl fl' →
    _total_mem bp' ≤ _total_mem (w_bufs w) → Inv l (rx_upd c x b bp' w) fl';
  sv_msg l func args cmd dat bs w fl :
    Inv l w fl → rx w fl c bs → allowed (l ++ [(cmd, dat)]) →
    _dispatcher (dispatcher (w_server w)) !! cmd = Some func →
    _args (dispatcher (w_server w)) !! cmd = Some args →
    wp (msg_fn func dat (Z.of_nat (length dat)) cmd c args) (λ _ w', ∃ fl',
      Inv (l ++ [(cmd, dat)]) w' fl' ∧ rx w' fl' c bs ∧ ibuf_of w' c = ibuf_of w c ∧
      dispatcher (w_server w') = dispatcher (w_server w)) w;
}.

(** [observer], with the messages since the log was [l0] as index; [d] is the
    dispatcher. *)
Definition logged_inv (Inv : W → (Z → list ptr) → Prop) (log : W → list delivery) (l0 : list delivery)
    (d : msg_dispatcher) (l : list message) w (fl : Z → list ptr) : Prop :=
  Inv w fl ∧ log w = l0 ++ (handed d <$> l) ∧ dispatcher (w_server w) = d.

Lemma observer_serves c Inv log l0 d :
  observer c Inv log → serves c (λ _, True) (logged_inv Inv log l0 d) (logged_inv Inv log l0 d).
Proof.
  intros [Hf Hr Hm]. split; [done|..].
  - intros l w fl retries fd ys k' x b bp' fl' (HI & Hl & Hdis) Hd Hx Hst _.
    destruct (Hr w fl retries fd ys k' HI Hd) as [HI' Hl'].
    destruct (Hf (set_kern k' w) fl x b bp' fl' HI' Hx Hst) as [? Hl2].
    split; [done|]. split; [by rewrite Hl2, Hl'|done].
  - intros l w fl x b bp' fl' (HI & Hl & Hdis) Hx Hst _.
    destruct (Hf w fl x b bp' fl' HI Hx Hst) as [? Hl2]. split; [done|]. split; [by rewrite Hl2|done].
  - intros l func args cmd dat bs w fl (HI & Hl & Hdis) Hrx _ Hfn Hargs. eapply wp_mono; [by eapply Hm|].
    intros [] w' (fl' & ? & ? & ? & Hl2 & Hd2). exists fl'. split; [|done]. split; [done|]. split; [|congruence].
    rewrite Hl2, Hl, fmap_app, app_assoc. f_equal. unfold handed. simpl. by rewrite <- Hdis, Hfn, Hargs.
Qed.

Definition known_cmd w (cmd : Z) : bool := exist cmd (dispatcher (w_server w)).

Lemma rx_pop c w fl bs k (Q : unit → W → Prop) :
  rx w fl c bs → (k ≤ length bs)%nat → (0 < length bs)%nat →
  (∀ x b bp' fl', w_conns w !! c = Some x → step (ibuf x) b (w_bufs w) bp' fl fl' →
     (k = length bs → b = None) → rx (rx_upd c x b bp' w) fl' c (drop k bs) →
     _total_mem bp' ≤ _total_mem (w_bufs w) → Q tt (rx_upd c x b bp' w)) →
  wp (ibuf_pop c (Z.of_nat k)) Q w.
Proof.
  intros (x & Hx & Hi & Ht) Hk Hpos HQ. unfold ibuf_pop.
  eapply (wp_ibuf_pool c x (λ b, tbuf_pop b (Z.of_nat k))); [done|].
  destruct (ibuf x) as [p|] eqn:Hp; [|simpl in Ht; subst; simpl in Hpos; lia].
  eapply wp_mono; [apply (wp_grows 0); [auto with memory|apply (inv_limit _ _ Hi)|by apply tbuf_pop_spec]|].
  intros b bp' [(fl' & -> & Hst & Ht') Hm]. eapply HQ; [exact Hx|rewrite Hp; exact Hst| |..].
  - intros Hall. by rewrite decide_True.
  - eexists. split; [simpl; by rewrite lookup_insert_eq|]. split; [apply Hst|exact Ht'].
  - lia.
Qed.

Lemma wp_ibuf_length c w fl bs (Q : Z → W → Prop) :
  rx w fl c bs → Q (Z.of_nat (length bs)) w → wp (ibuf_length c) Q w.
Proof.
  intros (x & Hx & Hi & Ht) HQ. unfold ibuf_length. wp_step. eapply wp_conn_at; [done|].
  apply wp_zoom. cbn [view w_pool]. eapply tbuf_length_spec; [done|]. by destruct w.
Qed.

Lemma wp_ibuf_front c w fl bs k x (Q : list byte → W → Prop) :
  rx w fl c bs → w_conns w !! c = Some x → (k ≤ length bs)%nat → Q (take k bs) w →
  wp (zoom w_pool (ibuf_data (ibuf x) (Z.of_nat k))) Q w.
Proof.
  intros (x' & Hx & Hi & Ht) Hx' Hk HQ. simplify_eq. apply wp_zoom. cbn [view w_pool].
  eapply ibuf_data_spec; [done..|]. by destruct w.
Qed.

(** The stream ends with a message without payload. *)
Definition ends_empty (ms : list message) (rest : list byte) : Prop :=
  rest = [] ∧ ∃ cmd, last ms = Some (cmd, []).

#[global] Instance ends_empty_dec ms rest : Decision (ends_empty ms rest).
Proof.
  unfold ends_empty. destruct (last ms) as [[cmd [|]]|]; [|right; naive_solver..].
  destruct (decide (rest = [])); [left|right]; naive_solver.
Defined.

Section loop.
Variable c : Z.
Variable allowed : list message → Prop.
Variable Pre Inv : list message → W → (Z → list ptr) → Prop.

Abbreviation loop := (handle_read_loop msg_fn conn_fn).
Abbreviation clean := (clean_conn conn_fn).

(** The front of the loop body, up to the decision. *)
Lemma loop_front fuel w fl bs :
  rx w fl c bs → (8 ≤ length bs)%nat →
  loop (S fuel) c w =
    (let head := head_of_bytes (take 8 bs) in
     if bad_length head then clean c
     else if Z.of_nat (length bs) <? COMMU_HEAD_LENGTH + h_length head then mret tt
     else
       w ← get;
       if negb (exist (cmdid head) (dispatcher (w_server w))) then clean c
       else
         ibuf_pop c COMMU_HEAD_LENGTH ;;
         x ← conn_at c;
         dat ← zoom w_pool (ibuf_data (ibuf x) (h_length head));
         dispatch msg_fn dat (h_length head) (cmdid head) c ;;
         ibuf_pop c (h_length head) ;;
         loop fuel c) w.
Proof.
  intros Hrx Hlen. pose proof Hrx as (x & Hx & _). cbn [handle_read_loop].
  assert (Hl : ibuf_length c w = Ok (Z.of_nat (length bs), w)).
  { apply wp_returns. by eapply wp_ibuf_length. }
  assert (Hc : conn_at c w = Ok (x, w)).
  { apply wp_returns. by eapply wp_conn_at. }
  assert (Hf : zoom w_pool (ibuf_data (ibuf x) COMMU_HEAD_LENGTH) w = Ok (take 8 bs, w)).
  { apply wp_returns. change COMMU_HEAD_LENGTH with (Z.of_nat 8). by eapply wp_ibuf_front. }
  erewrite bind_ok by exact Hl. cbv beta. unfold COMMU_HEAD_LENGTH in *.
  destruct (Z.leb_spec 8 (Z.of_nat (length bs))); [|lia].
  erewrite bind_ok by exact Hc. erewrite bind_ok by exact Hf. cbv beta zeta.
  destruct (bad_length _); [done|]. by erewrite bind_ok by exact Hl.
Qed.

Lemma loop_stop fuel w fl bs st :
  rx w fl c bs → parse_one (known_cmd w) bs = inr st →
  loop (S fuel) c w = match st with Partial => Ok (tt, w) | _ => clean c w end.
Proof.
  intros Hrx Hp. unfold parse_one in Hp.
  destruct (Z.ltb_spec (Z.of_nat (length bs)) COMMU_HEAD_LENGTH) as [Hlt|Hge].
  - injection Hp as <-. cbn [handle_read_loop].
    erewrite bind_ok by (apply wp_returns; by eapply wp_ibuf_length). cbv beta.
    by destruct (Z.leb_spec COMMU_HEAD_LENGTH (Z.of_nat (length bs))); [lia|].
  - rewrite (loop_front fuel w fl bs Hrx) by (unfold COMMU_HEAD_LENGTH in *; lia). cbv zeta in Hp |- *.
    destruct (bad_length _); [by injection Hp as <-|].
    destruct (_ <? _); [by injection Hp as <-|].
    erewrite bind_ok by reflexivity. fold (known_cmd w (cmdid (head_of_bytes (take 8 bs)))).
    destruct (known_cmd w _); [done|]. by injection Hp as <-.
Qed.

(** An iteration that finds a message, up to the second [pop]; when the header was
    all there was, the first one has given the buffer back. *)
Lemma loop_callback fuel l w fl bs m bs' :
  serves c allowed Pre Inv → Inv l w fl → rx w fl c bs → allowed (l ++ [m]) → dispatcher_ok (dispatcher (w_server w)) →
  parse_one (known_cmd w) bs = inl (m, bs') →
  let n := length m.2 in
  ∃ w' fl', Inv (l ++ [m]) w' fl' ∧ rx w' fl' c (drop 8 bs) ∧
    dispatcher (w_server w') = dispatcher (w_server w) ∧
    (length bs = 8%nat → ibuf_of w' c = Some None) ∧ (8 + n ≤ length bs)%nat ∧ bs' = drop (8 + n) bs ∧
    loop (S fuel) c w = (ibuf_pop c (Z.of_nat n) ;; loop fuel c) w'.
Proof.
  intros [_ _ Hframe Hmsg] HI Hrx Hal Hd Hp.
  apply parse_one_inl in Hp as (H8 & Hrange & Hlen & Hk & -> & ->). cbn [snd]. cbv zeta.
  rewrite (loop_front fuel w fl bs Hrx H8). cbv zeta.
  set (h := head_of_bytes (take 8 bs)) in *. set (dat := take (Z.to_nat (h_length h)) (drop 8 bs)).
  assert (Hdl : h_length h = Z.of_nat (length dat)) by (unfold dat; rewrite length_take, length_drop; lia).
  assert (bad_length h = false) as -> by (unfold bad_length; lia).
  assert ((Z.of_nat (length bs) <? COMMU_HEAD_LENGTH + h_length h) = false) as ->
    by (unfold COMMU_HEAD_LENGTH; lia).
  erewrite bind_ok by reflexivity. fold (known_cmd w (cmdid h)). rewrite Hk. cbn [negb].
  assert (Hpop : wp (ibuf_pop c COMMU_HEAD_LENGTH) (λ _ w1, ∃ fl1 x1, Inv l w1 fl1 ∧
    rx w1 fl1 c (drop 8 bs) ∧ w_server w1 = w_server w ∧
    w_conns w1 !! c = Some x1 ∧ (length bs = 8%nat → ibuf x1 = None)) w).
  { change COMMU_HEAD_LENGTH with (Z.of_nat 8). eapply rx_pop; [exact Hrx|lia|lia|].
    intros x b bp' fl' Hx Hst Hnone Hrx' Hmem. pose proof (Hframe l w fl x b bp' fl' HI Hx Hst Hmem) as HI'.
    exists fl', (set_ibuf b x). split_and!; [done..|simpl; by rewrite lookup_insert_eq|].
    intros Heq. by apply Hnone. }
  apply wp_elim in Hpop as ([] & w1 & Hrun & fl1 & x1 & HI1 & Hrx1 & Hsrv1 & Hx1 & Hnone).
  erewrite bind_ok by exact Hrun.
  erewrite bind_ok by (apply wp_returns; by eapply wp_conn_at).
  assert (Hdat : zoom w_pool (ibuf_data (ibuf x1) (h_length h)) w1 = Ok (dat, w1)).
  { apply wp_returns. unfold dat. rewrite <- (Z2Nat.id (h_length h)) at 1 by lia.
    eapply wp_ibuf_front; [done..|rewrite length_drop; lia|done]. }
  erewrite bind_ok by exact Hdat.
  assert (Hcb : wp (dispatch msg_fn dat (h_length h) (cmdid h) c) (λ _ w2, ∃ fl2, Inv (l ++ [(cmdid h, dat)]) w2 fl2 ∧
    rx w2 fl2 c (drop 8 bs) ∧ ibuf_of w2 c = ibuf_of w1 c ∧
    dispatcher (w_server w2) = dispatcher (w_server w1)) w1).
  { unfold dispatch. wp_step. wp_step. wp_step. rewrite Hsrv1.
    apply wp_callback_of; [done..|]. intros f u Hf Hu. rewrite Hdl.
    eapply wp_mono; [by eapply Hmsg; [..|rewrite Hsrv1|rewrite Hsrv1]|]. intros [] w2 (fl2 & ? & ? & ? & ?).
    rewrite Hsrv1 in *. by exists fl2. }
  apply wp_elim in Hcb as ([] & w2 & Hrun2 & fl2 & HI2 & Hrx2 & Hsame2 & Hdisp2).
  exists w2, fl2. split_and!; [done|done|by rewrite Hdisp2, Hsrv1| |lia|f_equal; lia|].
  - intros H8'. rewrite Hsame2. unfold ibuf_of. rewrite Hx1. simpl. by rewrite Hnone.
  - erewrite bind_ok by exact Hrun2. by rewrite Hdl.
Qed.

(** One message: it is delivered and its bytes are gone, unless it is an empty
    message that ends the buffer. *)
Lemma loop_message fuel l w fl bs m bs' :
  serves c allowed Pre Inv → Inv l w fl → rx w fl c bs → allowed (l ++ [m]) → dispatcher_ok (dispatcher (w_server w)) →
  parse_one (known_cmd w) bs = inl (m, bs') →
  if decide (m.2 = [] ∧ bs' = []) then loop (S fuel) c w = Fail AssertFailed
  else ∃ w' fl', Inv (l ++ [m]) w' fl' ∧ rx w' fl' c bs' ∧
    dispatcher (w_server w') = dispatcher (w_server w) ∧ loop (S fuel) c w = loop fuel c w'.
Proof.
  intros Hobs HI Hrx Hal Hd Hp.
  destruct (loop_callback fuel l w fl bs m bs' Hobs HI Hrx Hal Hd Hp)
    as (w2 & fl2 & HI2 & Hrx2 & Hdisp2 & Hnone & Hlen & -> & ->).
  case_decide as Hcase.
  - (* an empty message at the end of the buffer: [_buf] is NULL for the second pop *)
    destruct Hcase as [Hm2 Hrest]. rewrite Hm2 in *. apply (f_equal length) in Hrest. rewrite length_drop in Hrest.
    simpl in Hlen, Hrest. apply bind_fail. destruct Hrx2 as (x2 & Hx2 & _).
    unfold ibuf_of in Hnone. rewrite Hx2 in Hnone. injection (Hnone ltac:(lia)) as Hx2n.
    unfold ibuf_pop, ibuf_op. erewrite bind_ok by (apply wp_returns; by eapply wp_conn_at).
    rewrite Hx2n. by apply bind_fail, bind_fail.
  - assert (0 < length (drop 8 bs))%nat.
    { rewrite length_drop. destruct (decide (m.2 = [])) as [Hm|Hm].
      - rewrite Hm in *. assert (Hne : drop (8 + 0) bs ≠ []) by tauto.
        destruct (decide (length bs = 8%nat)) as [H8|]; [|simpl in Hlen; lia].
        by rewrite drop_ge in Hne by (simpl; lia).
      - destruct (m.2); [done|]. simpl in Hlen. lia. }
    assert (Hpop : wp (ibuf_pop c (Z.of_nat (length m.2))) (λ _ w3, ∃ fl3, Inv (l ++ [m]) w3 fl3 ∧
      rx w3 fl3 c (drop (8 + length m.2) bs) ∧ w_server w3 = w_server w2) w2).
    { eapply rx_pop; [exact Hrx2|rewrite length_drop; lia|lia|].
      intros x b bp' fl' Hx Hst _ Hrx' Hmem. pose proof (sv_frame _ _ _ _ Hobs _ w2 fl2 x b bp' fl' HI2 Hx Hst Hmem) as HI'.
      exists fl'. rewrite drop_drop in Hrx'. by split_and!. }
    apply wp_elim in Hpop as ([] & w3 & Hrun3 & fl3 & HI3 & Hrx3 & Hsrv3).
    exists w3, fl3. split_and!; [done|done|by rewrite Hsrv3|by erewrite bind_ok by exact Hrun3].
Qed.

(** The whole loop follows the reference decoder. *)
Lemma loop_spec bs : ∀ fuel l w fl ms rest st,
  serves c allowed Pre Inv → Inv l w fl → rx w fl c bs → allowed (l ++ ms) → dispatcher_ok (dispatcher (w_server w)) →
  (length bs < fuel)%nat → parse (known_cmd w) bs = (ms, rest, st) →
  if decide (ends_empty ms rest) then loop fuel c w = Fail AssertFailed
  else ∃ w' fl', Inv (l ++ ms) w' fl' ∧ rx w' fl' c rest ∧
    dispatcher (w_server w') = dispatcher (w_server w) ∧
    loop fuel c w = match st with Partial => Ok (tt, w') | _ => clean c w' end.
Proof.
  remember (length bs) as len eqn:Hlen. revert bs Hlen.
  induction len as [len IH] using lt_wf_ind. intros bs -> fuel l w fl ms rest st Hobs HI Hrx Hal Hd Hf Hp.
  destruct fuel as [|fuel]; [lia|]. rewrite parse_unfold in Hp.
  destruct (parse_one (known_cmd w) bs) as [[m bs']|st'] eqn:Hone.
  - pose proof (parse_one_shorter _ _ _ _ Hone) as Hshort.
    destruct (parse (known_cmd w) bs') as [[ms' rest'] st'] eqn:Hp'. injection Hp as <- <- <-.
    rewrite cons_middle, app_assoc in Hal |- *.
    pose proof (loop_message fuel l w fl bs m bs' Hobs HI Hrx (sv_prefix _ _ _ _ Hobs _ _ Hal) Hd Hone) as Hm.
    destruct (decide (m.2 = [] ∧ bs' = [])) as [[Hm2 ->]|Hne].
    + vm_compute in Hp'. injection Hp' as <- <- <-.
      rewrite decide_True; [done|]. split; [done|]. exists m.1. simpl. by destruct m; simpl in *; subst.
    + destruct Hm as (w' & fl' & HI' & Hrx' & Hd' & ->).
      assert (Hk : known_cmd w' = known_cmd w) by (unfold known_cmd; by rewrite Hd').
      specialize (IH (length bs') ltac:(lia) bs' eq_refl fuel _ w' fl' ms' rest' st' Hobs HI' Hrx' Hal).
      rewrite Hd', Hk in IH. specialize (IH Hd ltac:(lia) Hp').
      assert (Hiff : ends_empty ms' rest' ↔ ends_empty (m :: ms') rest').
      { unfold ends_empty. destruct ms' as [|m' ms']; [|done]. split; [naive_solver|].
        intros (-> & cmd & [= ->]). exfalso. apply Hne. split; [done|].
        rewrite parse_unfold in Hp'. destruct (parse_one _ bs') as [[m1 bs1]|?]; [|by simplify_eq].
        destruct (parse _ bs1) as [[? ?] ?]. by simplify_eq. }
      destruct (decide (ends_empty ms' rest')) as [He|He].
      * rewrite decide_True by by apply Hiff. done.
      * rewrite decide_False by by rewrite <- Hiff.
        destruct IH as (w2 & fl2 & ? & ? & Hd2 & ?). by exists w2, fl2.
  - injection Hp as <- <- <-. rewrite decide_False by (intros (_ & ? & ?); done).
    exists w, fl. rewrite app_nil_r. split_and!; [done..|]. by eapply loop_stop.
Qed.

(** [read_data]: the new bytes are behind the old ones. *)
Lemma conn_reads retries l w fl x bs ys k' :
  serves c allowed Pre Inv → Pre l w fl → rx w fl c bs → w_conns w !! c = Some x →
  at_start (w_bufs w) (ibuf x) → memory_left (w_bufs w) →
  delivers retries (_connfd x) ys (w_kern w) k' →
  Z.of_nat (length bs) + Z.of_nat (length ys) ≤ u8M →
  ∃ w1 fl1, Inv l w1 fl1 ∧ rx w1 fl1 c (bs ++ ys) ∧ w_server w1 = w_server w ∧
    ibuf_op c (λ b, zoom w_io (read_data retries b (_connfd x))) w = Ok (Z.of_nat (length ys), w1).
Proof.
  intros [_ Hread _ _] HI (x' & Hx' & Hi & Ht) Hx Hs Hm Hdel Hmax.
  assert (x' = x) as -> by congruence.
  pose proof Hdel as Hdel'. destruct Hdel as (j & k1 & k2 & Hn & Hint & Hj & Hr).
  assert (Hret : retry retries (sys_read (_connfd x) (Z.of_nat (length ys))) k1 = Ok (inr ys, k')).
  { by eapply retry_spec. }
  pose proof (read_data_spec retries (ibuf x) (_connfd x) bs ys (w_kern w) k1 k' (w_bufs w) fl
    Hi Ht Hs Hm Hn Hret Hmax) as (r & [k3 bp'] & Hrun & p & fl' & -> & Hk & Hst & Ht' & _)%wp_elim.
  simpl in Hk, Hst, Ht'. subst k3.
  pose proof (read_data_grows _ _ _ (Io (w_kern w) (w_bufs w)) _ _ (proj1 (inv_limit _ _ Hi)) Hrun) as Hmem.
  pose proof (Hread l w fl retries _ ys k' x (Some p) bp' fl' HI Hdel' Hx Hst Hmem) as HI1.
  exists (rx_upd c x (Some p) bp' (set_kern k' w)), fl'.
  split; [done|]. split.
  { eexists. split; [simpl; by rewrite lookup_insert_eq|]. by split; [apply Hst|]. }
  split; [done|].
  apply wp_returns. unfold ibuf_op. wp_step. eapply wp_conn_at; [done|]. wp_step. wp_step.
  cbn [view w_io]. unfold wp at 1. rewrite Hrun. wp_step. eapply wp_conn_at; [exact Hx|]. by wp_steps.
Qed.

(** [handle_read] before its loop. *)
Lemma handle_read_start fuel retries l w fl x bs ys k' :
  serves c allowed Pre Inv → Pre l w fl → rx w fl c bs → w_conns w !! c = Some x →
  at_start (w_bufs w) (ibuf x) → memory_left (w_bufs w) →
  delivers retries (_connfd x) ys (w_kern w) k' → ys ≠ [] →
  Z.of_nat (length bs) + Z.of_nat (length ys) ≤ u8M →
  ∃ w1 fl1, Inv l w1 fl1 ∧ rx w1 fl1 c (bs ++ ys) ∧ w_server w1 = w_server w ∧
    handle_read msg_fn conn_fn fuel retries c w =
      (loop fuel c ;; x ← conn_at c; zoom w_pool (ibuf_adjust (ibuf x))) w1.
Proof.
  intros Hserves HI Hrx Hx Hs Hm Hdel Hys Hmax.
  destruct (conn_reads retries l w fl x bs ys k') as (w1 & fl1 & HI1 & Hrx1 & Hsrv & Hop); [done..|].
  exists w1, fl1. do 3 (split; [done|]).
  unfold handle_read. erewrite bind_ok by (apply wp_returns; by eapply wp_conn_at).
  erewrite bind_ok by exact Hop. cbv beta.
  assert (0 < Z.of_nat (length ys)) by (destruct ys; [done|simpl; lia]).
  destruct (Z.eqb_spec (Z.of_nat (length ys)) (-1)); [lia|].
  by destruct (Z.eqb_spec (Z.of_nat (length ys)) 0); [lia|].
Qed.

Lemma rx_upd_id w x bp' : w_conns w !! c = Some x → set_bufs bp' w = rx_upd c x (ibuf x) bp' w.
Proof.
  intros Hx. unfold rx_upd. assert (set_ibuf (ibuf x) x = x) as -> by (by destruct x).
  rewrite insert_id by done. by destruct w.
Qed.

(** After the loop: the bytes of the unfinished message move to the front. *)
Lemma handle_read_end l w fl bs :
  serves c allowed Pre Inv → Inv l w fl → rx w fl c bs →
  ∃ w' fl' x', (x ← conn_at c; zoom w_pool (ibuf_adjust (ibuf x))) w = Ok (tt, w') ∧
    Inv l w' fl' ∧ rx w' fl' c bs ∧ w_server w' = w_server w ∧
    w_conns w' !! c = Some x' ∧ at_start (w_bufs w') (ibuf x').
Proof.
  intros [_ _ Hframe _] HI (x & Hx & Hi & Ht).
  pose proof (ibuf_adjust_spec (ibuf x) bs (w_bufs w) fl Hi Ht) as Hadj.
  apply (wp_grows 0), wp_elim in Hadj; [|auto with memory|apply (inv_limit _ _ Hi)].
  destruct Hadj as ([] & bp' & Hrun & (Hst & Ht' & Hs) & Hmem).
  pose proof (Hframe l w fl x (ibuf x) bp' fl HI Hx Hst ltac:(lia)) as HI'.
  exists (set_bufs bp' w), fl, x. split.
  - erewrite bind_ok by (apply wp_returns; by eapply wp_conn_at).
    unfold zoom. cbn [view w_pool]. by rewrite Hrun.
  - rewrite (rx_upd_id w x bp' Hx) at 1. split; [done|].
    split; [exists x; split; [done|]; by split; [apply Hst|]|].
    by split_and!.
Qed.
End loop.

(** ** The life cycle *)

Definition set_parameter p c := TcpConn (_connfd c) (_loop c) (ibuf c) (obuf c) p.

(** A connection callback that touches only the user's state and the [parameter]
    of its connection. *)
Definition quiet (cb : option conn_callback) (c : Z) : Prop :=
  ∀ f w x, cb = Some f → w_conns w !! c = Some x →
    ∃ u p, conn_fn f c w = Ok (tt, set_user u (set_w_conns (<[c := set_parameter p x]> (w_conns w)) w)).

Lemma quiet_call cb c w x (Q : unit → W → Prop) :
  quiet cb c → w_conns w !! c = Some x →
  (∀ u p, (cb = None → u = w_user w) →
     Q tt (set_user u (set_w_conns (<[c := set_parameter p x]> (w_conns w)) w))) →
  wp (match cb with Some f => conn_fn f c | None => mret tt end) Q w.
Proof.
  intros Hq Hx HQ. destruct cb as [f|].
  - destruct (Hq f w x eq_refl Hx) as (u & p & Hr). unfold wp. rewrite Hr. by apply HQ.
  - apply wp_ret. specialize (HQ (w_user w) (parameter x) (λ _, eq_refl)).
    replace (set_parameter (parameter x) x) with x in HQ by (by destruct x).
    rewrite insert_id in HQ by done. by destruct w.
Qed.

Lemma wp_on_loop {A} i lp (m : M (ev_st K) A) (Q : A → W → Prop) w :
  w_loops w !! i = Some lp →
  wp m (λ a s, Q a (set_loops (<[i := ev_loop s]> (w_loops w)) (set_kern (ev_kern s) w)))
    (EvSt (w_kern w) lp) →
  wp (on_loop (Some i) m) Q w.
Proof.
  intros Hi Hm. unfold on_loop. do 2 wp_step. wp_step. eapply wp_from_option; [done|].
  wp_step. eapply wp_from_option; [exact Hi|]. unfold wp in Hm.
  destruct (m _) as [[a s]|]; [|done]. by wp_steps.
Qed.

(** The connection [c] is in use on loop [i], and its buffers hold [ib] and
    [ob]. *)
Record conn_ok w (fl : Z → list ptr) (c : Z) (x : tcp_conn) (i : nat) (lp : event_loop)
    (ib ob : list byte) : Prop := {
  ok_conn : w_conns w !! c = Some x;
  ok_loop : _loop x = Some i;
  ok_lp : w_loops w !! i = Some lp;
  ok_pool : pool_inv (w_bufs w) fl;
  ok_ibuf : tbuf (w_bufs w) fl (ibuf x) ib;
  ok_obuf : tbuf (w_bufs w) fl (obuf x) ob;
  ok_start : at_start (w_bufs w) (obuf x);
  ok_apart : apart (ibuf x) (obuf x);
}.

(** The process after [clean_conn]. *)
Definition cleaned (c : Z) (x : tcp_conn) (i : nat) (s : ev_st K) (bp : buffer_pool) (u : U)
    (p : void_ptr) w : W :=
  World (sys_close (_connfd x) (ev_kern s)) bp (<[i := ev_loop s]> (w_loops w)) (w_queues w)
    (set_curr_conns (_curr_conns (w_server w) - 1) (w_server w))
    (<[c := TcpConn (-1) None None None p]> (w_conns w)) u.

Lemma wp_dec_conn (Q : unit → W → Prop) w :
  is_int (_curr_conns (w_server w) - 1) →
  Q tt (set_server (set_curr_conns (_curr_conns (w_server w) - 1) (w_server w)) w) →
  wp dec_conn Q w.
Proof. intros Hn HQ. unfold dec_conn. do 2 wp_step. wp_step. by apply wp_cint. Qed.

Lemma wp_inc_conn (Q : unit → W → Prop) w :
  is_int (_curr_conns (w_server w) + 1) →
  Q tt (set_server (set_curr_conns (_curr_conns (w_server w) + 1) (w_server w)) w) →
  wp inc_conn Q w.
Proof. intros Hn HQ. unfold inc_conn. do 2 wp_step. wp_step. by apply wp_cint. Qed.

Lemma clean_conn_run w fl c x i lp ib ob :
  w_conns w !! c = Some x → _loop x = Some i → w_loops w !! i = Some lp →
  pool_inv (w_bufs w) fl → tbuf (w_bufs w) fl (ibuf x) ib → tbuf (w_bufs w) fl (obuf x) ob →
  apart (ibuf x) (obuf x) → quiet (connCloseCb (w_server w)) c →
  is_int (_curr_conns (w_server w) - 1) →
  wp (clean_conn conn_fn c) (λ _ w', ∃ s u p bp' bp1 fl1 fl',
    del_ioev (_connfd x) (EvSt (w_kern w) lp) = Ok (tt, s) ∧
    w' = cleaned c x i s bp' u p w ∧
    step (ibuf x) None (w_bufs w) bp1 fl fl1 ∧ step (obuf x) None bp1 bp' fl1 fl' ∧
    (connCloseCb (w_server w) = None → u = w_user w)) w.
Proof.
  intros Hx Hl Hlp Hi Hib Hob Ha Hq Hn. unfold clean_conn. do 2 wp_step. wp_step.
  eapply quiet_call; [done..|]. intros u p Hu.
  set (x1 := set_parameter p x). set (w1 := set_user _ _).
  assert (Hx1 : w_conns w1 !! c = Some x1) by (simpl; by rewrite lookup_insert_eq).
  wp_step. apply wp_dec_conn; [done|]. wp_step. eapply wp_conn_at; [exact Hx1|].
  wp_step. simpl (_loop x1). rewrite Hl. eapply (wp_on_loop i lp); [done|].
  cbn [w_kern set_server w1 set_user set_w_conns].
  assert (Hdel : ∃ s, del_ioev (_connfd x) (EvSt (w_kern w) lp) = Ok (tt, s)).
  { unfold del_ioev, modify_loop, epoll_ctl, syscall, zoom, modify, mbind, M_bind, get. simpl.
    destruct (sys_epoll_ctl _ _ _ _ _). by eexists. }
  destruct Hdel as [s Hdel]. simpl (_connfd x1). unfold wp at 1. rewrite Hdel.
  wp_step. eapply wp_conn_at; [exact Hx1|]. wp_step. unfold conn_put. wp_step.
  (* the two buffers *)
  wp_step. eapply (wp_ibuf_pool c (set_conn_loop None x1) tbuf_clear); [simpl; by rewrite lookup_insert_eq|].
  simpl. eapply wp_mono; [by apply (tbuf_clear_spec (ibuf x) ib)|].
  intros b1 bp1 (fl1 & -> & Hst1). wp_step.
  assert (Ha' : apart (obuf x) (ibuf x)) by (intros q Ho Hin; by apply (Ha q)).
  pose proof (step_tbuf _ _ _ _ _ _ _ _ Hst1 Ha' Hob) as Hob1.
  unfold obuf_clear, obuf_op. wp_step. eapply wp_conn_at; [simpl; by rewrite lookup_insert_eq|].
  simpl (obuf _). unfold drop_result. wp_step. wp_step. wp_step. cbn [view w_pool].
  simpl (w_bufs _). eapply wp_mono; [by apply (tbuf_clear_spec (obuf x) ob); [apply Hst1|]|].
  intros b2 bp2 (fl2 & -> & Hst2). wp_step. wp_step.
  eapply wp_conn_at; [simpl; by rewrite lookup_insert_eq|]. unfold conn_put. wp_steps.
  eapply wp_conn_at; [simpl; by rewrite lookup_insert_eq|]. wp_steps.
  exists s, u, p, bp2, bp1, fl1, fl2. split; [done|]. split; [|done].
  unfold cleaned, set_kern, set_server, set_w_conns, set_loops, set_bufs. simpl.
  by rewrite !insert_insert_eq.
Qed.

Lemma clean_conn_spec w fl c x i lp ib ob :
  conn_ok w fl c x i lp ib ob → quiet (connCloseCb (w_server w)) c →
  is_int (_curr_conns (w_server w) - 1) →
  wp (clean_conn conn_fn c) (λ _ w', ∃ s u p bp' bp1 fl1 fl',
    del_ioev (_connfd x) (EvSt (w_kern w) lp) = Ok (tt, s) ∧
    w' = cleaned c x i s bp' u p w ∧
    step (ibuf x) None (w_bufs w) bp1 fl fl1 ∧ step (obuf x) None bp1 bp' fl1 fl' ∧
    (connCloseCb (w_server w) = None → u = w_user w)) w.
Proof. intros [] ??. by eapply clean_conn_run. Qed.

(** The process after [init]: [s] is the loop and the system after the
    registration. *)
Definition inited (c connfd : Z) (x : tcp_conn) (i : nat) (s : ev_st K) (u : U) (p : void_ptr) w : W :=
  World (ev_kern s) (w_bufs w) (<[i := ev_loop s]> (w_loops w)) (w_queues w)
    (set_curr_conns (_curr_conns (w_server w) + 1) (w_server w))
    (<[c := TcpConn connfd (Some i) (ibuf x) (obuf x) p]> (w_conns w)) u.

(** The system when [init] registers the descriptor. *)
Definition opened (connfd : Z) (k : K) : K :=
  (sys_setsockopt connfd (sys_set_nonblock connfd k)).2.

Lemma init_spec w c x connfd i lp s (Q : unit → W → Prop) :
  w_conns w !! c = Some x → w_loops w !! i = Some lp →
  quiet (connBuildCb (w_server w)) c → is_int (_curr_conns (w_server w) + 1) →
  add_ioev connfd tcp_rcb EPOLLIN (v_tcp_conn c) (EvSt (opened connfd (w_kern w)) lp) = Ok (tt, s) →
  (∀ u p, Q tt (inited c connfd x i s u p w)) →
  wp (init conn_fn c connfd i) Q w.
Proof.
  intros Hx Hlp Hq Hn Hadd HQ.
  unfold init. wp_step. eapply wp_conn_at; [done|]. wp_step. unfold conn_put. do 5 wp_step.
  apply wp_syscall. intros r k1 Hsock. unfold opened in Hadd.
  change (sys_setsockopt connfd (sys_set_nonblock connfd (w_kern w)) = (r, k1)) in Hsock.
  rewrite Hsock in Hadd. simpl in Hadd. do 3 wp_step.
  set (x1 := set_conn_loop (Some i) (set_connfd connfd x)).
  eapply (quiet_call _ _ _ x1); [done|simpl; by rewrite lookup_insert_eq|]. intros u p _.
  set (w1 := set_user _ _).
  assert (Hx1 : w_conns w1 !! c = Some (set_parameter p x1)) by (simpl; by rewrite lookup_insert_eq).
  wp_step. eapply wp_conn_at; [exact Hx1|]. wp_step. cbn [_loop set_parameter x1 set_conn_loop].
  eapply wp_on_loop; [exact Hlp|]. unfold wp at 1.
  change (_connfd (set_parameter p x1)) with connfd. change (w_kern w1) with k1.
  rewrite Hadd. apply wp_inc_conn; [done|].
  specialize (HQ u p). unfold inited in HQ.
  unfold set_server, set_w_conns, set_loops, set_kern. simpl. by rewrite insert_insert_eq.
Qed.

(** ** Sending *)

(** A step on the outgoing buffer leaves the rest of the connection alone. *)
Lemma conn_ok_tx w fl c x i lp ib ob b bp' fl' ob' :
  conn_ok w fl c x i lp ib ob → step (obuf x) b (w_bufs w) bp' fl fl' →
  tbuf bp' fl' b ob' → at_start bp' b →
  conn_ok (tx_upd c x b bp' w) fl' c (set_obuf b x) i lp ib ob'.
Proof.
  intros [Hx Hl Hlp Hi Hib Hob Hs Ha] Hst Ht' Hs'. split; try done.
  - simpl. by rewrite lookup_insert_eq.
  - apply Hst.
  - by eapply (step_tbuf (obuf x)).
  - by eapply (step_apart (obuf x)).
Qed.

Lemma wp_obuf_length c w fl x i lp ib ob (Q : Z → W → Prop) :
  conn_ok w fl c x i lp ib ob → Q (Z.of_nat (length ob)) w → wp (obuf_length c) Q w.
Proof.
  intros Hok HQ. unfold obuf_length. wp_step. eapply wp_conn_at; [apply Hok|].
  apply wp_zoom. cbn [view w_pool]. eapply tbuf_length_spec; [apply Hok|]. by destruct w.
Qed.

(** [n] buffers can be allocated before the memory limit. *)
Definition memory_for (n : Z) (bp : buffer_pool) : Prop :=
  _total_mem bp + n * 8192 < EXTRA_MEM_LIMIT.

Lemma wp_obuf_send c w fl x i lp ib ob dat n (Q : Z → W → Prop) :
  conn_ok w fl c x i lp ib ob → 1 ≤ n → memory_for n (w_bufs w) →
  Z.of_nat (length ob) + Z.of_nat (length dat) ≤ u8M →
  (∀ p bp' fl', let w' := tx_upd c x (Some p) bp' w in
     conn_ok w' fl' c (set_obuf (Some p) x) i lp ib (ob ++ dat) →
     memory_for (n - 1) bp' → step (obuf x) (Some p) (w_bufs w) bp' fl fl' → Q 0 w') →
  wp (obuf_op c (λ b, zoom w_pool (obuf_send_data b dat (Z.of_nat (length dat))))) Q w.
Proof.
  intros Hok Hn Hm Hmax HQ. pose proof (inv_limit _ _ (ok_pool _ _ _ _ _ _ _ _ Hok)).
  eapply (wp_obuf_pool c x (λ b, obuf_send_data b dat (Z.of_nat (length dat)))); [apply Hok|].
  assert (Hml : memory_left (w_bufs w)).
  { unfold memory_left, memory_for, u8M in *. change (8388608 / 1024) with 8192. lia. }
  pose proof (obuf_send_data_spec (obuf x) ob dat (w_bufs w) fl (ok_pool _ _ _ _ _ _ _ _ Hok)
    (ok_obuf _ _ _ _ _ _ _ _ Hok) (ok_start _ _ _ _ _ _ _ _ Hok) Hml Hmax)
    as (r & bp' & Hr & p & fl' & -> & Hst & Ht & Hs)%wp_elim.
  unfold wp. rewrite Hr. apply (HQ p bp' fl'); [|unfold memory_for in *|done].
  - by eapply conn_ok_tx.
  - apply grows_obuf_send_data in Hr; lia.
Qed.

Lemma wp_obuf_send_fails c w fl x i lp ib ob dat n (Q : Z → W → Prop) :
  conn_ok w fl c x i lp ib ob → u8M < Z.of_nat (length ob) + n ≤ INT_MAX →
  Q (-1) w → wp (obuf_op c (λ b, zoom w_pool (obuf_send_data b dat n))) Q w.
Proof.
  intros Hok Hbig HQ.
  eapply (wp_obuf_pool c x (λ b, obuf_send_data b dat n)); [apply Hok|].
  unfold wp. rewrite (obuf_send_data_too_large _ _ _ _ _ fl (ok_pool _ _ _ _ _ _ _ _ Hok)
    (ok_obuf _ _ _ _ _ _ _ _ Hok) (ok_start _ _ _ _ _ _ _ _ Hok) Hbig).
  unfold tx_upd. simpl. assert (set_obuf (obuf x) x = x) as -> by (by destruct x).
  rewrite insert_id by apply Hok. by destruct w.
Qed.

(** The kernel and the loop after [send_data]: write interest is registered when
    the buffer was empty. *)
Definition write_interest (c : Z) (x : tcp_conn) (ob : list byte) (s s' : ev_st K) : Prop :=
  if decide (ob = []) then add_ioev (_connfd x) tcp_wcb EPOLLOUT (v_tcp_conn c) s = Ok (tt, s')
  else s' = s.

Lemma add_ioev_returns fd proc msk args (s : ev_st K) :
  ∃ s', add_ioev fd proc msk args s = Ok (tt, s').
Proof.
  unfold add_ioev, modify_loop, epoll_ctl, syscall, zoom, modify, mbind, M_bind, get. simpl.
  destruct (sys_epoll_ctl _ _ _ _ _). by eexists.
Qed.

Lemma tcp_send_data_spec n w fl c x i lp ib ob dat cmd :
  conn_ok w fl c x i lp ib ob → 2 ≤ n → memory_for n (w_bufs w) →
  Z.of_nat (length ob) + 8 + Z.of_nat (length dat) ≤ u8M →
  wp (tcp_send_data c dat (Z.of_nat (length dat)) cmd) (λ r w', r = 0 ∧ ∃ fl' p lp',
    conn_ok w' fl' c (set_obuf (Some p) x) i lp' ib (ob ++ frame (cmd, dat)) ∧
    step (obuf x) (Some p) (w_bufs w) (w_bufs w') fl fl' ∧
    write_interest c x ob (EvSt (w_kern w) lp) (EvSt (w_kern w') lp') ∧
    w_user w' = w_user w ∧ w_server w' = w_server w ∧ memory_for (n - 2) (w_bufs w')) w.
Proof.
  intros Hok Hn Hm Hmax. unfold tcp_send_data. wp_step. eapply wp_obuf_length; [exact Hok|].
  wp_step. change COMMU_HEAD_LENGTH with (Z.of_nat (length (head_bytes (CommuHead cmd (Z.of_nat (length dat)))))).
  set (hb := head_bytes _).
  eapply (wp_obuf_send _ w); [exact Hok| |exact Hm|change (length hb) with 8%nat; lia|]; [lia|].
  intros p bp1 fl1 w1 Hok1 Hm1 Hst1. cbn [negb Z.eqb].
  wp_step. eapply (wp_obuf_send _ w1); [exact Hok1| |exact Hm1| |]; [lia|rewrite length_app; change (length hb) with 8%nat; lia|].
  intros q bp2 fl2 w2 Hok2 Hm2 Hst2. replace (n - 1 - 1) with (n - 2) in Hm2 by lia. cbn [negb Z.eqb]. rewrite <- app_assoc in Hok2.
  change (hb ++ dat) with (frame (cmd, dat)) in Hok2.
  assert (Hst : step (obuf x) (Some q) (w_bufs w) (w_bufs w2) fl fl2) by by eapply step_trans.
  wp_step. eapply wp_conn_at; [apply Hok2|]. wp_step. apply wp_when; intros Hl.
  - apply Z.eqb_eq in Hl. assert (ob = []) as -> by (by destruct ob).
    simpl (_loop _). rewrite (ok_loop _ _ _ _ _ _ _ _ Hok). eapply wp_on_loop; [apply Hok2|].
    cbn [w_kern tx_upd set_w_conns set_bufs w2 w1]. simpl (_connfd _).
    destruct (add_ioev_returns (_connfd x) tcp_wcb EPOLLOUT (v_tcp_conn c) (EvSt (w_kern w) lp)) as [s' Hs'].
    unfold wp at 1. change (w_kern w2) with (w_kern w). rewrite Hs'. wp_step. split; [done|]. exists fl2, q, (ev_loop s'). split_and!.
    + destruct Hok2 as [? ? ? ? ? ? ? ?]. split; try done. simpl. by rewrite lookup_insert_eq.
    + done.
    + unfold write_interest. rewrite decide_True by done. rewrite Hs'. by destruct s'.
    + done.
    + done.
    + done.
  - apply Z.eqb_neq in Hl. wp_step. split; [done|]. exists fl2, q, lp. split_and!; try done.
    unfold write_interest. rewrite decide_False; [done|]. intros ->. by simpl in Hl.
Qed.

(** The message body does not fit behind the header: the header is taken back
    from the FRONT of the buffer. *)
Lemma tcp_send_data_no_room w fl c x i lp ib ob dat n cmd :
  conn_ok w fl c x i lp ib ob → memory_for 1 (w_bufs w) →
  Z.of_nat (length ob) + 8 ≤ u8M → u8M < Z.of_nat (length ob) + 8 + n ≤ INT_MAX →
  wp (tcp_send_data c dat n cmd) (λ r w', r = -1 ∧ ∃ x' fl',
    w_conns w' !! c = Some x' ∧ ibuf x' = ibuf x ∧ pool_inv (w_bufs w') fl' ∧
    tbuf (w_bufs w') fl' (obuf x') (drop 8 (ob ++ head_bytes (CommuHead cmd n))) ∧
    (ob ≠ [] → ∃ p b, obuf x' = Some p ∧ store (w_bufs w') !! p = Some b ∧ head b = 8) ∧
    w_loops w' = w_loops w ∧ _loop x' = _loop x) w.
Proof.
  intros Hok Hm Hh Hbig. unfold tcp_send_data. wp_step. eapply wp_obuf_length; [exact Hok|].
  wp_step. change COMMU_HEAD_LENGTH with (Z.of_nat (length (head_bytes (CommuHead cmd n)))).
  set (hb := head_bytes _).
  eapply (wp_obuf_send _ w); [exact Hok| |exact Hm|change (length hb) with 8%nat; lia|]; [lia|].
  intros p bp1 fl1 w1 Hok1 Hm1 Hst1. cbn [negb Z.eqb].
  wp_step. eapply (wp_obuf_send_fails _ w1); [exact Hok1| |].
  { rewrite length_app. change (length hb) with 8%nat. lia. }
  cbn [negb Z.eqb]. wp_step. unfold obuf_pop, drop_result, obuf_op.
  wp_step. eapply wp_conn_at; [apply Hok1|]. wp_step. wp_step. wp_step. cbn [view w_pool].
  change (obuf (set_obuf (Some p) x)) with (Some p).
  destruct Hok1 as [Hx1 Hl1 Hlp1 Hi1 Hib1 Hob1 Hs1 Ha1]. cbn [obuf set_obuf] in *.
  pose proof Hob1 as [Hheld (b & Hb & Hc)]. pose proof (Hs1 p b eq_refl Hb) as Hhd.
  change (Z.of_nat (length hb)) with (Z.of_nat 8).
  assert (Hlen : (length (ob ++ hb) = length ob + 8)%nat) by by rewrite length_app.
  eapply wp_mono; [apply wp_conj; [apply (tbuf_pop_spec p (ob ++ hb) 8 _ fl1); [done..|lia]|]|].
  { instantiate (1 := λ r bp', ob ≠ [] → ∃ b', r = Some p ∧ store bp' !! p = Some b' ∧ head b' = 8).
    destruct (decide (ob = [])) as [->|Hne].
    - eapply wp_mono; [apply (tbuf_pop_spec p ([] ++ hb) 8 _ fl1); [done..|simpl; lia]|]. done.
    - eapply wp_mono; [eapply (tbuf_pop_head p b (ob ++ hb) 8); try done|].
      + assert (length ob ≠ 0)%nat by by destruct ob. lia.
      + rewrite Hhd. intros r bp' (b' & -> & ? & ?) _. by exists b'. }
  intros r bp' [(fl' & _ & Hst' & Ht') Hhead]. wp_step. wp_step. eapply wp_conn_at; [exact Hx1|].
  unfold conn_put. wp_steps. split; [done|]. exists (set_obuf r (set_obuf (Some p) x)), fl'. split_and!.
  - simpl. by rewrite lookup_insert_eq.
  - done.
  - apply Hst'.
  - exact Ht'.
  - intros Hne. destruct (Hhead Hne) as (b' & -> & ? & ?). by exists p, b'.
  - done.
  - done.
Qed.

(** ** Writing *)

Section writing.
Context `{!SinkLaws K}.

(** The connection object after [clean_conn]. *)
Definition closed (c : Z) w : Prop :=
  ∃ x fl, w_conns w !! c = Some x ∧ _connfd x = -1 ∧ _loop x = None ∧ ibuf x = None ∧
    obuf x = None ∧ pool_inv (w_bufs w) fl.

Lemma clean_conn_closes w fl c x i lp ib ob :
  conn_ok w fl c x i lp ib ob → quiet (connCloseCb (w_server w)) c →
  is_int (_curr_conns (w_server w) - 1) →
  wp (clean_conn conn_fn c) (λ _ w', closed c w') w.
Proof.
  intros Hok Hq Hn. eapply wp_mono; [by eapply clean_conn_spec|].
  intros [] w' (s & u & p & bp' & bp1 & fl1 & fl' & _ & -> & _ & Hst & _).
  eexists _, fl'. split; [simpl; by rewrite lookup_insert_eq|]. split_and!; try done. apply Hst.
Qed.

Lemma conn_ok_bufs w fl c x i lp ib ob bp' k' ob' :
  conn_ok w fl c x i lp ib ob → step (obuf x) (obuf x) (w_bufs w) bp' fl fl →
  tbuf bp' fl (obuf x) ob' → at_start bp' (obuf x) →
  conn_ok (set_bufs bp' (set_kern k' w)) fl c x i lp ib ob'.
Proof.
  intros Hok Hst Ht Hs.
  destruct (conn_ok_tx w fl c x i lp ib ob _ bp' fl ob' Hok Hst Ht Hs) as [? ? ? ? ? ? ? ?].
  destruct Hok. by split.
Qed.

(** One call of [write_fd] for the connection. *)
Lemma conn_write_spec retries c x i lp ib fl ob w :
  conn_ok w fl c x i lp ib ob → ob ≠ [] → (patience < retries)%nat →
  ∃ r k1, retry retries (sys_write (_connfd x) ob) (w_kern w) = Ok (r, k1) ∧
    wp (zoom w_io (write_fd retries (obuf x) (_connfd x))) (λ ret w',
      ret = match r with inr n => n | inl EAGAIN => 0 | inl _ => -1 end ∧
      ∃ bp', w' = set_bufs bp' (set_kern k1 w) ∧
        conn_ok w' fl c x i lp ib (drop (Z.to_nat (Z.max 0 ret)) ob)) w.
Proof.
  intros Hok Hne Hret. pose proof (ok_obuf _ _ _ _ _ _ _ _ Hok) as Hob.
  destruct (obuf x) as [p|] eqn:Hp; [|simpl in Hob; by subst].
  destruct (sink_patient (_connfd x) ob (w_kern w)) as [[r k1] Hr].
  apply (retry_more _ _ retries) in Hr; [|lia]. exists r, k1. split; [done|].
  pose proof (retry_sent _ _ _ _ _ _ Hr) as Hsent.
  pose proof (ok_start _ _ _ _ _ _ _ _ Hok) as Hs. rewrite Hp in Hs. wp_step. cbn [view w_io].
  eapply wp_mono; [apply (write_fd_spec retries p (_connfd x) ob r (w_kern w) k1 (w_bufs w) fl); try done|].
  - apply Hok.
  - intros n ->. apply Hsent.
  - intros ret [k2 bp'] (Hret' & Hk & Hst & Ht & Hs'). cbn [kern bufs] in *. subst k2. split; [done|].
    exists bp'. split; [done|]. cbn [update w_io kern bufs]. eapply conn_ok_bufs; [exact Hok|by rewrite Hp..].
Qed.

(** From [k], the calls of [write] on [fd] took [ob] piece by piece, until in [k']
    only [bs] is left. *)
Inductive writes (retries : nat) (fd : Z) : K → list byte → K → list byte → Prop :=
  | writes_done k ob : writes retries fd k ob k ob
  | writes_more k ob n k1 k' bs :
      ob ≠ [] → retry retries (sys_write fd ob) k = Ok (inr n, k1) → 0 < n →
      writes retries fd k1 (drop (Z.to_nat n) ob) k' bs → writes retries fd k ob k' bs.

(** What ends them before all is written: the socket has no room, or [write] fails. *)
Definition write_blocks (retries : nat) (fd : Z) (k : K) (ob bs : list byte) : Prop :=
  ∃ k1 r k2, writes retries fd k ob k1 bs ∧ retry retries (sys_write fd bs) k1 = Ok (r, k2) ∧
    (r = inl EAGAIN ∨ r = inr 0).
Definition write_fails (retries : nat) (fd : Z) (k : K) (ob : list byte) : Prop :=
  ∃ k1 bs e k2, writes retries fd k ob k1 bs ∧ bs ≠ [] ∧
    retry retries (sys_write fd bs) k1 = Ok (inl e, k2) ∧ e ≠ EAGAIN.

(** The loop empties the buffer into the socket; [R] is what [write] keeps.  When
    the first [write] takes something, the buffer gets shorter. *)
Lemma handle_write_loop_spec (R : K → Prop) retries c x i lp ib fl ob :
  (∀ fd bs k r k', sys_write fd bs k = (r, k') → R k → R k') → ∀ fuel w, R (w_kern w) →
  conn_ok w fl c x i lp ib ob → (length ob < fuel)%nat → (patience < retries)%nat →
  quiet (connCloseCb (w_server w)) c → is_int (_curr_conns (w_server w) - 1) →
  wp (handle_write_loop conn_fn fuel retries c) (λ open w',
    if (open : bool) then ∃ bp' k' ob', w' = set_bufs bp' (set_kern k' w) ∧
      conn_ok w' fl c x i lp ib ob' ∧
      sent (_connfd x) k' ++ ob' = sent (_connfd x) (w_kern w) ++ ob ∧ R k' ∧
      (length ob' ≤ length ob)%nat ∧
      (∀ n k1, retry retries (sys_write (_connfd x) ob) (w_kern w) = Ok (inr n, k1) → 0 < n →
        ob ≠ [] → (length ob' < length ob)%nat) ∧
      (ob' = [] ∨ write_blocks retries (_connfd x) (w_kern w) ob ob')
    else closed c w' ∧ write_fails retries (_connfd x) (w_kern w) ob) w.
Proof.
  intros HRw. remember (length ob) as len eqn:Hlen. revert ob Hlen.
  induction len as [len IH] using lt_wf_ind. intros ob -> fuel w HRk Hok Hf Hret Hq Hn.
  destruct fuel as [|fuel]; [lia|]. cbn [handle_write_loop].
  wp_step. eapply wp_obuf_length; [exact Hok|].
  destruct (Z.eqb_spec (Z.of_nat (length ob)) 0) as [Hz|Hz]; cbn [negb].
  { wp_step. exists (w_bufs w), (w_kern w), ob. destruct ob; [|done]. destruct w; split_and!; try done; by left. }
  wp_step. eapply wp_conn_at; [apply Hok|].
  destruct (conn_write_spec retries c x i lp ib fl ob w Hok) as (r & k1 & Hr & Hw); [by destruct ob|done|].
  pose proof (retry_sent _ _ _ _ _ _ Hr) as Hsent. pose proof (retry_keeps R _ _ _ _ _ _ (HRw _ _) Hr HRk) as HRk1.
  wp_step. eapply wp_mono; [exact Hw|]. intros ret w1 (Hretv & bp' & -> & Hok').
  destruct (Z.eqb_spec ret (-1)) as [Hm1|Hm1].
  { wp_step. eapply wp_mono; [by eapply clean_conn_closes|]. intros [] w' Hc. wp_steps. split; [done|].
    destruct r as [e|n]; [|lia]. exists (w_kern w), ob, e, k1. split; [constructor|].
    split; [by destruct ob|]. split; [done|]. intros ->. simpl in *. lia. }
  destruct (Z.eqb_spec ret 0) as [H0|H0].
  - rewrite H0 in Hok'. simpl in Hok'. wp_step. exists bp', k1, ob. do 2 (split; [done|]).
    split; [|split; [done|split; [done|split]]].
    + f_equal. destruct r as [e|n]; [exact Hsent|]. destruct Hsent as [_ ->]. subst ret. rewrite H0. by rewrite app_nil_r.
    + intros n k2 Hr2 Hpos _. rewrite Hr in Hr2. injection Hr2 as -> _. lia.
    + right. exists (w_kern w), r, k1. split; [constructor|]. split; [done|].
      destruct r as [e|n]; [|right; congruence]. left. destruct e; congruence || lia.
  - destruct r as [e|n]; [destruct e; congruence|]. subst ret. destruct Hsent as [Hrange Hsent].
    rewrite Z.max_r in Hok' by lia.
    assert (Hlen' : (length (drop (Z.to_nat n) ob) < length ob)%nat) by (rewrite length_drop; lia).
    eapply wp_mono; [apply (IH (length (drop (Z.to_nat n) ob)) ltac:(lia) _ eq_refl fuel (set_bufs bp' (set_kern k1 w)) HRk1 Hok'); [lia|done..]|].
    assert (Hmore : ∀ k2 bs, writes retries (_connfd x) k1 (drop (Z.to_nat n) ob) k2 bs →
      writes retries (_connfd x) (w_kern w) ob k2 bs).
    { intros k2 bs Hw2. eapply writes_more; [by destruct ob|exact Hr|lia|exact Hw2]. }
    intros open w'. destruct open.
    2:{ intros (? & k2 & bs & e & k3 & Hws%Hmore & ?). split; [done|]. by exists k2, bs, e, k3. }
    intros (bp2 & k2 & ob2 & -> & Hok2 & Hs2 & HR2 & Hle & _ & Hend).
    exists bp2, k2, ob2. split; [by destruct w|]. split; [done|].
    split; [|split; [done|split; [lia|split; [intros; lia|]]]].
    + rewrite Hs2. simpl. by rewrite Hsent, <- app_assoc, take_drop.
    + destruct Hend as [?|(k3 & r & k4 & Hws%Hmore & ?)]; [by left|right]. by exists k3, r, k4.
Qed.
End writing.
End spec.
