(* ===== verification/SafeState.v ===== *)
(** * The state of a server that is in order

    The invariant behind the safety of a server (SafeServer.v, PoolSafe.v): what
    holds between any two operations of any of its threads, whatever the peers have
    sent.  Unlike the invariants of the functional theorems it says nothing about
    what the buffers hold or where their data starts. *)
From S2P Require Import Prelude EventBase TimerQueue HeapFacts TimerHeap TimerQueueSpec TimerQueueProps.
From S2P Require Import Kernel IoBuffer BufferPool TcpBuffer BufferSafe.
From S2P Require Import Wire EventLoop EventLoopProps Net World TcpConn TcpConnSpec.

(** The two buffers of a connection: [true] for the incoming one. *)
Definition cbuf (s : bool) (x : tcp_conn) : option ptr := if s then ibuf x else obuf x.
Definition set_cbuf (s : bool) (b : option ptr) (x : tcp_conn) : tcp_conn :=
  if s then set_ibuf b x else set_obuf b x.

Lemma cbuf_set s b x : cbuf s (set_cbuf s b x) = b.
Proof. by destruct s. Qed.
Lemma cbuf_set_other s s' b x : s ≠ s' → cbuf s' (set_cbuf s b x) = cbuf s' x.
Proof. by destruct s, s'. Qed.

Section state.
Context {K U : Type} `{DescriptorLaws K} `{!SinkLaws K}.
Implicit Types (w : world K U) (lp : event_loop) (i j : nat) (fl : Z → list ptr).

(** ** Connections *)

(** Connection [c] is in use, on the loop of thread [i]. *)
Definition on_thread w (c : Z) i : Prop := ∃ x, w_conns w !! c = Some x ∧ _loop x = Some i.

(** The connections in use. *)
Definition live_conns w : gset Z := dom (filter (λ cx, is_Some (_loop cx.2)) (w_conns w)).

Lemma elem_of_live w c : c ∈ live_conns w ↔ ∃ i, on_thread w c i.
Proof.
  unfold live_conns, on_thread. rewrite elem_of_dom. split.
  - intros [x [? [i ?]]%map_lookup_filter_Some]. by exists i, x.
  - intros (i & x & ? & ?). exists x. apply map_lookup_filter_Some. split; [done|]. simpl. by exists i.
Qed.

Lemma on_thread_unique w c i j : on_thread w c i → on_thread w c j → i = j.
Proof. intros (x & ? & ?) (y & ? & ?). by simplify_eq. Qed.

(** A connection object is in use, or closed. *)
Definition conn_state (c : Z) (x : tcp_conn) : Prop :=
  (_connfd x = c ∧ is_Some (_loop x)) ∨ (_loop x = None ∧ ibuf x = None ∧ obuf x = None).

(** The objects of the server: each is in the slot of its descriptor, they are
    counted, and, without a pool, no more than the limit. *)
Record objs_ok w : Prop := {
  ob_state c x : w_conns w !! c = Some x → conn_state c x;
  ob_slots fd c : conns (w_server w) !! fd = Some c → c = fd ∧ is_Some (w_conns w !! fd);
  ob_range c : c ∈ live_conns w → 0 ≤ c < _conns_size (w_server w);
  ob_size : is_int (_conns_size (w_server w));
  ob_count : _curr_conns (w_server w) = Z.of_nat (size (live_conns w));
  ob_limit : _thd_pool (w_server w) = None → _curr_conns (w_server w) ≤ Z.max 0 (_max_conns (w_server w));
  ob_dispatcher : dispatcher_ok (dispatcher (w_server w));
}.

(** The buffers are those of one pool, and no two connections share one. *)
Record bufs_ok w fl : Prop := {
  bo_pool : pool_inv (w_bufs w) fl;
  bo_bufs c x s : w_conns w !! c = Some x → ∃ bs, tbuf (w_bufs w) fl (cbuf s x) bs;
  bo_apart c x s c' x' s' : w_conns w !! c = Some x → w_conns w !! c' = Some x' →
    c ≠ c' ∨ s ≠ s' → apart (cbuf s x) (cbuf s' x');
}.

(** ** Loops and queues *)

(** The registration of a connection. *)
Record conn_entry (c : Z) (ev : io_event) : Prop := {
  ce_mask : has EPOLLIN (mask ev) = true;
  ce_read : read_cb ev = Some tcp_rcb ∧ rcb_args ev = v_tcp_conn c;
  ce_write f : write_cb ev = Some f → f = tcp_wcb ∧ wcb_args ev = v_tcp_conn c;
}.

(** What may be registered in the loop of thread [i]: the listening socket (in the
    main thread), the timerfd, the eventfd of its queue (in a thread of the pool),
    and its connections. *)
Inductive entry_ok w i (fd : Z) (ev : io_event) : Prop :=
  | listener_entry : i = 0%nat → read_cb ev = Some accepter_cb → rcb_args ev = v_tcp_server →
      write_cb ev = None → entry_ok w i fd ev
  | timer_entry : read_cb ev = Some timerqueue_cb → write_cb ev = None → entry_ok w i fd ev
  | queue_entry q : i = S q → is_Some (w_queues w !! q) → read_cb ev = Some msg_comming_cb →
      rcb_args ev = v_thread_queue q → write_cb ev = None → entry_ok w i fd ev
  | live_entry : on_thread w fd i → conn_entry fd ev → entry_ok w i fd ev.

Record loop_ok w i lp : Prop := {
  lo_inv : loop_inv (EvSt (w_kern w) lp);
  lo_timers : no_timers (_timer_que lp);
  lo_tasks : tasks (_pendingFactors lp) = [];
  lo_clock : ∃ fd ev, _io_evs lp !! fd = Some ev ∧ read_cb ev = Some timerqueue_cb;
  lo_entries fd ev : _io_evs lp !! fd = Some ev → entry_ok w i fd ev;
}.

(** Descriptors that wait to be registered are in a message, or wake a thread that
    has not started. *)
Inductive holder := Mailbox (q : nat) | Waker (q : nat).

Definition holds w (h : holder) (fd : Z) : Prop :=
  match h with
  | Mailbox q => ∃ tq, w_queues w !! q = Some tq ∧ NEW_CONN fd ∈ _queue tq
  | Waker q => ∃ tq, w_queues w !! q = Some tq ∧ w_loops w !! S q = None ∧ _evfd tq = fd
  end.

(** An open descriptor that no loop watches. *)
Definition idle_fd w (fd : Z) : Prop :=
  0 ≤ fd ∧ is_open fd (w_kern w) ∧ ∀ e, interest e (w_kern w) !! fd = None.

(** The queues of the threads the pool can choose exist. *)
Definition pool_ok w (p : thread_pool) : Prop :=
  0 ≤ _curr_index p ≤ _thread_cnt p ∧ 0 < _thread_cnt p ∧
  ∀ t, (t < Z.to_nat (_thread_cnt p))%nat → is_Some (w_queues w !! t).

(** The loops of the threads share no descriptor; every connection in use is
    registered in its loop; and every descriptor that waits does so once. *)
Record threads_ok w : Prop := {
  th_main : srv_loop (w_server w) = 0%nat ∧ is_Some (w_loops w !! 0%nat);
  th_loops i lp : w_loops w !! i = Some lp → loop_ok w i lp;
  th_apart i j lp lp' : w_loops w !! i = Some lp → w_loops w !! j = Some lp' → i ≠ j →
    _epfd lp ≠ _epfd lp' ∧ ∀ fd, is_Some (_io_evs lp !! fd) → _io_evs lp' !! fd = None;
  th_live c i : on_thread w c i → ∃ lp ev, w_loops w !! i = Some lp ∧ _io_evs lp !! c = Some ev ∧ conn_entry c ev;
  th_idle h fd : holds w h fd → idle_fd w fd;
  th_once h h' fd : holds w h fd → holds w h' fd → h = h';
  th_nodup q tq : w_queues w !! q = Some tq → NoDup (_queue tq);
  th_msgs q tq m : w_queues w !! q = Some tq → m ∈ _queue tq →
    ∃ fd, m = NEW_CONN fd ∧ fd < _conns_size (w_server w) ∧ is_Some (_thd_pool (w_server w));
  th_pool p : _thd_pool (w_server w) = Some p → pool_ok w p;
}.

Record server_ok w fl : Prop := {
  so_objs : objs_ok w;
  so_bufs : bufs_ok w fl;
  so_threads : threads_ok w;
}.

Lemma server_loop_ok w fl i lp : server_ok w fl → w_loops w !! i = Some lp → loop_ok w i lp.
Proof. intros Hok. apply th_loops, Hok. Qed.
Lemma server_pool_inv w fl : server_ok w fl → pool_inv (w_bufs w) fl.
Proof. intros Hok. apply (bo_pool _ _ (so_bufs _ _ Hok)). Qed.

(** ** What an operation leaves *)

(** The registration [ev'] watches for all that [ev] does. *)
Definition watches_more (ev ev' : io_event) : Prop :=
  ∀ bit, has bit (mask ev) = true → has bit (mask ev') = true.

(** All registrations but that of [c] in the loop of thread [i] stay, possibly for
    more events. *)
Definition keeps_regs i (c : Z) w w' : Prop :=
  ∀ j lp, w_loops w !! j = Some lp → ∃ lp', w_loops w' !! j = Some lp' ∧
    ∀ fd ev, j ≠ i ∨ fd ≠ c → _io_evs lp !! fd = Some ev →
      ∃ ev', _io_evs lp' !! fd = Some ev' ∧ watches_more ev ev'.

(** Connection [d] is as it was: its object, what is in its buffers, and what was
    sent on it. *)
Definition same_conn (d : Z) w w' : Prop :=
  w_conns w' !! d = w_conns w !! d ∧
  (∀ x s p, w_conns w !! d = Some x → cbuf s x = Some p → store (w_bufs w') !! p = store (w_bufs w) !! p) ∧
  sent d (w_kern w') = sent d (w_kern w).

#[global] Instance same_conn_preorder d : PreOrder (same_conn d).
Proof.
  split; [by split|]. intros w1 w2 w3 (Hc1 & Hb1 & Hs1) (Hc2 & Hb2 & Hs2). split; [by rewrite Hc2|].
  split; [|by rewrite Hs2]. intros x s p Hx Hp. rewrite (Hb2 x s p); [|by rewrite Hc1|done]. by eapply Hb1.
Qed.

Lemma same_conn_thread d i w w' : same_conn d w w' → on_thread w d i → on_thread w' d i.
Proof. intros (Hc & _) (x & ? & ?). exists x. by rewrite Hc. Qed.

(** No connection in use but [c] is touched. *)
Definition spares (c : Z) w w' : Prop := ∀ d i, d ≠ c → on_thread w d i → same_conn d w w'.

#[global] Instance spares_preorder c : PreOrder (spares c).
Proof.
  split; [by intros w d i|]. intros w1 w2 w3 H12 H23 d i Hd Hi. pose proof (H12 d i Hd Hi) as Hs.
  etrans; [exact Hs|]. eapply H23; [done|by eapply same_conn_thread].
Qed.

Lemma spares_same c w w' :
  w_conns w' = w_conns w → w_bufs w' = w_bufs w → mute c (w_kern w) (w_kern w') → spares c w w'.
Proof. intros Hc Hb Hm d i Hd _. split; [by rewrite Hc|]. split; [by rewrite Hb|]. by apply Hm. Qed.

(** What an operation of thread [i] for connection [c] does to the others: their
    registrations stay, no object goes away, no thread starts, and no other
    connection is touched. *)
Record kept i (c : Z) w w' : Prop := {
  kept_loops : keeps_regs i c w w';
  kept_others : spares c w w';
  kept_objs c' : is_Some (w_conns w !! c') → is_Some (w_conns w' !! c');
  kept_threads j : w_loops w !! j = None → w_loops w' !! j = None;
}.

Lemma kept_same i c w w' :
  w_loops w' = w_loops w → (∀ c', is_Some (w_conns w !! c') → is_Some (w_conns w' !! c')) →
  spares c w w' → kept i c w w'.
Proof.
  intros Hl Hc Hs. split; [|done|done|by rewrite Hl]. intros j lp Hlp. exists lp. rewrite Hl. split; [done|].
  intros fd ev _ Hev. exists ev. by split; [|intros bit].
Qed.
Lemma kept_refl i c w : kept i c w w.
Proof. by apply kept_same. Qed.
Lemma kept_trans i c w1 w2 w3 : kept i c w1 w2 → kept i c w2 w3 → kept i c w1 w3.
Proof.
  intros [Hk1 Ho1 ? ?] [Hk2 Ho2 ? ?]. split; [|by etrans|auto..]. intros j lp Hlp.
  destruct (Hk1 j lp Hlp) as (lp2 & Hlp2 & He2). destruct (Hk2 j lp2 Hlp2) as (lp3 & Hlp3 & He3).
  exists lp3. split; [done|]. intros fd ev Hne Hev. destruct (He2 fd ev Hne Hev) as (ev2 & Hev2 & Hm).
  destruct (He3 fd ev2 Hne Hev2) as (ev3 & ? & Hm'). exists ev3. split; [done|]. intros bit ?. by apply Hm', Hm.
Qed.

(** The outcome of an operation of thread [i] for [c]. *)
Definition still_ok i (c : Z) w w' : Prop := ∃ fl', server_ok w' fl' ∧ kept i c w w'.

(** ** Threads, when one connection of one thread changes *)

Lemma entry_ok_mono w w' i fd ev :
  entry_ok w i fd ev → (∀ q, is_Some (w_queues w !! q) → is_Some (w_queues w' !! q)) →
  (on_thread w fd i → on_thread w' fd i) → entry_ok w' i fd ev.
Proof.
  intros [| |q|] Hq Ht; [by apply listener_entry|by apply timer_entry|apply (queue_entry _ _ _ _ q); auto|apply live_entry; auto].
Qed.

(** The members of the server the threads depend on. *)
Definition same_server w w' : Prop :=
  srv_loop (w_server w') = srv_loop (w_server w) ∧ _conns_size (w_server w') = _conns_size (w_server w) ∧
  _thd_pool (w_server w') = _thd_pool (w_server w).

(** Thread [i], whose loop was [lp], has changed the registration of [c], if at
    all; nothing else is different to the threads. *)
Record acted i (c : Z) lp lp' w w' : Prop := {
  ac_loops : w_loops w' = <[i := lp']> (w_loops w);
  ac_inv : loop_inv (EvSt (w_kern w') lp');
  ac_rest : same_rest (EvSt (w_kern w) lp) (EvSt (w_kern w') lp');
  ac_elsewhere e f : e ≠ _epfd lp → f ≠ c ∨ interest e (w_kern w) !! c = None →
    interest e (w_kern w') !! f = interest e (w_kern w) !! f;
  ac_open f : f ≠ c → is_open f (w_kern w) → is_open f (w_kern w');
  ac_evs fd : fd ≠ c → _io_evs lp' !! fd = _io_evs lp !! fd;
  ac_queues : w_queues w' = w_queues w;
  ac_server : same_server w w';
  ac_threads d j : d ≠ c → (on_thread w' d j ↔ on_thread w d j);
  ac_entry : match _io_evs lp' !! c with
    | Some ev => on_thread w' c i ∧ conn_entry c ev
    | None => ∀ j, ¬ on_thread w' c j
    end;
}.

(** Before: the loop of no other thread has [c], and it does not wait. *)
Record owned w i (c : Z) lp : Prop := {
  ow_lp : w_loops w !! i = Some lp;
  ow_free h : ¬ holds w h c;
  ow_else j lp' : w_loops w !! j = Some lp' → j ≠ i → _io_evs lp' !! c = None;
  ow_entry ev : _io_evs lp !! c = Some ev → conn_entry c ev;
}.

Lemma interests_lookup w i lp fd :
  loop_ok w i lp → interest (_epfd lp) (w_kern w) !! fd = mask <$> _io_evs lp !! fd.
Proof. intros Hl. pose proof (loop_mirror _ (lo_inv _ _ _ Hl)) as Hm. unfold interests in Hm. simpl in Hm. by rewrite Hm, lookup_fmap. Qed.

Lemma interest_none_unregistered w i lp fd :
  loop_ok w i lp → (interest (_epfd lp) (w_kern w) !! fd = None ↔ _io_evs lp !! fd = None).
Proof. intros Hl. rewrite (interests_lookup _ _ _ _ Hl). by destruct (_io_evs lp !! fd). Qed.

(** An idle descriptor is registered nowhere. *)
Lemma idle_unregistered w i lp fd : loop_ok w i lp → idle_fd w fd → _io_evs lp !! fd = None.
Proof. intros Hl (_ & _ & Hn). by apply (interest_none_unregistered w i). Qed.

Lemma idle_not_live w fd i : threads_ok w → idle_fd w fd → ¬ on_thread w fd i.
Proof.
  intros Ht Hfd Hon. destruct (th_live _ Ht fd i Hon) as (lp & ev & Hlp & Hev & _).
  pose proof (idle_unregistered w i lp fd (th_loops _ Ht i lp Hlp) Hfd). congruence.
Qed.

Lemma owned_live w c i : threads_ok w → on_thread w c i → ∃ lp, owned w i c lp ∧ ∃ ev, _io_evs lp !! c = Some ev ∧ conn_entry c ev.
Proof.
  intros Ht Hon. destruct (th_live _ Ht c i Hon) as (lp & ev & Hlp & Hev & Hce). exists lp. split; [|by exists ev].
  split; [done|..].
  - intros h Hh%(th_idle _ Ht). by eapply idle_not_live.
  - intros j lp' Hlp' Hne. apply (proj2 (th_apart _ Ht i j lp lp' Hlp Hlp' ltac:(done))). by exists ev.
  - intros ev' Hev'. by simplify_eq.
Qed.

Lemma owned_idle w c i lp :
  threads_ok w → w_loops w !! i = Some lp → idle_fd w c → (∀ h, ¬ holds w h c) → owned w i c lp.
Proof.
  intros Ht Hlp Hc Hh. split; [done|done|..].
  - intros j lp' Hlp' _. apply (idle_unregistered w j); [by apply Ht|done].
  - intros ev Hev. pose proof (idle_unregistered w i lp c (th_loops _ Ht i lp Hlp) Hc). congruence.
Qed.

Section acted.
Context i (c : Z) lp lp' w w' (Ht : threads_ok w) (Hown : owned w i c lp) (Hac : acted i c lp lp' w w').

Lemma acted_loops j lpj :
  w_loops w' !! j = Some lpj → (j = i ∧ lpj = lp') ∨ (j ≠ i ∧ w_loops w !! j = Some lpj).
Proof using Hac. rewrite (ac_loops _ _ _ _ _ _ Hac). intros [[<- <-]|[? ?]]%lookup_insert_Some; auto. Qed.

Lemma acted_holds h f : holds w' h f → holds w h f.
Proof using Hac Hown.
  destruct h as [q|q]; simpl; rewrite (ac_queues _ _ _ _ _ _ Hac); [done|].
  rewrite (ac_loops _ _ _ _ _ _ Hac). intros (tq & Hq & [Hne Hn]%lookup_insert_None & He). by exists tq.
Qed.

Lemma acted_interest e f : f ≠ c → interest e (w_kern w') !! f = interest e (w_kern w) !! f.
Proof using Hac Hown Ht.
  intros Hf. destruct (decide (e = _epfd lp)) as [->|Hne]; [|apply (ac_elsewhere _ _ _ _ _ _ Hac); auto].
  pose proof (th_loops _ Ht i lp (ow_lp _ _ _ _ Hown)) as Hl. rewrite (interests_lookup _ _ _ _ Hl).
  pose proof (loop_mirror _ (ac_inv _ _ _ _ _ _ Hac)) as Hm. unfold interests in Hm. simpl in Hm.
  pose proof (proj1 (ac_rest _ _ _ _ _ _ Hac)) as Hep. simpl in Hep. rewrite Hep in Hm.
  by rewrite Hm, lookup_fmap, (ac_evs _ _ _ _ _ _ Hac).
Qed.

Lemma acted_idle f : f ≠ c → idle_fd w f → idle_fd w' f.
Proof using Hac Hown Ht.
  intros Hf (Hge & Ho & Hn). split; [done|]. split; [by eapply ac_open|]. intros e. by rewrite acted_interest.
Qed.

(** The loop that acted. *)
Lemma acted_loop_ok : loop_ok w' i lp'.
Proof using Hac Hown Ht.
  pose proof (th_loops _ Ht i lp (ow_lp _ _ _ _ Hown)) as [Hi Htm Htk (tfd & tev & Htf & Hcb) Hent].
  destruct (ac_rest _ _ _ _ _ _ Hac) as (_ & Htq & Hpf). simpl in Htq, Hpf. split.
  - apply Hac.
  - by rewrite Htq.
  - by rewrite Hpf.
  - exists tfd, tev. split; [|done]. rewrite (ac_evs _ _ _ _ _ _ Hac); [done|]. intros ->.
    destruct (ce_read _ _ (ow_entry _ _ _ _ Hown _ Htf)). congruence.
  - intros fd ev Hev. destruct (decide (fd = c)) as [->|Hne].
    + pose proof (ac_entry _ _ _ _ _ _ Hac) as He. rewrite Hev in He. destruct He. by apply live_entry.
    + rewrite (ac_evs _ _ _ _ _ _ Hac) in Hev by done. eapply entry_ok_mono; [by apply Hent|by rewrite (ac_queues _ _ _ _ _ _ Hac)|].
      by intros ?%(ac_threads _ _ _ _ _ _ Hac).
Qed.

(** The others. *)
Lemma acted_other_loop j lpj : w_loops w !! j = Some lpj → j ≠ i → loop_ok w' j lpj.
Proof using Hac Hown Ht.
  intros Hlpj Hne. pose proof (th_loops _ Ht j lpj Hlpj) as [Hi Htm Htk Hcl Hent]. split; try done.
  - apply (loop_inv_kern (w_kern w)); [done|]. apply map_eq. intros f. apply (ac_elsewhere _ _ _ _ _ _ Hac).
    + by apply (th_apart _ Ht j i lpj lp Hlpj (ow_lp _ _ _ _ Hown)).
    + right. apply (interest_none_unregistered w j); [by apply Ht|]. by eapply ow_else.
  - intros fd ev Hev. eapply entry_ok_mono; [by apply Hent|by rewrite (ac_queues _ _ _ _ _ _ Hac)|].
    intros ?. apply (ac_threads _ _ _ _ _ _ Hac); [|done]. intros ->.
    rewrite (ow_else _ _ _ _ Hown j lpj Hlpj Hne) in Hev. done.
Qed.

Lemma acted_apart j lpj : w_loops w !! j = Some lpj → j ≠ i →
  _epfd lp' ≠ _epfd lpj ∧ ∀ fd, is_Some (_io_evs lp' !! fd) → _io_evs lpj !! fd = None.
Proof using Hac Hown Ht.
  intros Hlpj Hne. destruct (th_apart _ Ht i j lp lpj (ow_lp _ _ _ _ Hown) Hlpj ltac:(done)) as [He Hd].
  pose proof (proj1 (ac_rest _ _ _ _ _ _ Hac)) as Hep. simpl in Hep. split; [by rewrite Hep|]. intros fd Hs.
  destruct (decide (fd = c)) as [->|Hfd]; [by eapply ow_else|]. apply Hd. by rewrite (ac_evs _ _ _ _ _ _ Hac) in Hs.
Qed.

Lemma acted_live d j : on_thread w' d j →
  ∃ lpj ev, w_loops w' !! j = Some lpj ∧ _io_evs lpj !! d = Some ev ∧ conn_entry d ev.
Proof using Hac Hown Ht.
  intros Hon. rewrite (ac_loops _ _ _ _ _ _ Hac). destruct (decide (d = c)) as [->|Hne].
  - pose proof (ac_entry _ _ _ _ _ _ Hac) as He. destruct (_io_evs lp' !! c) as [ev|] eqn:Hev; [|by destruct (He j)].
    destruct He as [Hi Hce]. pose proof (on_thread_unique _ _ _ _ Hon Hi) as ->.
    exists lp', ev. by rewrite lookup_insert_eq.
  - apply (ac_threads _ _ _ _ _ _ Hac) in Hon; [|done]. destruct (th_live _ Ht d j Hon) as (lpj & ev & Hlpj & Hev & Hce).
    destruct (decide (j = i)) as [->|Hji].
    + rewrite (ow_lp _ _ _ _ Hown) in Hlpj. injection Hlpj as <-. exists lp', ev. rewrite lookup_insert_eq.
      by rewrite (ac_evs _ _ _ _ _ _ Hac).
    + exists lpj, ev. by rewrite lookup_insert_ne.
Qed.

Lemma acted_threads : threads_ok w'.
Proof using Hac Hown Ht.
  destruct (ac_server _ _ _ _ _ _ Hac) as (Hs1 & Hs2 & Hs3). split.
  - rewrite Hs1, (ac_loops _ _ _ _ _ _ Hac). destruct (th_main _ Ht) as [? Hm]. split; [done|].
    apply lookup_insert_is_Some. destruct (decide (i = 0%nat)); auto.
  - intros j lpj [[-> ->]|[Hne Hlpj]]%acted_loops; [apply acted_loop_ok|by apply acted_other_loop].
  - intros j j' lpj lpj' [[-> ->]|[Hne Hlpj]]%acted_loops [[-> ->]|[Hne' Hlpj']]%acted_loops Hjj.
    + done.
    + by apply (acted_apart j').
    + destruct (acted_apart j lpj Hlpj Hne) as [He Hd]. split; [by apply not_eq_sym|].
      intros fd [ev Hev]. apply eq_None_not_Some. intros Hs%Hd. congruence.
    + by eapply th_apart.
  - apply acted_live.
  - intros h fd Hh%acted_holds. apply acted_idle; [|by eapply th_idle]. intros ->. by eapply ow_free.
  - intros h h' fd Hh%acted_holds Hh'%acted_holds. by eapply th_once.
  - rewrite (ac_queues _ _ _ _ _ _ Hac). apply Ht.
  - rewrite (ac_queues _ _ _ _ _ _ Hac), Hs2, Hs3. apply Ht.
  - intros p. rewrite Hs3. intros Hp. destruct (th_pool _ Ht p Hp) as (? & ? & ?). split; [done|]. split; [done|].
    by rewrite (ac_queues _ _ _ _ _ _ Hac).
Qed.

Lemma acted_regs : keeps_regs i c w w'.
Proof using Hac Hown.
  intros j lpj Hlpj. rewrite (ac_loops _ _ _ _ _ _ Hac). destruct (decide (j = i)) as [->|Hne].
  - rewrite (ow_lp _ _ _ _ Hown) in Hlpj. injection Hlpj as <-. exists lp'. rewrite lookup_insert_eq. split; [done|].
    intros fd ev [?|Hne] Hev; [done|]. exists ev. rewrite (ac_evs _ _ _ _ _ _ Hac) by done. by split; [|intros bit].
  - exists lpj. rewrite lookup_insert_ne by done. split; [done|]. intros fd ev _ ?. exists ev. by split; [|intros bit].
Qed.

Lemma acted_unstarted j : w_loops w !! j = None → w_loops w' !! j = None.
Proof using Hac Hown.
  intros Hj. rewrite (ac_loops _ _ _ _ _ _ Hac). rewrite lookup_insert_ne; [done|]. intros ->.
  rewrite (ow_lp _ _ _ _ Hown) in Hj. done.
Qed.

Lemma acted_kept :
  (∀ d, is_Some (w_conns w !! d) → is_Some (w_conns w' !! d)) → spares c w w' → kept i c w w'.
Proof using Hac Hown. intros Hobj Hsp. split; [apply acted_regs|done..|apply acted_unstarted]. Qed.

(** When [c] is watched for no less than before, all registrations stay. *)
Lemma acted_kept_all j d :
  (∀ e, is_Some (w_conns w !! e) → is_Some (w_conns w' !! e)) →
  (∀ ev, _io_evs lp !! c = Some ev → ∃ ev', _io_evs lp' !! c = Some ev' ∧ watches_more ev ev') →
  spares d w w' → kept j d w w'.
Proof using Hac Hown.
  intros Hobj Hmore Hsp. split; [|done..|apply acted_unstarted]. intros j' lpj Hlpj.
  destruct (acted_regs j' lpj Hlpj) as (lpj' & Hlpj' & Hev). exists lpj'. split; [done|]. intros fd ev _ Hfd.
  destruct (decide (j' = i)) as [->|]; [|apply Hev; auto]. destruct (decide (fd = c)) as [->|]; [|apply Hev; auto].
  rewrite (ow_lp _ _ _ _ Hown) in Hlpj. injection Hlpj as <-.
  rewrite (ac_loops _ _ _ _ _ _ Hac), lookup_insert_eq in Hlpj'. injection Hlpj' as <-. by apply Hmore.
Qed.
End acted.

(** Calls that do not concern the loops, and changes of the objects other than of
    their threads. *)
Lemma threads_ok_calm w w' :
  threads_ok w → calm (w_kern w) (w_kern w') → w_loops w' = w_loops w → w_queues w' = w_queues w →
  same_server w w' → (∀ c i, on_thread w' c i ↔ on_thread w c i) → threads_ok w'.
Proof.
  intros [] [Hint Hop] Hl Hq (Hs1 & Hs2 & Hs3) Hon.
  assert (Hh : ∀ h fd, holds w' h fd ↔ holds w h fd) by (intros [] fd; simpl; by rewrite Hq, ?Hl).
  split; rewrite ?Hl, ?Hq, ?Hs1, ?Hs2, ?Hs3; try done.
  - intros i lp Hlp. destruct (th_loops0 i lp Hlp) as [Hi ? ? ? Hent]. split; try done.
    + by apply (loop_inv_kern (w_kern w)).
    + intros fd ev Hev. eapply entry_ok_mono; [by apply Hent|by rewrite Hq|by rewrite Hon].
  - intros c i. rewrite Hon. apply th_live0.
  - intros h fd. rewrite Hh. intros (? & ? & Hn)%th_idle0. split; [done|]. split; [by apply Hop|]. intros e. by rewrite Hint.
  - intros h h' fd. rewrite !Hh. apply th_once0.
  - intros p Hp. destruct (th_pool0 p Hp) as (? & ? & ?). split; [done|]. by rewrite Hq.
Qed.

(** ** Changes that keep the invariant *)

Lemma on_thread_insert w w' c x x' :
  w_conns w !! c = Some x → _loop x' = _loop x → w_conns w' = <[c := x']> (w_conns w) →
  ∀ d i, on_thread w' d i ↔ on_thread w d i.
Proof.
  intros Hx Hl Hw d i. unfold on_thread. rewrite Hw. destruct (decide (d = c)) as [->|Hne].
  - rewrite lookup_insert_eq, Hx. split; intros (y & [= <-] & Hy); eexists; (split; [done|]); congruence.
  - by rewrite lookup_insert_ne.
Qed.

Lemma live_same w w' : (∀ c i, on_thread w' c i ↔ on_thread w c i) → live_conns w' = live_conns w.
Proof. intros Hon. apply set_eq. intros c. rewrite !elem_of_live. by setoid_rewrite Hon. Qed.

(** Other buffers for a connection. *)
Lemma bufs_ok_buf w fl c x s b bp' fl' bs :
  bufs_ok w fl → w_conns w !! c = Some x → step (cbuf s x) b (w_bufs w) bp' fl fl' → tbuf bp' fl' b bs →
  bufs_ok (set_w_conns (<[c := set_cbuf s b x]> (w_conns w)) (set_bufs bp' w)) fl'.
Proof.
  intros [Hp Hb Ha] Hx Hst Ht. set (x' := set_cbuf s b x).
  assert (Hother : ∀ c1 x1 s1, w_conns w !! c1 = Some x1 → c1 ≠ c ∨ s1 ≠ s →
    (∃ bs, tbuf bp' fl' (cbuf s1 x1) bs) ∧ apart (cbuf s1 x1) b).
  { intros c1 x1 s1 Hx1 Hne. destruct (Hb c1 x1 s1 Hx1) as [bs1 Ht1]. pose proof (Ha c1 x1 s1 c x s Hx1 Hx Hne) as Ha1.
    split; [exists bs1; by eapply step_tbuf|by eapply step_apart]. }
  assert (Hget : ∀ c1 x1 s1, <[c := x']> (w_conns w) !! c1 = Some x1 →
    (c1 = c ∧ s1 = s ∧ cbuf s1 x1 = b) ∨
    (∃ x0, w_conns w !! c1 = Some x0 ∧ cbuf s1 x1 = cbuf s1 x0 ∧ (c1 ≠ c ∨ s1 ≠ s))).
  { intros c1 x1 s1 [[<- <-]|[Hne Hx1]]%lookup_insert_Some.
    - destruct (decide (s1 = s)) as [->|Hs]; [left; unfold x'; by rewrite cbuf_set|]. right. exists x.
      unfold x'. rewrite cbuf_set_other by done. auto.
    - right. exists x1. auto. }
  split; simpl; [apply Hst| |].
  - intros c1 x1 s1 [(-> & -> & ->)|(x0 & Hx0 & -> & Hne)]%(Hget _ _ s1); [by exists bs|].
    by apply (Hother c1 x0).
  - intros c1 x1 s1 c2 x2 s2 Hg1%(Hget _ _ s1) Hg2%(Hget _ _ s2) Hne.
    destruct Hg1 as [(-> & -> & ->)|(y1 & Hy1 & -> & Hn1)], Hg2 as [(-> & -> & ->)|(y2 & Hy2 & -> & Hn2)].
    + by destruct Hne.
    + intros p -> Hp'. by apply (proj2 (Hother c2 y2 s2 Hy2 Hn2) p).
    + by apply (Hother c1 y1).
    + by eapply Ha.
Qed.

(** A step on the buffers of [c] leaves those of the others as they are. *)
Lemma step_others w fl c x s own' bp' fl' d y s' p :
  bufs_ok w fl → w_conns w !! c = Some x → step (cbuf s x) own' (w_bufs w) bp' fl fl' →
  d ≠ c → w_conns w !! d = Some y → cbuf s' y = Some p →
  held bp' fl' p ∧ store bp' !! p = store (w_bufs w) !! p.
Proof.
  intros [_ Hb Ha] Hx Hst Hne Hy Hp. destruct (Hb d y s' Hy) as [bs Ht]. rewrite Hp in Ht. destruct Ht as [Hh (b & Hb' & _)].
  rewrite Hb'. apply (step_keeps _ _ _ _ _ _ Hst); [|done..]. by apply (Ha d y s' c x s Hy Hx (or_introl Hne)).
Qed.

Lemma spares_buf w w' fl c x s own' fl' :
  bufs_ok w fl → w_conns w !! c = Some x → step (cbuf s x) own' (w_bufs w) (w_bufs w') fl fl' →
  (∀ d, d ≠ c → w_conns w' !! d = w_conns w !! d) → mute c (w_kern w) (w_kern w') → spares c w w'.
Proof.
  intros Hb Hx Hst Hc Hm d i Hne _. split; [by apply Hc|]. split; [|by apply Hm].
  intros y s' p Hy Hp. apply (step_others w fl c x s own' (w_bufs w') fl' d y s' p Hb Hx Hst Hne Hy Hp).
Qed.

(** The objects, when one of them changes but not its thread. *)
Lemma objs_ok_insert w c x x' w' :
  objs_ok w → w_conns w !! c = Some x → _loop x' = _loop x → conn_state c x' →
  w_conns w' = <[c := x']> (w_conns w) → w_server w' = w_server w → objs_ok w'.
Proof.
  intros [] Hx Hl Hst Hw Hs. pose proof (on_thread_insert w w' c x x' Hx Hl Hw) as Hon.
  split; rewrite ?Hs, ?(live_same _ _ Hon); try done.
  - intros c1 x1. rewrite Hw. intros [[<- <-]|[_ Hx1]]%lookup_insert_Some; [done|by apply ob_state0].
  - intros fd c1 Hc. destruct (ob_slots0 fd c1 Hc) as [-> Hfd]. split; [done|]. rewrite Hw.
    apply lookup_insert_is_Some. destruct (decide (c = fd)); auto.
Qed.

Lemma server_ok_buf w fl c x s b bp' fl' bs :
  server_ok w fl → w_conns w !! c = Some x → (_loop x = None → b = None) →
  step (cbuf s x) b (w_bufs w) bp' fl fl' → tbuf bp' fl' b bs →
  server_ok (set_w_conns (<[c := set_cbuf s b x]> (w_conns w)) (set_bufs bp' w)) fl'.
Proof.
  intros [Ho Hb Ht] Hx Hl Hst Htb. assert (Hloop : _loop (set_cbuf s b x) = _loop x) by by destruct s.
  split; [|by eapply bufs_ok_buf|].
  - eapply (objs_ok_insert w c x); try done. destruct (ob_state _ Ho c x Hx) as [[? ?]|(Hnone & ? & ?)].
    + left. by destruct s.
    + right. rewrite (Hl Hnone). by destruct s.
  - eapply threads_ok_calm; [exact Ht|done..|]. by eapply on_thread_insert.
Qed.

Lemma server_ok_kern w fl k' :
  server_ok w fl → calm (w_kern w) k' → server_ok (set_kern k' w) fl.
Proof.
  intros [[] [] Ht] Hk. split; [by split..|]. by eapply threads_ok_calm.
Qed.

Lemma server_ok_user w fl u : server_ok w fl → server_ok (set_user u w) fl.
Proof. intros [[] [] Ht]. split; [by split..|]. by eapply threads_ok_calm. Qed.

(** ** Registrations *)

(** What registering and deregistering for [c] in loop [i] leaves. *)
Definition loop_changed i w (s' : ev_st K) : world K U :=
  set_loops (<[i := ev_loop s']> (w_loops w)) (set_kern (ev_kern s') w).

Lemma acted_register w c i lp ev' (s' : ev_st K) :
  on_thread w c i → loop_inv s' → same_rest (EvSt (w_kern w) lp) s' → by_ctl (EvSt (w_kern w) lp) s' →
  _io_evs (ev_loop s') = <[c := ev']> (_io_evs lp) → conn_entry c ev' →
  acted i c lp (ev_loop s') w (loop_changed i w s').
Proof.
  intros Hon Hi Hrest Hctl He Hce. split; try done; simpl.
  - by destruct s'.
  - intros e f Hne _. destruct Hctl as [-> | (op & fd & ev & ->)]; [done|]. by rewrite epoll_other.
  - intros f _ Hf. apply (ctl_ind (is_open f) _ _ Hctl); [done|]. intros. by apply open_epoll.
  - intros fd Hne. by rewrite He, lookup_insert_ne.
  - by rewrite He, lookup_insert_eq.
Qed.

Lemma server_ok_loop w fl c i lp lp' w' :
  server_ok w fl → owned w i c lp → acted i c lp lp' w w' →
  w_conns w' = w_conns w → w_bufs w' = w_bufs w → w_server w' = w_server w → server_ok w' fl.
Proof.
  intros [Ho Hb Ht] Hown Hac Hc Hbf Hs. split.
  - destruct Ho. unfold live_conns in *. split; unfold live_conns; rewrite ?Hc, ?Hs; done.
  - destruct Hb. split; rewrite ?Hbf, ?Hc; done.
  - by eapply acted_threads.
Qed.

(** ** Closing *)

Lemma on_thread_cleaned w c x i s bp u p d j :
  w_conns w !! c = Some x →
  (on_thread (cleaned c x i s bp u p w) d j ↔ d ≠ c ∧ on_thread w d j).
Proof.
  intros Hx. unfold on_thread. simpl. destruct (decide (d = c)) as [->|Hne].
  - rewrite lookup_insert_eq. split; [|tauto]. by intros (? & [= <-] & ?).
  - rewrite lookup_insert_ne by done. tauto.
Qed.

Lemma live_cleaned w c x i s bp u p :
  w_conns w !! c = Some x → live_conns (cleaned c x i s bp u p w) = live_conns w ∖ {[c]}.
Proof.
  intros Hx. apply set_eq. intros d. rewrite elem_of_difference, elem_of_singleton, !elem_of_live.
  setoid_rewrite (on_thread_cleaned w c x i s bp u p d _ Hx). naive_solver.
Qed.

(** Returning the buffers of [c] leaves those of the others. *)
Lemma bufs_ok_cleaned w fl c x i s bp1 bp' u p fl1 fl' :
  bufs_ok w fl → w_conns w !! c = Some x →
  step (ibuf x) None (w_bufs w) bp1 fl fl1 → step (obuf x) None bp1 bp' fl1 fl' →
  bufs_ok (cleaned c x i s bp' u p w) fl'.
Proof.
  intros [Hp Hb Ha] Hx Hst1 Hst2.
  assert (Hget : ∀ c1 x1, <[c := TcpConn (-1) None None None p]> (w_conns w) !! c1 = Some x1 →
    (x1 = TcpConn (-1) None None None p) ∨ (c1 ≠ c ∧ w_conns w !! c1 = Some x1)).
  { intros c1 x1 [[_ <-]|[? ?]]%lookup_insert_Some; auto. }
  split; simpl; [apply Hst2|..].
  - intros c1 x1 s1 [->|[Hne Hx1]]%Hget; [exists []; by destruct s1|].
    destruct (Hb c1 x1 s1 Hx1) as [bs Ht]. exists bs. pose proof (Ha c1 x1 s1 c x) as Ha1.
    eapply step_tbuf; [exact Hst2|exact (Ha1 false Hx1 Hx (or_introl Hne))|].
    eapply step_tbuf; [exact Hst1|exact (Ha1 true Hx1 Hx (or_introl Hne))|done].
  - intros c1 x1 s1 c2 x2 s2 [->|[_ Hy1]]%Hget [->|[_ Hy2]]%Hget Hne; [by destruct s1| |..].
    + by destruct s1.
    + intros q Hq. by destruct s2.
    + by eapply Ha.
Qed.

Lemma objs_ok_cleaned w c x i j s bp' u p :
  objs_ok w → w_conns w !! c = Some x → _loop x = Some i → objs_ok (cleaned c x j s bp' u p w).
Proof.
  intros [] Hx Hl. pose proof (live_cleaned w c x j s bp' u p Hx) as Hlc.
  assert (Hc : c ∈ live_conns w) by (apply elem_of_live; by exists i, x).
  pose proof (size_difference (live_conns w) {[c]}) as Hsize.
  rewrite size_singleton in Hsize. specialize (Hsize ltac:(set_solver)).
  assert (0 < size (live_conns w))%nat as Hpos.
  { destruct (decide (size (live_conns w) = 0%nat)) as [Hz|]; [|lia].
    apply size_empty_inv in Hz. set_solver. }
  split; try done; rewrite ?Hlc; simpl.
  - intros c1 x1 [[_ <-]|[_ Hx1]]%lookup_insert_Some; [by right|by apply ob_state0].
  - intros fd c1 Hc1. destruct (ob_slots0 fd c1 Hc1) as [-> Hs]. split; [done|].
    apply lookup_insert_is_Some. destruct (decide (c = fd)); auto.
  - intros d Hd. apply ob_range0. set_solver.
  - rewrite Hsize, ob_count0. lia.
  - intros Hnp. specialize (ob_limit0 Hnp). lia.
Qed.

Lemma acted_cleaned w c x i lp (s : ev_st K) bp' u p :
  threads_ok w → owned w i c lp → w_conns w !! c = Some x → _connfd x = c →
  loop_inv s → same_rest (EvSt (w_kern w) lp) s → by_ctl (EvSt (w_kern w) lp) s →
  _io_evs (ev_loop s) = delete c (_io_evs lp) →
  acted i c lp (ev_loop s) w (cleaned c x i s bp' u p w).
Proof.
  intros Ht Hown Hx <- Hi Hrest Hctl He. destruct s as [k l]. cbn [ev_loop ev_kern] in *.
  assert (Hk : ∀ e, e ≠ _epfd lp → interest e k = interest e (w_kern w)).
  { intros e Hne. destruct Hctl as [Hk | (op & fd & ev & Hk)]; cbn [ev_kern] in Hk; rewrite Hk; [done|]. by apply epoll_other. }
  split; try done; cbn [w_loops w_kern cleaned ev_kern ev_loop].
  - apply (loop_inv_kern k); [done|]. apply interest_close. change (interests (EvSt k l) !! _connfd x = None).
    rewrite (loop_mirror _ Hi), lookup_fmap. simpl. by rewrite He, lookup_delete_eq.
  - intros e f Hne Hf. rewrite <- (Hk e Hne) in Hf |- *. destruct (decide (f = _connfd x)) as [->|Hfc]; [|by apply close_others].
    destruct Hf as [|Hf]; [done|]. by rewrite interest_close.
  - intros f Hne Hf. apply open_close; [done|]. apply (ctl_ind (is_open f) _ _ Hctl); [done|]. intros. by apply open_epoll.
  - intros fd Hne. by rewrite He, lookup_delete_ne.
  - intros d j Hne. rewrite (on_thread_cleaned w (_connfd x) x i (EvSt k l) bp' u p d j Hx). tauto.
  - rewrite He, lookup_delete_eq. intros j. rewrite (on_thread_cleaned w (_connfd x) x i (EvSt k l) bp' u p _ j Hx). tauto.
Qed.

(** Closing spares the others. *)
Lemma spares_cleaned w fl c x i (s : ev_st K) bp1 bp' u p fl1 fl' :
  let w' := cleaned c x i s bp' u p w in
  bufs_ok w fl → w_conns w !! c = Some x →
  step (ibuf x) None (w_bufs w) bp1 fl fl1 → step (obuf x) None bp1 bp' fl1 fl' → mute c (w_kern w) (w_kern w') →
  spares c w w'.
Proof.
  intros w' Hb Hx Hst1 Hst2 Hm d j Hne _. split; [simpl; by rewrite lookup_insert_ne|]. split; [|by apply Hm].
  intros y s' q Hy Hq. destruct (step_others w fl c x true None bp1 fl1 d y s' q) as [Hh Heq]; try done.
  rewrite <- Heq. destruct (bo_bufs _ _ Hb d y s' Hy) as [bs Ht]. rewrite Hq in Ht. destruct Ht as [_ (b & Hb' & _)].
  rewrite Hb' in Heq. rewrite Heq. apply (step_keeps _ _ _ _ _ _ Hst2); [|done..].
  by apply (bo_apart _ _ Hb d y s' c x false Hy Hx (or_introl Hne)).
Qed.

Lemma server_ok_cleaned w fl c x i lp (s : ev_st K) bp1 bp' u p fl1 fl' :
  let w' := cleaned c x i s bp' u p w in
  server_ok w fl → owned w i c lp → w_conns w !! c = Some x → _connfd x = c → _loop x = Some i →
  loop_inv s → same_rest (EvSt (w_kern w) lp) s → by_ctl (EvSt (w_kern w) lp) s →
  _io_evs (ev_loop s) = delete c (_io_evs lp) →
  step (ibuf x) None (w_bufs w) bp1 fl fl1 → step (obuf x) None bp1 bp' fl1 fl' → mute c (w_kern w) (w_kern w') →
  server_ok w' fl' ∧ kept i c w w'.
Proof.
  intros w' [Ho Hb Ht] Hown Hx Hfd Hl Hi Hrest Hctl He Hst1 Hst2 Hm.
  assert (Hac : acted i c lp (ev_loop s) w w') by by eapply acted_cleaned.
  split; [split|].
  - by eapply objs_ok_cleaned.
  - by eapply bufs_ok_cleaned.
  - by eapply acted_threads.
  - eapply acted_kept; [exact Hown|exact Hac| |by eapply spares_cleaned]. intros d Hd.
    apply lookup_insert_is_Some. destruct (decide (c = d)); auto.
Qed.
End state.
