(* ===== verification/SafeConn.v ===== *)
(** * The operations of a connection are safe

    Every operation of src/tcp_conn.cc, started in a state that is in order, ends
    in one, or in a failed assertion or an exit, whatever the peer has sent. *)
From S2P Require Import Prelude EventBase TimerQueue Kernel IoBuffer BufferPool TcpBuffer BufferSafe.
From S2P Require Import Wire EventLoop EventLoopProps Net World TcpConn TcpConnSpec SafeState.

Section conn.
Context {K U : Type} `{NetLaws K}.
Variable conn_fn : conn_callback → Z → M (world K U) unit.
Implicit Types (w : world K U) (lp : event_loop) (i j : nat) (fl : Z → list ptr).

(** The number of bytes in the input buffer of [c]. *)
Definition input_len w (c : Z) : nat :=
  match (x ← w_conns w !! c; p ← ibuf x; store (w_bufs w) !! p) with
  | Some b => Z.to_nat (b_length b)
  | None => 0%nat
  end.

Lemma input_len_tbuf w c x fl bs :
  w_conns w !! c = Some x → tbuf (w_bufs w) fl (ibuf x) bs → input_len w c = length bs.
Proof.
  intros Hx Ht. unfold input_len. rewrite Hx. simpl. destruct (ibuf x) as [p|]; simpl in *; [|by subst].
  destruct Ht as [_ (b & -> & [-> _])]. lia.
Qed.

(** The user's callbacks for connections touch only the user's state and the
    [parameter]. *)
Hypothesis Hquiet : ∀ cb c, quiet conn_fn cb c.

Lemma swp_conn_at c x (Q : tcp_conn → world K U → Prop) w :
  w_conns w !! c = Some x → Q x w → swp (conn_at c) Q w.
Proof. intros. apply wp_swp. by eapply wp_conn_at. Qed.

Lemma live_conn w fl c i :
  server_ok w fl → on_thread w c i →
  ∃ x, w_conns w !! c = Some x ∧ _connfd x = c ∧ _loop x = Some i.
Proof.
  intros Hok (x & Hx & Hl). exists x. split; [done|].
  destruct (ob_state _ (so_objs _ _ Hok) c x Hx) as [[? _]|[Hn _]]; [done|congruence].
Qed.

Lemma dead_conn w fl c x :
  server_ok w fl → w_conns w !! c = Some x → (∀ i, ¬ on_thread w c i) → ibuf x = None ∧ obuf x = None.
Proof.
  intros Hok Hx Hc. destruct (ob_state _ (so_objs _ _ Hok) c x Hx) as [[_ [i Hl]]|[_ ?]]; [|done].
  destruct (Hc i). by exists x.
Qed.

Lemma conn_bufs w fl c x s : server_ok w fl → w_conns w !! c = Some x → ∃ bs, tbuf (w_bufs w) fl (cbuf s x) bs.
Proof. intros Hok. apply (bo_bufs _ _ (so_bufs _ _ Hok)). Qed.

Lemma still_ok_refl i c w fl : server_ok w fl → still_ok i c w w.
Proof. intros ?. exists fl. split; [done|]. apply kept_refl. Qed.

Lemma still_ok_trans i c w w1 w2 : kept i c w w1 → still_ok i c w1 w2 → still_ok i c w w2.
Proof. intros ? (fl' & ? & ?). exists fl'. split; [done|]. by eapply kept_trans. Qed.

Lemma still_ok_kept i c w w1 fl1 : server_ok w1 fl1 → kept i c w w1 → still_ok i c w w1.
Proof. intros ??. by exists fl1. Qed.

Lemma objs_insert w c x c' :
  is_Some (w_conns w !! c') → is_Some (<[c := x]> (w_conns w) !! c').
Proof. intros ?. apply lookup_insert_is_Some. destruct (decide (c = c')); auto. Qed.

(** ** Buffers *)

(** A step on the outgoing buffer leaves what came in alone. *)
Lemma input_len_tx w fl c x b bp' fl' k' c' :
  server_ok w fl → w_conns w !! c = Some x → step (obuf x) b (w_bufs w) bp' fl fl' →
  input_len (set_w_conns (<[c := set_obuf b x]> (w_conns w)) (set_bufs bp' (set_kern k' w))) c' = input_len w c'.
Proof.
  intros Hok Hx Hst. set (w' := set_w_conns _ _).
  destruct (w_conns w !! c') as [x1|] eqn:Hx1.
  - destruct (conn_bufs w fl c' x1 true Hok Hx1) as [bs Ht].
    assert (Ha : apart (ibuf x1) (obuf x)) by (apply (bo_apart _ _ (so_bufs _ _ Hok) c' x1 true c x false); auto).
    pose proof (step_tbuf _ _ _ _ _ _ _ _ Hst Ha Ht) as Ht'.
    rewrite (input_len_tbuf w c' x1 fl bs) by done.
    destruct (decide (c' = c)) as [->|Hne].
    + assert (x1 = x) as -> by congruence.
      eapply (input_len_tbuf w' c (set_obuf b x)); [|exact Ht']. simpl. by rewrite lookup_insert_eq.
    + eapply (input_len_tbuf w' c' x1); [|exact Ht']. simpl. by rewrite lookup_insert_ne.
  - assert (c' ≠ c) by congruence. unfold input_len. simpl. by rewrite lookup_insert_ne, Hx1.
Qed.

Definition buffer_op {A} (s : bool) (c : Z) (m : option ptr → M (world K U) (option ptr * A)) :=
  if s then ibuf_op c m else obuf_op c m.

(** An operation on one of the two buffers of [c]. *)
Lemma swp_buffer_op {A} s c (m : option ptr → M (world K U) (option ptr * A)) (Q : A → world K U → Prop) w fl x i :
  server_ok w fl → w_conns w !! c = Some x → _loop x = Some i →
  swp (m (cbuf s x)) (λ r w1, ∃ k' bp' fl' bs, w1 = set_bufs bp' (set_kern k' w) ∧
    calm_for c (w_kern w) k' ∧ step (cbuf s x) r.1 (w_bufs w) bp' fl fl' ∧ tbuf bp' fl' r.1 bs ∧
    let x' := set_cbuf s r.1 x in
    let w' := set_w_conns (<[c := x']> (w_conns w)) (set_bufs bp' (set_kern k' w)) in
    (server_ok w' fl' → kept i c w w' → w_conns w' !! c = Some x' → on_thread w' c i →
      tbuf (w_bufs w') fl' (cbuf s x') bs → (s = false → ∀ c', input_len w' c' = input_len w c') →
      Q r.2 w')) w →
  swp (buffer_op s c m) Q w.
Proof.
  intros Hok Hx Hl Hm.
  assert (Hgo : swp (x ← conn_at c; r ← m (cbuf s x); x ← conn_at c;
    conn_put c (set_cbuf s r.1 x) ;; mret r.2) Q w); [|by destruct s].
  swp_step. eapply swp_conn_at; [done|]. swp_step.
  eapply swp_mono; [exact Hm|]. intros r w1 (k' & bp' & fl' & bs & -> & Hk & Hst & Ht & HQ). swp_step.
  eapply swp_conn_at; [exact Hx|]. unfold conn_put. swp_steps. apply HQ.
  - change (w_conns (set_bufs bp' (set_kern k' w))) with (w_conns (set_kern k' w)).
    eapply (server_ok_buf (set_kern k' w) fl c x s); [apply server_ok_kern; [done|apply Hk]|done|congruence|done|done].
  - apply kept_same; [done|intros d; apply objs_insert|].
    eapply (spares_buf w _ fl c x s); [apply Hok|done|exact Hst| |apply Hk]. intros d Hne. simpl. by rewrite lookup_insert_ne.
  - simpl. by rewrite lookup_insert_eq.
  - exists (set_cbuf s r.1 x). simpl. rewrite lookup_insert_eq. by destruct s.
  - by rewrite cbuf_set.
  - intros -> c'. by eapply input_len_tx.
Qed.

(** The form of [pop] and [clear]. *)
Lemma swp_buffer_pool s c (m : option ptr → M buffer_pool (option ptr)) (Q : unit → world K U → Prop) w fl x i :
  server_ok w fl → w_conns w !! c = Some x → _loop x = Some i →
  swp (m (cbuf s x)) (λ r bp', ∃ fl' bs,
    step (cbuf s x) r (w_bufs w) bp' fl fl' ∧ tbuf bp' fl' r bs ∧
    let x' := set_cbuf s r x in
    let w' := set_w_conns (<[c := x']> (w_conns w)) (set_bufs bp' w) in
    (server_ok w' fl' → kept i c w w' → w_conns w' !! c = Some x' → on_thread w' c i →
      tbuf (w_bufs w') fl' (cbuf s x') bs → (s = false → ∀ c', input_len w' c' = input_len w c') →
      Q tt w')) (w_bufs w) →
  swp (buffer_op s c (λ b, drop_result (zoom w_pool (m b)))) Q w.
Proof.
  intros Hok Hx Hl Hm. eapply swp_buffer_op; [done..|]. unfold drop_result. swp_step. swp_step.
  cbn [view w_pool]. eapply swp_mono; [exact Hm|]. intros r bp' (fl' & bs & ? & ? & HQ). swp_step.
  by exists (w_kern w), bp', fl', bs.
Qed.

(** [pop] of a buffer with contents, which is that of a connection in use. *)
Lemma swp_buffer_pop s c n w fl x i bs (Q : unit → world K U → Prop) :
  server_ok w fl → w_conns w !! c = Some x → (∀ j, on_thread w c j → j = i) →
  tbuf (w_bufs w) fl (cbuf s x) bs → 0 ≤ n →
  (∀ w' fl' x', server_ok w' fl' → kept i c w w' → w_conns w' !! c = Some x' →
    on_thread w' c i → w_server w' = w_server w →
    tbuf (w_bufs w') fl' (cbuf s x') (drop (Z.to_nat n) bs) →
    (s = false → ∀ c', input_len w' c' = input_len w c') → Q tt w') →
  swp (buffer_op s c (λ b, drop_result (zoom w_pool (tbuf_pop b n)))) Q w.
Proof.
  intros Hok Hx Hon Ht Hn HQ. destruct (_loop x) as [j|] eqn:Hl.
  - assert (j = i) as -> by (apply Hon; by exists x).
    eapply swp_buffer_pool; [done..|]. eapply swp_mono; [by apply tbuf_pop_swp; [by apply server_pool_inv|..]|].
    intros r bp' (fl' & Hst & Ht'). eexists fl', _. split; [done|]. split; [done|].
    intros x' w' Hok' Hk Hx2 Hl2 Ht2 Hin. by apply (HQ w' fl' x').
  - destruct (dead_conn w fl c x Hok Hx) as [Hi Ho]; [intros j (y & Hy & Hly); congruence|].
    assert (Hnone : cbuf s x = None) by by destruct s.
    assert (Hgo : swp (x ← conn_at c; r ← drop_result (zoom w_pool (tbuf_pop (cbuf s x) n)); x ← conn_at c;
      conn_put c (set_cbuf s r.1 x) ;; mret r.2) Q w); [|by destruct s].
    swp_step. eapply swp_conn_at; [done|]. rewrite Hnone. by left.
Qed.

Lemma swp_buffer_length s c w fl x bs (Q : Z → world K U → Prop) :
  w_conns w !! c = Some x → tbuf (w_bufs w) fl (cbuf s x) bs →
  Q (Z.of_nat (length bs)) w → swp (if s then ibuf_length c else obuf_length c) Q w.
Proof.
  intros Hx Ht HQ. apply wp_swp.
  assert (Hgo : wp (x ← conn_at c; zoom w_pool (tbuf_length (cbuf s x))) Q w); [|by destruct s].
  wp_step. eapply wp_conn_at; [done|]. wp_step. cbn [view w_pool].
  eapply tbuf_length_spec; [done|]. by destruct w.
Qed.
(** ** Closing *)

(** No more connections than slots. *)
Lemma live_bound w : objs_ok w → Z.of_nat (size (live_conns w)) ≤ Z.max 0 (_conns_size (w_server w)).
Proof.
  intros Ho. set (n := _conns_size (w_server w)).
  assert (Hsub : live_conns w ⊆ list_to_set (seqZ 0 n)).
  { intros c Hc%(ob_range _ Ho). apply elem_of_list_to_set, elem_of_seqZ. unfold n. lia. }
  apply subseteq_size in Hsub. rewrite size_list_to_set in Hsub by apply NoDup_seqZ. rewrite length_seqZ in Hsub. lia.
Qed.

Lemma size_live w : objs_ok w → 0 ≤ _curr_conns (w_server w) ≤ INT_MAX.
Proof.
  intros Ho. rewrite (ob_count _ Ho). pose proof (live_bound w Ho). pose proof (ob_size _ Ho). int_lia.
Qed.

Lemma live_size w c i : objs_ok w → on_thread w c i → 1 ≤ _curr_conns (w_server w).
Proof.
  intros Ho Hc. rewrite (ob_count _ Ho). assert (c ∈ live_conns w) by (apply elem_of_live; by exists i).
  destruct (decide (size (live_conns w) = 0%nat)) as [Hz|]; [|lia]. apply size_empty_inv in Hz. set_solver.
Qed.

Lemma clean_conn_swp w fl c i :
  server_ok w fl → on_thread w c i →
  swp (clean_conn conn_fn c) (λ _ w', still_ok i c w w' ∧ (input_len w' c ≤ input_len w c)%nat) w.
Proof.
  intros Hok Hc. destruct (live_conn w fl c i Hok Hc) as (x & Hx & Hfd & Hl).
  destruct (conn_bufs w fl c x true Hok Hx) as [ib Hib]. destruct (conn_bufs w fl c x false Hok Hx) as [ob Hob].
  assert (Ha : apart (ibuf x) (obuf x)) by (apply (bo_apart _ _ (so_bufs _ _ Hok) c x true c x false); auto).
  pose proof (size_live w (so_objs _ _ Hok)). pose proof (live_size w c i (so_objs _ _ Hok) Hc).
  destruct (owned_live w c i (so_threads _ _ Hok) Hc) as (lp & Hown & _).
  pose proof (lo_inv _ _ _ (server_loop_ok _ _ _ _ Hok (ow_lp _ _ _ _ Hown))) as Hinv.
  apply wp_swp. eapply wp_mono.
  { eapply (clean_conn_run conn_fn w fl c x i lp ib ob Hx Hl); try done; [apply Hown|by apply server_pool_inv|int_lia]. }
  intros [] w' (s & u & p & bp' & bp1 & fl1 & fl' & Hdel & -> & Hst1 & Hst2 & _).
  pose proof (del_ioev_spec (_connfd x) _ Hinv) as ([] & s' & Hdel' & Hi & Hsame & He)%wp_elim.
  rewrite Hdel in Hdel'. injection Hdel' as ->. rewrite Hfd in He. cbn [ev_loop] in He. split.
  - exists fl'. pose proof (del_ioev_ctl _ _ _ Hdel) as Hctl. eapply server_ok_cleaned; try done.
    etrans; [exact (mute_ctl c _ _ Hctl)|apply mute_close].
  - unfold input_len at 1. simpl. rewrite lookup_insert_eq. simpl. lia.
Qed.

(** ** Sending *)

(** What an operation on the outgoing buffer of [c], on thread [i], does. *)
Record tx_after i (c : Z) w w' fl' : Prop := {
  tx_ok : server_ok w' fl';
  tx_kept : kept i c w w';
  tx_live : on_thread w' c i;
  tx_input c' : input_len w' c' = input_len w c';
}.

Lemma tx_after_trans i c w1 w2 fl2 w3 fl3 :
  tx_after i c w1 w2 fl2 → tx_after i c w2 w3 fl3 → tx_after i c w1 w3 fl3.
Proof.
  intros [? ? ? Hi] [? ? ? Hi']. split; [done|by eapply kept_trans|done|by intros; rewrite Hi'].
Qed.

Lemma swp_obuf_send c dat w fl i (Q : Z → world K U → Prop) :
  server_ok w fl → on_thread w c i → Z.of_nat (length dat) ≤ MAX_REQUEST →
  (∀ r w' fl', tx_after i c w w' fl' → Q r w') →
  swp (obuf_op c (λ b, zoom w_pool (obuf_send_data b dat (Z.of_nat (length dat))))) Q w.
Proof.
  intros Hok Hc Hn HQ. destruct (live_conn w fl c i Hok Hc) as (x & Hx & _ & Hl).
  destruct (conn_bufs w fl c x false Hok Hx) as [bs Ht].
  eapply (swp_buffer_op false); [done..|]. swp_step. cbn [view w_pool cbuf].
  eapply swp_mono; [apply (obuf_send_data_swp (obuf x) bs dat _ fl); [by apply server_pool_inv|done..]|].
  intros r bp' (fl' & bs' & Hst & Ht' & _). exists (w_kern w), bp', fl', bs'.
  split_and!; [done..|]. intros Hok' Hk _ Hl' _ Hin. apply (HQ _ _ fl'). split; [done..|by apply Hin].
Qed.

Lemma swp_obuf_pop c n w fl i (Q : unit → world K U → Prop) :
  server_ok w fl → on_thread w c i → 0 ≤ n →
  (∀ w' fl', tx_after i c w w' fl' → Q tt w') → swp (obuf_pop c n) Q w.
Proof.
  intros Hok Hc Hn HQ. destruct (live_conn w fl c i Hok Hc) as (x & Hx & _ & Hl).
  destruct (conn_bufs w fl c x false Hok Hx) as [bs Ht].
  eapply (swp_buffer_pop false); [done|done|intros j Hj; by eapply on_thread_unique|done|done|].
  intros w' fl' x' Hok' Hk _ Hc' _ _ Hin. apply (HQ w' fl'). split; [done..|by apply Hin].
Qed.

(** A change of the registration of a connection. *)
Lemma swp_register (m : M (ev_st K) unit) c w fl lp x i ev' (Q : unit → world K U → Prop) :
  server_ok w fl → w_conns w !! c = Some x → _loop x = Some i → owned w i c lp → conn_entry c ev' →
  wp m (λ _ s', loop_inv s' ∧ same_rest (EvSt (w_kern w) lp) s' ∧ _io_evs (ev_loop s') = <[c := ev']> (_io_evs lp))
    (EvSt (w_kern w) lp) →
  (∀ s', m (EvSt (w_kern w) lp) = Ok (tt, s') → by_ctl (EvSt (w_kern w) lp) s') →
  (∀ s', let w' := loop_changed i w s' in
    server_ok w' fl → kept i c w w' → Q tt w') →
  swp (on_loop (_loop x) m) Q w.
Proof.
  intros Hok Hx Hl Hown Hev Hm Hctl HQ. rewrite Hl. apply wp_swp. eapply wp_on_loop; [apply Hown|].
  apply wp_elim in Hm as ([] & s' & Hrun & Hi & Hsame & He). unfold wp at 1. rewrite Hrun.
  assert (Hac : acted i c lp (ev_loop s') w (loop_changed i w s')).
  { eapply acted_register; try done; [by exists x|by apply Hctl]. }
  apply HQ.
  - by eapply server_ok_loop.
  - eapply acted_kept; [exact Hown|exact Hac|done|]. apply spares_same; [done..|]. apply (mute_ctl c _ _ (Hctl s' Hrun)).
Qed.

Lemma tcp_send_data_swp w fl c i dat cmd :
  server_ok w fl → on_thread w c i → Z.of_nat (length dat) ≤ MAX_REQUEST →
  swp (tcp_send_data c dat (Z.of_nat (length dat)) cmd) (λ _ w', ∃ fl', tx_after i c w w' fl') w.
Proof.
  intros Hok Hc Hn. destruct (live_conn w fl c i Hok Hc) as (x & Hx & _ & _).
  destruct (conn_bufs w fl c x false Hok Hx) as [bs Ht].
  unfold tcp_send_data. swp_step. eapply (swp_buffer_length false); [done..|].
  swp_step. change COMMU_HEAD_LENGTH with (Z.of_nat (length (head_bytes (CommuHead cmd (Z.of_nat (length dat)))))).
  eapply swp_obuf_send; [done..|]. intros r1 w1 fl1 Htx1. destruct (negb (r1 =? 0)).
  { swp_step. by exists fl1. }
  swp_step. eapply (swp_obuf_send c dat w1 fl1); [apply Htx1|apply Htx1|done|]. intros r2 w2 fl2 Htx2.
  pose proof (tx_after_trans _ _ _ _ _ _ _ Htx1 Htx2) as Htx12. destruct (negb (r2 =? 0)).
  { swp_step. eapply swp_obuf_pop; [apply Htx2|apply Htx2|done|]. intros w3 fl3 Htx3. swp_step.
    exists fl3. by eapply tx_after_trans. }
  destruct (live_conn w2 fl2 c i) as (x2 & Hx2 & Hfd2 & Hl2); [apply Htx2..|].
  swp_step. eapply swp_conn_at; [exact Hx2|]. swp_step. apply swp_when; intros Hneed; [|swp_step; by exists fl2].
  destruct (owned_live w2 c i) as (lp & Hown & ev & Hev & Hce); [apply Htx2..|]. rewrite Hfd2.
  pose proof (lo_inv _ _ _ (server_loop_ok _ _ _ _ (tx_ok _ _ _ _ _ Htx2) (ow_lp _ _ _ _ Hown))) as Hinv.
  eapply (swp_register _ c w2 fl2 lp x2 i (added tcp_wcb EPOLLOUT (v_tcp_conn c) (Some ev))); [apply Htx2|done|done|done|..].
  - destruct Hce as [Hm ? ?]. split; [|done|by intros f [= <-]]. simpl. by rewrite has_lor, Hm.
  - eapply wp_mono; [by apply add_ioev_spec|]. intros [] s' (? & ? & He).
    split; [done|]. split; [done|]. cbn [ev_loop] in He. by rewrite Hev in He.
  - intros s'. apply add_ioev_ctl.
  - intros s' w3 Hok3 Hk3. swp_step. exists fl2. eapply tx_after_trans; [exact Htx12|].
    split; [done|exact Hk3|apply Htx2|done].
Qed.
(** ** Writing *)

(** The same buffer of [c], with other contents, and calls that do not concern the
    interest lists. *)
Lemma server_ok_io w fl c x s k' bp' fl' bs :
  server_ok w fl → w_conns w !! c = Some x → calm_for c (w_kern w) k' →
  step (cbuf s x) (cbuf s x) (w_bufs w) bp' fl fl' → tbuf bp' fl' (cbuf s x) bs →
  let w' := set_bufs bp' (set_kern k' w) in server_ok w' fl' ∧ ∀ i, kept i c w w'.
Proof.
  intros Hok Hx Hk Hst Ht w'. split.
  2:{ intros i. apply kept_same; [done..|]. eapply (spares_buf w w' fl c x s); [apply Hok|done|exact Hst|done|apply Hk]. }
  pose proof (server_ok_buf (set_kern k' w) fl c x s (cbuf s x) bp' fl' bs) as Hb.
  assert (Hid : set_cbuf s (cbuf s x) x = x) by by destruct s, x.
  rewrite Hid in Hb. simpl in Hb. rewrite insert_id in Hb by done. unfold w'. destruct w.
  apply Hb; [apply server_ok_kern; [done|apply Hk]|done| |done|done]. intros Hn.
  destruct (ob_state _ (so_objs _ _ Hok) c x Hx) as [[_ [j Hl]]|(_ & ? & ?)]; [congruence|by destruct s].
Qed.

Lemma handle_write_loop_swp retries c i : ∀ fuel w fl x bs,
  server_ok w fl → on_thread w c i → w_conns w !! c = Some x → tbuf (w_bufs w) fl (obuf x) bs →
  (length bs < fuel)%nat → (patience < retries)%nat →
  swp (handle_write_loop conn_fn fuel retries c)
    (λ open w', still_ok i c w w' ∧ (open = true → on_thread w' c i)) w.
Proof.
  induction fuel as [|fuel IH]; intros w fl x bs Hok Hc Hx Ht Hf Hret; [lia|].
  cbn [handle_write_loop]. swp_step. eapply (swp_buffer_length false); [done..|].
  destruct (negb _); [|swp_step; split; [by eapply still_ok_refl|done]].
  swp_step. eapply swp_conn_at; [done|]. swp_step. swp_step. cbn [view w_io].
  eapply swp_mono; [apply (write_fd_swp retries (obuf x) (_connfd x) bs); [by apply server_pool_inv|done..]|].
  intros ret s' (bs' & Hst & Ht' & Hshort & Hk).
  destruct (live_conn w fl c i Hok Hc) as (x0 & Hx0 & Hfd & _). rewrite Hx in Hx0. injection Hx0 as <-. rewrite Hfd in Hk.
  destruct (server_ok_io w fl c x false (kern s') (bufs s') fl bs') as [Hok' Hkept]; [done..|].
  cbn [update w_io]. set (w' := set_bufs _ _) in *.
  assert (Hc' : on_thread w' c i) by exact Hc.
  destruct (Z.eqb_spec ret (-1)) as [|Hm1].
  { swp_step. eapply swp_mono; [by eapply clean_conn_swp|]. intros [] w2 [? _]. swp_step.
    split; [by eapply still_ok_trans|done]. }
  destruct (Z.eqb_spec ret 0) as [|H0ret]; [swp_step; split; [by eapply still_ok_kept|done]|].
  eapply swp_mono; [apply (IH w' fl x bs' Hok' Hc' Hx Ht'); [|done]|].
  - specialize (Hshort Hm1 H0ret). lia.
  - intros open w2 [? ?]. split; [by eapply still_ok_trans|done].
Qed.

(** The buffers are no longer than their arrays. *)
Lemma tbuf_bounded w fl b bs :
  server_ok w fl → tbuf (w_bufs w) fl b bs → Z.of_nat (length bs) ≤ u8M.
Proof.
  intros Hok Ht. destruct b as [p|]; simpl in Ht; [|subst; unfold u8M; simpl; lia].
  destruct Ht as [_ (b & Hb & Hcont)]. pose proof (store_range _ _ _ _ _ (server_pool_inv _ _ Hok) Hb Hcont).
  unfold u8M. lia.
Qed.

Lemma handle_write_swp fuel retries w fl c i :
  server_ok w fl → on_thread w c i → (Z.to_nat u8M < fuel)%nat → (patience < retries)%nat →
  swp (handle_write conn_fn fuel retries c) (λ _ w', still_ok i c w w') w.
Proof.
  intros Hok Hc Hf Hret. destruct (live_conn w fl c i Hok Hc) as (x & Hx & _ & _).
  destruct (conn_bufs w fl c x false Hok Hx) as [bs Ht]. pose proof (tbuf_bounded _ _ _ _ Hok Ht).
  unfold handle_write. swp_step.
  eapply swp_mono; [apply (handle_write_loop_swp retries c i fuel w fl x bs); try done; lia|].
  intros open w1 [(fl1 & Hok1 & Hk1) Hopen]. apply swp_when; [|intros _; by eapply still_ok_kept].
  intros Ho. specialize (Hopen Ho). destruct (live_conn w1 fl1 c i Hok1 Hopen) as (x1 & Hx1 & Hfd1 & Hl1).
  destruct (conn_bufs w1 fl1 c x1 false Hok1 Hx1) as [bs1 Ht1]. swp_step.
  eapply (swp_buffer_length false); [done..|]. apply swp_when; [|intros _; by eapply still_ok_kept].
  intros _. swp_step. eapply swp_conn_at; [exact Hx1|]. rewrite Hfd1.
  destruct (owned_live w1 c i (so_threads _ _ Hok1) Hopen) as (lp & Hown & ev & Hev & [Hin Hrd Hwr]).
  pose proof (has_cleared EPOLLOUT (mask ev)) as Hout. set (m := Z.land (mask ev) (Z.lnot EPOLLOUT)) in *.
  assert (Hinm : has EPOLLIN m = true).
  { unfold has, m in *. rewrite <- Z.land_assoc. by change (Z.land (Z.lnot EPOLLOUT) EPOLLIN) with EPOLLIN. }
  pose proof (lo_inv _ _ _ (server_loop_ok _ _ _ _ Hok1 (ow_lp _ _ _ _ Hown))) as Hinv.
  eapply (swp_register _ c w1 fl1 lp x1 i (set_mask m ev)); [done..|by split| | |].
  - eapply wp_mono; [by apply del_ioev_mask_spec|]. intros [] s' (? & ? & He).
    split; [done|]. split; [done|]. rewrite He. apply map_eq. intros fd. cbn [ev_loop].
    destruct (decide (fd = c)) as [->|?]; [|by rewrite lookup_partial_alter_ne, lookup_insert_ne].
    rewrite lookup_partial_alter_eq, lookup_insert_eq, Hev. simpl. unfold reduced. fold m.
    destruct (Z.eqb_spec m 0) as [Hm0|]; [|done]. by rewrite Hm0 in Hinm.
  - intros s'. apply del_ioev_mask_ctl.
  - intros s' w2 Hok2 Hk2. eapply still_ok_kept; [exact Hok2|]. by eapply kept_trans.
Qed.
(** ** Reading *)

(** What an operation that reads for [c], on thread [i], does. *)
Record read_after i (c : Z) w w' : Prop := {
  ra_ok : still_ok i c w w';
  ra_input : (input_len w' c ≤ input_len w c)%nat;
  ra_home j : on_thread w' c j → j = i;
}.

(** The contract of the user's callbacks for messages: they keep the state in
    order, put nothing into the input buffer, and do not move the connection to
    another thread. *)
Variable msg_fn : msg_callback → list byte → Z → Z → Z → void_ptr → M (world K U) unit.
Definition safe_callbacks : Prop := ∀ f dat cmd c args w fl i,
  server_ok w fl → on_thread w c i → Z.of_nat (length dat) ≤ MSG_LENGTH_LIMIT →
  swp (msg_fn f dat (Z.of_nat (length dat)) cmd c args) (λ _ w', read_after i c w w') w.
Hypothesis Hmsg : safe_callbacks.

Lemma swp_ibuf_data k w fl x bs (Q : list byte → world K U → Prop) :
  tbuf (w_bufs w) fl (ibuf x) bs → 0 ≤ k ≤ Z.of_nat (length bs) → Q (take (Z.to_nat k) bs) w →
  swp (zoom w_pool (ibuf_data (ibuf x) k)) Q w.
Proof.
  intros Ht Hk HQ. apply wp_swp. rewrite <- (Z2Nat.id k) by lia. wp_steps. cbn [view w_pool].
  eapply ibuf_data_spec; [done|lia|]. by destruct w.
Qed.

Lemma dispatch_swp w fl c i dat cmd :
  server_ok w fl → on_thread w c i → Z.of_nat (length dat) ≤ MSG_LENGTH_LIMIT →
  exist cmd (dispatcher (w_server w)) = true →
  swp (dispatch msg_fn dat (Z.of_nat (length dat)) cmd c) (λ _ w', read_after i c w w') w.
Proof.
  intros Hok Hc Hn He. unfold dispatch. swp_step. swp_step. swp_step.
  apply wp_swp, wp_callback_of; [apply (ob_dispatcher _ (so_objs _ _ Hok))|done|]. intros f u _ _. by eapply Hmsg.
Qed.

(** Handing over one message, which is in front of the buffer. *)
Lemma message_swp w fl c i x bs n cmd (k : M (world K U) unit) (Q : unit → world K U → Prop) :
  server_ok w fl → on_thread w c i → w_conns w !! c = Some x → tbuf (w_bufs w) fl (ibuf x) bs →
  0 ≤ n ≤ MSG_LENGTH_LIMIT → 8 + n ≤ Z.of_nat (length bs) → exist cmd (dispatcher (w_server w)) = true →
  (∀ w' fl', server_ok w' fl' → kept i c w w' → on_thread w' c i →
    (input_len w' c < length bs)%nat → swp k Q w') →
  swp (ibuf_pop c COMMU_HEAD_LENGTH ;;
    x ← conn_at c;
    dat ← zoom w_pool (ibuf_data (ibuf x) n);
    dispatch msg_fn dat n cmd c ;; ibuf_pop c n ;; k) Q w.
Proof.
  intros Hok Hc Hx Ht Hn Hlen He HQ. swp_step.
  eapply (swp_buffer_pop true); [done|done|intros j Hj; by eapply on_thread_unique|done|done|].
  intros w1 fl1 x1 Hok1 Hk1 Hx1 Hc1 Hsrv Ht1 _. swp_step. eapply swp_conn_at; [exact Hx1|]. swp_step.
  eapply swp_ibuf_data; [exact Ht1|rewrite length_drop; unfold COMMU_HEAD_LENGTH; lia|].
  set (dat := take _ _). assert (Hdl : n = Z.of_nat (length dat)).
  { unfold dat. rewrite length_take, length_drop. unfold COMMU_HEAD_LENGTH. lia. }
  swp_step. rewrite Hdl. eapply swp_mono; [apply (dispatch_swp w1 fl1 c i); [done..|lia|by rewrite Hsrv]|].
  intros [] w2 [(fl2 & Hok2 & Hk2) Hin2 Hhome].
  destruct (kept_objs _ _ _ _ Hk2 c) as [x2 Hx2]; [by eexists|].
  destruct (conn_bufs w2 fl2 c x2 true Hok2 Hx2) as [bs2 Ht2]. swp_step.
  eapply (swp_buffer_pop true c _ w2 fl2 x2 i bs2); [done|done|exact Hhome|done|lia|].
  intros w3 fl3 x3 Hok3 Hk3 Hx3 Hc3 _ Ht3 _. apply (HQ w3 fl3 Hok3); [|done|].
  - eapply kept_trans; [exact Hk1|]. eapply kept_trans; [exact Hk2|exact Hk3].
  - rewrite (input_len_tbuf w3 c x3 fl3 _ Hx3 Ht3), length_drop.
    rewrite (input_len_tbuf w2 c x2 fl2 _ Hx2 Ht2), (input_len_tbuf w1 c x1 fl1 _ Hx1 Ht1), length_drop in Hin2.
    change (Z.to_nat COMMU_HEAD_LENGTH) with 8%nat in Hin2. lia.
Qed.

Lemma handle_read_loop_swp c i : ∀ fuel w fl,
  server_ok w fl → on_thread w c i → (input_len w c < fuel)%nat →
  swp (handle_read_loop msg_fn conn_fn fuel c) (λ _ w', still_ok i c w w') w.
Proof.
  induction fuel as [|fuel IH]; intros w fl Hok Hc Hf; [lia|].
  destruct (live_conn w fl c i Hok Hc) as (x & Hx & _ & _).
  destruct (conn_bufs w fl c x true Hok Hx) as [bs Ht].
  rewrite (input_len_tbuf w c x fl bs Hx Ht) in Hf.
  assert (Hclean : swp (clean_conn conn_fn c) (λ _ w', still_ok i c w w') w).
  { eapply swp_mono; [by eapply clean_conn_swp|]. by intros [] w' [? _]. }
  cbn [handle_read_loop]. swp_step. eapply (swp_buffer_length true); [done..|].
  destruct (Z.leb_spec COMMU_HEAD_LENGTH (Z.of_nat (length bs))) as [H8|]; [|swp_step; by eapply still_ok_refl].
  swp_step. eapply swp_conn_at; [done|]. swp_step. eapply swp_ibuf_data; [done|unfold COMMU_HEAD_LENGTH in *; lia|].
  cbv zeta. set (h := head_of_bytes _). destruct (bad_length h) eqn:Hbad; [done|].
  apply orb_false_iff in Hbad as [Hle%Z.ltb_ge Hge%Z.ltb_ge].
  swp_step. eapply (swp_buffer_length true); [done..|].
  destruct (Z.ltb_spec (Z.of_nat (length bs)) (COMMU_HEAD_LENGTH + h_length h)) as [|Hall]; [swp_step; by eapply still_ok_refl|].
  swp_step. swp_step. destruct (exist (cmdid h) (dispatcher (w_server w))) eqn:He; [|done]. cbn [negb].
  eapply message_swp; [done..|unfold COMMU_HEAD_LENGTH in *; lia|done|].
  intros w' fl' Hok' Hk' Hc' Hlen. eapply swp_mono; [apply (IH w' fl'); [done..|lia]|].
  intros [] w2 ?. by eapply still_ok_trans.
Qed.

Lemma handle_read_swp fuel retries w fl c i :
  server_ok w fl → on_thread w c i → (Z.to_nat u8M < fuel)%nat → (patience < retries)%nat →
  swp (handle_read msg_fn conn_fn fuel retries c) (λ _ w', still_ok i c w w') w.
Proof.
  intros Hok Hc Hf Hret. destruct (live_conn w fl c i Hok Hc) as (x & Hx & _ & Hl).
  destruct (conn_bufs w fl c x true Hok Hx) as [bs Ht].
  unfold handle_read. swp_step. eapply swp_conn_at; [done|]. swp_step.
  eapply (swp_buffer_op true); [done..|]. swp_step. cbn [view w_io cbuf].
  eapply swp_mono; [apply (read_data_swp retries (ibuf x) (_connfd x) bs _ _ fl); [by apply server_pool_inv|done..]|].
  intros r s' (fl' & bs' & Hst & Ht' & Hk). exists (kern s'), (bufs s'), fl', bs'.
  split_and!; [done..|]. set (w1 := set_w_conns _ _). intros Hok1 Hk1 Hx1 Hc1 Htb1 _.
  assert (Hclean : swp (clean_conn conn_fn c) (λ _ w', still_ok i c w w') w1).
  { eapply swp_mono; [by eapply clean_conn_swp|]. intros [] w' [? _]. by eapply still_ok_trans. }
  destruct (r.2 =? -1); [done|]. destruct (r.2 =? 0); [done|]. swp_step.
  eapply swp_mono; [apply (handle_read_loop_swp c i fuel w1 fl'); [done..|]|].
  { rewrite (input_len_tbuf w1 c _ fl' bs' Hx1 Htb1). pose proof (tbuf_bounded _ _ _ _ Hok1 Htb1). lia. }
  intros [] w2 (fl2 & Hok2 & Hk2).
  destruct (kept_objs _ _ _ _ Hk2 c) as [x2 Hx2]; [by eexists|].
  destruct (conn_bufs w2 fl2 c x2 true Hok2 Hx2) as [bs2 Ht2].
  swp_step. eapply swp_conn_at; [exact Hx2|]. swp_step. cbn [view w_pool]. apply wp_swp.
  eapply wp_mono; [by apply (ibuf_adjust_spec (ibuf x2) bs2 _ fl2); [by apply server_pool_inv|]|].
  intros [] bp' (Hst' & Ht'' & _).
  destruct (server_ok_io w2 fl2 c x2 true (w_kern w2) bp' fl2 bs2) as [Hok3 Hk3]; [done..|].
  eapply still_ok_kept; [exact Hok3|]. eapply kept_trans; [apply Hk1|]. eapply kept_trans; [exact Hk2|apply Hk3].
Qed.
End conn.
