(* ===== verification/TcpConnProps.v ===== *)
(** * Correctness of the TCP connections

    The claims about src/tcp_conn.cc and the wire format: what is sent is what
    is delivered, however the stream is cut; the outgoing buffer loses nothing;
    a closed connection gives everything back.  Two defects are proved as well:
    an empty message that ends the input stops the process, and a message that
    does not fit behind pending output corrupts that output. *)
From S2P Require Import Prelude EventBase TimerQueue Kernel IoBuffer BufferPool TcpBuffer BufferProps.
From S2P Require Import Wire EventLoop EventLoopProps World TcpConn TcpConnSpec.

(** ** A connection that is readable *)

(** The deliveries of messages that were received in state [w]. *)
Abbreviation handed_in w := (handed (dispatcher (w_server w))).

(** The connection [c] waits for data, [bs] being the bytes of an unfinished
    message; the kernel then delivers [ys]. *)
Record readable {K U : Type} `{Kernel K} (c : Z) (Inv : world K U → (Z → list ptr) → Prop)
    (w : world K U) (fl : Z → list ptr) (x : tcp_conn) (bs ys : list byte) (retries : nat) : Prop := {
  rd_inv : Inv w fl;
  rd_rx : rx w fl c bs;
  rd_conn : w_conns w !! c = Some x;
  rd_start : at_start (w_bufs w) (ibuf x);
  rd_memory : memory_left (w_bufs w);
  rd_dispatcher : dispatcher_ok (dispatcher (w_server w));
  rd_data : ∃ k', delivers retries (_connfd x) ys (w_kern w) k';
  rd_some : ys ≠ [];
  rd_room : Z.of_nat (length bs) + Z.of_nat (length ys) ≤ u8M;
}.

Section serving.
Context {K U : Type} `{Kernel K}.
Variable msg_fn : msg_callback → list byte → Z → Z → Z → void_ptr → M (world K U) unit.
Variable conn_fn : conn_callback → Z → M (world K U) unit.
Variable c : Z.
Variable allowed : list message → Prop.
Variable Pre Inv : list message → world K U → (Z → list ptr) → Prop.
Hypothesis Hserves : serves msg_fn c allowed Pre Inv.

(** The run of [handle_read] up to the end of its loop. *)
Lemma serve_loop_run l w fl x bs ys retries fuel ms rest st :
  readable c (Pre l) w fl x bs ys retries → (length bs + length ys < fuel)%nat →
  parse (known_cmd w) (bs ++ ys) = (ms, rest, st) → allowed (l ++ ms) →
  if decide (ends_empty ms rest)
  then handle_read msg_fn conn_fn fuel retries c w = Fail AssertFailed
  else ∃ w1 fl1, Inv (l ++ ms) w1 fl1 ∧ rx w1 fl1 c rest ∧
    dispatcher (w_server w1) = dispatcher (w_server w) ∧
    handle_read msg_fn conn_fn fuel retries c w =
      ((match st with Partial => mret tt | _ => clean_conn conn_fn c end) ;;
       x ← conn_at c; zoom w_pool (ibuf_adjust (ibuf x))) w1.
Proof.
  intros [HI Hrx Hx Hs Hm Hd [k' Hdel] Hys Hroom] Hf Hp Hal.
  destruct (handle_read_start msg_fn conn_fn c allowed Pre Inv fuel retries l w fl x bs ys k')
    as (w1 & fl1 & HI1 & Hrx1 & Hsrv1 & Hrun); [done..|].
  assert (Hk : known_cmd w1 = known_cmd w) by (unfold known_cmd; by rewrite Hsrv1).
  pose proof (loop_spec msg_fn conn_fn c allowed Pre Inv (bs ++ ys) fuel l w1 fl1 ms rest st Hserves HI1 Hrx1 Hal) as Hl.
  rewrite Hsrv1, Hk, length_app in Hl. specialize (Hl Hd ltac:(lia) Hp).
  destruct (decide (ends_empty ms rest)).
  - rewrite Hrun. by apply bind_fail.
  - destruct Hl as (w2 & fl2 & HI2 & Hrx2 & Hd2 & Hl). exists w2, fl2.
    split; [done|]. split; [done|]. split; [done|].
    rewrite Hrun. destruct st; [by erewrite bind_ok by exact Hl|..];
      unfold mbind at 1, M_bind at 1; rewrite Hl; by unfold mbind at 2, M_bind at 2.
Qed.

(** The same, where every byte decodes or waits for more. *)
Lemma serve_ok l w fl x bs ys retries fuel ms rest :
  readable c (Pre l) w fl x bs ys retries → (length bs + length ys < fuel)%nat →
  parse (known_cmd w) (bs ++ ys) = (ms, rest, Partial) → allowed (l ++ ms) →
  if decide (ends_empty ms rest)
  then handle_read msg_fn conn_fn fuel retries c w = Fail AssertFailed
  else ∃ w' fl' x', handle_read msg_fn conn_fn fuel retries c w = Ok (tt, w') ∧
    Inv (l ++ ms) w' fl' ∧ rx w' fl' c rest ∧
    dispatcher (w_server w') = dispatcher (w_server w) ∧
    w_conns w' !! c = Some x' ∧ at_start (w_bufs w') (ibuf x').
Proof.
  intros Hr Hf Hp Hal. pose proof (serve_loop_run l w fl x bs ys retries fuel ms rest _ Hr Hf Hp Hal) as Hrun.
  case_decide as He; [done|]. destruct Hrun as (w1 & fl1 & HI1 & Hrx1 & Hd1 & ->).
  destruct (handle_read_end msg_fn c allowed Pre Inv _ w1 fl1 rest Hserves HI1 Hrx1)
    as (w2 & fl2 & x2 & Hrun & ? & ? & Hsrv2 & ? & ?).
  exists w2, fl2, x2. split; [by erewrite bind_ok by reflexivity|].
  do 2 (split; [done|]). split; [by rewrite Hsrv2|]. done.
Qed.
End serving.

Section receiving.
Context {K U : Type} `{Kernel K}.
Variable msg_fn : msg_callback → list byte → Z → Z → Z → void_ptr → M (world K U) unit.
Variable conn_fn : conn_callback → Z → M (world K U) unit.
Variable c : Z.
Variable Inv : world K U → (Z → list ptr) → Prop.
Variable log : world K U → list delivery.
Hypothesis Hobs : observer msg_fn c Inv log.

Lemma readable_logged w fl x bs ys retries :
  readable c Inv w fl x bs ys retries →
  readable c (logged_inv Inv log (log w) (dispatcher (w_server w)) []) w fl x bs ys retries.
Proof. intros []. split; try done. split; [done|]. by rewrite app_nil_r. Qed.



Lemma handle_read_loop_run w fl x bs ys retries fuel ms rest st :
  readable c Inv w fl x bs ys retries → (length bs + length ys < fuel)%nat →
  parse (known_cmd w) (bs ++ ys) = (ms, rest, st) →
  if decide (ends_empty ms rest)
  then handle_read msg_fn conn_fn fuel retries c w = Fail AssertFailed
  else ∃ w1 fl1, Inv w1 fl1 ∧ rx w1 fl1 c rest ∧ log w1 = log w ++ (handed_in w <$> ms) ∧
    dispatcher (w_server w1) = dispatcher (w_server w) ∧
    handle_read msg_fn conn_fn fuel retries c w =
      ((match st with Partial => mret tt | _ => clean_conn conn_fn c end) ;;
       x ← conn_at c; zoom w_pool (ibuf_adjust (ibuf x))) w1.
Proof.
  intros Hr%readable_logged Hf Hp.
  pose proof (serve_loop_run msg_fn conn_fn c _ _ _ (observer_serves _ _ _ _ _ _ Hobs) [] w fl x bs ys
    retries fuel ms rest st Hr Hf Hp I) as Hrun.
  case_decide; [done|]. destruct Hrun as (w1 & fl1 & (HI1 & Hlog1 & _) & Hrx1 & ?). by exists w1, fl1.
Qed.

Lemma handle_read_ok w fl x bs ys retries fuel ms rest :
  readable c Inv w fl x bs ys retries → (length bs + length ys < fuel)%nat →
  parse (known_cmd w) (bs ++ ys) = (ms, rest, Partial) →
  if decide (ends_empty ms rest)
  then handle_read msg_fn conn_fn fuel retries c w = Fail AssertFailed
  else ∃ w' fl' x', handle_read msg_fn conn_fn fuel retries c w = Ok (tt, w') ∧
    Inv w' fl' ∧ log w' = log w ++ (handed_in w <$> ms) ∧ rx w' fl' c rest ∧
    dispatcher (w_server w') = dispatcher (w_server w) ∧
    w_conns w' !! c = Some x' ∧ at_start (w_bufs w') (ibuf x').
Proof.
  intros Hr%readable_logged Hf Hp.
  pose proof (serve_ok msg_fn conn_fn c _ _ _ (observer_serves _ _ _ _ _ _ Hobs) [] w fl x bs ys
    retries fuel ms rest Hr Hf Hp I) as Hrun.
  case_decide; [done|]. destruct Hrun as (w1 & fl1 & x1 & Hrun & (HI1 & Hlog1 & _) & ? & ?). by exists w1, fl1, x1.
Qed.

(** C7 [handle_read] follows the reference decoder on the bytes held back from
    before and the new ones: every complete message is handed to the callback that
    is registered for its command, with the argument registered with it, in order,
    each once and with exactly its payload; the bytes of
    the unfinished message are kept, at the start of the buffer, for the next
    call; and the connection stays open.  The exception, an empty message at the
    end, is [handle_read_empty_message_aborts]. *)
Theorem handle_read_delivers w fl x bs ys retries fuel ms rest :
  readable c Inv w fl x bs ys retries → (length bs + length ys < fuel)%nat →
  parse (known_cmd w) (bs ++ ys) = (ms, rest, Partial) → ¬ ends_empty ms rest →
  ∃ w' fl' x', handle_read msg_fn conn_fn fuel retries c w = Ok (tt, w') ∧
    Inv w' fl' ∧ log w' = log w ++ (handed_in w <$> ms) ∧
    rx w' fl' c rest ∧ w_conns w' !! c = Some x' ∧ at_start (w_bufs w') (ibuf x').
Proof.
  intros Hr Hf Hp Hne. pose proof (handle_read_ok w fl x bs ys retries fuel ms rest Hr Hf Hp) as Hrun.
  rewrite decide_False in Hrun by done. destruct Hrun as (w' & fl' & x' & ? & ? & ? & ? & _ & ?).
  by exists w', fl', x'.
Qed.

(** C35 When the received bytes end with a complete message without payload,
    [handle_read] stops the process by a failed assertion, that of
    [tcp_buffer::pop]: popping the header gives the drained buffer back to the pool,
    and the pop of the zero payload bytes finds no buffer.  Such a message is
    well-formed, so a peer can stop the server at will. *)
Theorem handle_read_empty_message_aborts w fl x bs ys retries fuel ms rest st :
  readable c Inv w fl x bs ys retries → (length bs + length ys < fuel)%nat →
  parse (known_cmd w) (bs ++ ys) = (ms, rest, st) → ends_empty ms rest →
  handle_read msg_fn conn_fn fuel retries c w = Fail AssertFailed.
Proof.
  intros Hr Hf Hp He. pose proof (handle_read_loop_run w fl x bs ys retries fuel ms rest st Hr Hf Hp) as Hrun.
  by rewrite decide_True in Hrun.
Qed.

End receiving.

Section rejecting.
Context {K U : Type} `{EpollLaws K}.
Variable msg_fn : msg_callback → list byte → Z → Z → Z → void_ptr → M (world K U) unit.
Variable conn_fn : conn_callback → Z → M (world K U) unit.
Variable c fd : Z.
Variable Inv : world K U → (Z → list ptr) → Prop.
Variable log : world K U → list delivery.
Hypothesis Hobs : observer msg_fn c Inv log.

(** Whatever the callbacks do, the connection stays open, on descriptor [fd], and the
    callback for closed connections touches only the user's state and the
    [parameter]. *)
Hypothesis Hopen : ∀ w fl bs, Inv w fl → rx w fl c bs → ∃ x i lp ob,
  conn_ok w fl c x i lp bs ob ∧ _connfd x = fd ∧ loop_inv (EvSt (w_kern w) lp) ∧
  quiet conn_fn (connCloseCb (w_server w)) c ∧ is_int (_curr_conns (w_server w) - 1).
(** Closing delivers nothing. *)
Hypothesis Hlog : ∀ w fl x i s bp u p, Inv w fl → (connCloseCb (w_server w) = None → u = w_user w) →
  log (cleaned c x i s bp u p w) = log w.

Lemma clean_conn_logged w fl bs :
  Inv w fl → rx w fl c bs →
  wp (clean_conn conn_fn c) (λ _ w', closed c w' ∧ log w' = log w ∧ (∃ k, w_kern w' = sys_close fd k) ∧
    _curr_conns (w_server w') = _curr_conns (w_server w) - 1 ∧
    ∃ i lp', w_loops w' !! i = Some lp' ∧ _io_evs lp' !! fd = None) w.
Proof.
  intros HI Hrx. destruct (Hopen w fl bs HI Hrx) as (x & i & lp & ob & Hok & Hfd & Hinv & Hq & Hn).
  eapply wp_mono; [by eapply clean_conn_spec|].
  intros [] w' (s & u & p & bp' & bp1 & fl1 & fl' & Hdel & -> & _ & Hst & Hu).
  pose proof (del_ioev_spec (_connfd x) _ Hinv) as ([] & s' & Hdel' & _ & _ & He)%wp_elim.
  rewrite Hdel in Hdel'. injection Hdel' as <-. split; [|split; [by eapply Hlog|split; [|split; [done|]]]].
  - eexists _, fl'. split; [simpl; by rewrite lookup_insert_eq|]. split_and!; try done. apply Hst.
  - exists (ev_kern s). simpl. by rewrite Hfd.
  - exists i, (ev_loop s). split; [simpl; by rewrite lookup_insert_eq|]. by rewrite He, Hfd, lookup_delete_eq.
Qed.

(** A stream that is rejected does not end with an empty message. *)
Lemma rejected_not_empty known zs ms rest st : parse known zs = (ms, rest, st) → st ≠ Partial → ¬ ends_empty ms rest.
Proof.
  intros Hp Hst [-> _]. revert ms Hp. induction zs as [zs st' Hz|zs m zs' Hz IH] using (parse_ind known);
    intros ms; rewrite parse_unfold, Hz; [intros [= _ -> <-]; vm_compute in Hz; congruence|].
  destruct (parse known zs') as [[ms' r'] s']. intros [= _ -> ->]. by apply (IH ms').
Qed.

End rejecting.

(** ** A concrete server with one connection

    Descriptor 7 is a connection of loop 0; commands 1 and 2 have a callback,
    which appends the message to the user's state. *)
Section sample.
Context {K : Type} `{Kernel K}.

Definition record_msg (func : msg_callback) (dat : list byte) (_ cmd _ : Z) (args : void_ptr)
    : M (world K (list delivery)) unit :=
  modify (λ w, set_user (w_user w ++ [(Some func, Some args, (cmd, dat))]) w).
Definition no_conn_cb (_ : conn_callback) (_ : Z) : M (world K (list delivery)) unit := mret tt.

Definition sample_dispatcher : msg_dispatcher :=
  (add_msg_cb 2 (user_msg_cb 20) (v_user 2) (add_msg_cb 1 (user_msg_cb 10) vnull msg_dispatcher_new).2).2.
Definition sample_server : tcp_server :=
  TcpServer 5 6 0 None false 100 50 1 sample_dispatcher {[7 := 7]} None None.
Definition sample_conn : tcp_conn := TcpConn 7 (Some 0%nat) None None vnull.
Definition sample_world (k : K) (lp : event_loop) : world K (list delivery) :=
  World k bare_pool {[0%nat := lp]} ∅ sample_server {[7 := sample_conn]} [].

Lemma sample_conn_ok k lp : conn_ok (sample_world k lp) (λ _, []) 7 sample_conn 0 lp [] [].
Proof. split; try done. apply bare_pool_inv. Qed.

Lemma conn_ok_rx {U} (w : world K U) fl c x i lp ib ob b bp' fl' ib' :
  conn_ok w fl c x i lp ib ob → step (ibuf x) b (w_bufs w) bp' fl fl' → tbuf bp' fl' b ib' →
  conn_ok (rx_upd c x b bp' w) fl' c (set_ibuf b x) i lp ib' ob.
Proof.
  intros [Hx Hl Hlp Hi Hib Hob Hs Ha] Hst Ht'.
  assert (Ha' : apart (obuf x) (ibuf x)) by (intros q Ho Hin; by apply (Ha q)).
  split; try done.
  - simpl. by rewrite lookup_insert_eq.
  - apply Hst.
  - by eapply (step_tbuf (ibuf x)).
  - by eapply (step_at_start (ibuf x)).
  - assert (Hap : apart (obuf x) b) by (by eapply (step_apart (ibuf x))).
    intros q Hq Ho. by apply (Hap q).
Qed.

(** The invariant the callbacks of the sample keep: nothing is in the outgoing
    buffer, and the connection is counted. *)
Definition sample_inv (w : world K (list delivery)) (fl : Z → list ptr) : Prop :=
  (∃ x lp, w_conns w !! 7 = Some x ∧ _loop x = Some 0%nat ∧ w_loops w !! 0%nat = Some lp ∧
     obuf x = None) ∧ pool_inv (w_bufs w) fl ∧
  connCloseCb (w_server w) = None ∧ _curr_conns (w_server w) = 1.

Lemma sample_observer : observer record_msg 7 sample_inv w_user.
Proof.
  split.
  - intros w fl x b bp' fl' ((x' & lp & Hx & Hl & Hlp & Ho) & Hi & Hrest) Hx' Hst. simplify_eq.
    split; [|done]. split; [|by split; [apply Hst|]]. exists (set_ibuf b x'), lp. simpl.
    by rewrite lookup_insert_eq.
  - intros w fl retries fd ys k' HI _. by split.
  - intros func args cmd dat bs w fl HI Hrx. unfold record_msg. wp_step. by exists fl.
Qed.

Lemma sample_open `{!EpollLaws K} w fl bs :
  sample_inv w fl → (∃ lp, w_loops w !! 0%nat = Some lp ∧ loop_inv (EvSt (w_kern w) lp)) →
  (_connfd <$> w_conns w !! 7) = Some 7 → rx w fl 7 bs →
  ∃ x i lp ob, conn_ok w fl 7 x i lp bs ob ∧ _connfd x = 7 ∧ loop_inv (EvSt (w_kern w) lp) ∧
    quiet no_conn_cb (connCloseCb (w_server w)) 7 ∧ is_int (_curr_conns (w_server w) - 1).
Proof.
  intros ((x & lp & Hx & Hl & Hlp & Ho) & Hi & Hcb & Hn) (lp' & Hlp' & Hinv) Hfd (x' & Hx' & _ & Ht).
  assert (x' = x) as -> by congruence. assert (lp' = lp) as -> by congruence.
  rewrite Hx in Hfd. injection Hfd as Hfd. exists x, 0%nat, lp, []. split_and!; try done.
  - split; try done; by rewrite Ho.
  - intros f w1 x1. by rewrite Hcb.
  - rewrite Hn. int_lia.
Qed.
End sample.

(** The sample, when the kernel has the bytes [ys] to read. *)
Definition incoming (ys : list byte) : world Script.state (list delivery) :=
  sample_world (Script.State [Script.ANum (Z.of_nat (length ys)); Script.ABytes ys]
    (Script.log (ev_kern one_reader))) (ev_loop one_reader).

Lemma incoming_readable ys :
  ys ≠ [] → Z.of_nat (length ys) ≤ u8M →
  readable 7 sample_inv (incoming ys) (λ _, []) sample_conn [] ys 1.
Proof.
  intros Hne Hmax.
  destruct (sample_conn_ok (w_kern (incoming ys)) (ev_loop one_reader)) as [Hx Hl Hlp Hi Hib Hob Hs Ha].
  split; [|by exists sample_conn|done..|reflexivity| |done|done].
  - split; [|by split]. by exists sample_conn, (ev_loop one_reader).
  - eexists _, 0%nat, _, _. split; [reflexivity|]. split; [apply interrupted_0|].
    split; [lia|reflexivity].
Qed.

Lemma handle_read_delivers_witness :
  let ys := frame (1, [x68; x69]%byte) ++ frame (2, []) ++ take 5 (frame (1, [x6f]%byte)) in
  ∃ w' fl', handle_read record_msg no_conn_cb 40 1 7 (incoming ys) = Ok (tt, w') ∧
    w_user w' = [(Some (user_msg_cb 10), Some vnull, (1, [x68; x69]%byte)); (Some (user_msg_cb 20), Some (v_user 2), (2, []))] ∧
    rx w' fl' 7 (take 5 (frame (1, [x6f]%byte))).
Proof.
  intros ys.
  destruct (handle_read_delivers record_msg no_conn_cb 7 sample_inv w_user sample_observer
    (incoming ys) (λ _, []) sample_conn [] ys 1 40 [(1, [x68; x69]%byte); (2, [])]
    (take 5 (frame (1, [x6f]%byte)))) as (w' & fl' & x' & Hr & _ & Hlog & Hrx & _).
  - apply incoming_readable; [discriminate|vm_compute; discriminate].
  - vm_compute. lia.
  - vm_compute. reflexivity.
  - intros [Hrest _]. discriminate Hrest.
  - exists w', fl'. split; [exact Hr|]. split; [exact Hlog|exact Hrx].
Defined.

Lemma handle_read_empty_message_aborts_witness :
  handle_read record_msg no_conn_cb 40 1 7 (incoming (frame (2, []))) = Fail AssertFailed.
Proof.
  apply (handle_read_empty_message_aborts record_msg no_conn_cb 7 sample_inv w_user sample_observer
    (incoming (frame (2, []))) (λ _, []) sample_conn [] (frame (2, [])) 1 40 [(2, [])] [] Partial).
  - apply incoming_readable; [discriminate|vm_compute; discriminate].
  - vm_compute. lia.
  - vm_compute. reflexivity.
  - split; [reflexivity|]. by exists 2.
Defined.

(** Reading does not concern the interest lists. *)
Lemma script_delivers retries fd ys k k' : delivers (K := Script.state) retries fd ys k k' → Script.log k' = Script.log k.
Proof.
  assert (Hask : ∀ {A} (f : Script.answer → A) s r s', Script.ask f s = (r, s') → Script.log s' = Script.log s).
  { intros A f s r s'. unfold Script.ask, Script.next. destruct (Script.answers s); by intros [= _ <-]. }
  intros (j & k1 & k2 & Hn%Hask & Hi & _ & Hr%Hask). rewrite Hr, <- Hn. clear Hn Hr.
  induction Hi as [|j k0 k3 k4 Hc%Hask _ IH]; [done|]. by rewrite IH.
Qed.

(** [sample_inv], with the registration of the connection. *)
Definition open_inv (w : world Script.state (list delivery)) (fl : Z → list ptr) : Prop :=
  sample_inv w fl ∧ (∃ lp, w_loops w !! 0%nat = Some lp ∧ loop_inv (EvSt (w_kern w) lp)) ∧
  (_connfd <$> w_conns w !! 7) = Some 7.

Lemma open_observer : observer record_msg 7 open_inv w_user.
Proof.
  split.
  - intros w fl x b bp' fl' (HI & Hlp & Hfd) Hx Hst.
    destruct (obs_frame _ _ _ _ sample_observer w fl x b bp' fl' HI Hx Hst) as [HI' Hlog].
    split; [|done]. split; [done|]. split; [done|]. simpl. rewrite lookup_insert_eq. rewrite Hx in Hfd. done.
  - intros w fl retries fd ys k' (HI & (lp & Hlp & Hi) & Hfd) Hd%script_delivers. split; [|done]. split; [done|].
    split; [|done]. exists lp. split; [done|]. apply (loop_inv_kern (w_kern w)); [done|].
    cbn [w_kern set_kern interest script_epoll]. by rewrite Hd.
  - intros func args cmd dat bs w fl (HI & Hlp & Hfd) Hrx. unfold record_msg. wp_step. by exists fl.
Qed.


(** ** Sending *)

Section sending.
Context {K U : Type} `{EpollLaws K}.
Variable conn_fn : conn_callback → Z → M (world K U) unit.

(** C25 [tcp_conn::send_data] puts exactly one frame, header and payload, behind
    what the outgoing buffer holds; if nothing was pending, the descriptor is
    now watched for writing with [tcp_wcb], and if something was, the watch is
    already there and nothing changes.  The input buffer and every buffer of
    another connection are untouched.  The frame must fit behind what is pending (8 MB
    in all), and the pool must have memory for two more buffers; otherwise, see
    [send_data_no_room_corrupts]. *)
Theorem send_data_frames (w : world K U) fl c x i lp ib ob dat cmd :
  conn_ok w fl c x i lp ib ob → loop_inv (EvSt (w_kern w) lp) → memory_for 2 (w_bufs w) →
  Z.of_nat (length ob) + 8 + Z.of_nat (length dat) ≤ u8M →
  ∃ w' fl' p lp', tcp_send_data c dat (Z.of_nat (length dat)) cmd w = Ok (0, w') ∧
    conn_ok w' fl' c (set_obuf (Some p) x) i lp' ib (ob ++ frame (cmd, dat)) ∧
    step (obuf x) (Some p) (w_bufs w) (w_bufs w') fl fl' ∧
    loop_inv (EvSt (w_kern w') lp') ∧
    (ob = [] → writer (EvSt (w_kern w') lp') (_connfd x) = Some (tcp_wcb, v_tcp_conn c) ∧
       ∃ m, interests (EvSt (w_kern w') lp') !! _connfd x = Some m ∧ has EPOLLOUT m = true) ∧
    (ob ≠ [] → w_kern w' = w_kern w ∧ lp' = lp).
Proof.
  intros Hok Hi Hm Hmax.
  pose proof (tcp_send_data_spec 2 w fl c x i lp ib ob dat cmd Hok ltac:(lia) Hm Hmax)
    as (r & w' & Hr & -> & fl' & p & lp' & Hok' & Hst & Hint & _)%wp_elim.
  exists w', fl', p, lp'. split; [done|]. split; [done|]. split; [done|].
  unfold write_interest in Hint. destruct (decide (ob = [])) as [->|Hne].
  - pose proof (add_ioev_spec (_connfd x) tcp_wcb EPOLLOUT (v_tcp_conn c) _ Hi eq_refl)
      as ([] & s' & Hadd & Hi' & _ & He)%wp_elim.
    rewrite Hint in Hadd. injection Hadd as <-. split; [done|]. split; [|done]. intros _.
    unfold writer. rewrite (loop_mirror _ Hi'), He, lookup_fmap, lookup_insert_eq. split.
    + unfold added. simpl. by destruct (_io_evs lp !! _connfd x).
    + eexists. split; [reflexivity|]. unfold added. simpl.
      destruct (_io_evs lp !! _connfd x); [by rewrite has_lor, orb_true_r|done].
  - injection Hint as Hk <-. rewrite Hk. split; [done|]. split; [done|]. by split.
Qed.

(** C37 A message whose header still fits in the 8 MB of the outgoing buffer but
    whose payload does not is refused with -1, and the header is meant to be taken
    back; but [pop] removes it from the front.  When output was pending, its
    first 8 bytes are lost and a header without payload stays behind it: the
    stream is corrupted.  The buffer no longer starts at its head, so that the
    next [handle_write] fails an assertion. *)
Theorem send_data_no_room_corrupts (w : world K U) fl c x i lp ib ob dat n cmd fuel retries :
  conn_ok w fl c x i lp ib ob → memory_for 1 (w_bufs w) → ob ≠ [] →
  Z.of_nat (length ob) + 8 ≤ u8M → u8M < Z.of_nat (length ob) + 8 + n ≤ INT_MAX →
  ∃ w' x' fl', tcp_send_data c dat n cmd w = Ok (-1, w') ∧ w_conns w' !! c = Some x' ∧
    tbuf (w_bufs w') fl' (obuf x') (drop 8 (ob ++ head_bytes (CommuHead cmd n))) ∧
    handle_write conn_fn (S fuel) retries c w' = Fail AssertFailed.
Proof.
  intros Hok Hm Hne Hh Hbig.
  pose proof (tcp_send_data_no_room w fl c x i lp ib ob dat n cmd Hok Hm Hh Hbig)
    as (r & w' & Hr & -> & x' & fl' & Hx' & _ & Hi & Ht & Hhead & _)%wp_elim.
  destruct (Hhead Hne) as (p & b & Hp & Hb & Hhd).
  exists w', x', fl'. split; [done|]. split; [done|]. split; [done|].
  unfold handle_write. apply bind_fail. cbn [handle_write_loop].
  assert (Hl : obuf_length c w' = Ok (b_length b, w')).
  { apply wp_returns. unfold obuf_length. wp_step. eapply wp_conn_at; [done|]. rewrite Hp.
    apply wp_zoom. cbn [view w_pool tbuf_length]. wp_step. eapply wp_buf_at; [done|]. wp_step.
    split; [done|]. by destruct w'. }
  erewrite bind_ok by exact Hl. rewrite Hp in Ht. destruct Ht as [_ (b' & Hb' & Hc)].
  assert (b' = b) as -> by congruence.
  assert (Hlen : b_length b ≠ 0).
  { rewrite (proj1 Hc), length_drop, length_app, length_head_bytes.
    assert (length ob ≠ 0)%nat by by destruct ob. lia. }
  destruct (Z.eqb_spec (b_length b) 0); [done|]. cbn [negb].
  erewrite bind_ok by (apply wp_returns; by eapply wp_conn_at). apply bind_fail.
  unfold zoom. cbn [view w_io]. rewrite Hp. unfold write_fd.
  assert (Hz : zoom io_bufs (buf_at p) (Io (w_kern w') (w_bufs w')) = Ok (b, Io (w_kern w') (w_bufs w'))).
  { apply wp_returns. apply wp_zoom. eapply wp_buf_at; [done|]. by split. }
  erewrite bind_ok by exact Hz. rewrite bool_decide_eq_false_2; [done|]. by rewrite Hhd.
Qed.
End sending.

(** ** Writing *)

Section writing.
Context {K U : Type} `{EpollLaws K} `{!SinkLaws K}.
Variable conn_fn : conn_callback → Z → M (world K U) unit.

Lemma eta_ev_st (s : ev_st K) : EvSt (ev_kern s) (ev_loop s) = s.
Proof. by destruct s. Qed.

(** What [handle_write] does, on any open connection. *)
Lemma handle_write_spec (w : world K U) fl c x i lp ib ob fuel retries :
  conn_ok w fl c x i lp ib ob → loop_inv (EvSt (w_kern w) lp) →
  (length ob < fuel)%nat → (patience < retries)%nat →
  quiet conn_fn (connCloseCb (w_server w)) c → is_int (_curr_conns (w_server w) - 1) →
  wp (handle_write conn_fn fuel retries c) (λ _ w',
     (closed c w' ∧ write_fails retries (_connfd x) (w_kern w) ob) ∨
     ∃ lp' ob', conn_ok w' fl c x i lp' ib ob' ∧ loop_inv (EvSt (w_kern w') lp') ∧ w_server w' = w_server w ∧
       sent (_connfd x) (w_kern w') ++ ob' = sent (_connfd x) (w_kern w) ++ ob ∧
       (ob' ≠ [] → lp' = lp) ∧
       (ob' = [] → ∀ m, interests (EvSt (w_kern w') lp') !! _connfd x = Some m → has EPOLLOUT m = false) ∧
       (∀ n k1, retry retries (sys_write (_connfd x) ob) (w_kern w) = Ok (inr n, k1) → 0 < n →
          ob ≠ [] → (length ob' < length ob)%nat) ∧
       (ob' = [] ∨ write_blocks retries (_connfd x) (w_kern w) ob ob')) w.
Proof.
  intros Hok Hi Hf Hret Hq Hn. unfold handle_write. wp_step.
  eapply wp_mono; [apply (handle_write_loop_spec conn_fn (λ k, interest (_epfd lp) k = interest (_epfd lp) (w_kern w))
    retries c x i lp ib fl ob); [|done..]|].
  { intros fd bs k r k' Hw Hk. rewrite <- Hk, <- (interest_write (_epfd lp) fd bs k). by rewrite Hw. }
  intros open w1 Hw1. apply wp_when; intros ->; [|by left].
  destruct Hw1 as (bp' & k' & ob' & -> & Hok1 & Hs & HR & _ & Hless & Hend).
  assert (Hi1 : loop_inv (EvSt k' lp)) by by apply (loop_inv_kern (w_kern w)).
  wp_step. eapply wp_obuf_length; [exact Hok1|].
  apply wp_when; intros Hz; [apply Z.eqb_eq in Hz|apply Z.eqb_neq in Hz].
  2:{ right. exists lp, ob'. split_and!; try done. intros ->. by simpl in Hz. }
  assert (ob' = []) as -> by by destruct ob'.
  wp_step. eapply wp_conn_at; [apply Hok1|]. rewrite (ok_loop _ _ _ _ _ _ _ _ Hok1).
  eapply wp_on_loop; [apply Hok1|]. simpl (w_kern _).
  pose proof (del_ioev_mask_spec (_connfd x) EPOLLOUT _ Hi1) as ([] & s' & Hdel & Hi' & _ & He)%wp_elim.
  unfold wp. rewrite Hdel. right. exists (ev_loop s'), [].
  split. { destruct Hok1 as [? ? ? ? ? ? ? ?]. split; try done. simpl. by rewrite lookup_insert_eq. }
  split; [by destruct s'|]. split; [done|].
  split. { simpl. by rewrite (ctl_sent _ _ _ (del_ioev_mask_ctl _ _ _ _ Hdel)). }
  split; [done|]. split; [|by split]. intros _ m. simpl. rewrite (eta_ev_st s'). by eapply unwatched.
Qed.

(** C17 [handle_write] returns, whatever the socket does, and loses, repeats and
    reorders nothing: what the socket has accepted, followed by what is left in
    the buffer, is the same byte sequence before and after.  When nothing is left
    the watch for writing is removed, and otherwise it stays, and the socket has just
    refused to take more; the drained buffer itself stays with the connection.  It
    closes the connection only when a write has failed with another error. *)
Theorem handle_write_conserves (w : world K U) fl c x i lp ib ob fuel retries :
  conn_ok w fl c x i lp ib ob → loop_inv (EvSt (w_kern w) lp) →
  (length ob < fuel)%nat → (patience < retries)%nat →
  quiet conn_fn (connCloseCb (w_server w)) c → is_int (_curr_conns (w_server w) - 1) →
  ∃ w', handle_write conn_fn fuel retries c w = Ok (tt, w') ∧
    ((closed c w' ∧ write_fails retries (_connfd x) (w_kern w) ob) ∨
     ∃ lp' ob', conn_ok w' fl c x i lp' ib ob' ∧
       (ob' = [] ∨ write_blocks retries (_connfd x) (w_kern w) ob ob') ∧
       sent (_connfd x) (w_kern w') ++ ob' = sent (_connfd x) (w_kern w) ++ ob ∧
       (ob' ≠ [] → lp' = lp) ∧
       (ob' = [] → ∀ m, interests (EvSt (w_kern w') lp') !! _connfd x = Some m →
          has EPOLLOUT m = false)).
Proof.
  intros Hok Hi Hf Hret Hq Hn.
  pose proof (handle_write_spec w fl c x i lp ib ob fuel retries Hok Hi Hf Hret Hq Hn)
    as ([] & w' & Hr & [Hc|(lp' & ob' & ? & _ & _ & ? & ? & ? & _ & ?)])%wp_elim; exists w'; (split; [exact Hr|]); [by left|].
  right. by exists lp', ob'.
Qed.
End writing.

(** ** The life of a connection *)

Section life.
Context {K U : Type} `{EpollLaws K}.
Variable conn_fn : conn_callback → Z → M (world K U) unit.

Lemma loop_inv_opened fd (k : K) lp :
  loop_inv (EvSt k lp) → loop_inv (EvSt (opened fd k) lp).
Proof.
  intros Hi. apply (loop_inv_kern k); [done|]. unfold opened.
  by rewrite interest_setsockopt, interest_nonblock.
Qed.

(** [init] on an unused connection object (new, or closed before) makes it a
    live connection of the given loop with empty buffers: the descriptor is
    watched for reading with [tcp_rcb], and the connection is counted. *)
Theorem init_registers (w : world K U) fl c x i lp connfd :
  w_conns w !! c = Some x → ibuf x = None → obuf x = None → pool_inv (w_bufs w) fl →
  w_loops w !! i = Some lp → loop_inv (EvSt (w_kern w) lp) →
  quiet conn_fn (connBuildCb (w_server w)) c → is_int (_curr_conns (w_server w) + 1) →
  ∃ w' x' lp', init conn_fn c connfd i w = Ok (tt, w') ∧
    conn_ok w' fl c x' i lp' [] [] ∧ _connfd x' = connfd ∧
    loop_inv (EvSt (w_kern w') lp') ∧
    reader (EvSt (w_kern w') lp') connfd = Some (tcp_rcb, v_tcp_conn c) ∧
    _curr_conns (w_server w') = _curr_conns (w_server w) + 1.
Proof.
  intros Hx Hib Hob Hi Hlp Hinv Hq Hn.
  assert (Hinv1 : loop_inv (EvSt (opened connfd (w_kern w)) lp)) by by apply loop_inv_opened.
  pose proof (add_ioev_spec connfd tcp_rcb EPOLLIN (v_tcp_conn c) _ Hinv1 eq_refl)
    as ([] & s & Hadd & Hi' & _ & He)%wp_elim.
  assert (Hw : wp (init conn_fn c connfd i) (λ _ w', ∃ u p, w' = inited c connfd x i s u p w) w).
  { eapply init_spec; [done..|]. intros u p. by exists u, p. }
  apply wp_elim in Hw as ([] & w' & Hr & u & p & ->).
  eexists _, _, (ev_loop s). split; [exact Hr|]. split_and!.
  - split; try done; simpl; try (by rewrite lookup_insert_eq); by rewrite ?Hib, ?Hob.
  - done.
  - by destruct s.
  - unfold reader. simpl. rewrite He, lookup_insert_eq. unfold added. simpl.
    by destruct (_io_evs lp !! connfd).
  - done.
Qed.

(** [clean_conn] gives everything back: both buffers go to the pool and no
    other client's buffer changes, the descriptor is no longer watched and is
    closed, the connection is no longer counted, and the object is ready for
    [init]. *)
Theorem clean_conn_releases (w : world K U) fl c x i lp ib ob :
  conn_ok w fl c x i lp ib ob → loop_inv (EvSt (w_kern w) lp) →
  quiet conn_fn (connCloseCb (w_server w)) c → is_int (_curr_conns (w_server w) - 1) →
  ∃ w' fl' lp' k', clean_conn conn_fn c w = Ok (tt, w') ∧ closed c w' ∧
    w_loops w' !! i = Some lp' ∧ loop_inv (EvSt (w_kern w') lp') ∧
    interests (EvSt (w_kern w') lp') = delete (_connfd x) (interests (EvSt (w_kern w) lp)) ∧
    w_kern w' = sys_close (_connfd x) k' ∧
    _curr_conns (w_server w') = _curr_conns (w_server w) - 1 ∧
    pool_inv (w_bufs w') fl' ∧
    (∀ q b, ibuf x ≠ Some q → obuf x ≠ Some q → held (w_bufs w) fl q →
       store (w_bufs w) !! q = Some b →
       held (w_bufs w') fl' q ∧ store (w_bufs w') !! q = Some b).
Proof.
  intros Hok Hi Hq Hn.
  pose proof (clean_conn_spec conn_fn w fl c x i lp ib ob Hok Hq Hn)
    as ([] & w' & Hr & s & u & p & bp' & bp1 & fl1 & fl' & Hdel & -> & Hst1 & Hst2 & _)%wp_elim.
  pose proof (del_ioev_spec (_connfd x) _ Hi) as ([] & s' & Hdel' & Hi' & (Hep & _) & He)%wp_elim.
  rewrite Hdel in Hdel'. injection Hdel' as <-.
  assert (Hclose : interests (EvSt (sys_close (_connfd x) (ev_kern s)) (ev_loop s)) = interests s).
  { apply interest_close. change (interests s !! _connfd x = None).
    by rewrite (loop_mirror _ Hi'), He, lookup_fmap, lookup_delete_eq. }
  eexists _, fl', (ev_loop s), (ev_kern s). split; [exact Hr|]. split_and!.
  - eexists _, fl'. split; [simpl; by rewrite lookup_insert_eq|]. split_and!; try done. apply Hst2.
  - simpl. by rewrite lookup_insert_eq.
  - destruct Hi' as [Hm ? ? ?]. split; [etrans; [exact Hclose|exact Hm]|done..].
  - etrans; [exact Hclose|]. by rewrite (loop_mirror _ Hi'), He, fmap_delete, <- (loop_mirror _ Hi).
  - done.
  - done.
  - apply Hst2.
  - intros q b Hq1 Hq2 Hheld Hb. destruct (step_keeps _ _ _ _ _ _ Hst1 q b) as [? ?]; [done..|].
    by apply (step_keeps _ _ _ _ _ _ Hst2).
Qed.
End life.

(** ** The concrete instances of the claims on sending and the life cycle *)

Lemma no_conn_cb_quiet {K} cb c : quiet (K:=K) no_conn_cb cb c.
Proof.
  intros f w x _ Hx. exists (w_user w), (parameter x). unfold no_conn_cb.
  assert (set_parameter (parameter x) x = x) as -> by (by destruct x).
  rewrite insert_id by done. by destruct w.
Qed.

Definition quiet_server : world Script.state (list delivery) :=
  sample_world (ev_kern one_reader) (ev_loop one_reader).

Lemma send_data_frames_witness :
  ∃ w' fl' p lp', tcp_send_data 7 [x68; x69]%byte 2 1 quiet_server = Ok (0, w') ∧
    conn_ok w' fl' 7 (set_obuf (Some p) sample_conn) 0 lp' [] (frame (1, [x68; x69]%byte)) ∧
    writer (EvSt (w_kern w') lp') 7 = Some (tcp_wcb, v_tcp_conn 7).
Proof.
  destruct (send_data_frames quiet_server _ 7 sample_conn 0 (ev_loop one_reader) [] []
    [x68; x69]%byte 1 (sample_conn_ok _ _) one_reader_inv) as (w' & fl' & p & lp' & Hr & Hok & _ & _ & Hw & _).
  - vm_compute. reflexivity.
  - vm_compute. discriminate.
  - exists w', fl', p, lp'. split; [exact Hr|]. split; [exact Hok|]. by destruct (Hw eq_refl).
Defined.

(** The sample, when two bytes are pending. *)
Definition pending_conn : tcp_conn := TcpConn 7 (Some 0%nat) None (Some 1%positive) vnull.
Definition pending_world {K} (k : K) (lp : event_loop) : world K (list delivery) :=
  World k two_bytes {[0%nat := lp]} ∅ sample_server {[7 := pending_conn]} [].

Lemma pending_ok {K} (k : K) lp :
  conn_ok (pending_world k lp) (λ _, []) 7 pending_conn 0 lp [] [x68; x69]%byte.
Proof. destruct holds_two_bytes as (Hi & Ht & Hs). split; try done. Qed.

Lemma send_data_no_room_corrupts_witness :
  let w := pending_world (ev_kern one_reader) (ev_loop one_reader) in
  ∃ w', tcp_send_data 7 [] 8388608 1 w = Ok (-1, w') ∧
    handle_write no_conn_cb 10 1 7 w' = Fail AssertFailed.
Proof.
  intros w.
  destruct (send_data_no_room_corrupts no_conn_cb w _ 7 pending_conn 0 _ [] [x68; x69]%byte []
    8388608 1 9 1 (pending_ok _ _)) as (w' & x' & fl' & Hr & _ & _ & Hw).
  - vm_compute. reflexivity.
  - discriminate.
  - vm_compute. discriminate.
  - vm_compute. split; (reflexivity || discriminate).
  - exists w'. split; [exact Hr|exact Hw].
Defined.

(** A loop that watches descriptor 7 for both sides, on a socket with room for one
    byte. *)
Definition watching : ev_st Pipe.state :=
  run_state (add_ioev 7 tcp_rcb EPOLLIN (v_tcp_conn 7) ;;
             add_ioev 7 tcp_wcb EPOLLOUT (v_tcp_conn 7))
    (EvSt (Pipe.State 1 [] ∅ [] []) (EventLoop 3 ∅ timer_queue_new 4 task_vector_new ∅)).

Lemma watching_inv : loop_inv watching.
Proof.
  assert (Hi : loop_inv (EvSt (Pipe.State 1 [] ∅ [] []) (EventLoop 3 ∅ timer_queue_new 4 task_vector_new ∅))).
  { split; simpl; [done|apply map_Forall_empty|by rewrite dom_empty_L|lia]. }
  assert (Hw : wp (add_ioev 7 tcp_rcb EPOLLIN (v_tcp_conn 7) ;;
    add_ioev 7 tcp_wcb EPOLLOUT (v_tcp_conn 7)) (λ _ s, loop_inv s)
    (EvSt (Pipe.State 1 [] ∅ [] []) (EventLoop 3 ∅ timer_queue_new 4 task_vector_new ∅))).
  { wp_step. eapply wp_mono; [by apply add_ioev_spec|]. intros _ s (Hi1 & _).
    eapply wp_mono; [by apply add_ioev_spec|]. by intros _ s' (? & _). }
  by destruct (wp_run_state _ _ _ Hw).
Qed.

(** This socket blocks, but has no other error. *)
Lemma pipe_never_fails retries fd (k : Pipe.state) ob : ¬ write_fails retries fd k ob.
Proof.
  intros (k1 & bs & e & k2 & _ & _ & Hr & Hne). revert k1 Hr.
  induction retries as [|n IH]; intros k1; [done|]. cbn [retry]. unfold mbind, M_bind, syscall. simpl.
  unfold Pipe.write. destruct (Pipe.room k1); intros [= <- _]; done.
Qed.

Lemma handle_write_conserves_witness :
  let w := pending_world (ev_kern watching) (ev_loop watching) in
  ∃ w', handle_write no_conn_cb 3 1 7 w = Ok (tt, w') ∧
    ∃ ob', sent 7 (w_kern w') ++ ob' = [x68; x69]%byte.
Proof.
  intros w.
  destruct (handle_write_conserves no_conn_cb w _ 7 pending_conn 0 _ [] [x68; x69]%byte 3 1
    (pending_ok _ _) watching_inv) as (w' & Hr & Hc).
  - simpl. lia.
  - simpl. lia.
  - apply no_conn_cb_quiet.
  - vm_compute. split; discriminate.
  - exists w'. split; [exact Hr|]. destruct Hc as [[_ Hfail]|(lp' & ob' & _ & _ & Hs & _)]; [|by exists ob'].
    by destruct (pipe_never_fails _ _ _ _ Hfail).
Defined.

(** The sample, when the object of descriptor 7 is not in use. *)
Definition fresh_world : world Script.state (list delivery) :=
  World (ev_kern idle) bare_pool {[0%nat := ev_loop idle]} ∅ sample_server {[7 := tcp_conn_new]} [].

Lemma init_registers_witness :
  ∃ w' x' lp', init no_conn_cb 7 7 0 fresh_world = Ok (tt, w') ∧
    conn_ok w' (λ _, []) 7 x' 0 lp' [] [] ∧
    reader (EvSt (w_kern w') lp') 7 = Some (tcp_rcb, v_tcp_conn 7).
Proof.
  destruct (init_registers no_conn_cb fresh_world (λ _, []) 7 tcp_conn_new 0 (ev_loop idle) 7)
    as (w' & x' & lp' & Hr & Hok & _ & _ & Hrd & _).
  - reflexivity.
  - reflexivity.
  - reflexivity.
  - apply bare_pool_inv.
  - reflexivity.
  - apply idle_inv.
  - apply no_conn_cb_quiet.
  - vm_compute. split; discriminate.
  - exists w', x', lp'. split; [exact Hr|]. split; [exact Hok|exact Hrd].
Defined.

Lemma clean_conn_releases_witness :
  ∃ w', clean_conn no_conn_cb 7 (pending_world (ev_kern one_reader) (ev_loop one_reader)) = Ok (tt, w') ∧
    closed 7 w' ∧ _curr_conns (w_server w') = 0.
Proof.
  destruct (clean_conn_releases no_conn_cb
    (pending_world (ev_kern one_reader) (ev_loop one_reader)) (λ _, []) 7 pending_conn 0
    (ev_loop one_reader) [] [x68; x69]%byte (pending_ok _ _) one_reader_inv)
    as (w' & fl' & lp' & k' & Hr & Hc & _ & _ & _ & _ & Hn & _).
  - apply no_conn_cb_quiet.
  - vm_compute. split; discriminate.
  - exists w'. split; [exact Hr|]. split; [exact Hc|exact Hn].
Defined.
