(* ===== verification/Drain.v ===== *)
(** * The outgoing buffer of a connection drains

    What [send_data] could not hand to the socket at once waits until the socket is
    writable.  Here the calls of [handle_write] that follow: there are at most as
    many as bytes wait, and then the loop does not watch for writing any more. *)
From S2P Require Import Prelude EventBase TimerQueue Kernel IoBuffer BufferPool TcpBuffer BufferProps.
From S2P Require Import Wire EventLoop EventLoopProps World TcpConn TcpConnSpec TcpConnProps.

Section drain.
Context {K U : Type} `{EpollLaws K} `{!SinkLaws K}.
Variable conn_fn : conn_callback → Z → M (world K U) unit.
Variable fuel retries : nat.
Variable c : Z.
Implicit Types (w : world K U) (lp : event_loop).

(** The loop watches [fd] for writing. *)
Definition watched (fd : Z) (k : K) lp : Prop :=
  ∃ m, interests (EvSt k lp) !! fd = Some m ∧ has EPOLLOUT m = true.

(** Time has passed, and the socket takes at least one byte again. *)
Definition writable_again (fd : Z) (k k' : K) : Prop :=
  (∀ epfd, interest epfd k' = interest epfd k) ∧ sent fd k' = sent fd k ∧
  (∀ bs, bs ≠ [] → ∃ n k1, retry retries (sys_write fd bs) k' = Ok (inr n, k1) ∧ 0 < n).

(** The loop calls [handle_write] for the connection. *)
Inductive flush_round w : world K U → Prop :=
  | flush x i lp k' w' :
      w_conns w !! c = Some x → _loop x = Some i → w_loops w !! i = Some lp →
      watched (_connfd x) (w_kern w) lp → writable_again (_connfd x) (w_kern w) k' →
      handle_write conn_fn fuel retries c (set_kern k' w) = Ok (tt, w') → flush_round w w'.

(** A state between two rounds: [ob] waits. *)
Record flushing w fl x i ib ob lp : Prop := {
  fg_conn : conn_ok w fl c x i lp ib ob;
  fg_loop : loop_inv (EvSt (w_kern w) lp);
  fg_watch : ob ≠ [] ↔ watched (_connfd x) (w_kern w) lp;
  fg_quiet : quiet conn_fn (connCloseCb (w_server w)) c;
  fg_count : is_int (_curr_conns (w_server w) - 1);
}.
Hypothesis Hpatience : (patience < retries)%nat.

(** A round from [w] to [w'] in which a [write] failed. *)
Definition failing_round fl x i ib w w' : Prop :=
  ∃ lp ob k', flushing w fl x i ib ob lp ∧ writable_again (_connfd x) (w_kern w) k' ∧
    handle_write conn_fn fuel retries c (set_kern k' w) = Ok (tt, w') ∧
    write_fails retries (_connfd x) k' ob.

(** One round: the buffer gets shorter, or a [write] fails and the connection is closed. *)
Lemma flush_progress w fl x i ib ob lp k' :
  flushing w fl x i ib ob lp → ob ≠ [] → (length ob < fuel)%nat → writable_again (_connfd x) (w_kern w) k' →
  wp (handle_write conn_fn fuel retries c) (λ _ w', (closed c w' ∧ write_fails retries (_connfd x) k' ob) ∨
    ∃ lp' ob', flushing w' fl x i ib ob' lp' ∧
    (length ob' < length ob)%nat ∧
    sent (_connfd x) (w_kern w') ++ ob' = sent (_connfd x) (w_kern w) ++ ob) (set_kern k' w).
Proof.
  intros [Hok Hi Hw Hq Hn] Hne Hf (Hint & Hsent & Htake).
  assert (Hok' : conn_ok (set_kern k' w) fl c x i lp ib ob) by by destruct Hok.
  assert (Hi' : loop_inv (EvSt k' lp)) by by apply (loop_inv_kern (w_kern w)).
  eapply wp_mono; [by apply (handle_write_spec conn_fn (set_kern k' w) fl c x i lp ib ob fuel retries Hok' Hi')|].
  intros [] w' [Hc|(lp' & ob' & Hok2 & Hi2 & Hsrv & Hs & Hsame & Hun & Hless & _)]; [by left|right].
  exists lp', ob'. destruct (Htake ob Hne) as (n & k1 & Hrun & Hpos). split_and!.
  - split; [done|done| |rewrite Hsrv; done|rewrite Hsrv; done]. split.
    + intros Hne'. apply Hw in Hne as (m & Hm & Hb). exists m. rewrite (Hsame Hne') in *. split; [|done].
      rewrite (loop_mirror _ Hi2). by rewrite (loop_mirror _ Hi) in Hm.
    + intros (m & Hm & Hb) ->. by rewrite (Hun eq_refl m Hm) in Hb.
  - by eapply Hless.
  - by rewrite <- Hsent.
Qed.

Lemma flush_inv w w' fl x i ib ob lp :
  flushing w fl x i ib ob lp → flush_round w w' →
  ob ≠ [] ∧ ∃ k', writable_again (_connfd x) (w_kern w) k' ∧
    handle_write conn_fn fuel retries c (set_kern k' w) = Ok (tt, w').
Proof.
  intros [[Hx Hl Hlp _ _ _ _ _] _ Hw _ _] [x' i' lp' k' w2 Hx' Hl' Hlp' Hw' Hk Hr].
  assert (x' = x) as -> by congruence. assert (i' = i) as -> by congruence. assert (lp' = lp) as -> by congruence.
  split; [by apply Hw|]. by exists k'.
Qed.

Lemma closed_no_round w w' : closed c w → ¬ flush_round w w'.
Proof. intros (x & fl & Hx & _ & Hl & _) [x' i lp k' w2 Hx' Hl' _ _ _ _]. congruence. Qed.

(** C9 What waits in the outgoing buffer of a connection is sent in at most as many
    calls of [handle_write] as there are bytes, if the socket takes at least a byte
    whenever it is writable: then all of it has been accepted by the socket, in
    order, and the loop does not watch the connection for writing any more.  Until
    then the next call is always possible, and returns.  Only a failed [write] ends
    this earlier: in the last of the calls, which closes the connection. *)
Theorem handle_write_drains w fl x i lp ib ob n w' :
  flushing w fl x i ib ob lp → (length ob < fuel)%nat → nsteps flush_round n w w' →
  (n ≤ length ob)%nat ∧
  ((closed c w' ∧ ∃ m w0, n = S m ∧ nsteps flush_round m w w0 ∧ failing_round fl x i ib w0 w') ∨
   ∃ lp' ob', flushing w' fl x i ib ob' lp' ∧ (n + length ob' ≤ length ob)%nat ∧
     sent (_connfd x) (w_kern w') ++ ob' = sent (_connfd x) (w_kern w) ++ ob ∧
     (ob' ≠ [] → ∀ k', writable_again (_connfd x) (w_kern w') k' → ∃ w2, flush_round w' w2)).
Proof.
  intros Hfl Hf Hsteps. revert ob lp Hfl Hf.
  induction Hsteps as [w|n w w1 w' Hstep Hsteps IH]; intros ob lp Hfl Hf.
  - split; [lia|]. right. exists lp, ob. do 3 (split; [done|]). intros Hne k' Hk.
    pose proof (flush_progress _ _ _ _ _ _ _ _ Hfl Hne Hf Hk) as ([] & w2 & Hr & _)%wp_elim. exists w2.
    pose proof Hfl as [[] _ Hw _ _]. eapply (flush _ x i lp k'); try done. by apply Hw.
  - destruct (flush_inv _ _ _ _ _ _ _ _ Hfl Hstep) as (Hne & k' & Hk & Hr).
    pose proof (flush_progress _ _ _ _ _ _ _ _ Hfl Hne Hf Hk) as ([] & w2 & Hr2 & Hend)%wp_elim.
    rewrite Hr in Hr2. injection Hr2 as <-. destruct Hend as [[Hc Hfail]|(lp1 & ob1 & Hfl1 & Hlt & Hs)].
    + destruct Hsteps as [|? ? ? ? Hst _]; [|by apply closed_no_round in Hst].
      split; [by destruct ob; [|simpl; lia]|left]. split; [done|]. exists 0%nat, w. split; [done|].
      split; [constructor|]. by exists lp, ob, k'.
    + destruct (IH ob1 lp1 Hfl1 ltac:(lia)) as [Hn Hend]. split; [lia|].
      destruct Hend as [(Hc & m & w0 & -> & Hst & Hfail)|(lp2 & ob2 & ? & ? & Hs2 & ?)].
      * left. split; [done|]. exists (S m), w0. split; [done|]. split; [by eapply nsteps_l|done].
      * right. exists lp2, ob2. split_and!; [done|lia|by rewrite Hs2|done].
Qed.
End drain.

(** ** A concrete instance: two bytes wait, and the socket takes one at a time *)

Definition room_again (k : Pipe.state) : Pipe.state := Pipe.State 1 (Pipe.out k) (Pipe.watch k) (Pipe.pending k) (Pipe.shut k).

Lemma room_writable fd k : writable_again 1 fd k (room_again k).
Proof. split; [done|]. split; [done|]. intros [|b bs] Hne; [done|]. by eexists 1, _. Qed.

Definition after_flush (w : world Pipe.state (list delivery)) : world Pipe.state (list delivery) :=
  run_state (handle_write no_conn_cb 3 1 7) (set_kern (room_again (w_kern w)) w).

Definition two_waiting : world Pipe.state (list delivery) := pending_world (ev_kern watching) (ev_loop watching).

Lemma two_waiting_ok : flushing no_conn_cb 7 two_waiting (λ _, []) pending_conn 0 [] [x68; x69]%byte (ev_loop watching).
Proof.
  split; [apply pending_ok|exact watching_inv| |apply no_conn_cb_quiet|vm_compute; split; discriminate].
  split; [|done]. intros _. by eexists.
Qed.

Lemma pipe_patient : (patience (K := Pipe.state) < 1)%nat.
Proof. vm_compute. lia. Qed.

Lemma first_flush : flush_round no_conn_cb 3 1 7 two_waiting (after_flush two_waiting).
Proof.
  apply (flush no_conn_cb 3 1 7 two_waiting pending_conn 0%nat (ev_loop watching) (room_again (w_kern two_waiting))).
  - reflexivity.
  - reflexivity.
  - reflexivity.
  - by apply two_waiting_ok.
  - apply room_writable.
  - by vm_compute.
Qed.

Lemma second_flush : flush_round no_conn_cb 3 1 7 (after_flush two_waiting) (after_flush (after_flush two_waiting)).
Proof.
  apply (flush no_conn_cb 3 1 7 _ pending_conn 0%nat (ev_loop watching) (room_again (w_kern (after_flush two_waiting)))).
  - by vm_compute.
  - by vm_compute.
  - by vm_compute.
  - eexists. split; by vm_compute.
  - apply room_writable.
  - by vm_compute.
Qed.

Lemma handle_write_drains_witness :
  let w' := after_flush (after_flush two_waiting) in
  nsteps (flush_round no_conn_cb 3 1 7) 2 two_waiting w' ∧ sent 7 (w_kern w') = [x68; x69]%byte.
Proof.
  intros w'. assert (Hsteps : nsteps (flush_round no_conn_cb 3 1 7) 2 two_waiting w').
  { apply (nsteps_l _ _ _ (after_flush two_waiting)); [apply first_flush|apply nsteps_once, second_flush]. }
  split; [exact Hsteps|].
  destruct (handle_write_drains no_conn_cb 3 1 7 pipe_patient two_waiting (λ _, []) pending_conn 0 (ev_loop watching)
    [] [x68; x69]%byte 2 w' two_waiting_ok ltac:(simpl; lia) Hsteps) as [_ [(_ & m & w0 & _ & _ & Hfail)|(lp' & ob' & _ & Hn & Hs & _)]].
  - destruct Hfail as (lp & ob & k' & _ & _ & _ & Hfail). by apply pipe_never_fails in Hfail.
  - destruct ob' as [|b ob']; [|simpl in Hn; lia]. rewrite app_nil_r in Hs. exact Hs.
Defined.
