(* ===== verification/ThreadPool.v ===== *)
(** * Threads and the queues between them (include/thread_queue.h,
    include/thread_pool.h, src/thread_pool.cc)

    A queue is guarded by its mutex, so that [send_msg] and [recv_msg] are each
    one step; the eventfd counts the messages sent since the last receive and
    wakes the receiving thread through its event loop. *)
From S2P Require Import Prelude EventBase TimerQueue Kernel IoBuffer EventLoop World TcpConn.

(** ** [class thread_queue] *)

Definition set_queue q tq := ThreadQueue (_evfd tq) (tq_loop tq) q (ev_count tq).
Definition set_ev_count n tq := ThreadQueue (_evfd tq) (tq_loop tq) (_queue tq) n.
Definition set_tq_loop l tq := ThreadQueue (_evfd tq) l (_queue tq) (ev_count tq).

(** A write of 1 to the eventfd: at its maximum the counter stays (EAGAIN). *)
Definition eventfd_write (tq : thread_queue) : thread_queue :=
  if ev_count tq + 1 <=? 2 ^ 64 - 2 then set_ev_count (ev_count tq + 1) tq else tq.
(** A read resets the counter; at 0 it fails (EAGAIN) and changes nothing. *)
Definition eventfd_read (tq : thread_queue) : thread_queue := set_ev_count 0 tq.

Definition send_msg (item : queue_msg) : M thread_queue unit :=
  modify (λ tq, set_queue (_queue tq ++ [item]) tq) ;;
  modify eventfd_write.

(** The result is what [tmp_queue] holds afterwards. *)
Definition recv_msg (tmp_queue : list queue_msg) : M thread_queue (list queue_msg) :=
  modify eventfd_read ;;
  tq ← get;
  put (set_queue tmp_queue tq) ;;
  mret (_queue tq).

(** epoll reports the eventfd readable. *)
Definition readable_evfd (tq : thread_queue) : bool := 0 <? ev_count tq.

Section thread_pool.
Context {K U : Type} `{Kernel K}.
Variable conn_fn : conn_callback → Z → M (world K U) unit.
Variable call_io : nat → io_callback → Z → void_ptr → M (world K U) unit.
Variable call_task : nat → pendingFunc → void_ptr → M (world K U) unit.
Abbreviation W := (world K U).

(** Running an operation of the queue at index [i] of [_pool]. *)
Definition on_queue {A} (i : nat) (m : M thread_queue A) : M W A :=
  w ← get;
  tq ← from_option_or Undefined (w_queues w !! i);
  match m tq with
  | Ok (a, tq) => put (set_queues (<[i := tq]> (w_queues w)) w) ;; mret a
  | Fail e => fail e
  end.

(** [thread_queue::thread_queue()] *)
Definition new_thread_queue (i : nat) : M W unit :=
  r ← zoom w_kernel (syscall sys_eventfd);
  match r with
  | inl _ => fail Exited
  | inr evfd => modify (λ w, set_queues (<[i := ThreadQueue evfd None [] 0]> (w_queues w)) w)
  end.

(** [thread_queue::~thread_queue()] *)
Definition thread_queue_dtor (i : nat) : M W unit :=
  evfd ← on_queue i (gets _evfd);
  modify (λ w, set_kern (sys_close evfd (w_kern w)) w).

Definition get_loop (i : nat) : M W (option nat) := on_queue i (gets tq_loop).

Definition set_loop (i : nat) (loop : nat) (proc : io_callback) (args : void_ptr) : M W unit :=
  on_queue i (modify (set_tq_loop (Some loop))) ;;
  w ← get;
  tq ← from_option_or Undefined (w_queues w !! i);
  on_loop (tq_loop tq) (add_ioev (_evfd tq) proc EPOLLIN args).

(** ** Receiving in a thread of the pool *)

(** [tcp_server::conns[i]]: out of range is undefined. *)
Definition conns_at (i : Z) : M W (option Z) :=
  w ← get;
  if (0 <=? i) && (i <? _conns_size (w_server w)) then mret (conns (w_server w) !! i)
  else fail Undefined.
Definition conns_put (i : Z) (c : Z) : M W unit :=
  modify_server (λ s, set_conns (<[i := c]> (conns s)) s).

(** [new tcp_conn(connfd, loop)]: the object of slot [connfd], set up by [init]. *)
Definition new_tcp_conn (connfd : Z) (loop : nat) : M W Z :=
  conn_put connfd tcp_conn_new ;;
  init conn_fn connfd connfd loop ;;
  mret connfd.

(** The body of the [while] loop of [msg_comming_cb]. *)
Definition handle_msg (loop : nat) (msg : queue_msg) : M W unit :=
  match msg with
  | NEW_CONN connfd =>
      conn ← conns_at connfd;
      match conn with
      | Some c => init conn_fn c connfd loop
      | None => c ← new_tcp_conn connfd loop; conns_put connfd c
      end
  | NEW_TASK task args => on_loop (Some loop) (add_task task args)
  | STOP_THD => mret tt
  end.

(** [msg_comming_cb] on loop [loop], for the queue at index [i]. *)
Definition msg_comming (loop i : nat) : M W unit :=
  msgs ← on_queue i (recv_msg []);
  for_each msgs (handle_msg loop).

(** The loop of thread [i] of the pool is [w_loops] at [i + 1]. *)
Definition thread_lens (i : nat) (l0 : event_loop) : lens W (ev_st K) :=
  Lens (λ w, EvSt (w_kern w) (default l0 (w_loops w !! i)))
       (λ s w, set_loops (<[i := ev_loop s]> (w_loops w)) (set_kern (ev_kern s) w)).

(** [thread_domain], up to the [n]-th round of its loop. *)
Definition thread_domain (n : nat) (i : nat) : M W unit :=
  w ← get;
  match event_loop_ctor (w_kern w) with
  | Fail e => fail e
  | Ok s =>
      put (set_loops (<[S i := ev_loop s]> (w_loops w)) (set_kern (ev_kern s) w)) ;;
      set_loop i (S i) msg_comming_cb (v_thread_queue i) ;;
      process_evs (thread_lens (S i) (ev_loop s)) (call_io (S i)) (call_task (S i)) n
  end.

(** ** [class thread_pool] *)

(** The loop of the constructor, from index [i], for [k] more threads.  The
    started thread runs on its own; [pthread_create] returns an error number. *)
Fixpoint start_threads (k i : nat) : M W unit :=
  match k with
  | O => mret tt
  | S k =>
      new_thread_queue i ;;
      ret ← zoom w_kernel (syscall sys_pthread_create);
      exit_if (ret =? -1) ;;
      start_threads k (S i)
  end.

Definition thread_pool_ctor (thread_cnt : Z) : M W thread_pool :=
  exit_if ((thread_cnt <=? 0) || (30 <? thread_cnt)) ;;
  start_threads (Z.to_nat thread_cnt) 0 ;;
  mret (ThreadPool 0 thread_cnt).

Definition get_next_thread : M thread_pool nat :=
  p ← get;
  let i := if _curr_index p =? _thread_cnt p then 0 else _curr_index p in
  put (ThreadPool (i + 1) (_thread_cnt p)) ;;
  mret (Z.to_nat i).

(** [run_task(int thd_index, pendingFunc task, void* args)] *)
Definition pool_run_task (thd_index : nat) (task : pendingFunc) (args : void_ptr) : M W unit :=
  on_queue thd_index (send_msg (NEW_TASK task args)).

(** [run_task(pendingFunc task, void* args)]: the call in the loop leaves [args] to
    its default, NULL. *)
Definition pool_run_task_all (p : thread_pool) (task : pendingFunc) (args : void_ptr) : M W unit :=
  for_each (seq 0 (Z.to_nat (_thread_cnt p))) (λ i, pool_run_task i task vnull).
End thread_pool.
