(* ===== verification/ThreadPoolProps.v ===== *)
(** * Correctness of the thread queues and the thread pool

    The claims about include/thread_queue.h and src/thread_pool.cc. *)
From S2P Require Import Prelude EventBase TimerQueue Kernel IoBuffer EventLoop World TcpConn ThreadPool.

(** ** Interleavings on one queue *)

(** The steps of any number of senders and of the receiving thread, in the order
    in which they hold the mutex. *)
Inductive tq_action := Send (m : queue_msg) | Recv.

(** A step gives the messages it takes out. *)
Definition tq_step (a : tq_action) : M thread_queue (list queue_msg) :=
  match a with
  | Send m => send_msg m ;; mret []
  | Recv => recv_msg []
  end.

Fixpoint tq_run (acts : list tq_action) : M thread_queue (list queue_msg) :=
  match acts with
  | [] => mret []
  | a :: acts => got ← tq_step a; rest ← tq_run acts; mret (got ++ rest)
  end.

Definition sends (acts : list tq_action) : list queue_msg :=
  omap (λ a, match a with Send m => Some m | Recv => None end) acts.

Definition new_queue (evfd : Z) : thread_queue := ThreadQueue evfd None [] 0.

(** Waiting messages keep the eventfd readable. *)
Definition tq_inv (tq : thread_queue) : Prop :=
  0 ≤ ev_count tq ∧ (_queue tq ≠ [] → 0 < ev_count tq).

Lemma tq_step_spec a tq :
  tq_inv tq →
  wp (tq_step a) (λ got tq', tq_inv tq' ∧
    got ++ _queue tq' = _queue tq ++ sends [a]) tq.
Proof.
  intros [H0 Hq]. destruct a as [m|]; cbn [tq_step].
  - unfold send_msg. wp_steps. unfold eventfd_write. simpl.
    destruct (Z.leb_spec (ev_count tq + 1) (2 ^ 64 - 2)); (split; [split; simpl; lia|done]).
  - unfold recv_msg. wp_steps. simpl. split; [split; simpl; [lia|done]|done].
Qed.

Lemma tq_run_spec acts tq :
  tq_inv tq →
  wp (tq_run acts) (λ got tq', tq_inv tq' ∧ got ++ _queue tq' = _queue tq ++ sends acts) tq.
Proof.
  revert tq. induction acts as [|a acts IH]; intros tq Hi; cbn [tq_run].
  - wp_steps. split; [done|]. simpl. by rewrite app_nil_r.
  - wp_step. eapply wp_mono; [by apply tq_step_spec|]. intros got tq1 [Hi1 Hgot].
    wp_step. eapply wp_mono; [by apply IH|]. intros rest tq2 [Hi2 Hrest]. wp_steps. split; [done|].
    rewrite <- app_assoc, Hrest, app_assoc, Hgot, <- app_assoc. f_equal.
    destruct a; done.
Qed.

(** C24 Whatever the interleaving of senders and receiver: the messages received
    so far, followed by those waiting, are exactly the messages sent, in the
    order of their sends; and while a message waits the eventfd is readable, so
    that the event loop of the receiver will wake up: no message is lost,
    repeated or overlooked. *)
Theorem queue_fifo_no_lost_wakeup acts evfd :
  ∃ got tq, tq_run acts (new_queue evfd) = Ok (got, tq) ∧
    got ++ _queue tq = sends acts ∧ (_queue tq ≠ [] → readable_evfd tq = true).
Proof.
  assert (Hi : tq_inv (new_queue evfd)) by (split; simpl; [lia|done]).
  pose proof (tq_run_spec acts _ Hi) as (got & tq & Hr & [_ Hq] & Hs)%wp_elim.
  exists got, tq. split; [done|]. split; [done|]. intros Hne. by apply Z.ltb_lt, Hq.
Qed.

(** ** Choosing threads *)

Fixpoint next_threads (k : nat) : M thread_pool (list nat) :=
  match k with
  | O => mret []
  | S k => i ← get_next_thread; l ← next_threads k; mret (i :: l)
  end.

Lemma next_threads_spec k c n :
  0 < n → 0 ≤ c ≤ n →
  wp (next_threads k) (λ l p, l = (λ j, Z.to_nat ((c + Z.of_nat j) mod n)) <$> seq 0 k ∧
    _thread_cnt p = n ∧ 0 ≤ _curr_index p ≤ n) (ThreadPool c n).
Proof.
  intros Hn. revert c. induction k as [|k IH]; intros c Hc; cbn [next_threads]; [by wp_steps|].
  unfold get_next_thread. wp_steps. simpl.
  set (i := if c =? n then 0 else c).
  assert (Hi : 0 ≤ i < n) by (unfold i; destruct (Z.eqb_spec c n); lia).
  assert (Hmod : ∀ j, (i + j) mod n = (c + j) mod n).
  { intros j. unfold i. destruct (Z.eqb_spec c n) as [->|]; [|done].
    replace (n + j) with (j + 1 * n) by lia. by rewrite Z.mod_add by lia. }
  eapply wp_mono; [apply IH; lia|]. intros l p (-> & ? & ?). wp_steps. split; [|done].
  rewrite <- (Hmod (Z.of_nat 0)). rewrite Z.add_0_r, Z.mod_small by done. f_equal.
  rewrite <- fmap_S_seq, <- list_fmap_compose. apply list_fmap_ext. intros _ j _. simpl.
  rewrite <- Hmod. f_equal. f_equal. lia.
Qed.

(** [get_next_thread] is round-robin: whatever the current index, the [j]-th
    of the following calls returns the index of a thread, the start plus [j]
    modulo the number of threads; so that any [n] calls in a row use each of the
    [n] threads once. *)
Theorem get_next_thread_round_robin k c n :
  0 < n → 0 ≤ c ≤ n →
  ∃ p, next_threads k (ThreadPool c n) =
      Ok ((λ j, Z.to_nat ((c + Z.of_nat j) mod n)) <$> seq 0 k, p) ∧
    0 ≤ _curr_index p ≤ n ∧
    (∀ i, (i < Z.to_nat n)%nat → k = Z.to_nat n →
       i ∈ (λ j, Z.to_nat ((c + Z.of_nat j) mod n)) <$> seq 0 k).
Proof.
  intros Hn Hc. pose proof (next_threads_spec k c n Hn Hc) as (l & p & Hr & -> & _ & Hp)%wp_elim.
  exists p. split; [done|]. split; [done|]. intros i Hi ->.
  apply list_elem_of_fmap. exists (Z.to_nat ((Z.of_nat i - c) mod n)).
  pose proof (Z.mod_pos_bound (Z.of_nat i - c) n Hn).
  split; [|apply elem_of_seq; lia].
  rewrite Z2Nat.id, Zplus_mod_idemp_r by lia.
  replace (c + (Z.of_nat i - c)) with (Z.of_nat i) by lia. rewrite Z.mod_small by lia. lia.
Qed.

Lemma get_next_thread_round_robin_witness :
  ∃ p, next_threads 5 (ThreadPool 2 3) = Ok ([2; 0; 1; 2; 0]%nat, p).
Proof.
  destruct (get_next_thread_round_robin 5 2 3) as (p & Hr & _); [lia|lia|].
  exists p. exact Hr.
Defined.

(** ** Tasks for all threads *)

Section tasks.
Context {K U : Type} `{Kernel K}.
Implicit Types w : world K U.

(** The queues after a message was sent to each queue of [l]. *)
Definition sent_to (l : list nat) (m : queue_msg) (qs : gmap nat thread_queue) : gmap nat thread_queue :=
  foldl (λ qs i, alter (λ tq, eventfd_write (set_queue (_queue tq ++ [m]) tq)) i qs) qs l.

Lemma set_queues_twice q1 q2 w : set_queues q1 (set_queues q2 w) = set_queues q1 w.
Proof. done. Qed.

Lemma send_all_spec l task w :
  (∀ i, i ∈ l → is_Some (w_queues w !! i)) →
  for_each l (λ i, pool_run_task i task vnull) w =
    Ok (tt, set_queues (sent_to l (NEW_TASK task vnull) (w_queues w)) w).
Proof.
  revert w. induction l as [|i l IH]; intros w Hq; [by destruct w|]. cbn [for_each].
  destruct (Hq i) as [tq Htq]; [by left|].
  assert (Hsend : pool_run_task i task vnull w = Ok (tt, set_queues
    (<[i := eventfd_write (set_queue (_queue tq ++ [NEW_TASK task vnull]) tq)]> (w_queues w)) w)).
  { unfold pool_run_task, on_queue, mbind, M_bind, get. by rewrite Htq. }
  erewrite bind_ok by exact Hsend. rewrite IH.
  - simpl. f_equal. f_equal. rewrite set_queues_twice. f_equal. unfold sent_to. f_equal.
    apply map_eq. intros j. destruct (decide (j = i)) as [->|Hne].
    + by rewrite lookup_insert_eq, lookup_alter_eq, Htq.
    + by rewrite lookup_insert_ne, lookup_alter_ne.
  - intros j Hj. simpl. destruct (decide (j = i)) as [->|Hne].
    + rewrite lookup_insert_eq. by eexists.
    + rewrite lookup_insert_ne by done. apply Hq. by right.
Qed.

Lemma sent_to_lookup l m qs i :
  NoDup l → sent_to l m qs !! i =
    (if decide (i ∈ l) then (λ tq, eventfd_write (set_queue (_queue tq ++ [m]) tq)) <$> qs !! i
     else qs !! i).
Proof.
  revert qs. induction l as [|j l IH]; intros qs Hnd; [by rewrite decide_False by apply not_elem_of_nil|].
  apply NoDup_cons in Hnd as [Hj Hnd]. simpl. unfold sent_to in IH |- *. simpl. rewrite IH by done.
  destruct (decide (i = j)) as [->|Hne].
  - rewrite decide_False, decide_True by (done || by left). by rewrite lookup_alter_eq.
  - rewrite lookup_alter_ne by done.
    destruct (decide (i ∈ l)); [rewrite decide_True by by right|rewrite decide_False; [|rewrite elem_of_cons]]; tauto.
Qed.

(** [run_task] without an index sends the task to every thread of the pool,
    once, behind the messages already waiting there, and to no other queue.  The
    argument is not passed on: every thread gets NULL, whatever [args] is. *)
Theorem run_task_all_drops_args p task args w :
  (∀ i, (i < Z.to_nat (_thread_cnt p))%nat → is_Some (w_queues w !! i)) →
  ∃ w', pool_run_task_all p task args w = Ok (tt, w') ∧
    ∀ i, _queue <$> w_queues w' !! i =
      (if decide (i < Z.to_nat (_thread_cnt p))%nat
       then (λ tq, _queue tq ++ [NEW_TASK task vnull]) <$> w_queues w !! i
       else _queue <$> w_queues w !! i).
Proof.
  intros Hq. unfold pool_run_task_all. rewrite send_all_spec.
  2:{ intros i Hi%elem_of_seq. apply Hq. lia. }
  eexists. split; [reflexivity|]. intros i. simpl.
  rewrite sent_to_lookup by apply NoDup_seq.
  destruct (decide (i < Z.to_nat (_thread_cnt p))%nat).
  - rewrite decide_True by (apply elem_of_seq; lia). destruct (w_queues w !! i); [|done]. simpl.
    unfold eventfd_write. by case_match.
  - rewrite decide_False; [done|]. rewrite elem_of_seq. lia.
Qed.
End tasks.

(** A process of which only the queues of two threads matter. *)
Definition two_queues : world Script.state unit :=
  World (Script.State [] []) empty_pool ∅ {[0%nat := new_queue 8; 1%nat := new_queue 9]}
    (TcpServer 5 6 0 (Some (ThreadPool 0 2)) false 100 50 0 msg_dispatcher_new ∅ None None) ∅ tt.

Lemma run_task_all_drops_args_witness :
  ∃ w', pool_run_task_all (ThreadPool 0 2) (user_task 1) (v_user 5) two_queues = Ok (tt, w') ∧
    _queue <$> w_queues w' !! 1%nat = Some [NEW_TASK (user_task 1) vnull].
Proof.
  destruct (run_task_all_drops_args (ThreadPool 0 2) (user_task 1) (v_user 5) two_queues)
    as (w' & Hr & Hq).
  - intros i Hi. simpl in Hi. destruct i as [|[|i]]; [by eexists..|lia].
  - exists w'. split; [exact Hr|]. rewrite Hq. reflexivity.
Defined.
