(* ===== verification/LateAdjust.v ===== *)
(** * A race in [tcp_conn::handle_read]

    The definitions of TcpConn.v run a handler from its beginning to its end.  In a
    server with a pool of threads this hides what happens in between.  After
    [clean_conn] has closed the descriptor (src/tcp_conn.cc:159), [handle_read] still
    calls [ibuf.adjust()] (line 91) on the object; but another thread may have been
    given the same descriptor by then, and with it the same object. *)
From S2P Require Import Prelude EventBase TimerQueue Kernel IoBuffer BufferPool TcpBuffer BufferProps.
From S2P Require Import Wire EventLoop EventLoopProps World TcpConn TcpConnSpec TcpConnProps ThreadPool.

Section race.
Context {K U : Type} `{EpollLaws K}.
Variable msg_fn : msg_callback → list byte → Z → Z → Z → void_ptr → M (world K U) unit.
Variable conn_fn : conn_callback → Z → M (world K U) unit.

(** [handle_read], where other threads run ([other]) before its last statement. *)
Definition handle_read_with (other : M (world K U) unit) (fuel retries : nat) (c : Z) : M (world K U) unit :=
  x ← conn_at c;
  ret ← ibuf_op c (λ b, zoom w_io (read_data retries b (_connfd x)));
  if ret =? -1 then clean_conn conn_fn c
  else if ret =? 0 then clean_conn conn_fn c
  else
    handle_read_loop msg_fn conn_fn fuel c ;;
    other ;;
    x ← conn_at c;
    zoom w_pool (ibuf_adjust (ibuf x)).

(** With nothing in between it is [handle_read]. *)
Lemma handle_read_undisturbed fuel retries c w :
  handle_read_with (mret tt) fuel retries c w = handle_read msg_fn conn_fn fuel retries c w.
Proof.
  unfold handle_read_with, handle_read, mbind, M_bind. destruct (conn_at c w) as [[x w1]|]; [|done].
  destruct (ibuf_op c _ w1) as [[ret w2]|]; [|done]. destruct (ret =? -1); [done|]. destruct (ret =? 0); [done|].
  by destruct (handle_read_loop msg_fn conn_fn fuel c w2) as [[[] w3]|].
Qed.

(** ** What [adjust] leaves at the old place *)

(** The [n] bytes at the place where the contents [zs] of a buffer started, after they
    moved [h] bytes to the front. *)
Definition left_behind (h n : nat) (zs : list byte) : list byte :=
  take n (drop h zs ++ drop (length zs - h) zs).

Lemma adjust_leaves p b zs n bp :
  store bp !! p = Some b → contents b zs → (0 < Z.to_nat (head b) ≤ length zs)%nat → (n ≤ length zs)%nat →
  wp (ibuf_adjust (Some p)) (λ _ bp', ∃ b', store bp' !! p = Some b' ∧
    data_read (head b) (Z.of_nat n) b' = Some (left_behind (Z.to_nat (head b)) n zs)) bp.
Proof.
  intros Hb Hc Hh Hn. pose proof (contents_bounds _ _ Hc) as [Hh0 Hcap]. pose proof (proj1 Hc) as Hlen.
  set (h := Z.to_nat (head b)) in *. assert (Hhz : head b = Z.of_nat h) by (unfold h; lia).
  unfold ibuf_adjust, io_adjust. wp_step. eapply wp_buf_at; [done|].
  rewrite bool_decide_true by lia. cbn [when]. rewrite bool_decide_true by lia.
  wp_step. wp_step. eapply wp_from_option; [by apply data_read_contents|].
  eapply wp_from_option; [apply data_write_Some; lia|]. apply wp_buf_put.
  eexists. split; [cbn [set_store store]; by rewrite lookup_insert_eq|].
  destruct Hc as [_ Hrd]. apply data_read_Some in Hrd as (_ & _ & _ & Hd).
  assert (Hl : length (left_behind h n zs) = n).
  { unfold left_behind. rewrite length_take, length_app, !length_drop. lia. }
  apply data_read_Some. rewrite Hl. split; [lia|]. split; [cbn; lia|]. split; [done|].
  intros i Hi. unfold left_behind. rewrite lookup_take_lt by done. cbn [set_extent data set_data].
  destruct (decide (h + i < length zs)%nat) as [Hlt|Hge].
  - rewrite lookup_app_l by (rewrite length_drop; lia). rewrite lookup_drop.
    destruct (lookup_lt_is_Some_2 zs (h + i) Hlt) as [y Hy]. rewrite Hy.
    apply lookup_union_Some_l. apply lookup_map_seqZ_Some. split; [lia|]. rewrite <- Hy. f_equal. lia.
  - rewrite lookup_app_r by (rewrite length_drop; lia). rewrite length_drop, lookup_drop.
    rewrite lookup_union_r by (apply lookup_map_seqZ_None; lia).
    replace (length zs - h + (i - (length zs - h)))%nat with i by lia. rewrite Hhz, <- (Hd i) by lia. by rewrite Hhz.
Qed.

(** ** The race *)

Variable c fd : Z.
Variable Inv : world K U → (Z → list ptr) → Prop.
Variable log : world K U → list delivery.
Hypothesis Hobs : observer msg_fn c Inv log.
Hypothesis Hopen : ∀ w fl bs, Inv w fl → rx w fl c bs → ∃ x i lp ob,
  conn_ok w fl c x i lp bs ob ∧ _connfd x = fd ∧ loop_inv (EvSt (w_kern w) lp) ∧
  quiet conn_fn (connCloseCb (w_server w)) c ∧ is_int (_curr_conns (w_server w) - 1).

(** C16 [handle_read] touches a connection it has closed.  When a header is malformed
    or has an unknown command, [handle_read] closes the descriptor and leaves its
    loop.  If, before its last statement, other threads put the same object in use
    again and read into its buffer, so that [zs] waits behind the header that was
    just popped, then this statement moves these bytes under the hands of the thread
    that reads them: where its callback was told to find the first [n] bytes of [zs]
    there are then others, unless the payload repeats itself. *)
Theorem late_adjust_moves_data w fl x bs ys retries fuel ms rest st :
  readable c Inv w fl x bs ys retries → (length bs + length ys < fuel)%nat →
  parse (known_cmd w) (bs ++ ys) = (ms, rest, st) → st ≠ Partial →
  ∃ w1, closed c w1 ∧ (∃ k, w_kern w1 = sys_close fd k) ∧
    handle_read msg_fn conn_fn fuel retries c w = Ok (tt, w1) ∧
    ∀ other w2 x2 p b zs n, other w1 = Ok (tt, w2) →
      w_conns w2 !! c = Some x2 → ibuf x2 = Some p → store (w_bufs w2) !! p = Some b → contents b zs →
      (0 < Z.to_nat (head b) ≤ length zs)%nat → (n ≤ length zs)%nat →
      data_read (head b) (Z.of_nat n) b = Some (take n zs) ∧
      ∃ w3 b3, handle_read_with other fuel retries c w = Ok (tt, w3) ∧ store (w_bufs w3) !! p = Some b3 ∧
        data_read (head b) (Z.of_nat n) b3 = Some (left_behind (Z.to_nat (head b)) n zs).
Proof.
  intros [HI Hrx Hx Hs Hm Hd [k' Hdel] Hys Hroom] Hf Hp Hst.
  pose proof (observer_serves msg_fn c Inv log (log w) (dispatcher (w_server w)) Hobs) as Hserves.
  assert (HI' : logged_inv Inv log (log w) (dispatcher (w_server w)) [] w fl) by (split; [done|]; by rewrite app_nil_r).
  destruct (conn_reads msg_fn c _ _ _ retries [] w fl x bs ys k' Hserves) as (w0 & fl0 & HI0 & Hrx0 & Hsrv & Hop); [done..|].
  assert (Hk : known_cmd w0 = known_cmd w) by (unfold known_cmd; by rewrite Hsrv).
  pose proof (loop_spec msg_fn conn_fn c _ _ _ (bs ++ ys) fuel [] w0 fl0 ms rest st Hserves HI0 Hrx0 I) as Hl.
  rewrite Hsrv, Hk, length_app, decide_False in Hl by by eapply rejected_not_empty.
  destruct (Hl Hd ltac:(lia) Hp) as (w0' & fl0' & (HI0' & _) & Hrx0' & _ & Hloop).
  destruct (Hopen w0' fl0' rest HI0' Hrx0') as (x0 & i & lp & ob & Hok & Hfd & Hinv & Hq & Hn).
  pose proof (clean_conn_spec conn_fn w0' fl0' c x0 i lp rest ob Hok Hq Hn)
    as ([] & w1 & Hclean & s & u & pp & bp' & bp1 & fl1 & fl' & _ & Hw1 & _ & Hst1 & _)%wp_elim.
  assert (0 < Z.of_nat (length ys)) by (destruct ys; [done|simpl; lia]).
  assert (Hrun : handle_read_loop msg_fn conn_fn fuel c w0 = Ok (tt, w1)) by (rewrite Hloop; by destruct st).
  assert (Hwith : ∀ other, handle_read_with other fuel retries c w =
    (other ;; x ← conn_at c; zoom w_pool (ibuf_adjust (ibuf x))) w1).
  { intros other. unfold handle_read_with. erewrite bind_ok by (apply wp_returns; by eapply wp_conn_at).
    erewrite bind_ok by exact Hop. cbv beta.
    destruct (Z.eqb_spec (Z.of_nat (length ys)) (-1)); [lia|]. destruct (Z.eqb_spec (Z.of_nat (length ys)) 0); [lia|].
    by erewrite bind_ok by exact Hrun. }
  exists w1. split; [|split; [|split]].
  { subst w1. eexists _, fl'. split; [simpl; by rewrite lookup_insert_eq|]. split_and!; try done. apply Hst1. }
  { subst w1. exists (ev_kern s). simpl. by rewrite Hfd. }
  { rewrite <- handle_read_undisturbed, Hwith. subst w1. erewrite bind_ok by reflexivity. apply wp_returns.
    wp_step. eapply wp_conn_at; [simpl; by rewrite lookup_insert_eq|]. cbn. wp_steps. split; [done|]. by destruct w0'. }
  intros other w2 x2 p b zs n Ho Hx2 Hib Hb Hc Hh Hlen.
  split; [by eapply data_read_take; [apply Hc|]|].
  pose proof (adjust_leaves p b zs n (w_bufs w2) Hb Hc Hh Hlen) as ([] & bp3 & Hadj & b3 & Hb3 & Hrd)%wp_elim.
  exists (set_bufs bp3 w2), b3. split; [|by split].
  rewrite Hwith. erewrite bind_ok by exact Ho.
  erewrite bind_ok by (apply wp_returns; by eapply wp_conn_at). rewrite Hib. unfold zoom. cbn [view w_pool]. by rewrite Hadj.
Qed.
End race.

(** ** A concrete run

    Descriptor 7 is a connection of thread 0, whose peer sends an unknown command.
    When thread 0 has closed it, a new client gets the descriptor 7, the connection
    is handed to thread 1, and its first message arrives there. *)
Definition letters : list byte := [x41; x42; x43; x44; x45; x46; x47; x48; x49; x4a]%byte.

Definition bad_frame : list byte := frame (9, [x6f]%byte).
Definition first_frame : list byte := frame (1, letters).

Definition two_loops : world Script.state (list delivery) :=
  let k := Script.State [Script.ANum (Z.of_nat (length bad_frame)); Script.ABytes bad_frame;
    Script.ANum (Z.of_nat (length first_frame)); Script.ABytes first_frame] (Script.log (ev_kern one_reader)) in
  set_loops {[0%nat := ev_loop one_reader; 1%nat := EventLoop 8 ∅ timer_queue_new 9 task_vector_new ∅]} (sample_world k (ev_loop one_reader)).

(** Thread 1: it takes the connection out of its queue, and reads, up to the call of
    the user's callback. *)
Definition thread_1 : M (world Script.state (list delivery)) unit :=
  handle_msg no_conn_cb 1 (NEW_CONN 7) ;;
  x ← conn_at 7;
  ibuf_op 7 (λ b, zoom w_io (read_data 1 b (_connfd x))) ;;
  ibuf_pop 7 COMMU_HEAD_LENGTH.

Lemma two_loops_readable : readable 7 open_inv two_loops (λ _, []) sample_conn [] bad_frame 1.
Proof.
  split; try done.
  - split; [|split; [|done]].
    + split; [by exists sample_conn, (ev_loop one_reader)|]. split; [apply bare_pool_inv|done].
    + exists (ev_loop one_reader). split; [done|]. refine (loop_inv_kern _ _ _ one_reader_inv _). reflexivity.
  - exists sample_conn. split; [done|]. split; [apply bare_pool_inv|done].
  - eexists _, 0%nat, _, _. split; [reflexivity|]. split; [apply interrupted_0|]. split; [lia|reflexivity].
Qed.

(** Thread 0 has closed the connection. *)
Definition closed_by_0 : world Script.state (list delivery) :=
  run_state (handle_read record_msg no_conn_cb 40 1 7) two_loops.

(** Thread 1 is about to call its callback. *)
Definition about_to_call : world Script.state (list delivery) := run_state thread_1 closed_by_0.

(** The callback of thread 1 is told to find ten letters where, by the time thread 0
    is done, there are others. *)
Lemma late_adjust_moves_data_witness :
  ∃ b w3 b3, store (w_bufs about_to_call) !! 1%positive = Some b ∧
    data_read (IoBuffer.head b) 10 b = Some letters ∧
    handle_read_with record_msg no_conn_cb thread_1 40 1 7 two_loops = Ok (tt, w3) ∧
    store (w_bufs w3) !! 1%positive = Some b3 ∧
    data_read (IoBuffer.head b) 10 b3 = Some [x49; x4a; x43; x44; x45; x46; x47; x48; x49; x4a]%byte.
Proof.
  destruct (late_adjust_moves_data record_msg no_conn_cb 7 7 open_inv w_user open_observer) with
    (w := two_loops) (fl := λ _ : Z, @nil ptr) (x := sample_conn) (bs := @nil byte) (ys := bad_frame) (retries := 1%nat)
    (fuel := 40%nat) (ms := @nil message) (rest := bad_frame) (st := UnknownCmd) as (w1 & _ & _ & Hw1 & Hrace).
  - intros w fl bs (HI & Hlp & Hfd). by apply sample_open.
  - exact two_loops_readable.
  - vm_compute. lia.
  - vm_compute. reflexivity.
  - discriminate.
  - assert (Hclosed : closed_by_0 = w1) by (unfold closed_by_0, run_state; by rewrite Hw1).
    destruct (store (w_bufs about_to_call) !! 1%positive) as [b|] eqn:Hb; [|vm_compute in Hb; discriminate].
    assert (Hx2 : (λ x, ibuf x) <$> w_conns about_to_call !! 7 = Some (Some 1%positive)) by (vm_compute; reflexivity).
    destruct (w_conns about_to_call !! 7) as [x2|] eqn:Hx; [injection Hx2 as Hib|done].
    assert (Hhead : IoBuffer.head b = 8) by (vm_compute in Hb; by injection Hb as <-).
    destruct (Hrace thread_1 about_to_call x2 1%positive b letters 10%nat) as (Hbefore & w3 & b3 & Hr & Hb3 & Hafter).
    + rewrite <- Hclosed. vm_compute. reflexivity.
    + exact Hx.
    + exact Hib.
    + exact Hb.
    + vm_compute in Hb. injection Hb as <-. by split; vm_compute.
    + rewrite Hhead. vm_compute. lia.
    + vm_compute. lia.
    + exists b, w3, b3. split; [done|]. split; [exact Hbefore|]. split; [exact Hr|]. split; [exact Hb3|].
      rewrite Hhead in Hafter |- *. exact Hafter.
Defined.
