(* ===== verification/TcpServer.v ===== *)
(** * The TCP server (src/tcp_server.cc): accepting connections *)
From S2P Require Import Prelude EventBase TimerQueue Kernel IoBuffer EventLoop World TcpConn ThreadPool.

Section tcp_server.
Context {K U : Type} `{Kernel K}.
Variable conn_fn : conn_callback → Z → M (world K U) unit.
Abbreviation W := (world K U).

Definition close_fd (fd : Z) : M W unit := modify (λ w, set_kern (sys_close fd (w_kern w)) w).

(** [_reservfd = ::open(...)]: -1 when it fails. *)
Definition open_reserve : M W unit :=
  r ← zoom w_kernel (syscall sys_open_reserve);
  modify_server (set_reservfd (match r with inr fd => fd | inl _ => -1 end)).

(** Handing an accepted descriptor to a thread of the pool, or to this one. *)
Definition place_conn (connfd : Z) : M W unit :=
  w ← get;
  match _thd_pool (w_server w) with
  | Some pool =>
      match get_next_thread pool with
      | Ok (i, pool) =>
          modify_server (set_thd_pool (Some pool)) ;;
          on_queue i (send_msg (NEW_CONN connfd))
      | Fail e => fail e
      end
  | None =>
      conn ← conns_at connfd;
      match conn with
      | Some c => init conn_fn c connfd (srv_loop (w_server w))
      | None => c ← new_tcp_conn conn_fn connfd (srv_loop (w_server w)); conns_put connfd c
      end
  end.

(** The branch of [do_accept] for a descriptor accepted while there is room. *)
Definition admit_conn (connfd : Z) : M W unit :=
  curr_conns ← get_conn_num;
  w ← get;
  if _max_conns (w_server w) <=? curr_conns then close_fd connfd
  else
    cassert (connfd <? _conns_size (w_server w)) ;;
    when (_keepalive (w_server w)) (zoom w_kernel (syscall (sys_setsockopt connfd)) ;; mret tt) ;;
    place_conn connfd.

(** The [while (true)] loop. *)
Fixpoint do_accept_loop (fuel : nat) (conn_full : bool) : M W unit :=
  match fuel with
  | O => fail NoFuel
  | S fuel =>
      w ← get;
      r ← zoom w_kernel (syscall (sys_accept (_sockfd (w_server w))));
      match r with
      | inl EINTR => do_accept_loop fuel conn_full
      | inl EMFILE => close_fd (_reservfd (w_server w)) ;; do_accept_loop fuel true
      | inl EAGAIN => mret tt
      | inl _ => fail Exited
      | inr connfd =>
          (if conn_full then close_fd connfd ;; open_reserve else admit_conn connfd) ;;
          do_accept_loop fuel conn_full
      end
  end.

Definition do_accept (fuel : nat) : M W unit := do_accept_loop fuel false.

(** [~tcp_server()] *)
Definition tcp_server_dtor : M W unit :=
  w ← get;
  on_loop (Some (srv_loop (w_server w))) (del_ioev (_sockfd (w_server w))) ;;
  close_fd (_sockfd (w_server w)) ;;
  close_fd (_reservfd (w_server w)).

(** [tcp_server::tcp_server()]; the signals and the log are left out.  [ip_ok]:
    [inet_aton] accepts the address.  [threadNum] and [maxConns] are the numbers
    read from the configuration. *)
Definition tcp_server_ctor (loop : nat) (ip_ok : bool) (threadNum maxConns : Z) : M W unit :=
  sock ← zoom w_kernel (syscall sys_socket);
  match sock with
  | inl _ => fail Exited
  | inr sockfd =>
      rsv ← zoom w_kernel (syscall sys_open_reserve);
      exit_if (negb ip_ok) ;;
      zoom w_kernel (syscall (sys_setsockopt sockfd)) ;;
      ret ← zoom w_kernel (syscall (sys_bind sockfd));
      exit_if (bool_decide (is_Some ret)) ;;
      ret ← zoom w_kernel (syscall (sys_listen sockfd));
      exit_if (bool_decide (is_Some ret)) ;;
      let thread_cnt := to_int threadNum in
      pool ← (if bool_decide (thread_cnt ≠ 0) then p ← thread_pool_ctor thread_cnt; mret (Some p)
              else mret None);
      let max_conns := to_int maxConns in
      dup ← zoom w_kernel (syscall (sys_dup 1));
      let next_fd := match dup with inr fd => fd | inl _ => -1 end in
      size ← cint (max_conns + next_fd);
      close_fd next_fd ;;
      cassert (0 <=? size) ;;        (* new tcp_conn*[size]: a negative size throws *)
      modify_server (λ s, TcpServer sockfd (match rsv with inr fd => fd | inl _ => -1 end)
        loop pool false size max_conns (_curr_conns s) (dispatcher s) ∅ (connBuildCb s) (connCloseCb s)) ;;
      on_loop (Some loop) (add_ioev sockfd accepter_cb EPOLLIN v_tcp_server)
  end.

(** ** The members a program sets up (include/tcp_server.h) *)

Definition threadPool : M W (option thread_pool) := w ← get; mret (_thd_pool (w_server w)).
Definition loop : M W nat := w ← get; mret (srv_loop (w_server w)).

Definition keep_alive : M W unit := modify_server (λ s,
  TcpServer (_sockfd s) (_reservfd s) (srv_loop s) (_thd_pool s) true (_conns_size s)
    (_max_conns s) (_curr_conns s) (dispatcher s) (conns s) (connBuildCb s) (connCloseCb s)).
Definition server_add_msg_cb (cmdid : Z) (msg_cb : msg_callback) (usr_data : void_ptr) : M W unit :=
  modify_server (λ s,
    TcpServer (_sockfd s) (_reservfd s) (srv_loop s) (_thd_pool s) (_keepalive s) (_conns_size s)
      (_max_conns s) (_curr_conns s) (add_msg_cb cmdid msg_cb usr_data (dispatcher s)).2 (conns s)
      (connBuildCb s) (connCloseCb s)).
Definition onConnBuild (cb : conn_callback) : M W unit := modify_server (λ s,
  TcpServer (_sockfd s) (_reservfd s) (srv_loop s) (_thd_pool s) (_keepalive s) (_conns_size s)
    (_max_conns s) (_curr_conns s) (dispatcher s) (conns s) (Some cb) (connCloseCb s)).
Definition onConnClose (cb : conn_callback) : M W unit := modify_server (λ s,
  TcpServer (_sockfd s) (_reservfd s) (srv_loop s) (_thd_pool s) (_keepalive s) (_conns_size s)
    (_max_conns s) (_curr_conns s) (dispatcher s) (conns s) (connBuildCb s) (Some cb)).
End tcp_server.
