(* ===== verification/TcpServerProps.v ===== *)
(** * Correctness of accepting connections

    The claims about [tcp_server::do_accept] (src/tcp_server.cc): the limit on
    connections holds when one thread does everything, but not with a pool of
    threads; and one EMFILE turns away all later connections of the same call. *)
From S2P Require Import Prelude EventBase TimerQueue Kernel IoBuffer BufferPool TcpBuffer BufferProps.
From S2P Require Import Wire EventLoop EventLoopProps World TcpConn TcpConnSpec TcpConnProps.
From S2P Require Import ThreadPool ThreadPoolProps TcpServer.

Section accepting.
Context {K U : Type} `{EpollLaws K} `{!AcceptLaws K}.
Variable conn_fn : conn_callback → Z → M (world K U) unit.
Implicit Types w : world K U.

(** The answers the kernel is going to give to [accept]. *)
Definition waiting w : list (errno + Z) := backlog (w_kern w).

Lemma elem_of_app_take {A} n (l : list A) x : x ∈ take n l → x ∈ l.
Proof. intros Hx. rewrite <- (take_drop n l). apply elem_of_app. by left. Qed.

(** One turn of the loop on an accepted descriptor. *)
Lemma loop_accepted fuel full w fd l :
  waiting w = inr fd :: l →
  ∃ k', waiting (set_kern k' w) = l ∧
    (∀ epfd, interest epfd k' = interest epfd (w_kern w)) ∧ closes k' = closes (w_kern w) ∧
    do_accept_loop conn_fn (S fuel) full w =
      ((if full then close_fd fd ;; open_reserve else admit_conn conn_fn fd) ;;
       do_accept_loop conn_fn fuel full) (set_kern k' w).
Proof.
  intros Hw. destruct (accept_next (_sockfd (w_server w)) (w_kern w) _ _ Hw) as (k' & Ha & Hb).
  exists k'. split; [done|]. split; [|split].
  - intros epfd. rewrite <- (interest_accept epfd (_sockfd (w_server w)) (w_kern w)). by rewrite Ha.
  - rewrite <- (closes_accept (_sockfd (w_server w)) (w_kern w)). by rewrite Ha.
  - cbn [do_accept_loop]. erewrite bind_ok by reflexivity.
    erewrite bind_ok by (unfold zoom, syscall; cbn [view w_kernel]; by rewrite Ha). done.
Qed.

Lemma loop_done fuel full w :
  waiting w = [] → ∃ k', do_accept_loop conn_fn (S fuel) full w = Ok (tt, set_kern k' w) ∧
    (∀ epfd, interest epfd k' = interest epfd (w_kern w)) ∧ closes k' = closes (w_kern w).
Proof.
  intros Hw. destruct (accept_empty (_sockfd (w_server w)) (w_kern w) Hw) as (k' & Ha).
  exists k'. split; [|split].
  - cbn [do_accept_loop]. erewrite bind_ok by reflexivity.
    erewrite bind_ok by (unfold zoom, syscall; cbn [view w_kernel]; by rewrite Ha). done.
  - intros epfd. rewrite <- (interest_accept epfd (_sockfd (w_server w)) (w_kern w)). by rewrite Ha.
  - rewrite <- (closes_accept (_sockfd (w_server w)) (w_kern w)). by rewrite Ha.
Qed.

(** ** One thread *)

(** The server of a single thread, about to accept the descriptors [fds], which
    are new to it; the objects in their slots, if any, are closed.  [rest] are the
    answers of [accept] after these. *)
Record accepting w (i : nat) (lp : event_loop) (fds : list Z) (rest : list (errno + Z)) : Prop := {
  acc_single : _thd_pool (w_server w) = None;
  acc_loop : srv_loop (w_server w) = i;
  acc_lp : w_loops w !! i = Some lp;
  acc_inv : loop_inv (EvSt (w_kern w) lp);
  acc_waiting : waiting w = (inr <$> fds) ++ rest;
  acc_nodup : NoDup fds;
  acc_range fd : fd ∈ fds → 0 ≤ fd < _conns_size (w_server w);
  acc_new fd : fd ∈ fds → interests (EvSt (w_kern w) lp) !! fd = None;
  acc_slot fd c : fd ∈ fds → conns (w_server w) !! fd = Some c →
    c = fd ∧ ∃ x, w_conns w !! fd = Some x ∧ ibuf x = None ∧ obuf x = None;
  acc_curr : is_int (_curr_conns (w_server w)) ∧ is_int (_max_conns (w_server w));
  acc_quiet c : quiet conn_fn (connBuildCb (w_server w)) c;
}.

(** [fd] is a live connection of loop [i], with empty buffers. *)
Definition live w (i : nat) (lp : event_loop) (fd : Z) : Prop :=
  conns (w_server w) !! fd = Some fd ∧
  (∃ p, w_conns w !! fd = Some (TcpConn fd (Some i) None None p)) ∧
  reader (EvSt (w_kern w) lp) fd = Some (tcp_rcb, v_tcp_conn fd).

(** Slot [fd] is as it was. *)
Definition untouched w w' (lp lp' : event_loop) (fd : Z) : Prop :=
  conns (w_server w') !! fd = conns (w_server w) !! fd ∧ w_conns w' !! fd = w_conns w !! fd ∧
  reader (EvSt (w_kern w') lp') fd = reader (EvSt (w_kern w) lp) fd.

Lemma accepting_kern w i lp fd fds rest k' :
  accepting w i lp (fd :: fds) rest → waiting (set_kern k' w) = (inr <$> fds) ++ rest →
  (∀ epfd, interest epfd k' = interest epfd (w_kern w)) →
  accepting (set_kern k' w) i lp fds rest.
Proof.
  intros [] Hw Hint. split; try done; simpl.
  - by apply (loop_inv_kern (w_kern w)).
  - by apply NoDup_cons in acc_nodup0 as [_ ?].
  - intros fd' ?. apply acc_range0. by right.
  - intros fd' ?. etrans; [|apply (acc_new0 fd'); by right]. unfold interests. simpl. by rewrite Hint.
  - intros fd' c ?. apply acc_slot0. by right.
Qed.

(** Turning a descriptor away. *)
Lemma accepting_close w i lp fd fds rest :
  accepting w i lp fds rest → interests (EvSt (w_kern w) lp) !! fd = None →
  accepting (set_kern (sys_close fd (w_kern w)) w) i lp fds rest.
Proof.
  intros [] Hfd.
  assert (Hint : interests (EvSt (sys_close fd (w_kern w)) lp) = interests (EvSt (w_kern w) lp)).
  { by apply interest_close. }
  split; try done; simpl.
  - by apply (loop_inv_kern (w_kern w)).
  - unfold waiting. simpl. by rewrite backlog_close.
  - intros fd' Hin. rewrite Hint. by apply acc_new0.
Qed.

Lemma wp_conns_at j w (Q : option Z → world K U → Prop) :
  0 ≤ j < _conns_size (w_server w) → Q (conns (w_server w) !! j) w → wp (conns_at j) Q w.
Proof.
  intros Hj HQ. unfold conns_at. wp_steps.
  destruct (Z.leb_spec 0 j), (Z.ltb_spec j (_conns_size (w_server w))); try lia. done.
Qed.

(** The process after a connection was set up on descriptor [fd]. *)
Definition connected (fd : Z) (i : nat) (s : ev_st K) (u : U) (p : void_ptr) w : world K U :=
  World (ev_kern s) (w_bufs w) (<[i := ev_loop s]> (w_loops w)) (w_queues w)
    (set_conns (<[fd := fd]> (conns (w_server w)))
      (set_curr_conns (_curr_conns (w_server w) + 1) (w_server w)))
    (<[fd := TcpConn fd (Some i) None None p]> (w_conns w)) u.

(** Setting up a connection, in the slot of its descriptor. *)
Lemma setup_conn_spec fd w i lp s (Q : unit → world K U → Prop) :
  w_loops w !! i = Some lp → 0 ≤ fd < _conns_size (w_server w) →
  (∀ c, conns (w_server w) !! fd = Some c →
     c = fd ∧ ∃ x, w_conns w !! fd = Some x ∧ ibuf x = None ∧ obuf x = None) →
  quiet conn_fn (connBuildCb (w_server w)) fd → is_int (_curr_conns (w_server w) + 1) →
  add_ioev fd tcp_rcb EPOLLIN (v_tcp_conn fd) (EvSt (opened fd (w_kern w)) lp) = Ok (tt, s) →
  (∀ u p, Q tt (connected fd i s u p w)) →
  wp (conn ← conns_at fd;
      match conn with
      | Some c => init conn_fn c fd i
      | None => c ← new_tcp_conn conn_fn fd i; conns_put fd c
      end) Q w.
Proof.
  intros Hlp Hr Hslot Hq Hn Hadd HQ. wp_step. apply wp_conns_at; [done|].
  destruct (conns (w_server w) !! fd) as [c|] eqn:Hc.
  - destruct (Hslot c eq_refl) as (-> & x & Hx & Hib & Hob).
    eapply init_spec; [done..|]. intros u p. specialize (HQ u p). unfold inited, connected in *.
    rewrite Hib, Hob. rewrite (insert_id (conns (w_server w))) in HQ by done. by destruct (w_server w).
  - unfold new_tcp_conn, conn_put, conns_put, modify_server. do 4 wp_step.
    eapply (init_spec _ _ fd tcp_conn_new); [simpl; by rewrite lookup_insert_eq|done..|].
    intros u p. wp_steps. specialize (HQ u p). unfold inited, connected in *. simpl.
    unfold set_server, set_w_conns in *. simpl in *. by rewrite insert_insert_eq.
Qed.

Lemma place_conn_spec fd w i lp s (Q : unit → world K U → Prop) :
  _thd_pool (w_server w) = None → srv_loop (w_server w) = i → w_loops w !! i = Some lp →
  0 ≤ fd < _conns_size (w_server w) →
  (∀ c, conns (w_server w) !! fd = Some c →
     c = fd ∧ ∃ x, w_conns w !! fd = Some x ∧ ibuf x = None ∧ obuf x = None) →
  quiet conn_fn (connBuildCb (w_server w)) fd → is_int (_curr_conns (w_server w) + 1) →
  add_ioev fd tcp_rcb EPOLLIN (v_tcp_conn fd) (EvSt (opened fd (w_kern w)) lp) = Ok (tt, s) →
  (∀ u p, Q tt (connected fd i s u p w)) → wp (place_conn conn_fn fd) Q w.
Proof.
  intros Hp Hl Hlp Hr Hslot Hq Hn Hadd HQ. unfold place_conn. do 2 wp_step. rewrite Hp, Hl.
  by eapply (setup_conn_spec fd w i lp s).
Qed.

Lemma ctl_backlog (s s' : ev_st K) : by_ctl s s' → backlog (ev_kern s') = backlog (ev_kern s).
Proof. intros Hc. apply (ctl_ind (λ k, backlog k = backlog (ev_kern s)) s s' Hc); [done|]. intros e op fd ev k <-. apply backlog_epoll. Qed.

Lemma ctl_closes (s s' : ev_st K) : by_ctl s s' → closes (ev_kern s') = closes (ev_kern s).
Proof. intros Hc. apply (ctl_ind (λ k, closes k = closes (ev_kern s)) s s' Hc); [done|]. intros e op fd ev k <-. apply closes_epoll. Qed.

Lemma accepting_connected w i lp fd fds rest s u p :
  accepting w i lp fds rest → fd ∉ fds → _curr_conns (w_server w) < _max_conns (w_server w) →
  loop_inv s → backlog (ev_kern s) = backlog (w_kern w) →
  (∀ fd', fd' ≠ fd → interests s !! fd' = interests (EvSt (w_kern w) lp) !! fd') →
  accepting (connected fd i s u p w) i (ev_loop s) fds rest.
Proof.
  intros [] Hfd Hlt Hs Hb Hint.
  assert (Hne : ∀ fd', fd' ∈ fds → fd' ≠ fd) by (by intros fd' ? ->).
  split; try done; simpl.
  - by rewrite lookup_insert_eq.
  - by destruct s.
  - unfold waiting in *. simpl. by rewrite Hb.
  - intros fd' Hin. destruct s as [k l]. simpl. rewrite Hint by by apply Hne. by apply acc_new0.
  - intros fd' c Hin. rewrite !lookup_insert_ne by (intros ->; by apply (Hne fd')). by apply acc_slot0.
  - destruct acc_curr0. split; int_lia.
Qed.

(** What [do_accept] leaves, [ad] being the descriptors that are let in. *)
Record outcome w w' (i : nat) (lp lp' : event_loop) (ad : list Z) : Prop := {
  out_lp : w_loops w' !! i = Some lp';
  out_inv : loop_inv (EvSt (w_kern w') lp');
  out_curr : _curr_conns (w_server w') = _curr_conns (w_server w) + Z.of_nat (length ad);
  out_live fd : fd ∈ ad → live w' i lp' fd;
  out_rest fd : fd ∉ ad → untouched w w' lp lp' fd;
}.

Lemma outcome_kern w w' i lp lp' ad k :
  outcome (set_kern k w) w' i lp lp' ad → outcome w w' i lp lp' ad.
Proof. intros []. by split. Qed.

(** One descriptor more. *)
Lemma outcome_cons w w' i lp lp' fd s u p ad :
  outcome (connected fd i s u p w) w' i (ev_loop s) lp' ad → fd ∉ ad →
  reader s fd = Some (tcp_rcb, v_tcp_conn fd) →
  (∀ fd', fd' ≠ fd → reader s fd' = reader (EvSt (w_kern w) lp) fd') →
  outcome w w' i lp lp' (fd :: ad).
Proof.
  intros [] Hfd Hrd Hother. split; try done.
  - rewrite out_curr0. simpl. lia.
  - intros fd' [->|Hin]%elem_of_cons; [|by apply out_live0].
    destruct (out_rest0 fd Hfd) as (Hc & Hw & Hr). simpl in Hc, Hw.
    rewrite lookup_insert_eq in Hc. rewrite lookup_insert_eq in Hw.
    split; [done|]. split; [by exists p|]. rewrite Hr. by destruct s.
  - intros fd' [Hne Hin]%not_elem_of_cons.
    destruct (out_rest0 fd' Hin) as (Hc & Hw & Hr). simpl in Hc, Hw.
    rewrite lookup_insert_ne in Hc by done. rewrite lookup_insert_ne in Hw by done. split_and!; [done..|].
    rewrite Hr, <- Hother by done. by destruct s.
Qed.

(** The optional SO_KEEPALIVE. *)
Lemma keepalive_run fd w :
  ∃ k2, when (_keepalive (w_server w)) (zoom w_kernel (syscall (sys_setsockopt fd)) ;; mret tt) w =
      Ok (tt, set_kern k2 w) ∧ backlog k2 = backlog (w_kern w) ∧ closes k2 = closes (w_kern w) ∧
    ∀ epfd, interest epfd k2 = interest epfd (w_kern w).
Proof.
  unfold when. destruct (_keepalive (w_server w)); [|exists (w_kern w); by destruct w].
  exists (sys_setsockopt fd (w_kern w)).2. rewrite backlog_setsockopt, closes_setsockopt.
  unfold zoom, syscall, mbind, M_bind, mret, M_ret. simpl.
  destruct (sys_setsockopt fd (w_kern w)) as [r k2] eqn:Hk. split_and!; [done..|].
  intros epfd. pose proof (interest_setsockopt epfd fd (w_kern w)) as Hi. by rewrite Hk in Hi.
Qed.

(** A descriptor that is let in becomes a connection, and the others can still
    be accepted. *)
Lemma admit_room w i lp fd fds rest :
  accepting w i lp fds rest → fd ∉ fds → 0 ≤ fd < _conns_size (w_server w) →
  interests (EvSt (w_kern w) lp) !! fd = None →
  (∀ c, conns (w_server w) !! fd = Some c →
     c = fd ∧ ∃ x, w_conns w !! fd = Some x ∧ ibuf x = None ∧ obuf x = None) →
  _curr_conns (w_server w) < _max_conns (w_server w) →
  wp (admit_conn conn_fn fd) (λ _ w', ∃ s u p k2,
    w' = connected fd i s u p (set_kern k2 w) ∧ accepting w' i (ev_loop s) fds rest ∧
    closes (w_kern w') = closes (w_kern w) ∧
    reader s fd = Some (tcp_rcb, v_tcp_conn fd) ∧
    ∀ fd', fd' ≠ fd → reader s fd' = reader (EvSt (w_kern w) lp) fd') w.
Proof.
  intros Hacc Hfd Hr Hnew Hslot Hroom. destruct (keepalive_run fd w) as (k2 & Hkeep & Hb2 & Hcl2 & Hint2).
  pose proof (acc_curr _ _ _ _ _ Hacc) as [Hc1 Hc2].
  unfold admit_conn, get_conn_num. do 4 wp_step. rewrite (proj2 (Z.leb_gt _ _)) by done.
  wp_step. apply wp_assert; [apply Z.ltb_lt; lia|]. wp_step. apply (wp_run _ (mret tt) _ _ (set_kern k2 w) Hkeep).
  apply wp_ret.
  assert (Hacc2 : accepting (set_kern k2 w) i lp fds rest).
  { destruct Hacc. split; try done.
    - by apply (loop_inv_kern (w_kern w)).
    - unfold waiting in *. simpl in *. by rewrite Hb2.
    - intros fd' Hin. etrans; [|by apply (acc_new0 fd')]. unfold interests. simpl. by rewrite Hint2. }
  assert (Hiop : loop_inv (EvSt (opened fd k2) lp)) by (apply loop_inv_opened, (acc_inv _ _ _ _ _ Hacc2)).
  pose proof (add_ioev_spec fd tcp_rcb EPOLLIN (v_tcp_conn fd) _ Hiop eq_refl)
    as ([] & s & Hadd & His & _ & He)%wp_elim.
  pose proof (ctl_backlog _ _ (add_ioev_ctl _ _ _ _ _ _ Hadd)) as Hbs.
  pose proof (ctl_closes _ _ (add_ioev_ctl _ _ _ _ _ _ Hadd)) as Hcs.
  cbn [ev_kern] in Hbs, Hcs. unfold opened in Hbs, Hcs.
  rewrite backlog_setsockopt, backlog_nonblock in Hbs. rewrite closes_setsockopt, closes_nonblock in Hcs.
  eapply (place_conn_spec fd _ i lp s);
    [apply Hacc2|apply Hacc2|apply Hacc2|done|exact Hslot|apply Hacc2|simpl; int_lia|exact Hadd|].
  intros u p. exists s, u, p, k2. split; [done|]. split; [|split; [|split]].
  - apply (accepting_connected (set_kern k2 w) i lp fd fds rest s u p Hacc2 Hfd Hroom His Hbs).
    intros fd' Hne. pose proof (loop_mirror _ (acc_inv _ _ _ _ _ Hacc2)) as Hm2.
    cbn [w_kern set_kern] in Hm2 |- *. rewrite (loop_mirror _ His), He, Hm2.
    by rewrite !lookup_fmap, lookup_insert_ne.
  - cbn [w_kern connected]. by rewrite Hcs.
  - unfold reader. rewrite He, lookup_insert_eq. unfold added. simpl. by destruct (_io_evs lp !! fd).
  - intros fd' Hne. unfold reader. by rewrite He, lookup_insert_ne.
Qed.

Lemma do_accept_spec i fds : ∀ fuel w lp,
  accepting w i lp fds [] → (length fds < fuel)%nat →
  wp (do_accept_loop conn_fn fuel false) (λ _ w',
    let room := Z.to_nat (_max_conns (w_server w) - _curr_conns (w_server w)) in
    closes (w_kern w') = closes (w_kern w) ++ drop room fds ∧
    ∃ lp', outcome w w' i lp lp' (take room fds)) w.
Proof.
  induction fds as [|fd fds IH]; intros fuel w lp Hacc Hf; (destruct fuel as [|fuel]; [simpl in Hf; lia|]).
  { destruct (loop_done fuel false w (acc_waiting _ _ _ _ _ Hacc)) as (k' & Hr & Hint & Hcl).
    unfold wp. rewrite Hr. cbv zeta. rewrite take_nil, drop_nil, app_nil_r. split; [exact Hcl|]. exists lp. destruct Hacc. split; try done.
    - by apply (loop_inv_kern (w_kern w)).
    - simpl. lia.
    - by intros ? ?%elem_of_nil. }
  destruct (loop_accepted fuel false w fd _ (acc_waiting _ _ _ _ _ Hacc)) as (k1 & Hw1 & Hint1 & Hcl1 & Hrun).
  pose proof (accepting_kern w i lp fd fds [] k1 Hacc Hw1 Hint1) as Hacc1.
  pose proof (acc_nodup _ _ _ _ _ Hacc) as [Hfd _]%NoDup_cons.
  assert (Hnew : interests (EvSt k1 lp) !! fd = None).
  { unfold interests. simpl. rewrite Hint1. apply (acc_new _ _ _ _ _ Hacc). by left. }
  set (w1 := set_kern k1 w) in *. apply (wp_run _ _ _ _ _ Hrun). wp_step.
  destruct (Z.leb_spec (_max_conns (w_server w)) (_curr_conns (w_server w))) as [Hfull|Hroom].
  - unfold admit_conn, get_conn_num, close_fd. do 4 wp_step. cbn [w_server w1 set_kern].
    rewrite (proj2 (Z.leb_le _ _)) by done. wp_step.
    pose proof (accepting_close w1 i lp fd fds [] Hacc1 Hnew) as Hacc2.
    eapply wp_mono; [apply (IH fuel _ lp Hacc2); simpl in Hf; lia|].
    intros [] w' [Hcl (lp' & Hout)]. cbv zeta. cbn [w_server w_kern w1 set_kern] in Hout, Hcl.
    replace (Z.to_nat (_max_conns (w_server w) - _curr_conns (w_server w))) with 0%nat in * by lia.
    split; [by rewrite Hcl, closes_close, Hcl1, <- app_assoc|]. exists lp'. by apply outcome_kern, outcome_kern in Hout.
  - eapply wp_mono.
    { apply (admit_room w1 i lp fd fds [] Hacc1 Hfd); [|done| |done].
      - apply (acc_range _ _ _ _ _ Hacc). by left.
      - intros c. apply (acc_slot _ _ _ _ _ Hacc). by left. }
    intros [] w2 (s & u & p & k2 & -> & Hacc3 & Hcl3 & Hrd & Hother).
    eapply wp_mono; [apply (IH fuel _ (ev_loop s) Hacc3); simpl in Hf; lia|].
    intros [] w' [Hcl (lp' & Hout)]. cbv zeta. rewrite Hcl3 in Hcl. cbn [w_kern w1 set_kern] in Hcl.
    cbn [w_server connected set_conns set_curr_conns _max_conns _curr_conns set_kern] in Hout, Hcl.
    replace (Z.to_nat (_max_conns (w_server w) - _curr_conns (w_server w)))
      with (S (Z.to_nat (_max_conns (w_server w) - (_curr_conns (w_server w) + 1)))) by lia.
    split; [by rewrite Hcl, Hcl1|]. exists lp'. rewrite firstn_cons. do 2 eapply outcome_kern. eapply outcome_cons; [exact Hout| |exact Hrd|exact Hother].
    intros Hin. apply Hfd. eapply elem_of_app_take, Hin.
Qed.

(** C23 [do_accept] of a server without a thread pool returns, and enforces the
    limit exactly: of the waiting connections it lets in the first ones, as many
    as there is room for under [_max_conns], each becoming a live connection
    watched for reading, and closes the others and no other descriptor; connections
    that were there before are untouched, and the count is never above the limit
    unless it was before.  Only descriptors wait: with EMFILE among the answers of
    [accept] it does not hold ([do_accept_emfile_closes_live]). *)
Theorem do_accept_enforces_limit w i lp fds fuel :
  accepting w i lp fds [] → (length fds < fuel)%nat →
  let room := Z.to_nat (_max_conns (w_server w) - _curr_conns (w_server w)) in
  ∃ w' lp', do_accept conn_fn fuel w = Ok (tt, w') ∧
    w_loops w' !! i = Some lp' ∧ loop_inv (EvSt (w_kern w') lp') ∧
    (∀ fd, fd ∈ take room fds → live w' i lp' fd) ∧
    (∀ fd, fd ∉ take room fds → untouched w w' lp lp' fd) ∧
    closes (w_kern w') = closes (w_kern w) ++ drop room fds ∧
    _curr_conns (w_server w') = _curr_conns (w_server w) + Z.of_nat (length (take room fds)) ∧
    _curr_conns (w_server w') ≤ Z.max (_curr_conns (w_server w)) (_max_conns (w_server w)).
Proof.
  intros Hacc Hf room.
  pose proof (do_accept_spec i fds fuel w lp Hacc Hf) as ([] & w' & Hr & Hcl & lp' & [])%wp_elim.
  exists w', lp'. split_and!; try done. rewrite out_curr0, length_take. unfold room. lia.
Qed.

(** The loop of [do_accept] once [conn_full] is set. *)
Lemma loop_full fds : ∀ fuel w,
  waiting w = inr <$> fds → (length fds < fuel)%nat →
  ∃ k' r, do_accept_loop conn_fn fuel true w =
    Ok (tt, set_server (set_reservfd r (w_server w)) (set_kern k' w)).
Proof.
  induction fds as [|fd fds IH]; intros fuel w Hw Hf; (destruct fuel as [|fuel]; [simpl in Hf; lia|]).
  - destruct (loop_done fuel true w Hw) as (k' & Hr & _ & _). exists k', (_reservfd (w_server w)).
    rewrite Hr. by destruct w as [? ? ? ? [] ? ?].
  - destruct (loop_accepted fuel true w fd _ Hw) as (k1 & Hw1 & _ & _ & ->).
    unfold close_fd, open_reserve.
    destruct (sys_open_reserve (sys_close fd k1)) as [r k2] eqn:Hopen.
    set (rv := match r with inr fd => fd | inl _ => -1 end).
    set (w2 := set_server (set_reservfd rv (w_server w)) (set_kern k2 w)).
    erewrite (bind_ok _ _ _ tt w2).
    2:{ unfold mbind, M_bind, modify, zoom, syscall, modify_server. simpl. by rewrite Hopen. }
    destruct (IH fuel w2) as (k' & r' & ->); [|simpl in Hf; lia|].
    + unfold waiting in *. simpl in *. pose proof (backlog_open (sys_close fd k1)) as Hb.
      rewrite Hopen in Hb. simpl in Hb. by rewrite Hb, backlog_close.
    + by exists k', r'.
Qed.

(** After one EMFILE, a call of [do_accept] lets nobody in any more: it closes
    every further connection it accepts, however much room there is, because the
    flag it set is never cleared; and it opens the reserve descriptor anew for
    each of them. *)
Theorem do_accept_emfile_turns_all_away w fds fuel :
  waiting w = inl EMFILE :: (inr <$> fds) → (S (length fds) < fuel)%nat →
  ∃ w', do_accept conn_fn fuel w = Ok (tt, w') ∧
    _curr_conns (w_server w') = _curr_conns (w_server w) ∧
    conns (w_server w') = conns (w_server w) ∧ w_conns w' = w_conns w ∧
    w_loops w' = w_loops w ∧ w_queues w' = w_queues w.
Proof.
  intros Hw Hf. destruct fuel as [|fuel]; [lia|].
  destruct (accept_next (_sockfd (w_server w)) (w_kern w) _ _ Hw) as (k1 & Ha & Hb).
  set (w1 := set_kern (sys_close (_reservfd (w_server w)) k1) w).
  destruct (loop_full fds fuel w1) as (k' & r & Hrun); [|lia|].
  { unfold waiting. simpl. by rewrite backlog_close. }
  exists (set_server (set_reservfd r (w_server w1)) (set_kern k' w1)). split; [|by split_and!].
  unfold do_accept. cbn [do_accept_loop]. erewrite bind_ok by reflexivity.
  erewrite bind_ok by (unfold zoom, syscall; cbn [view w_kernel]; by rewrite Ha).
  cbv beta iota. erewrite bind_ok by reflexivity. exact Hrun.
Qed.

(** C8 The reserve descriptor is closed twice.  A call of [do_accept] that meets EMFILE
    with no connection waiting closes the reserve and leaves its number [r] in
    [_reservfd].  When later the system gives out that number for an accepted
    connection, which becomes a live one, and the descriptors run out again, the same
    call closes it under that connection. *)
Theorem do_accept_emfile_closes_live w i lp fuel :
  waiting w = [inl EMFILE] → (2 < fuel)%nat → let r := _reservfd (w_server w) in
  ∃ k1, do_accept conn_fn fuel w = Ok (tt, set_kern k1 w) ∧ closes k1 = closes (w_kern w) ++ [r] ∧
    ∀ k2, accepting (set_kern k2 w) i lp [r] [inl EMFILE] → _curr_conns (w_server w) < _max_conns (w_server w) →
      ∃ w' lp', do_accept conn_fn fuel (set_kern k2 w) = Ok (tt, w') ∧ w_loops w' !! i = Some lp' ∧
        live w' i lp' r ∧ closes (w_kern w') = closes k2 ++ [r].
Proof.
  intros Hw Hf r. destruct fuel as [|[|[|fuel]]]; [lia..|].
  assert (Hemfile : ∀ w1 n, waiting w1 = [inl EMFILE] →
    ∃ k, do_accept_loop conn_fn (S (S n)) false w1 = Ok (tt, set_kern k w1) ∧
      closes k = closes (w_kern w1) ++ [_reservfd (w_server w1)]).
  { intros w1 n Hw1. destruct (accept_next (_sockfd (w_server w1)) (w_kern w1) _ _ Hw1) as (k & Ha & Hb).
    set (w2 := set_kern (sys_close (_reservfd (w_server w1)) k) w1).
    destruct (loop_done n true w2) as (k' & Hr & _ & Hcl).
    { unfold waiting. simpl. by rewrite backlog_close. }
    exists k'. split.
    - cbn [do_accept_loop]. erewrite bind_ok by reflexivity.
      erewrite bind_ok by (unfold zoom, syscall; cbn [view w_kernel]; by rewrite Ha).
      cbv beta iota. erewrite bind_ok by reflexivity. exact Hr.
    - rewrite Hcl. cbn [w_kern w2 set_kern]. rewrite closes_close.
      pose proof (closes_accept (_sockfd (w_server w1)) (w_kern w1)) as Hca. rewrite Ha in Hca. simpl in Hca. by rewrite Hca. }
  destruct (Hemfile w (S fuel) Hw) as (k1 & Hr1 & Hc1). exists k1. split; [exact Hr1|]. split; [done|].
  intros k2 Hacc Hroom. unfold do_accept.
  destruct (loop_accepted (S (S fuel)) false (set_kern k2 w) r [inl EMFILE] (acc_waiting _ _ _ _ _ Hacc))
    as (k3 & Hw3 & Hint3 & Hcl3 & ->).
  pose proof (accepting_kern _ i lp r [] [inl EMFILE] k3 Hacc Hw3 Hint3) as Hacc3.
  pose proof (admit_room _ i lp r [] [inl EMFILE] Hacc3 ltac:(apply not_elem_of_nil)) as Hadm.
  destruct (proj1 (wp_elim _ _ _) (Hadm ltac:(apply (acc_range _ _ _ _ _ Hacc); by left)
    ltac:(etrans; [unfold interests; cbn; by rewrite Hint3|apply (acc_new _ _ _ _ _ Hacc); by left])
    ltac:(intros c; apply (acc_slot _ _ _ _ _ Hacc); by left) Hroom))
    as ([] & w4 & Hr4 & s & u & p & k4 & -> & Hacc4 & Hcl4 & Hrd & _).
  cbv iota. erewrite bind_ok by exact Hr4. set (w4 := connected _ _ _ _ _ _) in *.
  destruct (Hemfile w4 fuel (acc_waiting _ _ _ _ _ Hacc4)) as (k5 & -> & Hc5).
  exists (set_kern k5 w4), (ev_loop s). split; [done|]. split; [by apply lookup_insert_eq|].
  split; [split; [apply lookup_insert_eq|split; [exists p; apply lookup_insert_eq|exact Hrd]]|].
  cbn [w_kern set_kern] in Hcl3, Hcl4 |- *. by rewrite Hc5, Hcl4, Hcl3.
Qed.

(** ** A pool of threads *)

(** The server with a thread pool, about to accept the descriptors [fds]. *)
Record accepting_pool w (p : thread_pool) (fds : list Z) : Prop := {
  accp_pool : _thd_pool (w_server w) = Some p;
  accp_count : 0 < _thread_cnt p;
  accp_index : 0 ≤ _curr_index p ≤ _thread_cnt p;
  accp_queues i : 0 ≤ i < _thread_cnt p → is_Some (w_queues w !! Z.to_nat i);
  accp_waiting : waiting w = inr <$> fds;
  accp_range fd : fd ∈ fds → fd < _conns_size (w_server w);
  accp_room : _curr_conns (w_server w) < _max_conns (w_server w);
}.

(** A message waits in some queue. *)
Definition queued w (m : queue_msg) : Prop :=
  ∃ i tq, w_queues w !! i = Some tq ∧ m ∈ _queue tq.

(** The descriptors that go to thread [t] when the next one goes to thread [c]:
    the [j]-th goes to thread [(c + j) mod n]. *)
Fixpoint share (c n : Z) (t : nat) (fds : list Z) : list Z :=
  match fds with
  | [] => []
  | fd :: fds => if decide (Z.to_nat (c mod n) = t) then fd :: share (c + 1) n t fds else share (c + 1) n t fds
  end.

Lemma share_mod n t fds : ∀ c c', 0 < n → c mod n = c' mod n → share c n t fds = share c' n t fds.
Proof.
  induction fds as [|fd fds IH]; intros c c' Hn Hc; [done|]. cbn [share]. rewrite Hc.
  rewrite (IH (c + 1) (c' + 1)); [done..|]. by rewrite <- Zplus_mod_idemp_l, Hc, Zplus_mod_idemp_l.
Qed.

(** Every descriptor goes to a thread. *)
Lemma elem_of_share fd n fds : ∀ c, 0 < n → fd ∈ fds → ∃ t, 0 ≤ t < n ∧ fd ∈ share c n (Z.to_nat t) fds.
Proof.
  induction fds as [|x fds IH]; intros c Hn Hin; [by apply elem_of_nil in Hin|]. cbn [share].
  apply elem_of_cons in Hin as [->|Hin].
  - exists (c mod n). split; [apply Z.mod_pos_bound; lia|]. rewrite decide_True by done. by left.
  - destruct (IH (c + 1) Hn Hin) as (t & Ht & Hs). exists t. split; [done|]. case_decide; [by right|done].
Qed.

Lemma place_conn_pool fd w p :
  _thd_pool (w_server w) = Some p → 0 < _thread_cnt p → 0 ≤ _curr_index p ≤ _thread_cnt p →
  (∀ i, 0 ≤ i < _thread_cnt p → is_Some (w_queues w !! Z.to_nat i)) →
  let t := Z.to_nat (_curr_index p mod _thread_cnt p) in
  ∃ p' tq, _thread_cnt p' = _thread_cnt p ∧ 0 ≤ _curr_index p' ≤ _thread_cnt p' ∧
    _curr_index p' mod _thread_cnt p = (_curr_index p + 1) mod _thread_cnt p ∧ w_queues w !! t = Some tq ∧
    place_conn conn_fn fd w =
      Ok (tt, set_queues (<[t := eventfd_write (set_queue (_queue tq ++ [NEW_CONN fd]) tq)]> (w_queues w))
        (set_server (set_thd_pool (Some p') (w_server w)) w)).
Proof.
  intros Hp Hn Hc Hq t.
  set (i := if _curr_index p =? _thread_cnt p then 0 else _curr_index p).
  assert (Hi : 0 ≤ i < _thread_cnt p ∧ _curr_index p mod _thread_cnt p = i).
  { unfold i. destruct (Z.eqb_spec (_curr_index p) (_thread_cnt p)) as [->|];
      [rewrite Z.mod_same by lia|rewrite Z.mod_small by lia]; lia. }
  destruct Hi as [Hi Hmod]. unfold t. rewrite Hmod. destruct (Hq i Hi) as [tq Htq].
  exists (ThreadPool (i + 1) (_thread_cnt p)), tq. split; [done|]. split; [simpl; lia|].
  split; [simpl; by rewrite <- Hmod, Zplus_mod_idemp_l|]. split; [done|].
  unfold place_conn. erewrite bind_ok by reflexivity. rewrite Hp.
  assert (Hnext : get_next_thread p = Ok (Z.to_nat i, ThreadPool (i + 1) (_thread_cnt p))) by done.
  rewrite Hnext. cbv beta iota. erewrite bind_ok by reflexivity.
  unfold on_queue, mbind, M_bind, get. simpl. by rewrite Htq.
Qed.

Lemma eventfd_write_queue tq : _queue (eventfd_write tq) = _queue tq.
Proof. unfold eventfd_write. by case_match. Qed.

(** The state after the descriptors were dealt to the threads: only the queues, the
    index of the pool and the kernel are different. *)
Definition dealt w (p : thread_pool) (fds : list Z) w' : Prop := ∃ k' qs p',
  w' = set_queues qs (set_server (set_thd_pool (Some p') (w_server w)) (set_kern k' w)) ∧
  (∀ epfd, interest epfd k' = interest epfd (w_kern w)) ∧
  ∀ t tq, w_queues w !! t = Some tq → ∃ tq', qs !! t = Some tq' ∧
    _queue tq' = _queue tq ++ (NEW_CONN <$> share (_curr_index p) (_thread_cnt p) t fds).

Lemma dealt_cons w p fd fds k1 tq p' w' :
  let t := Z.to_nat (_curr_index p mod _thread_cnt p) in
  0 < _thread_cnt p → _thread_cnt p' = _thread_cnt p →
  _curr_index p' mod _thread_cnt p = (_curr_index p + 1) mod _thread_cnt p →
  (∀ epfd, interest epfd k1 = interest epfd (w_kern w)) → w_queues w !! t = Some tq →
  dealt (set_queues (<[t := eventfd_write (set_queue (_queue tq ++ [NEW_CONN fd]) tq)]> (w_queues w))
    (set_server (set_thd_pool (Some p') (w_server w)) (set_kern k1 w))) p' fds w' →
  dealt w p (fd :: fds) w'.
Proof.
  intros t Hn Hn' Hc Hk1 Htq (k' & qs & p2 & -> & Hk & Hqs). exists k', qs, p2. split; [done|].
  split; [intros epfd; by rewrite Hk, <- Hk1|]. cbn [w_queues set_queues] in Hqs.
  intros t' tq' Htq'. cbn [share]. rewrite Hn' in Hqs. setoid_rewrite (share_mod _ _ _ _ _ Hn Hc) in Hqs.
  case_decide as Ht; fold t in Ht.
  - subst t'. rewrite Htq in Htq'. injection Htq' as <-.
    destruct (Hqs t _ (lookup_insert_eq _ _ _)) as (tq2 & Hq2 & Heq). exists tq2. split; [done|].
    rewrite Heq, eventfd_write_queue. simpl. by rewrite <- app_assoc.
  - apply Hqs. by rewrite lookup_insert_ne.
Qed.

Lemma do_accept_pool_spec fds : ∀ fuel w p,
  accepting_pool w p fds → (length fds < fuel)%nat →
  wp (do_accept_loop conn_fn fuel false) (λ _ w', dealt w p fds w') w.
Proof.
  induction fds as [|fd fds IH]; intros fuel w p Hacc Hf; (destruct fuel as [|fuel]; [simpl in Hf; lia|]).
  { destruct (loop_done fuel false w (accp_waiting _ _ _ Hacc)) as (k' & Hr & Hk & _).
    unfold wp. rewrite Hr. exists k', (w_queues w), p. split; [|split; [done|]].
    - pose proof (accp_pool _ _ _ Hacc) as Hp. destruct w as [? ? ? ? [] ? ?]. simpl in *. by subst.
    - intros t tq Htq. exists tq. split; [done|]. simpl. by rewrite app_nil_r. }
  destruct Hacc as [Hp Hn Hc Hq Hw Hr Hroom].
  destruct (loop_accepted fuel false w fd _ Hw) as (k1 & Hw1 & Hi1 & _ & Hrun).
  set (w1 := set_kern k1 w) in *. apply (wp_run _ _ _ _ _ Hrun).
  wp_step. unfold admit_conn, get_conn_num. do 4 wp_step. cbn [w_server w1 set_kern].
  destruct (Z.leb_spec (_max_conns (w_server w)) (_curr_conns (w_server w))); [lia|].
  wp_step. apply wp_assert; [apply Z.ltb_lt, Hr; by left|]. wp_step.
  destruct (keepalive_run fd w1) as (k2 & Hkeep & Hb2 & _ & Hi2). cbn [w_kern w1 set_kern] in Hb2, Hi2.
  apply (wp_run _ (mret tt) _ _ (set_kern k2 w) Hkeep). apply wp_ret.
  destruct (place_conn_pool fd (set_kern k2 w) p) as (p' & tq & Hn' & Hc' & Hmod & Htq & Hplace); [done..|].
  unfold wp at 1. rewrite Hplace. simpl in Htq. set (w3 := set_queues _ _).
  assert (Hacc3 : accepting_pool w3 p' fds).
  { split; try done; simpl.
    - by rewrite Hn'.
    - intros j Hj. rewrite Hn' in Hj. apply lookup_insert_is_Some.
      destruct (decide (Z.to_nat (_curr_index p mod _thread_cnt p) = Z.to_nat j)); [by left|right]. split; [done|by apply Hq].
    - unfold waiting in *. simpl in *. by rewrite Hb2.
    - intros fd' ?. apply Hr. by right. }
  eapply wp_mono; [apply (IH fuel w3 p' Hacc3); simpl in Hf; lia|].
  intros [] w'. apply (dealt_cons w p fd fds k2 tq p' w'); [done..| |done]. intros epfd. by rewrite Hi2.
Qed.

(** With a thread pool the limit does not hold: while there is room for one
    connection, a single call of [do_accept] hands every waiting connection to a
    thread, as many as there are, because a connection is counted only when its
    thread has set it up; the count that is compared with the limit does not
    move during the call. *)
Theorem do_accept_pool_ignores_limit w p fds fuel :
  accepting_pool w p fds → (length fds < fuel)%nat →
  ∃ w', do_accept conn_fn fuel w = Ok (tt, w') ∧
    _curr_conns (w_server w') = _curr_conns (w_server w) ∧
    ∀ fd, fd ∈ fds → queued w' (NEW_CONN fd).
Proof.
  intros Hacc Hf. pose proof (do_accept_pool_spec fds fuel w p Hacc Hf)
    as ([] & w' & Hr & k' & qs & p' & -> & _ & Hq)%wp_elim. eexists. split; [exact Hr|]. split; [done|].
  intros fd Hfd. destruct (elem_of_share fd _ fds (_curr_index p) (accp_count _ _ _ Hacc) Hfd) as (t & Ht & Hs).
  destruct (accp_queues _ _ _ Hacc t Ht) as [tq Htq]. destruct (Hq _ tq Htq) as (tq' & Htq' & Heq).
  exists (Z.to_nat t), tq'. split; [done|]. rewrite Heq. apply elem_of_app. right. by apply list_elem_of_fmap_2.
Qed.
End accepting.

(** ** Concrete instances, on the kernel with a backlog *)

(** A server with room for two connections; [l] waits to be accepted. *)
Definition listening_world (pool : option thread_pool) (l : list (errno + Z))
    : world Pipe.state (list delivery) :=
  World (Pipe.State 0 [] ∅ l []) bare_pool
    {[0%nat := EventLoop 3 ∅ timer_queue_new 4 task_vector_new ∅]}
    {[0%nat := new_queue 8; 1%nat := new_queue 9]}
    (TcpServer 5 6 0 pool false 100 2 0 msg_dispatcher_new ∅ None None) ∅ [].

Lemma listening_accepting fds :
  NoDup fds → (∀ fd, fd ∈ fds → 0 ≤ fd < 100) →
  accepting no_conn_cb (listening_world None (inr <$> fds)) 0
    (EventLoop 3 ∅ timer_queue_new 4 task_vector_new ∅) fds [].
Proof.
  intros Hnd Hr. split; try done. cbn. by rewrite app_nil_r.
Qed.

Lemma do_accept_enforces_limit_witness :
  ∃ w' lp', do_accept no_conn_cb 10 (listening_world None (inr <$> [7; 8; 9])) = Ok (tt, w') ∧
    live w' 0 lp' 7 ∧ live w' 0 lp' 8 ∧ conns (w_server w') !! 9 = None ∧ Pipe.shut (w_kern w') = [9] ∧
    _curr_conns (w_server w') = 2.
Proof.
  destruct (do_accept_enforces_limit no_conn_cb (listening_world None (inr <$> [7; 8; 9])) 0
    (EventLoop 3 ∅ timer_queue_new 4 task_vector_new ∅) [7; 8; 9] 10)
    as (w' & lp' & Hr & _ & _ & Hlive & Hrest & Hcl & Hn & _).
  - apply listening_accepting.
    + apply (bool_decide_unpack _). vm_compute. exact I.
    + intros fd. rewrite !elem_of_cons, elem_of_nil. lia.
  - simpl. lia.
  - exists w', lp'. split; [exact Hr|]. split; [apply Hlive; by left|].
    split; [apply Hlive; right; by left|]. split; [|split; [exact Hcl|exact Hn]].
    destruct (Hrest 9) as [Hc _]; [|exact Hc].
    vm_compute. intros H9. repeat (apply elem_of_cons in H9 as [H9|H9]; [discriminate|]).
    by apply elem_of_nil in H9.
Defined.

Lemma do_accept_emfile_turns_all_away_witness :
  ∃ w', do_accept no_conn_cb 10 (listening_world None (inl EMFILE :: (inr <$> [7; 8]))) = Ok (tt, w') ∧
    _curr_conns (w_server w') = 0 ∧ conns (w_server w') = ∅.
Proof.
  destruct (do_accept_emfile_turns_all_away no_conn_cb
    (listening_world None (inl EMFILE :: (inr <$> [7; 8]))) [7; 8] 10) as (w' & Hr & Hn & Hc & _).
  - reflexivity.
  - simpl. lia.
  - exists w'. split; [exact Hr|]. split; [exact Hn|exact Hc].
Defined.

(** The reserve, 6, is closed, given out again for a client, and closed again. *)
Lemma do_accept_emfile_closes_live_witness :
  let w := listening_world None [inl EMFILE] in
  let k2 := Pipe.State 0 [] ∅ [inr 6; inl EMFILE] [6] in
  ∃ k1 w' lp', do_accept no_conn_cb 3 w = Ok (tt, set_kern k1 w) ∧ Pipe.shut k1 = [6] ∧
    do_accept no_conn_cb 3 (set_kern k2 w) = Ok (tt, w') ∧ live w' 0 lp' 6 ∧ Pipe.shut (w_kern w') = [6; 6].
Proof.
  intros w k2. pose proof (do_accept_emfile_closes_live no_conn_cb w 0
    (EventLoop 3 ∅ timer_queue_new 4 task_vector_new ∅) 3 eq_refl ltac:(lia)) as (k1 & Hr1 & Hc1 & Hlater).
  destruct (Hlater k2) as (w' & lp' & Hr & _ & Hlive & Hc).
  - split; try done.
    + apply NoDup_singleton.
    + intros fd ->%list_elem_of_singleton. simpl. lia.
  - simpl. lia.
  - exists k1, w', lp'. split; [exact Hr1|]. split; [exact Hc1|]. split; [exact Hr|]. split; [exact Hlive|exact Hc].
Defined.

Lemma do_accept_pool_ignores_limit_witness :
  let w := listening_world (Some (ThreadPool 0 2)) (inr <$> [7; 8; 9; 10]) in
  ∃ w', do_accept no_conn_cb 10 w = Ok (tt, w') ∧ _max_conns (w_server w) = 2 ∧
    ∀ fd, fd ∈ [7; 8; 9; 10] → queued w' (NEW_CONN fd).
Proof.
  intros w.
  destruct (do_accept_pool_ignores_limit no_conn_cb w (ThreadPool 0 2) [7; 8; 9; 10] 10)
    as (w' & Hr & _ & Hq).
  - split; try done; try (simpl; lia).
    + intros i Hi. simpl in Hi. assert (i = 0 ∨ i = 1) as [->| ->] by lia; by eexists.
    + intros fd. rewrite !elem_of_cons, elem_of_nil. simpl. lia.
  - simpl. lia.
  - exists w'. split; [exact Hr|]. split; [reflexivity|exact Hq].
Defined.
