(* ===== verification/HandOff.v ===== *)
(** * Connections handed to a thread

    What a thread of the pool does when its queue wakes it ([msg_comming_cb] in
    src/thread_pool.cc): the connections accepted by the main thread come alive on
    its own loop, and the tasks sent to it are queued there. *)
From S2P Require Import Prelude EventBase TimerQueue Kernel IoBuffer BufferPool TcpBuffer BufferProps.
From S2P Require Import Wire EventLoop EventLoopProps World TcpConn TcpConnSpec TcpConnProps.
From S2P Require Import ThreadPool ThreadPoolProps TcpServer TcpServerProps.

(** The descriptors and the tasks in a batch of messages. *)
Definition conns_of (msgs : list queue_msg) : list Z :=
  omap (λ m, match m with NEW_CONN fd => Some fd | _ => None end) msgs.
Definition tasks_of (msgs : list queue_msg) : list (pendingFunc * void_ptr) :=
  omap (λ m, match m with NEW_TASK f args => Some (f, args) | _ => None end) msgs.

Section handoff.
Context {K U : Type} `{EpollLaws K}.
Variable conn_fn : conn_callback → Z → M (world K U) unit.
Implicit Types w : world K U.

(** A thread whose loop [i] is to take over the messages [msgs]: the descriptors
    are new to it, and the objects in their slots, if any, are closed. *)
Record serving w (i : nat) (lp : event_loop) (msgs : list queue_msg) : Prop := {
  sv_lp : w_loops w !! i = Some lp;
  sv_inv : loop_inv (EvSt (w_kern w) lp);
  sv_nodup : NoDup (conns_of msgs);
  sv_range fd : fd ∈ conns_of msgs → 0 ≤ fd < _conns_size (w_server w);
  sv_new fd : fd ∈ conns_of msgs → interests (EvSt (w_kern w) lp) !! fd = None;
  sv_slot fd c : fd ∈ conns_of msgs → conns (w_server w) !! fd = Some c →
    c = fd ∧ ∃ x, w_conns w !! fd = Some x ∧ ibuf x = None ∧ obuf x = None;
  sv_curr : is_int (_curr_conns (w_server w)) ∧
    is_int (_curr_conns (w_server w) + Z.of_nat (length (conns_of msgs)));
  sv_quiet c : quiet conn_fn (connBuildCb (w_server w)) c;
}.

(** The process with [v] as the task list of loop [i]. *)
Definition with_tasks (i : nat) (lp : event_loop) (v : task_vector) w : world K U :=
  set_loops (<[i := set_pending v lp]> (w_loops w)) w.

Lemma loop_inv_pending k lp v :
  loop_inv (EvSt k lp) → (length (tasks v) ≤ tv_capacity v)%nat → loop_inv (EvSt k (set_pending v lp)).
Proof. intros [] Hv. by split. Qed.

Lemma push_back_tasks x v :
  (length (tasks v) ≤ tv_capacity v)%nat →
  tasks (push_back x v) = tasks v ++ [x] ∧ (length (tasks (push_back x v)) ≤ tv_capacity (push_back x v))%nat.
Proof.
  intros Hv. unfold push_back. destruct (Nat.ltb_spec (length (tasks v)) (tv_capacity v));
    (split; [done|]); simpl; rewrite length_app; simpl; lia.
Qed.

(** A task joins the list of the loop. *)
Lemma add_task_run f args w i lp msgs :
  serving w i lp (NEW_TASK f args :: msgs) →
  let v := push_back (f, args) (_pendingFactors lp) in
  handle_msg conn_fn i (NEW_TASK f args) w = Ok (tt, with_tasks i lp v w) ∧
  serving (with_tasks i lp v w) i (set_pending v lp) msgs.
Proof.
  intros [] v. pose proof (push_back_tasks (f, args) _ (loop_tasks _ sv_inv0)) as [_ Hcap]. split.
  - cbn [handle_msg]. apply wp_returns. eapply wp_on_loop; [done|]. unfold add_task, modify_loop. wp_step. wp_step.
    simpl. split; [done|]. by destruct w.
  - split; try done; simpl.
    + by rewrite lookup_insert_eq.
    + by apply loop_inv_pending.
Qed.

(** A connection comes alive on the loop. *)
Lemma new_conn_run fd w i lp msgs (Q : unit → world K U → Prop) :
  serving w i lp (NEW_CONN fd :: msgs) →
  (∀ s u p, let w' := connected fd i s u p w in serving w' i (ev_loop s) msgs → fd ∉ conns_of msgs →
     reader s fd = Some (tcp_rcb, v_tcp_conn fd) → _pendingFactors (ev_loop s) = _pendingFactors lp →
     (∀ fd', fd' ≠ fd → reader s fd' = reader (EvSt (w_kern w) lp) fd') → Q tt w') →
  wp (handle_msg conn_fn i (NEW_CONN fd)) Q w.
Proof.
  intros [Hlp Hi Hnd Hr Hnew Hslot [Hc1 Hc2] Hq] HQ.
  change (conns_of (NEW_CONN fd :: msgs)) with (fd :: conns_of msgs) in *. apply NoDup_cons in Hnd as [Hfd Hnd].
  assert (Hin : fd ∈ fd :: conns_of msgs) by left. cbn [length] in Hc2.
  assert (Hiop : loop_inv (EvSt (opened fd (w_kern w)) lp)) by by apply loop_inv_opened.
  pose proof (add_ioev_spec fd tcp_rcb EPOLLIN (v_tcp_conn fd) _ Hiop eq_refl)
    as ([] & s & Hadd & His & Hsame & He)%wp_elim.
  cbn [handle_msg]. eapply (setup_conn_spec conn_fn fd w i lp s);
    [done|by apply Hr|intros c; by apply Hslot|apply Hq|int_lia|exact Hadd|].
  intros u p. assert (Hne : ∀ fd', fd' ∈ conns_of msgs → fd' ≠ fd) by (by intros fd' ? ->).
  apply HQ; [|done| |apply Hsame|].
  - split; try done; simpl.
    + by rewrite lookup_insert_eq.
    + by destruct s.
    + intros fd' ?. apply Hr. by right.
    + intros fd' Hin'. destruct s as [k l]. change (interests (EvSt k l) !! fd' = None).
      rewrite (loop_mirror _ His), lookup_fmap, He.
      rewrite lookup_insert_ne by (intros ->; by apply (Hne fd')).
      rewrite <- lookup_fmap. pose proof (loop_mirror _ Hi) as Hm. simpl in Hm |- *. rewrite <- Hm. apply Hnew. by right.
    + intros fd' c Hin'. rewrite !lookup_insert_ne by (intros ->; by apply (Hne fd')). apply Hslot. by right.
    + split; int_lia.
  - unfold reader. rewrite He, lookup_insert_eq. unfold added. simpl. by destruct (_io_evs lp !! fd).
  - intros fd' Hne'. unfold reader. by rewrite He, lookup_insert_ne.
Qed.
(** What the batch leaves. *)
Record handed w w' (i : nat) (lp lp' : event_loop) (msgs : list queue_msg) : Prop := {
  ho_out : outcome w w' i lp lp' (conns_of msgs);
  ho_tasks : tasks (_pendingFactors lp') = tasks (_pendingFactors lp) ++ tasks_of msgs;
  ho_queues : w_queues w' = w_queues w;
}.

Lemma outcome_tasks w w' i lp lp' v ad :
  outcome (with_tasks i lp v w) w' i (set_pending v lp) lp' ad → outcome w w' i lp lp' ad.
Proof. intros []. by split. Qed.

Lemma handle_all i msgs : ∀ w lp,
  serving w i lp msgs →
  wp (for_each msgs (handle_msg conn_fn i)) (λ _ w', ∃ lp', handed w w' i lp lp' msgs) w.
Proof.
  induction msgs as [|[fd| |f args] msgs IH]; intros w lp Hs; cbn [for_each].
  - apply wp_ret. exists lp. destruct Hs. split; [|by rewrite app_nil_r|done].
    split; [done|done|simpl; lia|by intros ? ?%elem_of_nil|done].
  - wp_step. apply (new_conn_run fd w i lp msgs _ Hs). intros s u p w1 Hs1 Hfd Hrd Hpend Hother.
    eapply wp_mono; [by apply IH|]. intros [] w' (lp' & [Hout Htk Hqs]). exists lp'. split.
    + by eapply outcome_cons.
    + by rewrite Htk, Hpend.
    + done.
  - wp_step. cbn [handle_msg]. apply wp_ret. eapply wp_mono; [apply (IH w lp); by destruct Hs|].
    intros [] w' (lp' & []). exists lp'. by split.
  - destruct (add_task_run f args w i lp msgs Hs) as [Hrun Hs1].
    pose proof (push_back_tasks (f, args) _ (loop_tasks _ (sv_inv _ _ _ _ Hs))) as [Hpb _].
    wp_step. apply (wp_run _ (mret tt) _ w (with_tasks i lp (push_back (f, args) (_pendingFactors lp)) w) Hrun). apply wp_ret. eapply wp_mono; [by apply IH|].
    intros [] w' (lp' & [Hout Htk Hqs]). exists lp'. split.
    + by eapply outcome_tasks.
    + rewrite Htk. simpl in Hpb |- *. rewrite Hpb. by rewrite <- app_assoc.
    + done.
Qed.

Lemma msg_comming_run w i q tq lp :
  w_queues w !! q = Some tq → serving w i lp (_queue tq) →
  let fds := conns_of (_queue tq) in
  ∃ w' lp', msg_comming conn_fn i q w = Ok (tt, w') ∧
    w_queues w' = <[q := set_ev_count 0 (set_queue [] tq)]> (w_queues w) ∧
    w_loops w' !! i = Some lp' ∧ loop_inv (EvSt (w_kern w') lp') ∧
    (∀ fd, fd ∈ fds → live w' i lp' fd) ∧ (∀ fd, fd ∉ fds → untouched w w' lp lp' fd) ∧
    _curr_conns (w_server w') = _curr_conns (w_server w) + Z.of_nat (length fds) ∧
    tasks (_pendingFactors lp') = tasks (_pendingFactors lp) ++ tasks_of (_queue tq).
Proof.
  intros Hq Hs fds. set (w1 := set_queues (<[q := set_ev_count 0 (set_queue [] tq)]> (w_queues w)) w).
  assert (Hrecv : on_queue q (recv_msg []) w = Ok (_queue tq, w1)).
  { unfold on_queue, mbind, M_bind, get. by rewrite Hq. }
  assert (Hs1 : serving w1 i lp (_queue tq)) by by destruct Hs.
  pose proof (handle_all i (_queue tq) w1 lp Hs1) as ([] & w' & Hrun & lp' & [[] Htk Hqs])%wp_elim.
  exists w', lp'. split; [unfold msg_comming; by erewrite bind_ok by exact Hrecv|]. by split_and!.
Qed.

(** C13 A thread of the pool takes over what was sent to it: one call of
    [msg_comming_cb] empties its queue and resets the eventfd; every connection
    in the queue becomes a live connection of the thread's own loop, watched for
    reading, and is counted; the tasks join the list of that loop, in the order
    they were sent; and the other connections are as they were. *)
Theorem msg_comming_takes_over w i q tq lp :
  w_queues w !! q = Some tq → serving w i lp (_queue tq) →
  let fds := conns_of (_queue tq) in
  ∃ w' lp', msg_comming conn_fn i q w = Ok (tt, w') ∧
    w_queues w' = <[q := set_ev_count 0 (set_queue [] tq)]> (w_queues w) ∧
    w_loops w' !! i = Some lp' ∧ loop_inv (EvSt (w_kern w') lp') ∧
    (∀ fd, fd ∈ fds → live w' i lp' fd) ∧ (∀ fd, fd ∉ fds → untouched w w' lp lp' fd) ∧
    _curr_conns (w_server w') = _curr_conns (w_server w) + Z.of_nat (length fds) ∧
    tasks (_pendingFactors lp') = tasks (_pendingFactors lp) ++ tasks_of (_queue tq).
Proof. apply msg_comming_run. Qed.

(** *** From the listening socket to the thread *)

Lemma conns_of_new fds : conns_of (NEW_CONN <$> fds) = fds.
Proof. induction fds as [|fd fds IH]; [done|]. cbn [fmap list_fmap]. by change (conns_of (NEW_CONN fd :: ?l)) with (fd :: conns_of l); rewrite IH. Qed.
Lemma tasks_of_new fds : tasks_of (NEW_CONN <$> fds) = [].
Proof. by induction fds. Qed.

(** Accepting in the main thread does not disturb a thread that serves. *)
Lemma serving_dealt w p fds w' i lp msgs :
  dealt w p fds w' → serving w i lp msgs → serving w' i lp msgs.
Proof.
  intros (k' & qs & p' & -> & Hk & _) []. split; try done; simpl.
  - by apply (loop_inv_kern (w_kern w)).
  - intros fd Hfd. specialize (sv_new0 fd Hfd). unfold interests in *. simpl in *. by rewrite Hk.
Qed.

(** C12 With a pool of [n] threads, the [j]-th descriptor that is accepted becomes a
    live connection of the loop of thread [(c + j) mod n]: the main thread puts it
    into the queue of that thread, and the thread, when its queue wakes it, sets up
    all that were sent to it and counts them; what it was sent before is handled as
    well. *)
Theorem accepted_reach_their_thread `{!AcceptLaws K} w p fds fuel i t tq lp :
  let mine := share (_curr_index p) (_thread_cnt p) t fds in
  accepting_pool w p fds → (length fds < fuel)%nat → w_queues w !! t = Some tq →
  serving w i lp (_queue tq ++ (NEW_CONN <$> mine)) →
  ∃ w1 w2 lp', do_accept conn_fn fuel w = Ok (tt, w1) ∧ msg_comming conn_fn i t w1 = Ok (tt, w2) ∧
    w_loops w2 !! i = Some lp' ∧ loop_inv (EvSt (w_kern w2) lp') ∧ (∀ fd, fd ∈ mine → live w2 i lp' fd) ∧
    _curr_conns (w_server w2) =
      _curr_conns (w_server w) + Z.of_nat (length (conns_of (_queue tq))) + Z.of_nat (length mine) ∧
    tasks (_pendingFactors lp') = tasks (_pendingFactors lp) ++ tasks_of (_queue tq).
Proof.
  intros mine Hacc Hf Hq Hs. pose proof (do_accept_pool_spec conn_fn fds fuel w p Hacc Hf) as ([] & w1 & Hr & Hd)%wp_elim.
  pose proof (serving_dealt _ _ _ _ _ _ _ Hd Hs) as Hs1.
  assert (Hqs : ∃ tq', w_queues w1 !! t = Some tq' ∧ _queue tq' = _queue tq ++ (NEW_CONN <$> mine)).
  { destruct Hd as (k' & qs & p' & -> & _ & Hqs). by apply Hqs. }
  assert (Hsrv : _curr_conns (w_server w1) = _curr_conns (w_server w)) by by destruct Hd as (? & ? & ? & -> & _).
  destruct Hqs as (tq' & Htq' & Heq). rewrite <- Heq in Hs1.
  destruct (msg_comming_run w1 i t tq' lp Htq' Hs1) as (w2 & lp' & Hr2 & _ & Hlp & Hi & Hlive & _ & Hcnt & Htk).
  assert (Hconns : conns_of (_queue tq') = conns_of (_queue tq) ++ mine).
  { rewrite Heq. unfold conns_of at 1. rewrite omap_app. f_equal. apply conns_of_new. }
  rewrite Hconns in Hlive, Hcnt. exists w1, w2, lp'. split; [exact Hr|]. split_and!; try done.
  - intros fd Hfd. apply Hlive, elem_of_app. by right.
  - rewrite Hcnt, length_app, Hsrv. lia.
  - rewrite Htk, Heq. f_equal. unfold tasks_of at 1. rewrite omap_app. etrans; [|apply app_nil_r]. f_equal. apply tasks_of_new.
Qed.
End handoff.

(** ** A concrete thread *)

(** Loop 1 is that of a thread whose queue holds two connections and a task. *)
Definition worker_queue : thread_queue :=
  ThreadQueue 8 (Some 1%nat) [NEW_CONN 9; NEW_TASK (user_task 1) vnull; NEW_CONN 10] 3.
Definition worker_world : world Pipe.state (list delivery) :=
  World (Pipe.State 0 [] ∅ [] []) bare_pool {[1%nat := EventLoop 3 ∅ timer_queue_new 4 task_vector_new ∅]}
    {[0%nat := worker_queue]} (TcpServer 5 6 0 (Some (ThreadPool 1 1)) false 100 50 0 msg_dispatcher_new ∅ None None) ∅ [].

Lemma msg_comming_takes_over_witness :
  ∃ w' lp', msg_comming no_conn_cb 1 0 worker_world = Ok (tt, w') ∧
    live w' 1 lp' 9 ∧ live w' 1 lp' 10 ∧ _curr_conns (w_server w') = 2 ∧
    tasks (_pendingFactors lp') = [(user_task 1, vnull)].
Proof.
  destruct (msg_comming_takes_over no_conn_cb worker_world 1 0 worker_queue
    (EventLoop 3 ∅ timer_queue_new 4 task_vector_new ∅)) as (w' & lp' & Hr & _ & _ & _ & Hl & _ & Hc & Ht).
  - reflexivity.
  - assert (Hfds : ∀ fd, fd ∈ conns_of (_queue worker_queue) → fd = 9 ∨ fd = 10).
    { intros fd. simpl. rewrite !elem_of_cons. intros [?|[?|[]%not_elem_of_nil]]; auto. }
    split; try done.
    + apply (bool_decide_unpack _). vm_compute. done.
    + intros fd [-> | ->]%Hfds; simpl; lia.
  - exists w', lp'. split; [exact Hr|]. split; [apply Hl; by left|]. split; [apply Hl; by right; left|].
    split; [exact Hc|exact Ht].
Defined.

(** Two threads; three connections wait, of which the first thread gets two. *)
Definition dealing_world : world Pipe.state (list delivery) :=
  World (Pipe.State 0 [] ∅ (inr <$> [7; 8; 9]) []) bare_pool {[1%nat := EventLoop 3 ∅ timer_queue_new 4 task_vector_new ∅]}
    {[0%nat := new_queue 8; 1%nat := new_queue 9]}
    (TcpServer 5 6 0 (Some (ThreadPool 2 2)) false 100 50 0 msg_dispatcher_new ∅ None None) ∅ [].

Lemma accepted_reach_their_thread_witness :
  ∃ w1 w2 lp', do_accept no_conn_cb 10 dealing_world = Ok (tt, w1) ∧ msg_comming no_conn_cb 1 0 w1 = Ok (tt, w2) ∧
    live w2 1 lp' 7 ∧ live w2 1 lp' 9 ∧ _curr_conns (w_server w2) = 2.
Proof.
  destruct (accepted_reach_their_thread no_conn_cb dealing_world (ThreadPool 2 2) [7; 8; 9] 10 1 0 (new_queue 8)
    (EventLoop 3 ∅ timer_queue_new 4 task_vector_new ∅)) as (w1 & w2 & lp' & Hr1 & Hr2 & _ & _ & Hl & Hc & _).
  - split; try done; try (simpl; lia).
    + intros i Hi. simpl in Hi. assert (i = 0 ∨ i = 1) as [-> | ->] by lia; by eexists.
    + intros fd. rewrite !elem_of_cons, elem_of_nil. simpl. lia.
  - simpl. lia.
  - reflexivity.
  - assert (Hfds : ∀ fd, fd ∈ conns_of (_queue (new_queue 8) ++ (NEW_CONN <$> share 2 2 0 [7; 8; 9])) → fd = 7 ∨ fd = 9).
    { intros fd. vm_compute share. simpl. rewrite !elem_of_cons. intros [?|[?|[]%not_elem_of_nil]]; auto. }
    split; try done.
    + apply (bool_decide_unpack _). vm_compute. done.
    + intros fd [-> | ->]%Hfds; simpl; lia.
  - exists w1, w2, lp'. split; [exact Hr1|]. split; [exact Hr2|]. split; [apply Hl; by left|].
    split; [apply Hl; right; by left|exact Hc].
Defined.
