(* ===== verification/Udp.v ===== *)
(** * UDP servers and clients (src/udp_server.cc, src/udp_client.cc)

    Each datagram carries one message.  The two classes differ in the members
    they keep and in the address they send to; [Endpoint] is what their handlers
    have in common, with an instance for each class. *)
From S2P Require Import Prelude EventBase TimerQueue Kernel Wire EventLoop World.

(** ** State

    The [char] arrays are members of the object: they start with whatever is in
    memory. *)

Record udp_server := UdpServer {
  us_sockfd : Z;
  us_rbuf : list byte;
  us_wbuf : list byte;
  us_srcaddr : Z;                  (** the last sender; 0 for the zeroed address *)
  us_dispatcher : msg_dispatcher;
}.

Record udp_client := UdpClient {
  uc_sockfd : Z;
  uc_rbuf : list byte;
  uc_wbuf : list byte;
  uc_dispatcher : msg_dispatcher;
}.

Class Endpoint (E : Type) := {
  ep_sockfd : E → Z;
  ep_rbuf : E → list byte;
  ep_wbuf : E → list byte;
  ep_dispatcher : E → msg_dispatcher;
  (** what [recvfrom] leaves: the array, and the address of the sender *)
  ep_received : list byte → Z → E → E;
  ep_set_wbuf : list byte → E → E;
  (** the address given to [sendto] *)
  ep_dest : E → option Z;
  (** the last test on the header of a datagram of [pkg_len] bytes *)
  ep_wrong_size : commu_head → Z → bool;
}.

#[global] Instance udp_server_endpoint : Endpoint udp_server := {
  ep_sockfd := us_sockfd;
  ep_rbuf := us_rbuf;
  ep_wbuf := us_wbuf;
  ep_dispatcher := us_dispatcher;
  ep_received rbuf peer e := UdpServer (us_sockfd e) rbuf (us_wbuf e) peer (us_dispatcher e);
  ep_set_wbuf wbuf e := UdpServer (us_sockfd e) (us_rbuf e) wbuf (us_srcaddr e) (us_dispatcher e);
  ep_dest e := Some (us_srcaddr e);
  ep_wrong_size head pkg_len := negb (h_length head + COMMU_HEAD_LENGTH =? pkg_len);
}.

#[global] Instance udp_client_endpoint : Endpoint udp_client := {
  ep_sockfd := uc_sockfd;
  ep_rbuf := uc_rbuf;
  ep_wbuf := uc_wbuf;
  ep_dispatcher := uc_dispatcher;
  ep_received rbuf _ e := UdpClient (uc_sockfd e) rbuf (uc_wbuf e) (uc_dispatcher e);
  ep_set_wbuf wbuf e := UdpClient (uc_sockfd e) (uc_rbuf e) wbuf (uc_dispatcher e);
  ep_dest _ := None;
  ep_wrong_size head pkg_len := negb (h_length head =? pkg_len - COMMU_HEAD_LENGTH);
}.

(** Copying [bs] to offset [off] of an array: out of bounds is undefined. *)
Definition array_write (off : nat) (bs arr : list byte) : option (list byte) :=
  if (off + length bs <=? length arr)%nat
  then Some (take off arr ++ bs ++ drop (off + length bs) arr) else None.

(** ** Operations *)

Section udp.
Context {K U E : Type} `{Kernel K} `{Endpoint E}.

(** The process of a UDP program. *)
Record udp_world := UdpWorld {
u_kern : K;
u_loop : event_loop;
u_ep : E;
u_user : U;
}.

Definition u_kernel : lens udp_world K := Lens u_kern (λ k w, UdpWorld k (u_loop w) (u_ep w) (u_user w)).
Definition u_ev : lens udp_world (ev_st K) :=
Lens (λ w, EvSt (u_kern w) (u_loop w)) (λ s w, UdpWorld (ev_kern s) (ev_loop s) (u_ep w) (u_user w)).
Definition set_ep e w := UdpWorld (u_kern w) (u_loop w) e (u_user w).

Variable msg_fn : msg_callback → list byte → Z → Z → void_ptr → M udp_world unit.

(** [handle_read]'s [while (true)]. *)
Fixpoint udp_read_loop (fuel : nat) : M udp_world unit :=
  match fuel with
  | O => fail NoFuel
  | S fuel =>
      w ← get;
      let e := u_ep w in
      r ← zoom u_kernel (syscall (sys_recvfrom (ep_sockfd e) MSG_LENGTH_LIMIT));
      match r with
      | inl EINTR => udp_read_loop fuel
      | inl _ => mret tt
      | inr (bs, peer) =>
          rbuf ← from_option_or Undefined (array_write 0 bs (ep_rbuf e));
          modify (λ w, set_ep (ep_received rbuf peer (u_ep w)) w) ;;
          let pkg_len := Z.of_nat (length bs) in
          let head := head_of_bytes (take 8 rbuf) in
          if bad_length head || ep_wrong_size head pkg_len then udp_read_loop fuel
          else
            f ← callback_of (cmdid head) (ep_dispatcher e);
            msg_fn f.1 (take (Z.to_nat (h_length head)) (drop 8 rbuf)) (h_length head) (cmdid head) f.2 ;;
            udp_read_loop fuel
      end
  end.

Definition udp_handle_read (fuel : nat) : M udp_world unit := udp_read_loop fuel.

Definition udp_send_data (dat : list byte) (datlen cmdid : Z) : M udp_world Z :=
  if MSG_LENGTH_LIMIT <? datlen then mret (-1)
  else
    w ← get;
    let e := u_ep w in
    let head := CommuHead cmdid datlen in
    wbuf ← from_option_or Undefined (array_write 0 (head_bytes head) (ep_wbuf e));
    bs ← from_option_or Undefined
      (if (0 <=? datlen) && (datlen <=? Z.of_nat (length dat)) then Some (take (Z.to_nat datlen) dat) else None);
    wbuf ← from_option_or Undefined (array_write 8 bs wbuf);
    modify (set_ep (ep_set_wbuf wbuf e)) ;;
    ret ← zoom u_kernel (syscall (sys_sendto (ep_sockfd e)
      (take (Z.to_nat (datlen + COMMU_HEAD_LENGTH)) wbuf) (ep_dest e)));
    mret (match ret with inr n => n | inl _ => -1 end).

(** The destructors. *)
Definition udp_dtor : M udp_world unit :=
  w ← get;
  zoom u_ev (del_ioev (ep_sockfd (u_ep w))) ;;
  zoom u_kernel (modify (sys_close (ep_sockfd (u_ep w)))).
End udp.
Arguments udp_world K U E : clear implicits.

(** ** The classes *)

Section classes.
Context {K U : Type} `{Kernel K}.

(** [udp_server::udp_server]: [rbuf], [wbuf] are the arrays as found in memory;
    [ip_ok] says that [inet_aton] accepts the address. *)
Definition udp_server_ctor (ip_ok : bool) (rbuf wbuf : list byte) : M (udp_world K U udp_server) unit :=
  sock ← zoom u_kernel (syscall sys_socket);
  match sock with
  | inl _ => fail Exited
  | inr sockfd =>
      exit_if (negb ip_ok) ;;
      ret ← zoom u_kernel (syscall (sys_bind sockfd));
      exit_if (bool_decide (is_Some ret)) ;;
      modify (set_ep (UdpServer sockfd rbuf wbuf 0 msg_dispatcher_new)) ;;
      zoom u_ev (add_ioev sockfd udp_server_read_cb EPOLLIN v_udp_server)
  end.

Definition udp_client_ctor (ip_ok : bool) (rbuf wbuf : list byte) : M (udp_world K U udp_client) unit :=
  sock ← zoom u_kernel (syscall sys_socket);
  match sock with
  | inl _ => fail Exited
  | inr sockfd =>
      exit_if (negb ip_ok) ;;
      ret ← zoom u_kernel (syscall (sys_connect sockfd));
      exit_if (bool_decide (is_Some ret)) ;;
      modify (set_ep (UdpClient sockfd rbuf wbuf msg_dispatcher_new)) ;;
      zoom u_ev (add_ioev sockfd udp_client_read_cb EPOLLIN v_udp_client)
  end.

Definition udp_server_handle_read msg_fn fuel : M (udp_world K U udp_server) unit :=
  udp_handle_read msg_fn fuel.
Definition udp_client_handle_read msg_fn fuel : M (udp_world K U udp_client) unit :=
  udp_handle_read msg_fn fuel.
Definition udp_server_send_data dat datlen cmdid : M (udp_world K U udp_server) Z :=
  udp_send_data dat datlen cmdid.
Definition udp_client_send_data dat datlen cmdid : M (udp_world K U udp_client) Z :=
  udp_send_data dat datlen cmdid.
Definition udp_server_dtor : M (udp_world K U udp_server) unit := udp_dtor.
Definition udp_client_dtor : M (udp_world K U udp_client) unit := udp_dtor.
End classes.
