(* ===== verification/UdpProps.v ===== *)
(** * Correctness of the UDP endpoints

    The claims about src/udp_server.cc and src/udp_client.cc, proved once for
    both classes against the interface [Endpoint]. *)
From S2P Require Import Prelude EventBase TimerQueue Kernel Wire EventLoop World Udp.

(** What the theorems use of an endpoint; [reply peer] is the address messages
    are sent to after a datagram of [peer]. *)
Class EndpointLaws (E : Type) `{Endpoint E} := {
  reply : Z → option Z;
  received_rbuf rb p e : ep_rbuf (ep_received rb p e) = rb;
  received_sockfd rb p e : ep_sockfd (ep_received rb p e) = ep_sockfd e;
  received_dispatcher rb p e : ep_dispatcher (ep_received rb p e) = ep_dispatcher e;
  received_wbuf rb p e : ep_wbuf (ep_received rb p e) = ep_wbuf e;
  received_dest rb p e : ep_dest (ep_received rb p e) = reply p;
  set_wbuf_rbuf wb e : ep_rbuf (ep_set_wbuf wb e) = ep_rbuf e;
  set_wbuf_wbuf wb e : ep_wbuf (ep_set_wbuf wb e) = wb;
  set_wbuf_sockfd wb e : ep_sockfd (ep_set_wbuf wb e) = ep_sockfd e;
  set_wbuf_dispatcher wb e : ep_dispatcher (ep_set_wbuf wb e) = ep_dispatcher e;
  set_wbuf_dest wb e : ep_dest (ep_set_wbuf wb e) = ep_dest e;
  wrong_size h n : ep_wrong_size h n = negb (h_length h + COMMU_HEAD_LENGTH =? n);
}.

#[global] Instance udp_server_laws : EndpointLaws udp_server.
Proof. by refine {| reply := Some |}. Defined.

#[global] Instance udp_client_laws : EndpointLaws udp_client.
Proof.
  refine {| reply _ := None |}; try done. intros h n. simpl.
  unfold COMMU_HEAD_LENGTH. f_equal. destruct (Z.eqb_spec (h_length h) (n - 8)), (Z.eqb_spec (h_length h + 8) n); lia.
Defined.

(** ** What a datagram means *)

(** The message a datagram carries. *)
Definition datagram_message (bs : list byte) : option message :=
  let h := head_of_bytes (take 8 bs) in
  if bool_decide (8 ≤ length bs)%nat && negb (bad_length h) &&
     (h_length h + COMMU_HEAD_LENGTH =? Z.of_nat (length bs))
  then Some (cmdid h, drop 8 bs) else None.

(** The messages among the answers of [recvfrom], with their senders, up to the
    first error; [false] when one of them has an unknown command, and then only
    those before it. *)
Fixpoint udp_deliveries (known : Z → bool) (ib : list (errno + (list byte * Z)))
    : list (Z * message) * bool :=
  match ib with
  | [] => ([], true)
  | inl EINTR :: ib => udp_deliveries known ib
  | inl _ :: ib => ([], true)
  | inr (bs, peer) :: ib =>
      match datagram_message (take (Z.to_nat MSG_LENGTH_LIMIT) bs) with
      | None => udp_deliveries known ib
      | Some m =>
          if known m.1 then
            let '(ds, ok) := udp_deliveries known ib in ((peer, m) :: ds, ok)
          else ([], false)
      end
  end.

(** The datagrams that carry a message are the frames, each of one message. *)
Lemma datagram_message_frame bs m :
  datagram_message bs = Some m ↔
    is_int m.1 ∧ Z.of_nat (length m.2) ≤ MSG_LENGTH_LIMIT ∧ bs = frame m.
Proof.
  unfold datagram_message, bad_length, MSG_LENGTH_LIMIT, COMMU_HEAD_LENGTH. split.
  - destruct (bool_decide_reflect (8 ≤ length bs)%nat) as [H8|]; [|done].
    set (h := head_of_bytes (take 8 bs)).
    destruct (Z.ltb_spec (65536 - 8) (h_length h)), (Z.ltb_spec (h_length h) 0); try done.
    destruct (Z.eqb_spec (h_length h + 8) (Z.of_nat (length bs))) as [He|]; [|done].
    intros [= <-]. cbn [fst snd]. rewrite length_drop. split_and!; [apply int_of_bytes_range|lia|].
    assert (Hh : CommuHead (cmdid h) (Z.of_nat (length bs - 8)) = h).
    { destruct h as [c l]. cbn [cmdid h_length] in *. f_equal. lia. }
    unfold frame. cbn [fst snd]. rewrite length_drop.
    change (int_of_bytes (take 4 (take 8 bs))) with (cmdid h). rewrite Hh. unfold h.
    rewrite bytes_head_roundtrip by (rewrite length_take; lia). by rewrite take_drop.
  - intros (Hc & Hl & ->). unfold frame.
    rewrite (take_app_length' (head_bytes _)), (drop_app_length' (head_bytes _)), length_app, length_head_bytes by done.
    rewrite head_bytes_roundtrip; [|done|simpl; int_lia]. cbn [cmdid h_length].
    rewrite bool_decide_true by lia.
    destruct (Z.ltb_spec (65536 - 8) (Z.of_nat (length m.2))), (Z.ltb_spec (Z.of_nat (length m.2)) 0); try lia.
    rewrite (proj2 (Z.eqb_eq _ _)) by lia. by destruct m.
Qed.

Lemma array_write_ok off bs arr :
  (off + length bs ≤ length arr)%nat →
  array_write off bs arr = Some (take off arr ++ bs ++ drop (off + length bs) arr).
Proof. intros Hl. unfold array_write. by destruct (Nat.leb_spec (off + length bs) (length arr)); [|lia]. Qed.

Lemma array_write_0 bs arr :
  (length bs ≤ length arr)%nat → array_write 0 bs arr = Some (bs ++ drop (length bs) arr).
Proof. intros Hl. by rewrite array_write_ok. Qed.

Lemma array_write_out off bs arr :
  (length arr < off + length bs)%nat → array_write off bs arr = None.
Proof. intros Hl. unfold array_write. by destruct (Nat.leb_spec (off + length bs) (length arr)); [lia|]. Qed.

(** The header checks of [handle_read], on an array that starts with the
    datagram, find the message the datagram carries. *)
Lemma received_checks `{EndpointLaws E} bs rest :
  let rbuf := bs ++ rest in let h := head_of_bytes (take 8 rbuf) in
  (8 ≤ length rbuf)%nat →
  match datagram_message bs with
  | Some m => bad_length h || ep_wrong_size h (Z.of_nat (length bs)) = false ∧
      m = (cmdid h, take (Z.to_nat (h_length h)) (drop 8 rbuf)) ∧
      h_length h = Z.of_nat (length m.2)
  | None => bad_length h || ep_wrong_size h (Z.of_nat (length bs)) = true
  end.
Proof.
  intros rbuf h Hr. rewrite wrong_size. unfold datagram_message.
  destruct (bool_decide_reflect (8 ≤ length bs)%nat) as [H8|H8].
  - assert (Ht : take 8 bs = take 8 rbuf) by (unfold rbuf; by rewrite take_app_le).
    rewrite Ht. fold h. cbn [andb]. destruct (bad_length h) eqn:Hb; [done|].
    destruct (Z.eqb_spec (h_length h + COMMU_HEAD_LENGTH) (Z.of_nat (length bs))) as [He|]; [|done].
    cbn [andb negb orb snd]. unfold COMMU_HEAD_LENGTH in He. rewrite length_drop. split; [done|]. split; [|lia].
    f_equal. unfold rbuf. rewrite drop_app_le by done. rewrite take_app_le by (rewrite length_drop; lia).
    symmetry. apply take_ge. rewrite length_drop. lia.
  - cbn [andb]. unfold bad_length, COMMU_HEAD_LENGTH. destruct (Z.ltb_spec (h_length h) 0); [by rewrite orb_true_r|].
    rewrite (proj2 (Z.eqb_neq _ _)) by lia. by rewrite orb_true_r.
Qed.

(** ** Receiving *)

Section receiving.
Context {K U E : Type} `{DatagramLaws K} `{EndpointLaws E}.
Variable msg_fn : msg_callback → list byte → Z → Z → void_ptr → M (udp_world K U E) unit.
Abbreviation W := (udp_world K U E).
Implicit Types w : W.

(** The process after [recvfrom] left the system in [k] and, of a datagram of
    [peer], the array [rbuf]. *)
Definition polled (k : K) w : W := UdpWorld k (u_loop w) (u_ep w) (u_user w).
Definition arrived (k : K) (rbuf : list byte) (peer : Z) w : W :=
  set_ep (ep_received rbuf peer (u_ep w)) (polled k w).

Definition u_inbox w : list (errno + (list byte * Z)) := inbox (ep_sockfd (u_ep w)) (u_kern w).

(** The callback of a command and its argument. *)
Definition udp_registered w (cmd : Z) (f : msg_callback) (args : void_ptr) : Prop :=
  _dispatcher (ep_dispatcher (u_ep w)) !! cmd = Some f ∧ _args (ep_dispatcher (u_ep w)) !! cmd = Some args.

(** The contract of the user's callbacks: the one registered for a command, called
    with the argument registered for it, records each message in [log], with the
    address a reply would go to, leaves the socket, the dispatcher and the datagrams
    still to come alone, and keeps [Inv].  Of any other call nothing is known. *)
Record udp_observer (Inv : W → Prop) (log : W → list (option Z * message)) : Prop := {
  uo_polled w fd n r k : Inv w → sys_recvfrom fd n (u_kern w) = (r, k) →
    Inv (polled k w) ∧ log (polled k w) = log w;
  uo_arrived w rbuf peer : Inv w → let w' := arrived (u_kern w) rbuf peer w in
    Inv w' ∧ log w' = log w;
  uo_msg f args dat cmd w : Inv w → udp_registered w cmd f args →
    wp (msg_fn f dat (Z.of_nat (length dat)) cmd args) (λ _ w',
      Inv w' ∧ log w' = log w ++ [(ep_dest (u_ep w), (cmd, dat))] ∧
      u_inbox w' = u_inbox w ∧ ep_dispatcher (u_ep w') = ep_dispatcher (u_ep w) ∧
      length (ep_rbuf (u_ep w')) = length (ep_rbuf (u_ep w))) w;
}.

(** A finer contract: [Inv l] holds after the deliveries [l], and the callbacks
    need only keep it as long as these are [allowed]. *)
Record udp_serves (allowed : list (option Z * message) → Prop)
    (Inv : list (option Z * message) → W → Prop) : Prop := {
  us_prefix l l' : allowed (l ++ l') → allowed l;
  us_polled l w fd n r k : Inv l w → sys_recvfrom fd n (u_kern w) = (r, k) → Inv l (polled k w);
  us_arrived l w rbuf peer : Inv l w → Inv l (arrived (u_kern w) rbuf peer w);
  us_msg l f args dat cmd w :
    let m := (ep_dest (u_ep w), (cmd, dat)) in
    Inv l w → allowed (l ++ [m]) → udp_registered w cmd f args →
    wp (msg_fn f dat (Z.of_nat (length dat)) cmd args) (λ _ w',
      Inv (l ++ [m]) w' ∧
      u_inbox w' = u_inbox w ∧ ep_dispatcher (u_ep w') = ep_dispatcher (u_ep w) ∧
      length (ep_rbuf (u_ep w')) = length (ep_rbuf (u_ep w))) w;
}.

Definition udp_logged_inv (Inv : W → Prop) (log : W → list (option Z * message))
    (l : list (option Z * message)) w : Prop := Inv w ∧ log w = l.

Lemma udp_observer_serves Inv log :
  udp_observer Inv log → udp_serves (λ _, True) (udp_logged_inv Inv log).
Proof.
  intros [Hp Ha Hm]. split; [done|..].
  - intros l w fd n r k [HI <-] Hr. by apply (Hp w fd n r k).
  - intros l w rbuf peer [HI <-]. by apply Ha.
  - intros l f args dat cmd w m [HI <-] _ Hreg. eapply wp_mono; [by apply Hm|].
    intros [] w' (? & ? & ?). done.
Qed.

Definition udp_known w (cmd : Z) : bool := exist cmd (ep_dispatcher (u_ep w)).

(** An endpoint in working order. *)
Definition udp_ok w : Prop :=
  dispatcher_ok (ep_dispatcher (u_ep w)) ∧ Z.of_nat (length (ep_rbuf (u_ep w))) = MSG_LENGTH_LIMIT.

(** Delivery of the messages [ds], then a return or the failed assertion. *)
Definition delivered (Inv : W → Prop) (log : W → list (option Z * message))
    (m : M W unit) (known : Z → bool) (ib : list (errno + (list byte * Z))) w : Prop :=
  match udp_deliveries known ib with
  | (ds, true) => ∃ w', m w = Ok (tt, w') ∧ Inv w' ∧ log w' = log w ++ (prod_map reply id <$> ds)
  | (_, false) => m w = Fail AssertFailed
  end.

(** The deliveries, as the callbacks see them. *)
Definition deliveries (known : Z → bool) (ib : list (errno + (list byte * Z))) : list (option Z * message) :=
  prod_map reply id <$> (udp_deliveries known ib).1.

Section serving.
Variable allowed : list (option Z * message) → Prop.
Variable Inv : list (option Z * message) → W → Prop.
Hypothesis Hserves : udp_serves allowed Inv.

Definition served (l : list (option Z * message)) (m : M W unit) (known : Z → bool)
    (ib : list (errno + (list byte * Z))) w : Prop :=
  if (udp_deliveries known ib).2
  then ∃ w', m w = Ok (tt, w') ∧ Inv (l ++ deliveries known ib) w'
  else m w = Fail AssertFailed.

Lemma served_run l m m' known ib w w' :
  m w = m' w' → served l m' known ib w' → served l m known ib w.
Proof. intros Hm. unfold served. by rewrite Hm. Qed.

(** The array behind a datagram. *)
Definition received_into w (dg : list byte) : list byte := dg ++ drop (length dg) (ep_rbuf (u_ep w)).

(** [recvfrom] has returned [dg]: the process then, and what the loop does next. *)
Lemma read_loop_arrived fuel l w dg peer k :
  Inv l w → udp_ok w → (length dg ≤ length (ep_rbuf (u_ep w)))%nat →
  sys_recvfrom (ep_sockfd (u_ep w)) MSG_LENGTH_LIMIT (u_kern w) = (inr (dg, peer), k) →
  let rbuf := received_into w dg in
  let w1 := arrived k rbuf peer w in
  (Inv l w1 ∧ udp_ok w1 ∧ udp_known w1 = udp_known w ∧
   u_inbox w1 = inbox (ep_sockfd (u_ep w)) k) ∧
  udp_read_loop msg_fn (S fuel) w =
    (let head := head_of_bytes (take 8 rbuf) in
     if bad_length head || ep_wrong_size head (Z.of_nat (length dg)) then udp_read_loop msg_fn fuel
     else
       f ← callback_of (cmdid head) (ep_dispatcher (u_ep w));
       msg_fn f.1 (take (Z.to_nat (h_length head)) (drop 8 rbuf)) (h_length head) (cmdid head) f.2 ;;
       udp_read_loop msg_fn fuel) w1.
Proof.
  intros HI [Hd Hr] Hdg Hrecv rbuf w1. split.
  - pose proof (us_polled _ _ Hserves l w _ _ _ _ HI Hrecv) as HI1.
    split; [exact (us_arrived _ _ Hserves l _ rbuf peer HI1)|].
    unfold udp_ok, udp_known, u_inbox, w1. simpl.
    rewrite received_dispatcher, received_rbuf, received_sockfd.
    assert (length rbuf = length (ep_rbuf (u_ep w))) as ->; [|done].
    unfold rbuf, received_into. rewrite length_app, length_drop. lia.
  - cbn [udp_read_loop]. erewrite bind_ok by reflexivity. cbv beta zeta.
    erewrite bind_ok by (unfold zoom, syscall; simpl; by rewrite Hrecv). cbv beta iota.
    rewrite array_write_ok by done. cbn [take app].
    erewrite bind_ok by reflexivity. cbv beta. by erewrite bind_ok by reflexivity.
Qed.

(** The callback of a known command. *)
Lemma udp_callback_run l w k rbuf peer cmd dat :
  let w1 := arrived k rbuf peer w in let l' := l ++ [(reply peer, (cmd, dat))] in
  Inv l w1 → allowed l' → udp_ok w1 → udp_known w1 cmd = true →
  ∃ w2, (f ← callback_of cmd (ep_dispatcher (u_ep w1)); msg_fn f.1 dat (Z.of_nat (length dat)) cmd f.2) w1 =
      Ok (tt, w2) ∧ Inv l' w2 ∧ u_inbox w2 = u_inbox w1 ∧
    udp_known w2 = udp_known w1 ∧ udp_ok w2.
Proof.
  intros w1 l' HI1 Hal Hok1 Hkn.
  cut (wp (f ← callback_of cmd (ep_dispatcher (u_ep w1)); msg_fn f.1 dat (Z.of_nat (length dat)) cmd f.2)
    (λ _ w2, Inv l' w2 ∧ u_inbox w2 = u_inbox w1 ∧
      udp_known w2 = udp_known w1 ∧ udp_ok w2) w1).
  { intros ([] & w2 & ? & ?)%wp_elim. by exists w2. }
  wp_step. apply wp_callback_of; [apply Hok1|exact Hkn|]. intros f u Hf Hu. cbn [fst snd].
  assert (Hdest : ep_dest (u_ep w1) = reply peer) by (unfold w1; simpl; by rewrite received_dest).
  pose proof (us_msg _ _ Hserves l f u dat cmd w1) as Hmsg. cbv zeta in Hmsg. rewrite Hdest in Hmsg.
  eapply wp_mono; [exact (Hmsg HI1 Hal (conj Hf Hu))|]. intros [] w2 (HI2 & Hib2 & Hd2 & Hr2).
  unfold udp_known, udp_ok. rewrite Hib2, Hd2, Hr2. do 3 (split; [done|]). exact Hok1.
Qed.

(** The loop on a datagram. *)
Lemma read_loop_datagram fuel l w bs peer ib k :
  Inv l w → udp_ok w → allowed (l ++ deliveries (udp_known w) (inr (bs, peer) :: ib)) →
  sys_recvfrom (ep_sockfd (u_ep w)) MSG_LENGTH_LIMIT (u_kern w) =
    (inr (take (Z.to_nat MSG_LENGTH_LIMIT) bs, peer), k) →
  inbox (ep_sockfd (u_ep w)) k = ib →
  (∀ l' w', Inv l' w' → udp_ok w' → u_inbox w' = ib → udp_known w' = udp_known w →
     allowed (l' ++ deliveries (udp_known w) ib) →
     served l' (udp_read_loop msg_fn fuel) (udp_known w) ib w') →
  served l (udp_read_loop msg_fn (S fuel)) (udp_known w) (inr (bs, peer) :: ib) w.
Proof.
  intros HI Hok Hal Hrecv Hib IH. set (dg := take (Z.to_nat MSG_LENGTH_LIMIT) bs) in *.
  pose proof (proj2 Hok) as Hr.
  assert (Hdg : (length dg ≤ length (ep_rbuf (u_ep w)))%nat) by (unfold dg; rewrite length_take; lia).
  destruct (read_loop_arrived fuel l w dg peer k HI Hok Hdg Hrecv) as [(HI1 & Hok1 & Hk1 & Hib1) Hrun].
  pose proof (received_checks dg (drop (length dg) (ep_rbuf (u_ep w)))) as Hchk. cbv zeta in Hchk, Hrun.
  fold (received_into w dg) in Hchk. set (rbuf := received_into w dg) in *. set (w1 := arrived k rbuf peer w) in *.
  rewrite Hib in Hib1. unfold MSG_LENGTH_LIMIT, COMMU_HEAD_LENGTH in Hr.
  specialize (Hchk ltac:(unfold rbuf, received_into; rewrite ?length_app, ?length_drop; lia)).
  unfold served at 1. unfold deliveries in Hal |- *. cbn [udp_deliveries] in Hal |- *. fold dg in Hal |- *.
  destruct (datagram_message dg) as [[cmd dat]|] eqn:Hm.
  - destruct Hchk as (Hc & Heq & Hlen). rewrite Hc in Hrun.
    change ((cmd, dat).2) with dat in Hlen. change ((cmd, dat).1) with cmd in Hal |- *.
    set (head := head_of_bytes (take 8 rbuf)) in *. apply pair_equal_spec in Heq as [Hcmd Hdat].
    rewrite Hlen, <- Hcmd in Hrun. rewrite Hlen in Hdat. rewrite <- Hdat in Hrun.
    assert (Hdisp : ep_dispatcher (u_ep w1) = ep_dispatcher (u_ep w)) by apply received_dispatcher.
    destruct (udp_known w cmd) eqn:Hkn.
    + assert (Hal' : allowed ((l ++ [(reply peer, (cmd, dat))]) ++ deliveries (udp_known w) ib)).
      { unfold deliveries. destruct (udp_deliveries (udp_known w) ib) as [ds ok]. by rewrite <- app_assoc. }
      destruct (udp_callback_run l w k rbuf peer cmd dat HI1 (us_prefix _ _ Hserves _ _ Hal') Hok1)
        as (w2 & Hcb & HI2 & Hib2 & Hk2 & Hok2).
      { fold w1. by rewrite Hk1. }
      fold w1 in Hcb, Hib2, Hk2. rewrite Hdisp in Hcb. rewrite Hib1 in Hib2. rewrite Hk1 in Hk2.
      specialize (IH _ w2 HI2 Hok2 Hib2 Hk2 Hal'). unfold served, deliveries in IH.
      assert (Hgo : udp_read_loop msg_fn (S fuel) w = udp_read_loop msg_fn fuel w2).
      { rewrite Hrun. revert Hcb. unfold mbind, M_bind.
        destruct (callback_of _ _ _) as [[f w1']|]; [|done]. by intros ->. }
      destruct (udp_deliveries (udp_known w) ib) as [ds [|]]; cbn [fst snd] in *; rewrite Hgo; [|done].
      destruct IH as (w' & Hw' & HI'). exists w'. split; [done|]. by rewrite <- app_assoc in HI'.
    + rewrite Hrun. apply bind_fail. unfold callback_of. apply bind_fail.
      unfold udp_known in Hkn. by rewrite Hkn.
  - rewrite Hchk in Hrun. specialize (IH l w1 HI1 Hok1 Hib1 Hk1 Hal). unfold served in IH.
    rewrite Hrun. exact IH.
Qed.

(** [handle_read] with callbacks that keep the finer contract. *)
Lemma udp_serve_spec fuel : ∀ l w,
  Inv l w → udp_ok w → (length (u_inbox w) < fuel)%nat →
  allowed (l ++ deliveries (udp_known w) (u_inbox w)) →
  served l (udp_handle_read msg_fn fuel) (udp_known w) (u_inbox w) w.
Proof.
  unfold udp_handle_read. induction fuel as [|fuel IH]; intros l w HI Hok Hf Hal; [lia|].
  assert (Herr : ∀ e ib k, u_inbox w = inl e :: ib ∨ u_inbox w = [] ∧ e = EAGAIN ∧ ib = [] →
    sys_recvfrom (ep_sockfd (u_ep w)) MSG_LENGTH_LIMIT (u_kern w) = (inl e, k) →
    udp_read_loop msg_fn (S fuel) w =
      (match e with EINTR => udp_read_loop msg_fn fuel | _ => mret tt end) (polled k w)).
  { intros e ib k _ Hrecv. cbn [udp_read_loop]. erewrite bind_ok by reflexivity. cbv beta zeta.
    erewrite bind_ok by (unfold zoom, syscall; simpl; by rewrite Hrecv). by destruct e. }
  destruct (u_inbox w) as [|[e|[bs peer]] ib] eqn:Hib.
  - destruct (recv_empty _ MSG_LENGTH_LIMIT _ Hib) as (k & Hrecv & _).
    pose proof (us_polled _ _ Hserves l w _ _ _ _ HI Hrecv) as HI1.
    exists (polled k w). split; [by apply (Herr EAGAIN [] k); [right|]|]. by rewrite app_nil_r.
  - destruct (recv_error _ MSG_LENGTH_LIMIT _ _ _ Hib) as (k & Hrecv & Hib1).
    pose proof (us_polled _ _ Hserves l w _ _ _ _ HI Hrecv) as HI1.
    specialize (Herr e ib k (or_introl eq_refl) Hrecv).
    destruct e as [| | | |]; [|by exists (polled k w); rewrite app_nil_r..].
    eapply (served_run _ _ _ _ _ _ (polled k w)); [exact Herr|].
    assert (Hib1' : u_inbox (polled k w) = ib) by done.
    change (served l (udp_read_loop msg_fn fuel) (udp_known (polled k w)) ib (polled k w)).
    rewrite <- Hib1'. apply (IH l (polled k w)); [done|done| |by rewrite Hib1'].
    rewrite Hib1'. simpl in Hf. lia.
  - destruct (recv_datagram _ MSG_LENGTH_LIMIT _ _ _ _ Hib) as (k & Hrecv & Hib1).
    eapply read_loop_datagram; [done..|]. intros l' w' HI' Hok' Hib' Hk' Hal'.
    rewrite <- Hk', <- Hib'. apply IH; [done|done| |by rewrite Hk', Hib']. rewrite Hib'. simpl in Hf. lia.
Qed.
End serving.

Variable Inv : W → Prop.
Variable log : W → list (option Z * message).
Hypothesis Hobs : udp_observer Inv log.

(** C26 [handle_read] of a server or a client hands over the message of every
    well-formed datagram in the socket, in the order of arrival, each once and
    with exactly its payload, to the callback registered for its command, with the
    argument registered with it, and a reply sent from the callback goes to the
    sender of that datagram (the server) or to the connected peer (the client).
    Datagrams whose length field does not match their size, those shorter than a
    header included, are dropped; reading ends at the first error other than
    EINTR.  A datagram with an unknown command stops the process: unlike
    [tcp_conn], the UDP classes do not look the command up first, and the
    dispatcher asserts it. *)
Theorem udp_handle_read_delivers fuel w :
  Inv w → udp_ok w → (length (u_inbox w) < fuel)%nat →
  delivered Inv log (udp_handle_read msg_fn fuel) (udp_known w) (u_inbox w) w.
Proof.
  intros HI Hok Hf.
  pose proof (udp_serve_spec _ _ (udp_observer_serves _ _ Hobs) fuel (log w) w
    (conj HI eq_refl) Hok Hf I) as Hs.
  unfold served, deliveries in Hs. unfold delivered.
  destruct (udp_deliveries (udp_known w) (u_inbox w)) as [ds [|]]; [|done].
  destruct Hs as (w' & ? & ? & ?). by exists w'.
Qed.
End receiving.

(** ** Sending *)

Section sending.
Context {K U E : Type} `{Kernel K} `{EndpointLaws E}.
Implicit Types w : udp_world K U E.

(** What [sendto] returns as an [int]. *)
Definition sendto_result (r : errno + Z) : Z := match r with inr n => n | inl _ => -1 end.

(** A payload that fits behind the header. *)
Lemma udp_send_fits dat cmd w :
  Z.of_nat (length (ep_wbuf (u_ep w))) = MSG_LENGTH_LIMIT →
  Z.of_nat (length dat) ≤ MSG_LENGTH_LIMIT - COMMU_HEAD_LENGTH →
  udp_send_data dat (Z.of_nat (length dat)) cmd w =
    let '(r, k) := sys_sendto (ep_sockfd (u_ep w)) (frame (cmd, dat)) (ep_dest (u_ep w)) (u_kern w) in
    let wbuf := frame (cmd, dat) ++ drop (8 + length dat) (ep_wbuf (u_ep w)) in
    Ok (sendto_result r, polled k (set_ep (ep_set_wbuf wbuf (u_ep w)) w)).
Proof.
  set (n := Z.of_nat (length dat)). unfold MSG_LENGTH_LIMIT, COMMU_HEAD_LENGTH. intros Hl Hn.
  unfold udp_send_data, MSG_LENGTH_LIMIT, COMMU_HEAD_LENGTH. destruct (Z.ltb_spec (65536 - 8) n); [lia|].
  erewrite bind_ok by reflexivity. cbv beta zeta. set (hb := head_bytes (CommuHead cmd n)).
  assert (Hhb : length hb = 8%nat) by done.
  rewrite (array_write_0 hb), Hhb by lia. erewrite bind_ok by reflexivity. cbv beta.
  assert ((0 <=? n) && (n <=? Z.of_nat (length dat)) = true) as -> by (unfold n; lia).
  rewrite (take_ge dat) by (unfold n; lia). erewrite bind_ok by reflexivity. cbv beta.
  rewrite array_write_ok by (rewrite length_app, length_drop; unfold n in Hn; lia).
  erewrite bind_ok by reflexivity. cbv beta. erewrite bind_ok by reflexivity. cbv beta.
  rewrite (take_app_length' hb _ 8) by done.
  assert (drop (8 + length dat) (hb ++ drop 8 (ep_wbuf (u_ep w))) = drop (8 + length dat) (ep_wbuf (u_ep w))) as ->.
  { rewrite drop_app_ge, Hhb, drop_drop by lia. f_equal. lia. }
  rewrite app_assoc. change (hb ++ dat) with (frame (cmd, dat)).
  rewrite take_app_length' by (rewrite length_frame; simpl; unfold n; lia).
  unfold zoom, syscall, mbind, M_bind. simpl. by destruct (sys_sendto _ _ _ _).
Qed.

(** One that passes the check but does not fit behind the header. *)
Lemma udp_send_overflows dat cmd w :
  Z.of_nat (length (ep_wbuf (u_ep w))) = MSG_LENGTH_LIMIT →
  MSG_LENGTH_LIMIT - COMMU_HEAD_LENGTH < Z.of_nat (length dat) ≤ MSG_LENGTH_LIMIT →
  udp_send_data dat (Z.of_nat (length dat)) cmd w = Fail Undefined.
Proof.
  set (n := Z.of_nat (length dat)). unfold MSG_LENGTH_LIMIT, COMMU_HEAD_LENGTH. intros Hl Hn.
  unfold udp_send_data, MSG_LENGTH_LIMIT, COMMU_HEAD_LENGTH. destruct (Z.ltb_spec (65536 - 8) n); [lia|].
  erewrite bind_ok by reflexivity. cbv beta zeta. set (hb := head_bytes (CommuHead cmd n)).
  rewrite (array_write_0 hb) by (change (length hb) with 8%nat; lia).
  erewrite bind_ok by reflexivity. cbv beta.
  assert ((0 <=? n) && (n <=? Z.of_nat (length dat)) = true) as -> by (unfold n; lia).
  rewrite (take_ge dat) by (unfold n; lia). erewrite bind_ok by reflexivity. cbv beta.
  rewrite array_write_out; [by apply bind_fail|].
  rewrite length_app, length_drop. change (length hb) with 8%nat. unfold n in Hn. lia.
Qed.

(** C27 [send_data] sends one datagram, the frame of the message, to the current
    destination, and returns what [sendto] returns, for payloads of up to 65520
    bytes; longer ones than 65528 bytes are refused.  Between the two limits the
    check lets the payload pass but [_wbuf] has no room for the header as well,
    and the copy writes beyond the array. *)
Theorem udp_send_data_frames dat cmd w :
  Z.of_nat (length (ep_wbuf (u_ep w))) = MSG_LENGTH_LIMIT →
  let n := Z.of_nat (length dat) in
  udp_send_data dat n cmd w =
    if n <=? MSG_LENGTH_LIMIT - COMMU_HEAD_LENGTH then
      let '(r, k) := sys_sendto (ep_sockfd (u_ep w)) (frame (cmd, dat)) (ep_dest (u_ep w)) (u_kern w) in
      let wbuf := frame (cmd, dat) ++ drop (8 + length dat) (ep_wbuf (u_ep w)) in
      Ok (sendto_result r, polled k (set_ep (ep_set_wbuf wbuf (u_ep w)) w))
    else if n <=? MSG_LENGTH_LIMIT then Fail Undefined
    else Ok (-1, w).
Proof.
  intros Hl n. destruct (Z.leb_spec n (MSG_LENGTH_LIMIT - COMMU_HEAD_LENGTH)); [by apply udp_send_fits|].
  destruct (Z.leb_spec n MSG_LENGTH_LIMIT); [by apply udp_send_overflows|].
  unfold udp_send_data. by rewrite (proj2 (Z.ltb_lt _ _)) by done.
Qed.
End sending.

(** ** A concrete server: it echoes the payloads it can send *)

Definition echo_msg (_ : msg_callback) (dat : list byte) (len cmd : Z) (_ : void_ptr)
    : M (udp_world Mail.state (list (option Z * message)) udp_server) unit :=
  w ← get;
  put (UdpWorld (u_kern w) (u_loop w) (u_ep w) (u_user w ++ [(ep_dest (u_ep w), (cmd, dat))])) ;;
  if len <=? MSG_LENGTH_LIMIT - COMMU_HEAD_LENGTH
  then udp_server_send_data dat len cmd ;; mret tt else mret tt.

Definition echo_server (inbound : list (errno + (list byte * Z))) : udp_world Mail.state (list (option Z * message)) udp_server :=
  UdpWorld (Mail.State inbound []) (EventLoop 3 ∅ timer_queue_new 9 task_vector_new ∅)
    (UdpServer 4 (replicate (Z.to_nat MSG_LENGTH_LIMIT) x00) (replicate (Z.to_nat MSG_LENGTH_LIMIT) x00) 0
      (add_msg_cb 1 (user_msg_cb 0) vnull msg_dispatcher_new).2) [].

Definition echo_inv {K U} (w : udp_world K U udp_server) : Prop :=
  Z.of_nat (length (us_wbuf (u_ep w))) = MSG_LENGTH_LIMIT.

Lemma echo_observer : udp_observer echo_msg echo_inv u_user.
Proof.
  split; [done|done|].
  intros f args dat cmd w HI _. unfold echo_msg. wp_step. wp_step. wp_step. wp_step.
  set (w1 := UdpWorld _ _ _ _).
  destruct (Z.leb_spec (Z.of_nat (length dat)) (MSG_LENGTH_LIMIT - COMMU_HEAD_LENGTH)) as [Hn|Hn];
    [|wp_step; by split_and!].
  wp_step. unfold wp at 1, udp_server_send_data.
  rewrite (udp_send_fits dat cmd w1); [|exact HI|exact Hn]. cbv zeta. cbn -[frame drop]. unfold echo_inv in *. cbn -[frame drop].
  split; [|by split_and!].
  unfold MSG_LENGTH_LIMIT, COMMU_HEAD_LENGTH in *. rewrite length_app, length_frame, length_drop. cbn [snd].
  unfold message in *. simpl in HI. lia.
Qed.

Lemma echo_server_ok ib : echo_inv (echo_server ib) ∧ udp_ok (echo_server ib).
Proof.
  unfold echo_inv, udp_ok, echo_server. cbn [u_ep us_wbuf ep_rbuf ep_dispatcher udp_server_endpoint us_rbuf us_dispatcher].
  rewrite !length_replicate. split; [by rewrite Z2Nat.id|]. split; [|by rewrite Z2Nat.id].
  by apply add_msg_cb_ok.
Qed.

Lemma echo_server_inbox ib : u_inbox (echo_server ib) = ib.
Proof. done. Qed.

Lemma udp_handle_read_delivers_witness :
  let hi := [x68; x69]%byte in
  (∃ w', udp_server_handle_read echo_msg 9
    (echo_server [inr (frame (1, hi), 77); inl EINTR; inr ([x01], 5); inr (frame (1, []), 78)]) = Ok (tt, w') ∧
    u_user w' = [(Some 77, (1, hi)); (Some 78, (1, []))]) ∧
  udp_server_handle_read echo_msg 9 (echo_server [inr (frame (2, hi), 77)]) = Fail AssertFailed.
Proof.
  assert (Hrun : ∀ ib ds ok, (length ib < 9)%nat →
    udp_deliveries (λ cmd, exist cmd (us_dispatcher (u_ep (echo_server [])))) ib = (ds, ok) →
    if ok then ∃ w', udp_server_handle_read echo_msg 9 (echo_server ib) = Ok (tt, w') ∧
      u_user w' = prod_map Some id <$> ds
    else udp_server_handle_read echo_msg 9 (echo_server ib) = Fail AssertFailed).
  { intros ib ds ok Hl Hds. destruct (echo_server_ok ib) as [HI Hok].
    pose proof (udp_handle_read_delivers echo_msg echo_inv u_user echo_observer 9 (echo_server ib) HI Hok) as Hd.
    rewrite echo_server_inbox in Hd. specialize (Hd Hl). unfold delivered in Hd.
    change (udp_known (echo_server ib)) with
      (λ cmd, exist cmd (us_dispatcher (u_ep (echo_server [])))) in Hd.
    rewrite Hds in Hd. destruct ok; [|exact Hd]. destruct Hd as (w' & Hr & _ & Hlog). exists w'. split; [exact Hr|exact Hlog]. }
  intros hi. split.
  - refine (Hrun [inr (frame (1, hi), 77); inl EINTR; inr ([x01], 5); inr (frame (1, []), 78)]
      [(77, (1, hi)); (78, (1, []))] true _ _); [cbn [length]; lia|vm_compute; reflexivity].
  - refine (Hrun [inr (frame (2, hi), 77)] [] false _ _); [cbn [length]; lia|vm_compute; reflexivity].
Defined.

Lemma udp_send_data_frames_witness :
  Z.of_nat (length (us_wbuf (u_ep (echo_server [])))) = MSG_LENGTH_LIMIT ∧
  ∃ w', udp_send_data [x68; x69]%byte 2 1 (echo_server []) = Ok (10, w') ∧
    Mail.posted (u_kern w') = [(frame (1, [x68; x69]%byte), Some 0)].
Proof.
  pose proof (proj1 (echo_server_ok [])) as Hl. unfold echo_inv in Hl. split; [exact Hl|].
  pose proof (udp_send_data_frames [x68; x69]%byte 1 (echo_server []) Hl) as Hs. cbv zeta in Hs.
  eexists. split; [exact Hs|reflexivity].
Defined.
