(* ===== verification/TcpClient.v ===== *)
(** * The TCP client (include/tcp_client.h, src/tcp_client.cc)

    Connecting and reconnecting, sending, and receiving.  Unlike a server
    connection the client has its two [io_buffer] objects as members; they are
    the objects [ibuf_obj] and [obuf_obj] of the store. *)
From S2P Require Import Prelude EventBase TimerQueue Kernel IoBuffer Wire EventLoop World.

Definition ibuf_obj : ptr := 1%positive.
Definition obuf_obj : ptr := 2%positive.

(** The name of an [onconn_func*] or an [oncls_func*]. *)
Inductive client_callback := user_client_cb (name : Z).

Record tcp_client := TcpClient {
  net_ok : bool;
  cl_sockfd : Z;
  cl_dispatcher : msg_dispatcher;
  _onconnection : option client_callback;
  _onconn_args : void_ptr;
  _onclose : option client_callback;
  _onclose_args : void_ptr;
}.

Definition set_net_ok b c :=
  TcpClient b (cl_sockfd c) (cl_dispatcher c) (_onconnection c) (_onconn_args c) (_onclose c) (_onclose_args c).
Definition set_cl_sockfd fd c :=
  TcpClient (net_ok c) fd (cl_dispatcher c) (_onconnection c) (_onconn_args c) (_onclose c) (_onclose_args c).
Definition onConnection func args c :=
  TcpClient (net_ok c) (cl_sockfd c) (cl_dispatcher c) (Some func) args (_onclose c) (_onclose_args c).
Definition onClose func args c :=
  TcpClient (net_ok c) (cl_sockfd c) (cl_dispatcher c) (_onconnection c) (_onconn_args c) (Some func) args.

Section tcp_client.
Context {K U : Type} `{Kernel K}.

(** The process of a client; of [cl_bufs] only the store is used. *)
Record cl_world := ClWorld {
cl_kern : K;
cl_bufs : buffer_pool;
cl_loop : event_loop;
cl : tcp_client;
cl_user : U;
}.

Definition set_cl_kern k w := ClWorld k (cl_bufs w) (cl_loop w) (cl w) (cl_user w).
Definition set_cl_bufs b w := ClWorld (cl_kern w) b (cl_loop w) (cl w) (cl_user w).
Definition set_cl c w := ClWorld (cl_kern w) (cl_bufs w) (cl_loop w) c (cl_user w).

Definition cl_kernel : lens cl_world K := Lens cl_kern set_cl_kern.
Definition cl_store : lens cl_world buffer_pool := Lens cl_bufs set_cl_bufs.
Definition cl_ev : lens cl_world (ev_st K) :=
Lens (λ w, EvSt (cl_kern w) (cl_loop w))
     (λ s w, ClWorld (ev_kern s) (cl_bufs w) (ev_loop s) (cl w) (cl_user w)).

Abbreviation W := cl_world.
Variable msg_fn : msg_callback → list byte → Z → Z → void_ptr → M W unit.
Variable client_fn : client_callback → void_ptr → M W unit.

Definition modify_cl (f : tcp_client → tcp_client) : M W unit := modify (λ w, set_cl (f (cl w)) w).

Definition call_onconnect : M W unit :=
  w ← get;
  match _onconnection (cl w) with Some f => client_fn f (_onconn_args (cl w)) | None => mret tt end.
Definition call_onclose : M W unit :=
  w ← get;
  match _onclose (cl w) with Some f => client_fn f (_onclose_args (cl w)) | None => mret tt end.

(** ** Connecting *)

Definition do_connect : M W unit :=
  w ← get;
  when (bool_decide (cl_sockfd (cl w) ≠ -1)) (zoom cl_kernel (modify (sys_close (cl_sockfd (cl w))))) ;;
  sock ← zoom cl_kernel (syscall sys_socket);
  match sock with
  | inl _ => fail Exited
  | inr fd =>
      modify_cl (set_cl_sockfd fd) ;;
      ret ← zoom cl_kernel (syscall (sys_connect fd));
      match ret with
      | None => modify_cl (set_net_ok true) ;; call_onconnect
      | Some EINPROGRESS => zoom cl_ev (add_ioev fd connection_cb EPOLLOUT v_tcp_client)
      | Some _ => fail Exited
      end
  end.

(** [connection_cb]: the pending connection is established or has failed. *)
Definition connection_cb_body (fd : Z) : M W unit :=
  zoom cl_ev (del_ioev fd) ;;
  result ← zoom cl_kernel (syscall (sys_getsockopt_error fd));
  if result =? 0 then
    modify_cl (set_net_ok true) ;;
    call_onconnect ;;
    zoom cl_ev (add_ioev fd client_read_cb EPOLLIN v_tcp_client) ;;
    o ← zoom cl_store (buf_at obuf_obj);
    when (bool_decide (b_length o ≠ 0)) (zoom cl_ev (add_ioev fd client_write_cb EPOLLOUT v_tcp_client))
  else
    zoom cl_ev (run_after reconn_cb v_tcp_client 2 0) ;; mret tt.

Definition cl_clean_conn : M W unit :=
  w ← get;
  when (bool_decide (cl_sockfd (cl w) ≠ -1)) (
    zoom cl_ev (del_ioev (cl_sockfd (cl w))) ;;
    zoom cl_kernel (modify (sys_close (cl_sockfd (cl w))))) ;;
  modify_cl (set_net_ok false) ;;
  call_onclose ;;
  do_connect.

(** [tcp_client::tcp_client]; [ip_ok]: [inet_aton] accepts the address. *)
Definition tcp_client_ctor (ip_ok : bool) : M W unit :=
  zoom cl_store (modify (λ bp, set_store
    (<[ibuf_obj := io_buffer_new 4194304]> (<[obuf_obj := io_buffer_new 4194304]> (store bp))) bp)) ;;
  modify (set_cl (TcpClient false (-1) msg_dispatcher_new None vnull None vnull)) ;;
  exit_if (negb ip_ok) ;;
  do_connect.

Definition tcp_client_dtor : M W unit :=
  w ← get; zoom cl_kernel (modify (sys_close (cl_sockfd (cl w)))).

(** ** Sending *)

Definition cl_send_data (dat : list byte) (datlen cmdid : Z) : M W Z :=
  w ← get;
  if negb (net_ok (cl w)) then mret (-1) else
  o ← zoom cl_store (buf_at obuf_obj);
  let need := bool_decide (b_length o = 0) in
  total ← cint (datlen + COMMU_HEAD_LENGTH);
  room ← cint (capacity o - b_length o);
  if room <? total then mret (-1) else
  zoom cl_store (append obuf_obj (head_bytes (CommuHead cmdid datlen))) ;;
  bs ← from_option_or Undefined (take_bytes dat datlen);
  zoom cl_store (append obuf_obj bs) ;;
  when need (zoom cl_ev (add_ioev (cl_sockfd (cl w)) client_write_cb EPOLLOUT v_tcp_client)) ;;
  mret 0.

(** The loop of [handle_write]; [false]: the connection was lost. *)
Fixpoint cl_write_loop (fuel retries : nat) : M W bool :=
  match fuel with
  | O => fail NoFuel
  | S fuel =>
      o ← zoom cl_store (buf_at obuf_obj);
      if bool_decide (b_length o ≠ 0) then
        w ← get;
        bs ← from_option_or Undefined (data_read 0 (b_length o) o);
        ret ← zoom cl_kernel (retry retries (sys_write (cl_sockfd (cl w)) bs));
        match ret with
        | inr n =>
            if 0 <? n then
              zoom cl_store (io_pop obuf_obj n) ;;
              zoom cl_store (io_adjust obuf_obj) ;;
              cl_write_loop fuel retries
            else mret true
        | inl EAGAIN => mret true
        | inl _ => cl_clean_conn ;; mret false
        end
      else mret true
  end.

Definition cl_handle_write (fuel retries : nat) : M W Z :=
  o ← zoom cl_store (buf_at obuf_obj);
  cassert (bool_decide (head o = 0) && bool_decide (b_length o ≠ 0)) ;;
  open ← cl_write_loop fuel retries;
  if (open : bool) then
    o ← zoom cl_store (buf_at obuf_obj);
    w ← get;
    when (bool_decide (b_length o = 0)) (zoom cl_ev (del_ioev_mask (cl_sockfd (cl w)) EPOLLOUT)) ;;
    mret 0
  else mret (-1).

(** ** Receiving *)

(** The loop of [handle_read]; [false]: the connection was closed.  The callback
    is given [length] bytes at [ibuf.data + ibuf.head]: passing on a range that
    was never written, or that leaves the array, is undefined, for callbacks
    that look at their message. *)
Fixpoint cl_read_loop (fuel : nat) : M W bool :=
  match fuel with
  | O => fail NoFuel
  | S fuel =>
      b ← zoom cl_store (buf_at ibuf_obj);
      if COMMU_HEAD_LENGTH <=? b_length b then
        hb ← from_option_or Undefined (data_read (head b) COMMU_HEAD_LENGTH b);
        let hd := head_of_bytes hb in
        total ← cint (h_length hd + COMMU_HEAD_LENGTH);
        if total <? b_length b then mret true
        else
          zoom cl_store (io_pop ibuf_obj COMMU_HEAD_LENGTH) ;;
          w ← get;
          if negb (exist (cmdid hd) (cl_dispatcher (cl w))) then cl_clean_conn ;; mret false
          else
            b ← zoom cl_store (buf_at ibuf_obj);
            dat ← from_option_or Undefined (data_read (head b) (h_length hd) b);
            f ← callback_of (cmdid hd) (cl_dispatcher (cl w));
            msg_fn f.1 dat (h_length hd) (cmdid hd) f.2 ;;
            zoom cl_store (io_pop ibuf_obj (h_length hd)) ;;
            cl_read_loop fuel
      else mret true
  end.

Definition cl_handle_read (fuel retries : nat) : M W Z :=
  w ← get;
  cassert (net_ok (cl w)) ;;
  rn ← zoom cl_kernel (syscall (sys_fionread (cl_sockfd (cl w))));
  match rn with
  | inl _ => mret (-1)
  | inr rn =>
      b ← zoom cl_store (buf_at ibuf_obj);
      room ← cint (capacity b - b_length b);
      cassert (rn <=? room) ;;
      ret ← zoom cl_kernel (retry retries (sys_read (cl_sockfd (cl w)) rn));
      match ret with
      | inr [] => cl_clean_conn ;; mret (-1)
      | inl e => cassert (bool_decide (e ≠ EAGAIN)) ;; cl_clean_conn ;; mret (-1)
      | inr bs =>
          cassert (Z.of_nat (length bs) =? rn) ;;
          zoom cl_store (append ibuf_obj bs) ;;
          open ← cl_read_loop fuel;
          if (open : bool) then zoom cl_store (io_adjust ibuf_obj) ;; mret 0
          else mret (-1)
      end
  end.
End tcp_client.
Arguments cl_world K U : clear implicits.
