(* ===== verification/TcpClientSpec.v ===== *)
(** * The operations of the TCP client, specified on buffer contents

    Lemmas about src/tcp_client.cc: what [handle_read] decides on the bytes it
    has, sending and writing on the contents of the outgoing buffer, and the
    steps of connecting. *)
From S2P Require Import Prelude EventBase TimerQueue TimerQueueSpec Kernel IoBuffer BufferPool TcpBuffer.
From S2P Require Import Wire EventLoop EventLoopProps World TcpClient.

(** ** The buffers of the client *)

Definition put_obj (p : ptr) (b : io_buffer) (bp : buffer_pool) : buffer_pool :=
  set_store (<[p := b]> (store bp)) bp.

(** The object [p] holds [bs], at the start of its 4 MB array. *)
Definition holds (p : ptr) (bs : list byte) (bp : buffer_pool) : Prop :=
  ∃ b, store bp !! p = Some b ∧ contents b bs ∧ head b = 0 ∧ capacity b = u4M.

Lemma holds_put p b bs bp :
  contents b bs → head b = 0 → capacity b = u4M → holds p bs (put_obj p b bp).
Proof. intros. exists b. split; [|done]. simpl. by rewrite lookup_insert_eq. Qed.

Lemma holds_put_ne p q b bs bp : p ≠ q → holds p bs bp → holds p bs (put_obj q b bp).
Proof. intros Hne (b' & ? & ?). exists b'. split; [|done]. simpl. by rewrite lookup_insert_ne. Qed.

Lemma holds_ext p bs bp bp' : store bp' !! p = store bp !! p → holds p bs bp → holds p bs bp'.
Proof. unfold holds. by intros ->. Qed.

Lemma holds_unique p bs bs' bp : holds p bs bp → holds p bs' bp → bs = bs'.
Proof. intros (b & ? & [_ ?] & _) (b' & ? & [_ ?] & _). congruence. Qed.

Lemma wp_append p b bs ys bp (Q : unit → buffer_pool → Prop) :
  store bp !! p = Some b → contents b bs → head b = 0 → capacity b = u4M →
  Z.of_nat (length bs) + Z.of_nat (length ys) ≤ u4M →
  (∀ b', contents b' (bs ++ ys) → head b' = 0 → capacity b' = u4M → Q tt (put_obj p b' bp)) →
  wp (append p ys) Q bp.
Proof.
  intros Hb Hc Hh Hcap Hroom HQ. pose proof (proj1 Hc) as Hl. unfold u4M in *. unfold append.
  wp_step. eapply wp_buf_at; [done|].
  wp_step. eapply wp_from_option; [apply data_write_Some; lia|].
  wp_step. apply wp_cint; [int_lia|]. apply wp_buf_put, HQ; [|done..].
  change (head (set_data (map_seqZ (b_length b) ys ∪ data b) b)) with (head b). rewrite Hh.
  apply contents_append; [done..|lia|lia].
Qed.

(** ** Receiving *)

(** What [handle_read] does with the bytes [xs] in its buffer. *)
Inductive cl_verdict := ClWait | ClUnknown | ClGarbage | ClDeliver (m : message).

Definition cl_decide (known : Z → bool) (xs : list byte) : cl_verdict :=
  let n := Z.of_nat (length xs) in
  if n <? COMMU_HEAD_LENGTH then ClWait
  else
    let h := head_of_bytes (take 8 xs) in
    if INT_MAX <? h_length h + COMMU_HEAD_LENGTH then ClGarbage
    else if h_length h + COMMU_HEAD_LENGTH <? n then ClWait
    else if negb (known (cmdid h)) then ClUnknown
    else if n <? h_length h + COMMU_HEAD_LENGTH then ClGarbage
    else ClDeliver (cmdid h, drop 8 xs).

Section receiving.
Context {K U : Type} `{Kernel K}.
Variable msg_fn : msg_callback → list byte → Z → Z → void_ptr → M (cl_world K U) unit.
Variable client_fn : client_callback → void_ptr → M (cl_world K U) unit.
Abbreviation W := (cl_world K U).
Implicit Types w : W.

Definition put_ibuf (b : io_buffer) w : W := set_cl_bufs (put_obj ibuf_obj b (cl_bufs w)) w.

(** The contract of the user's callbacks: the one registered for a command, called
    with the argument registered for it, records the message in [log] and leaves the
    input buffer alone; [Inv] depends on neither that buffer nor what
    reading does to the system. *)
Record cl_observer (Inv : W → Prop) (log : W → list message) : Prop := {
  co_ibuf w b : Inv w → Inv (put_ibuf b w) ∧ log (put_ibuf b w) = log w;
  co_read w retries fd ys k : Inv w → delivers retries fd ys (cl_kern w) k →
    Inv (set_cl_kern k w) ∧ log (set_cl_kern k w) = log w;
  co_msg f args dat cmd w : Inv w →
    _dispatcher (cl_dispatcher (cl w)) !! cmd = Some f → _args (cl_dispatcher (cl w)) !! cmd = Some args →
    wp (msg_fn f dat (Z.of_nat (length dat)) cmd args) (λ _ w',
      Inv w' ∧ log w' = log w ++ [(cmd, dat)] ∧
      store (cl_bufs w') !! ibuf_obj = store (cl_bufs w) !! ibuf_obj) w;
}.

Definition cl_known w (cmd : Z) : bool := exist cmd (cl_dispatcher (cl w)).

Variable Inv : W → Prop.
Variable log : W → list message.
Hypothesis Hobs : cl_observer Inv log.

(** A connected client whose buffer holds [bs]; the kernel delivers [ys]. *)
Record cl_readable w (bs ys : list byte) (retries : nat) : Prop := {
  cr_inv : Inv w;
  cr_ok : net_ok (cl w) = true;
  cr_dispatcher : dispatcher_ok (cl_dispatcher (cl w));
  cr_ibuf : holds ibuf_obj bs (cl_bufs w);
  cr_some : ys ≠ [];
  cr_room : Z.of_nat (length bs) + Z.of_nat (length ys) ≤ u4M;
  cr_data : ∃ k, delivers retries (cl_sockfd (cl w)) ys (cl_kern w) k;
}.

(** The rest of [handle_read], from its loop on. *)
Definition cl_read_rest (fuel : nat) : M W Z :=
  open ← cl_read_loop msg_fn client_fn fuel;
  if (open : bool) then zoom cl_store (io_adjust ibuf_obj) ;; mret 0 else mret (-1).

Lemma cl_handle_read_start w bs ys retries fuel :
  cl_readable w bs ys retries →
  ∃ w1, Inv w1 ∧ log w1 = log w ∧ cl w1 = cl w ∧ holds ibuf_obj (bs ++ ys) (cl_bufs w1) ∧
    cl_handle_read msg_fn client_fn fuel retries w = cl_read_rest fuel w1.
Proof.
  intros [HI Hok _ (b & Hb & Hc & Hh & Hcap) Hys Hroom [k Hdel]].
  destruct (co_read _ _ Hobs w _ _ _ _ HI Hdel) as [HI1 Hl1].
  destruct Hdel as (j & k1 & k2 & Hn & Hint & Hj & Hrd).
  pose proof (retry_spec _ _ _ _ _ _ retries Hint Hrd ltac:(done) Hj) as Hretry.
  pose proof (proj1 Hc) as Hlen. pose proof (conj Hroom Hcap) as Hcap'. unfold u4M in Hcap'.
  assert (Happ : wp (append ibuf_obj ys) (λ _ bp, ∃ b', bp = put_obj ibuf_obj b' (cl_bufs w) ∧
    contents b' (bs ++ ys) ∧ head b' = 0 ∧ capacity b' = u4M) (cl_bufs w)).
  { eapply wp_append; [done..|]. intros b' ???. by exists b'. }
  apply wp_elim in Happ as ([] & bp & Happ & b' & -> & Hc' & Hh' & Hcap1).
  set (w1 := set_cl_kern k w) in *.
  destruct (co_ibuf _ _ Hobs w1 b' HI1) as [HI2 Hl2]. exists (put_ibuf b' w1).
  split; [done|]. split; [by rewrite Hl2|]. split; [done|]. split; [by apply holds_put|].
  unfold cl_handle_read. erewrite bind_ok by reflexivity. rewrite Hok.
  erewrite bind_ok by reflexivity.
  erewrite bind_ok by (unfold zoom, syscall; simpl; by rewrite Hn). cbv beta iota.
  erewrite bind_ok by (apply wp_returns, wp_zoom; by eapply wp_buf_at). cbv beta.
  erewrite bind_ok by (apply cint_in; int_lia). cbv beta.
  rewrite (proj2 (Z.leb_le _ _)) by lia. erewrite bind_ok by reflexivity.
  erewrite bind_ok by (unfold zoom; simpl; by rewrite Hretry). cbv beta iota.
  destruct ys as [|y ys]; [done|]. rewrite Z.eqb_refl. erewrite bind_ok by reflexivity.
  by erewrite bind_ok by (unfold zoom; simpl; by rewrite Happ).
Qed.

Lemma cl_buf_run w p b : store (cl_bufs w) !! p = Some b →
  zoom cl_store (buf_at p) w = Ok (b, w).
Proof. intros Hb. apply wp_returns, wp_zoom. eapply wp_buf_at; [done|]. by destruct w. Qed.

(** Fewer bytes than a header. *)
Lemma cl_loop_short fuel w b :
  store (cl_bufs w) !! ibuf_obj = Some b → b_length b < COMMU_HEAD_LENGTH →
  cl_read_loop msg_fn client_fn (S fuel) w = Ok (true, w).
Proof.
  intros Hb Hl. cbn [cl_read_loop]. erewrite bind_ok by by apply cl_buf_run. cbv beta.
  by rewrite (proj2 (Z.leb_gt _ _)).
Qed.

(** Nothing to move. *)
Lemma cl_adjust_none w xs : holds ibuf_obj xs (cl_bufs w) → zoom cl_store (io_adjust ibuf_obj) w = Ok (tt, w).
Proof.
  intros (b & Hb & Hc & Hh & _). unfold zoom, io_adjust.
  erewrite bind_ok by (apply wp_returns; by eapply wp_buf_at). rewrite Hh. by destruct w.
Qed.

(** Moving the contents to the start. *)
Lemma cl_adjust_run w b xs :
  Inv w → store (cl_bufs w) !! ibuf_obj = Some b → contents b xs → capacity b = u4M →
  ∃ w', zoom cl_store (io_adjust ibuf_obj) w = Ok (tt, w') ∧ Inv w' ∧ log w' = log w ∧
    holds ibuf_obj xs (cl_bufs w').
Proof.
  intros HI Hb Hc Hcap.
  cut (wp (zoom cl_store (io_adjust ibuf_obj)) (λ _ w', Inv w' ∧ log w' = log w ∧ holds ibuf_obj xs (cl_bufs w')) w).
  { intros ([] & w' & ? & ?)%wp_elim. by exists w'. }
  apply wp_zoom. eapply wp_io_adjust; [done..| |].
  - intros Hh. replace (update cl_store (view cl_store w) w) with w by by destruct w.
    split; [done|]. split; [done|]. by exists b.
  - intros b' Hc' Hh' Hcap'. destruct (co_ibuf _ _ Hobs w b' HI) as [HI' Hl'].
    split; [done|]. split; [done|]. apply holds_put; [done..|by rewrite Hcap'].
Qed.

(** The part of the loop behind the test for a sub-package. *)
Definition cl_take (fuel : nat) (h : commu_head) : M W bool :=
  zoom cl_store (io_pop ibuf_obj COMMU_HEAD_LENGTH) ;;
  w ← get;
  if negb (exist (cmdid h) (cl_dispatcher (cl w))) then cl_clean_conn client_fn ;; mret false
  else
    b ← zoom cl_store (buf_at ibuf_obj);
    dat ← from_option_or Undefined (data_read (head b) (h_length h) b);
    f ← callback_of (cmdid h) (cl_dispatcher (cl w));
    msg_fn f.1 dat (h_length h) (cmdid h) f.2 ;;
    zoom cl_store (io_pop ibuf_obj (h_length h)) ;;
    cl_read_loop msg_fn client_fn fuel.

Lemma cl_loop_front fuel w xs :
  holds ibuf_obj xs (cl_bufs w) → (8 ≤ length xs)%nat →
  cl_read_loop msg_fn client_fn (S fuel) w =
    (let h := head_of_bytes (take 8 xs) in
     total ← cint (h_length h + COMMU_HEAD_LENGTH);
     if total <? Z.of_nat (length xs) then mret true else cl_take fuel h) w.
Proof.
  intros (b & Hb & Hc & Hh & Hcap) H8. cbn [cl_read_loop].
  erewrite bind_ok by by apply cl_buf_run. cbv beta. rewrite (proj1 Hc).
  rewrite (proj2 (Z.leb_le _ _)) by (unfold COMMU_HEAD_LENGTH; lia).
  pose proof (contents_take_read b xs 8 Hc H8 : data_read (head b) COMMU_HEAD_LENGTH b = _) as ->.
  by erewrite bind_ok by reflexivity.
Qed.

(** The object after the header, or [n] bytes in all, has been popped. *)
Lemma cl_pop_run w b n :
  store (cl_bufs w) !! ibuf_obj = Some b → is_int (b_length b - n) → is_int (head b + n) →
  zoom cl_store (io_pop ibuf_obj n) w = Ok (tt, put_ibuf (set_extent (b_length b - n) (head b + n) b) w).
Proof.
  intros Hb H1 H2. apply wp_returns, wp_zoom. unfold io_pop. wp_step. eapply wp_buf_at; [done|].
  wp_step. apply wp_cint; [done|]. wp_step. apply wp_cint; [done|]. by apply wp_buf_put.
Qed.

Lemma cl_pop_overflows w b n :
  store (cl_bufs w) !! ibuf_obj = Some b → ¬ (is_int (b_length b - n) ∧ is_int (head b + n)) →
  zoom cl_store (io_pop ibuf_obj n) w = Fail Undefined.
Proof.
  intros Hb Hn. unfold zoom, io_pop. erewrite bind_ok by (apply wp_returns; by eapply wp_buf_at).
  unfold cint. rewrite <- !is_intb_spec in Hn.
  destruct (is_intb (b_length b - n)); [|done]. erewrite bind_ok by reflexivity.
  by destruct (is_intb (head b + n)); [tauto|].
Qed.

(** [cl_take] up to the callback, when the command is known and the payload can be
    read; [b1] is the buffer behind the header. *)
Lemma cl_take_run fuel w b h dat :
  Inv w → dispatcher_ok (cl_dispatcher (cl w)) → store (cl_bufs w) !! ibuf_obj = Some b →
  let b1 := set_extent (b_length b - 8) (head b + 8) b in
  is_int (b_length b - 8) → is_int (head b + 8) → cl_known w (cmdid h) = true →
  data_read (head b + 8) (h_length h) b1 = Some dat → h_length h = Z.of_nat (length dat) →
  ∃ w2, Inv w2 ∧ log w2 = log w ++ [(cmdid h, dat)] ∧ store (cl_bufs w2) !! ibuf_obj = Some b1 ∧
    cl_take fuel h w =
      (zoom cl_store (io_pop ibuf_obj (h_length h)) ;; cl_read_loop msg_fn client_fn fuel) w2.
Proof.
  intros HI Hd Hb b1 H1 H2 Hk Hdat Hl. set (w1 := put_ibuf b1 w).
  destruct (co_ibuf _ _ Hobs w b1 HI) as [HI1 Hl1].
  assert (Hb1 : store (cl_bufs w1) !! ibuf_obj = Some b1) by (simpl; by rewrite lookup_insert_eq).
  assert (Hcb : wp (f ← callback_of (cmdid h) (cl_dispatcher (cl w)); msg_fn f.1 dat (h_length h) (cmdid h) f.2)
    (λ _ w2, Inv w2 ∧ log w2 = log w ++ [(cmdid h, dat)] ∧ store (cl_bufs w2) !! ibuf_obj = Some b1) w1).
  { wp_step. apply wp_callback_of; [done..|]. intros f u Hf Hu. rewrite Hl.
    eapply wp_mono; [by apply (co_msg _ _ Hobs)|]. intros [] w2 (? & Hl2 & Hs2).
    split; [done|]. rewrite Hl2, Hs2. by split; [f_equal|]. }
  apply wp_elim in Hcb as ([] & w2 & Hcb & HI2 & Hl2 & Hs2). exists w2. split; [done|]. split; [done|].
  split; [done|]. unfold cl_take, COMMU_HEAD_LENGTH.
  erewrite bind_ok by (by apply cl_pop_run). fold b1 w1. erewrite bind_ok by reflexivity.
  unfold cl_known in Hk. change (cl w1) with (cl w). rewrite Hk. cbn [negb].
  erewrite bind_ok by by apply cl_buf_run. change (head b1) with (head b + 8). rewrite Hdat.
  erewrite bind_ok by reflexivity. revert Hcb. unfold mbind, M_bind.
  destruct (callback_of _ _ w1) as [[f w1']|]; [|done]. by intros ->.
Qed.

Lemma cl_rest_wait fuel w xs :
  holds ibuf_obj xs (cl_bufs w) → cl_decide (cl_known w) xs = ClWait →
  cl_read_rest (S fuel) w = Ok (0, w).
Proof.
  intros Hx Hv. assert (Hloop : cl_read_loop msg_fn client_fn (S fuel) w = Ok (true, w)).
  { unfold cl_decide in Hv. cbv zeta in Hv. unfold COMMU_HEAD_LENGTH in Hv.
    destruct (Z.ltb_spec (Z.of_nat (length xs)) 8).
    - destruct Hx as (b & Hb & Hc & _). eapply cl_loop_short; [exact Hb|]. by rewrite (proj1 Hc).
    - rewrite (cl_loop_front _ _ xs) by (done || lia). cbv zeta. set (h := head_of_bytes _) in *.
      pose proof (int_of_bytes_range (take 4 (drop 4 (take 8 xs)))) as Hint. change (int_of_bytes _) with (h_length h) in Hint.
      destruct (Z.ltb_spec INT_MAX (h_length h + 8)); [done|].
      erewrite bind_ok by (apply cint_in; unfold COMMU_HEAD_LENGTH; int_lia). cbv beta.
      unfold COMMU_HEAD_LENGTH. destruct (Z.ltb_spec (h_length h + 8) (Z.of_nat (length xs))); [done|].
      by destruct (cl_known w _), (Z.of_nat (length xs) <? h_length h + 8). }
  unfold cl_read_rest. erewrite bind_ok by exact Hloop. cbv beta iota.
  by erewrite bind_ok by by eapply cl_adjust_none.
Qed.

Lemma cl_rest_deliver fuel w xs m :
  Inv w → dispatcher_ok (cl_dispatcher (cl w)) → holds ibuf_obj xs (cl_bufs w) →
  cl_decide (cl_known w) xs = ClDeliver m →
  ∃ w', cl_read_rest (S (S fuel)) w = Ok (0, w') ∧ Inv w' ∧ log w' = log w ++ [m] ∧
    holds ibuf_obj [] (cl_bufs w').
Proof.
  intros HI Hd Hx Hv. unfold cl_decide in Hv. cbv zeta in Hv. unfold COMMU_HEAD_LENGTH in Hv.
  set (h := head_of_bytes _) in *.
  destruct (Z.ltb_spec (Z.of_nat (length xs)) 8), (Z.ltb_spec INT_MAX (h_length h + 8)),
    (Z.ltb_spec (h_length h + 8) (Z.of_nat (length xs))), (cl_known w (cmdid h)) eqn:Hk; try done.
  destruct (Z.ltb_spec (Z.of_nat (length xs)) (h_length h + 8)); [done|]. injection Hv as <-.
  assert (Hn : h_length h + 8 = Z.of_nat (length xs)) by lia.
  pose proof (cl_loop_front (S fuel) w xs Hx ltac:(lia)) as Hfront.
  destruct Hx as (b & Hb & Hc & Hh & Hcap). pose proof (contents_bounds _ _ Hc). pose proof (proj1 Hc) as Hbl.
  pose proof Hcap as Hcap'. unfold u4M in Hcap'.
  pose proof (contents_pop b xs 8 Hc ltac:(lia)) as Hc1. set (b1 := set_extent _ _ b) in Hc1.
  destruct (cl_take_run (S fuel) w b h (drop 8 xs) HI Hd Hb) as (w2 & HI2 & Hl2 & Hb2 & Hrun);
    [int_lia|int_lia|done| |rewrite length_drop; lia|].
  { pose proof (data_read_contents _ _ Hc1) as Hr. cbn [b1 head set_extent b_length] in Hr.
    replace (b_length b - Z.of_nat 8) with (h_length h) in Hr by lia. exact Hr. }
  assert (Hloop : cl_read_loop msg_fn client_fn (S (S fuel)) w = cl_take (S fuel) h w).
  { rewrite Hfront. cbv zeta. fold h.
    erewrite bind_ok by (apply cint_in; unfold COMMU_HEAD_LENGTH; int_lia). cbv beta.
    unfold COMMU_HEAD_LENGTH. by rewrite (proj2 (Z.ltb_ge _ _)) by lia. }
  rewrite Hrun in Hloop.
  erewrite bind_ok in Hloop by (apply cl_pop_run; [exact Hb2|cbn [b_length head set_extent]; int_lia..]).
  set (b3 := set_extent _ _ _) in Hloop. set (w3 := put_ibuf b3 w2) in *.
  destruct (co_ibuf _ _ Hobs w2 b3 HI2) as [HI3 Hl3].
  assert (Hb3 : store (cl_bufs w3) !! ibuf_obj = Some b3) by (simpl; by rewrite lookup_insert_eq).
  assert (Hz : b_length b3 = 0) by (unfold b3; cbn [b_length head set_extent]; lia).
  rewrite (cl_loop_short fuel w3 b3 Hb3) in Hloop by (rewrite Hz; done).
  assert (Hc3 : contents b3 []) by (apply contents_nil; [done|]; unfold b3; cbn [head capacity set_extent]; lia).
  destruct (cl_adjust_run w3 b3 [] HI3 Hb3 Hc3 Hcap) as (w4 & Hadj & HI4 & Hl4 & Hh4).
  exists w4. split; [|split; [exact HI4|split; [rewrite Hl4; unfold w3; by rewrite Hl3, Hl2|exact Hh4]]].
  unfold cl_read_rest. erewrite bind_ok by exact Hloop. cbv beta iota. by erewrite bind_ok by exact Hadj.
Qed.

Lemma cl_adjust_negative w b :
  store (cl_bufs w) !! ibuf_obj = Some b → head b ≠ 0 → b_length b < 0 →
  zoom cl_store (io_adjust ibuf_obj) w = Fail Undefined.
Proof.
  intros Hb Hh Hl. unfold zoom, io_adjust. erewrite bind_ok by (apply wp_returns; by eapply wp_buf_at).
  cbv beta. rewrite bool_decide_true by done. unfold when. rewrite bool_decide_true by lia.
  unfold data_read. by rewrite (proj2 (Z.leb_gt 0 (b_length b))), andb_false_r by done.
Qed.

(** [cl_take] when the payload cannot be read. *)
Lemma cl_take_unread fuel w b h :
  store (cl_bufs w) !! ibuf_obj = Some b → is_int (b_length b - 8) → is_int (head b + 8) →
  cl_known w (cmdid h) = true →
  data_read (head b + 8) (h_length h) (set_extent (b_length b - 8) (head b + 8) b) = None →
  cl_take fuel h w = Fail Undefined.
Proof.
  intros Hb H1 H2 Hk Hdat. unfold cl_take, COMMU_HEAD_LENGTH.
  erewrite bind_ok by (by apply cl_pop_run). set (b1 := set_extent _ _ b) in *. set (w1 := put_ibuf b1 w).
  erewrite bind_ok by reflexivity. unfold cl_known in Hk. change (cl w1) with (cl w). rewrite Hk. cbn [negb].
  assert (Hb1 : store (cl_bufs w1) !! ibuf_obj = Some b1) by (simpl; by rewrite lookup_insert_eq).
  erewrite bind_ok by exact (cl_buf_run _ _ _ Hb1). cbv beta.
  change (head b1) with (head b + 8). by rewrite Hdat.
Qed.

(** The bytes of the announced payload are not all there: either some were never
    written, or the callback has run on stale ones, and then the length of the
    buffer is negative when its contents are to be moved. *)
Lemma cl_rest_garbage fuel w xs :
  Inv w → dispatcher_ok (cl_dispatcher (cl w)) → holds ibuf_obj xs (cl_bufs w) →
  cl_decide (cl_known w) xs = ClGarbage → cl_read_rest (S (S fuel)) w = Fail Undefined.
Proof.
  intros HI Hd Hx Hv. unfold cl_decide in Hv. cbv zeta in Hv. unfold COMMU_HEAD_LENGTH in Hv.
  set (h := head_of_bytes _) in *.
  destruct (Z.ltb_spec (Z.of_nat (length xs)) 8); [done|].
  pose proof (cl_loop_front (S fuel) w xs Hx ltac:(lia)) as Hfront. cbv zeta in Hfront. fold h in Hfront.
  pose proof (int_of_bytes_range (take 4 (drop 4 (take 8 xs)))) as Hint. change (int_of_bytes _) with (h_length h) in Hint.
  destruct Hx as (b & Hb & Hc & Hh & Hcap). pose proof (contents_bounds _ _ Hc). pose proof (proj1 Hc) as Hbl.
  unfold u4M in Hcap. unfold cl_read_rest.
  destruct (Z.ltb_spec INT_MAX (h_length h + 8)) as [Hov|Hov].
  { apply bind_fail. rewrite Hfront. apply bind_fail, cint_out. unfold COMMU_HEAD_LENGTH. int_lia. }
  erewrite (bind_ok (cint _)) in Hfront by (apply cint_in; unfold COMMU_HEAD_LENGTH; int_lia).
  cbv beta in Hfront. unfold COMMU_HEAD_LENGTH in Hfront.
  destruct (Z.ltb_spec (h_length h + 8) (Z.of_nat (length xs))), (cl_known w (cmdid h)) eqn:Hk; try done.
  destruct (Z.ltb_spec (Z.of_nat (length xs)) (h_length h + 8)); [|done].
  destruct (data_read (head b + 8) (h_length h) (set_extent (b_length b - 8) (head b + 8) b)) as [dat|] eqn:Hdat.
  2:{ apply bind_fail. rewrite Hfront. apply (cl_take_unread _ _ b); [done|int_lia..|done|done]. }
  pose proof (proj1 (data_read_Some _ _ _ _) Hdat) as (_ & _ & Hl & _).
  destruct (cl_take_run (S fuel) w b h dat HI Hd Hb) as (w2 & HI2 & Hl2 & Hb2 & Hrun); [int_lia..|done|done|done|].
  rewrite <- Hfront in Hrun.
  erewrite bind_ok in Hrun by (apply cl_pop_run; [exact Hb2|cbn [b_length head set_extent]; int_lia..]).
  set (b3 := set_extent _ _ _) in Hrun. set (w3 := put_ibuf b3 w2) in *.
  assert (Hb3 : store (cl_bufs w3) !! ibuf_obj = Some b3) by (simpl; by rewrite lookup_insert_eq).
  assert (Hz : b_length b3 < 0 ∧ head b3 ≠ 0) by (unfold b3; cbn [b_length head set_extent]; lia).
  rewrite (cl_loop_short fuel w3 b3 Hb3) in Hrun by (unfold COMMU_HEAD_LENGTH; lia).
  erewrite bind_ok by exact Hrun. cbv beta iota. apply bind_fail.
  by apply (cl_adjust_negative _ b3); [|apply Hz..].
Qed.

(** ** The verdict on frames *)

Lemma head_of_frame m zs n :
  is_int m.1 → Z.of_nat (length m.2) ≤ INT_MAX → (8 ≤ n)%nat →
  head_of_bytes (take 8 (take n (frame m ++ zs))) = CommuHead m.1 (Z.of_nat (length m.2)).
Proof.
  intros Hc Hl Hn. unfold frame. rewrite take_take, Nat.min_l by done. rewrite <- app_assoc.
  rewrite (take_app_length' (head_bytes _)) by done. apply head_bytes_roundtrip; [done|simpl; int_lia].
Qed.

Lemma cl_decide_frame known m zs :
  is_int m.1 → known m.1 = true → Z.of_nat (length m.2) + COMMU_HEAD_LENGTH ≤ INT_MAX →
  cl_decide known (frame m ++ zs) = match zs with [] => ClDeliver m | _ => ClWait end.
Proof.
  intros Hc Hk Hl. unfold COMMU_HEAD_LENGTH in Hl. unfold cl_decide, COMMU_HEAD_LENGTH. cbv zeta.
  pose proof (head_of_frame m zs (length (frame m ++ zs)) Hc ltac:(lia)) as Hh.
  rewrite (take_ge (frame m ++ zs)) in Hh by done. rewrite length_app, length_frame in *. rewrite Hh by lia.
  cbn [cmdid h_length]. rewrite (proj2 (Z.ltb_ge _ 8)), (proj2 (Z.ltb_ge INT_MAX _)), Hk by lia. cbn [negb].
  destruct zs as [|z zs]; cbn [length].
  - rewrite !(proj2 (Z.ltb_ge _ _)) by lia. rewrite app_nil_r. unfold frame.
    rewrite (drop_app_length' (head_bytes _)) by done. by destruct m.
  - by rewrite (proj2 (Z.ltb_lt _ _)) by lia.
Qed.

Lemma cl_decide_partial known m n :
  is_int m.1 → known m.1 = true → Z.of_nat (length m.2) + COMMU_HEAD_LENGTH ≤ INT_MAX →
  (8 ≤ n < length (frame m))%nat → cl_decide known (take n (frame m)) = ClGarbage.
Proof.
  intros Hc Hk Hl Hn. unfold COMMU_HEAD_LENGTH in Hl. unfold cl_decide, COMMU_HEAD_LENGTH. cbv zeta.
  pose proof (head_of_frame m [] n Hc ltac:(lia)) as Hh. rewrite app_nil_r in Hh.
  rewrite length_take, length_frame in *. rewrite Hh by lia.
  cbn [cmdid h_length]. rewrite (proj2 (Z.ltb_ge _ 8)), (proj2 (Z.ltb_ge INT_MAX _)), Hk by lia. cbn [negb].
  by rewrite (proj2 (Z.ltb_ge _ _)), (proj2 (Z.ltb_lt _ _)) by lia.
Qed.

(** A message whose frame the length arithmetic of the client can handle. *)
Definition cl_receivable w (m : message) : Prop :=
  is_int m.1 ∧ cl_known w m.1 = true ∧ Z.of_nat (length m.2) + COMMU_HEAD_LENGTH ≤ INT_MAX.

Lemma cl_handle_read_run w bs ys retries fuel :
  cl_readable w bs ys retries →
  ∃ w1, Inv w1 ∧ log w1 = log w ∧ dispatcher_ok (cl_dispatcher (cl w1)) ∧ cl_known w1 = cl_known w ∧
    holds ibuf_obj (bs ++ ys) (cl_bufs w1) ∧
    cl_handle_read msg_fn client_fn fuel retries w = cl_read_rest fuel w1.
Proof.
  intros Hr. pose proof (cr_dispatcher _ _ _ _ Hr) as Hd.
  destruct (cl_handle_read_start w bs ys retries fuel Hr) as (w1 & ? & ? & Hcl & ? & ?).
  exists w1. unfold cl_known. by rewrite Hcl.
Qed.

End receiving.

(** ** Sending *)

Section sending.
Context {K U : Type} `{EpollLaws K}.
Implicit Types w : cl_world K U.

Definition cl_evs w : ev_st K := EvSt (cl_kern w) (cl_loop w).

(** [w'] differs from [w] in the object [p], the loop and the system only. *)
Definition only_obj (p : ptr) w w' : Prop :=
  (∀ q, q ≠ p → store (cl_bufs w') !! q = store (cl_bufs w) !! q) ∧
  cl w' = cl w ∧ cl_user w' = cl_user w.

Lemma cl_append_run w p bs ys :
  holds p bs (cl_bufs w) → Z.of_nat (length bs) + Z.of_nat (length ys) ≤ u4M →
  ∃ b, zoom cl_store (append p ys) w = Ok (tt, set_cl_bufs (put_obj p b (cl_bufs w)) w) ∧
    holds p (bs ++ ys) (put_obj p b (cl_bufs w)).
Proof.
  intros (b & Hb & Hc & Hh & Hcap) Hl.
  cut (wp (append p ys) (λ _ bp, ∃ b', bp = put_obj p b' (cl_bufs w) ∧ holds p (bs ++ ys) bp) (cl_bufs w)).
  { intros ([] & bp & Hr & b' & -> & Hh')%wp_elim. exists b'. unfold zoom. simpl. by rewrite Hr. }
  eapply wp_append; [done..|]. intros b' ???. exists b'. split; [done|]. by apply holds_put.
Qed.

(** Watching for writing, or reading, from a consistent loop. *)
Lemma cl_watch_run w fd proc msk :
  loop_inv (cl_evs w) → msk = EPOLLIN ∨ msk = EPOLLOUT →
  ∃ s, zoom cl_ev (add_ioev fd proc msk v_tcp_client) w =
      Ok (tt, ClWorld (ev_kern s) (cl_bufs w) (ev_loop s) (cl w) (cl_user w)) ∧
    loop_inv s ∧ same_rest (cl_evs w) s ∧
    _io_evs (ev_loop s) = <[fd := added proc msk v_tcp_client (_io_evs (cl_loop w) !! fd)]> (_io_evs (cl_loop w)).
Proof.
  intros Hi Hm. assert (Hone : has EPOLLIN msk && has EPOLLOUT msk = false) by by destruct Hm as [-> | ->].
  pose proof (add_ioev_spec fd proc msk v_tcp_client _ Hi Hone) as ([] & s & Hr & Hs)%wp_elim.
  exists s. unfold zoom. simpl. change (EvSt (cl_kern w) (cl_loop w)) with (cl_evs w). by rewrite Hr.
Qed.

Lemma writer_added (s : ev_st K) fd proc it m :
  _io_evs (ev_loop s) = <[fd := added proc EPOLLOUT v_tcp_client it]> m →
  writer s fd = Some (proc, v_tcp_client).
Proof. intros He. unfold writer. rewrite He, lookup_insert_eq. by destruct it. Qed.

(** [send_data] up to the registration, when there is room. *)
Lemma cl_send_fits w ob dat cmd :
  net_ok (cl w) = true → holds obuf_obj ob (cl_bufs w) →
  Z.of_nat (length ob) + 8 + Z.of_nat (length dat) ≤ u4M →
  ∃ w', only_obj obuf_obj w w' ∧ cl_evs w' = cl_evs w ∧
    holds obuf_obj (ob ++ frame (cmd, dat)) (cl_bufs w') ∧
    cl_send_data dat (Z.of_nat (length dat)) cmd w =
      (when (bool_decide (ob = [])) (zoom cl_ev (add_ioev (cl_sockfd (cl w)) client_write_cb EPOLLOUT v_tcp_client)) ;;
       mret 0) w'.
Proof.
  intros Hok Hob Hfit. pose proof Hob as (b & Hb & Hc & Hh & Hcap). pose proof (proj1 Hc) as Hl.
  set (n := Z.of_nat (length dat)) in *. set (hb := head_bytes (CommuHead cmd n)).
  assert (Hhb : length hb = 8%nat) by done. pose proof (contents_bounds _ _ Hc).
  destruct (cl_append_run w obuf_obj ob hb Hob) as (b1 & Hr1 & Hh1); [lia|].
  set (w1 := set_cl_bufs (put_obj obuf_obj b1 (cl_bufs w)) w) in *.
  destruct (cl_append_run w1 obuf_obj (ob ++ hb) dat Hh1) as (b2 & Hr2 & Hh2); [rewrite length_app; lia|].
  set (w2 := set_cl_bufs (put_obj obuf_obj b2 (cl_bufs w1)) w1) in *.
  rewrite <- app_assoc in Hh2. change (hb ++ dat) with (frame (cmd, dat)) in Hh2.
  exists w2. split; [split; [|done]; intros q Hq; simpl; by rewrite !lookup_insert_ne|].
  split; [done|]. split; [done|]. unfold u4M in *. unfold cl_send_data, COMMU_HEAD_LENGTH.
  erewrite bind_ok by reflexivity. cbv beta. rewrite Hok. cbn [negb].
  erewrite bind_ok by exact (cl_buf_run w _ b Hb). cbv beta zeta.
  erewrite bind_ok by (apply cint_in; int_lia). erewrite bind_ok by (apply cint_in; int_lia). cbv beta.
  rewrite (proj2 (Z.ltb_ge _ _)) by lia. fold hb.
  erewrite bind_ok by exact Hr1. unfold n. rewrite take_bytes_all. erewrite bind_ok by reflexivity. cbv beta.
  erewrite bind_ok by exact Hr2. rewrite Hl. by destruct ob.
Qed.

(** What a message that is sent does. *)
Lemma cl_send_sends w ob dat cmd :
  net_ok (cl w) = true → holds obuf_obj ob (cl_bufs w) → loop_inv (cl_evs w) →
  Z.of_nat (length ob) + COMMU_HEAD_LENGTH + Z.of_nat (length dat) ≤ u4M →
  ∃ w', cl_send_data dat (Z.of_nat (length dat)) cmd w = Ok (0, w') ∧ only_obj obuf_obj w w' ∧
    holds obuf_obj (ob ++ frame (cmd, dat)) (cl_bufs w') ∧ loop_inv (cl_evs w') ∧ same_rest (cl_evs w) (cl_evs w') ∧
    (ob = [] → writer (cl_evs w') (cl_sockfd (cl w)) = Some (client_write_cb, v_tcp_client)) ∧
    (ob ≠ [] → cl_evs w' = cl_evs w).
Proof.
  intros Hok Hob Hi Hfit. destruct (cl_send_fits w ob dat cmd Hok Hob Hfit) as (w2 & Honly & Hev & Hh2 & ->).
  destruct (decide (ob = [])) as [Hz|Hz]; [rewrite bool_decide_true by done|rewrite bool_decide_false by done].
  - destruct (cl_watch_run w2 (cl_sockfd (cl w)) client_write_cb EPOLLOUT) as (s & Hs & Hi' & Hsame & He);
      [by rewrite Hev|by right|]. rewrite Hev in Hsame.
    eexists. split; [by erewrite bind_ok by exact Hs|]. split; [exact Honly|]. split; [done|].
    unfold cl_evs at 1 3 4 5. cbn [cl_kern cl_loop]. destruct s as [k l]. split; [done|]. split; [done|].
    split; [|done]. intros _. by eapply writer_added.
  - exists w2. rewrite Hev. by split_and!.
Qed.

(** When it is not. *)
Lemma cl_send_refused w ob dat cmd :
  holds obuf_obj ob (cl_bufs w) → Z.of_nat (length dat) + COMMU_HEAD_LENGTH ≤ INT_MAX →
  net_ok (cl w) = false ∨ u4M < Z.of_nat (length ob) + COMMU_HEAD_LENGTH + Z.of_nat (length dat) →
  cl_send_data dat (Z.of_nat (length dat)) cmd w = Ok (-1, w).
Proof.
  intros (b & Hb & Hc & Hh & Hcap) Hn Hwhy. unfold cl_send_data. erewrite bind_ok by reflexivity. cbv beta.
  destruct (net_ok (cl w)); [|done]. destruct Hwhy as [|Hfull]; [done|].
  pose proof (contents_bounds _ _ Hc). pose proof (proj1 Hc). unfold u4M, COMMU_HEAD_LENGTH in *. cbn [negb].
  erewrite bind_ok by exact (cl_buf_run w _ b Hb). cbv beta zeta.
  erewrite bind_ok by (apply cint_in; int_lia). erewrite bind_ok by (apply cint_in; int_lia). cbv beta.
  by rewrite (proj2 (Z.ltb_lt _ _)) by lia.
Qed.

End sending.

(** ** Writing *)

Section writing.
Context {K U : Type} `{EpollLaws K} `{!SinkLaws K}.
Variable client_fn : client_callback → void_ptr → M (cl_world K U) unit.
Implicit Types w : cl_world K U.

Lemma only_obj_trans p w1 w2 w3 : only_obj p w1 w2 → only_obj p w2 w3 → only_obj p w1 w3.
Proof.
  intros (Hs1 & Hc1 & Hu1) (Hs2 & Hc2 & Hu2). split; [|split; congruence].
  intros q Hq. by rewrite Hs2, Hs1.
Qed.

(** Dropping [n] bytes that were written, and moving the rest to the start. *)
Lemma cl_written_run w ob (n : nat) :
  holds obuf_obj ob (cl_bufs w) → (n ≤ length ob)%nat →
  ∃ w', (zoom cl_store (io_pop obuf_obj (Z.of_nat n)) ;; zoom cl_store (io_adjust obuf_obj)) w = Ok (tt, w') ∧
    only_obj obuf_obj w w' ∧ cl_evs w' = cl_evs w ∧ holds obuf_obj (drop n ob) (cl_bufs w').
Proof.
  intros (b & Hb & Hc & Hh & Hcap) Hn.
  cut (wp (zoom cl_store (io_pop obuf_obj (Z.of_nat n)) ;; zoom cl_store (io_adjust obuf_obj))
    (λ _ w', only_obj obuf_obj w w' ∧ cl_evs w' = cl_evs w ∧ holds obuf_obj (drop n ob) (cl_bufs w')) w).
  { intros ([] & w' & ? & ?)%wp_elim. by exists w'. }
  wp_step. wp_step. eapply wp_io_pop; [exact Hb|done|done|rewrite Hcap; unfold u4M, u8M; lia|].
  intros b1 Hc1. wp_step. eapply (wp_io_adjust _ b1); [simpl; by rewrite lookup_insert_eq|exact Hc1| |].
  - intros Hh1. split; [split; [|done]; intros q Hq; simpl; by rewrite lookup_insert_ne|]. split; [done|].
    exists b1. simpl. by rewrite lookup_insert_eq.
  - intros b2 Hc2 Hh2 Hcap2. split; [split; [|done]; intros q Hq; simpl; by rewrite !lookup_insert_ne|].
    split; [done|]. exists b2. simpl. rewrite lookup_insert_eq. split; [done|]. split; [done|]. split; [done|].
    by rewrite Hcap2.
Qed.

Lemma cl_write_loop_spec (R : K → Prop) fd retries :
  (∀ bs k r k', sys_write fd bs k = (r, k') → R k → R k') → (patience < retries)%nat →
  ∀ fuel ob w, cl_sockfd (cl w) = fd → R (cl_kern w) → holds obuf_obj ob (cl_bufs w) → (length ob < fuel)%nat →
  ∃ ob' w', only_obj obuf_obj w w' ∧ cl_loop w' = cl_loop w ∧ holds obuf_obj ob' (cl_bufs w') ∧
    sent fd (cl_kern w') ++ ob' = sent fd (cl_kern w) ++ ob ∧ R (cl_kern w') ∧
    (cl_write_loop client_fn fuel retries w = Ok (true, w') ∨
     cl_write_loop client_fn fuel retries w = (cl_clean_conn client_fn ;; mret false) w').
Proof.
  intros HRw Hret fuel. induction fuel as [|fuel IH]; intros ob w Hfd HR Hob Hf; [lia|].
  pose proof Hob as (b & Hb & Hc & Hh & Hcap). pose proof (proj1 Hc) as Hl.
  cbn [cl_write_loop]. erewrite bind_ok by exact (cl_buf_run w _ b Hb). cbv beta.
  destruct (decide (b_length b = 0)) as [Hz|Hz].
  { rewrite bool_decide_false by tauto. exists ob, w. split_and!; try done. by left. }
  rewrite bool_decide_true by done. erewrite bind_ok by reflexivity. cbv beta.
  pose proof (data_read_contents _ _ Hc) as Hdr. rewrite Hh in Hdr. rewrite Hdr. erewrite bind_ok by reflexivity. cbv beta.
  rewrite Hfd. destruct (sink_patient fd ob (cl_kern w)) as [[r k1] Hr]. apply (retry_more _ _ retries) in Hr; [|lia].
  pose proof (retry_sent _ _ _ _ _ _ Hr) as Hsent. pose proof (retry_keeps R _ _ _ _ _ _ (HRw ob) Hr HR) as HR1.
  set (w1 := set_cl_kern k1 w).
  assert (Hzr : zoom cl_kernel (retry retries (sys_write fd ob)) w = Ok (r, w1)) by (unfold zoom; simpl; by rewrite Hr).
  erewrite bind_ok by exact Hzr. cbv beta.
  assert (Hstay : only_obj obuf_obj w w1 ∧ cl_loop w1 = cl_loop w ∧ holds obuf_obj ob (cl_bufs w1)) by done.
  destruct r as [e|n].
  { exists ob, w1. destruct Hstay as (? & ? & ?). simpl in Hsent. split_and!; try done; [simpl; by rewrite Hsent|].
    destruct e; [by right|by left|by right..]. }
  destruct Hsent as [Hrange Hsent]. destruct (Z.ltb_spec 0 n) as [Hpos|Hnon].
  2:{ assert (n = 0) as -> by lia. simpl in Hsent. rewrite app_nil_r in Hsent. exists ob, w1.
      destruct Hstay as (? & ? & ?). split_and!; try done; [simpl; by rewrite Hsent|by left]. }
  destruct (cl_written_run w1 ob (Z.to_nat n)) as (w2 & Hrun & Honly & Hev & Hh2); [done|lia|].
  rewrite Z2Nat.id in Hrun by lia. injection Hev as Hk2 Hl2.
  assert (cl w2 = cl w) as Hcl by apply Honly.
  destruct (IH (drop (Z.to_nat n) ob) w2) as (ob' & w3 & Ho3 & Hlp3 & Hh3 & Hs3 & HR3 & Hend);
    [by rewrite Hcl|by rewrite Hk2|done|rewrite length_drop; lia|].
  exists ob', w3.
  split; [by eapply only_obj_trans; [|exact Ho3]|]. split; [by rewrite Hlp3, Hl2|]. split; [done|].
  split; [|split; [done|]].
  - rewrite Hs3, Hk2. simpl. rewrite Hsent, <- app_assoc, take_drop. done.
  - unfold mbind, M_bind in Hrun |- *. destruct (zoom cl_store (io_pop obuf_obj n) w1) as [[[] w1']|]; [|done].
    rewrite Hrun. exact Hend.
Qed.

(** Sending only queues: it writes nothing to the socket. *)
Lemma cl_send_quiet w ob dat cmd w' fd :
  net_ok (cl w) = true → holds obuf_obj ob (cl_bufs w) →
  Z.of_nat (length ob) + COMMU_HEAD_LENGTH + Z.of_nat (length dat) ≤ u4M →
  cl_send_data dat (Z.of_nat (length dat)) cmd w = Ok (0, w') → sent fd (cl_kern w') = sent fd (cl_kern w).
Proof.
  intros Hok Hob Hfit Hr. destruct (cl_send_fits w ob dat cmd Hok Hob Hfit) as (w2 & _ & Hev & _ & Hrun).
  rewrite Hrun in Hr. injection Hev as <- _. case_bool_decide; [|by injection Hr as <-].
  unfold when, zoom, mbind, M_bind in Hr. destruct (add_ioev _ _ _ _ _) as [[[] s]|] eqn:Hadd; [|done].
  injection Hr as <-. by apply add_ioev_ctl, (ctl_sent _ _ fd) in Hadd.
Qed.

Lemma cl_unwatch_run w fd msk :
  loop_inv (cl_evs w) →
  ∃ s, zoom cl_ev (del_ioev_mask fd msk) w =
      Ok (tt, ClWorld (ev_kern s) (cl_bufs w) (ev_loop s) (cl w) (cl_user w)) ∧
    del_ioev_mask fd msk (cl_evs w) = Ok (tt, s) ∧ loop_inv s ∧
    _io_evs (ev_loop s) = partial_alter (λ it, it ≫= reduced msk) fd (_io_evs (cl_loop w)).
Proof.
  intros Hi. pose proof (del_ioev_mask_spec fd msk _ Hi) as ([] & s & Hr & Hi' & _ & He)%wp_elim.
  exists s. split; [|done]. unfold zoom. simpl. change (EvSt (cl_kern w) (cl_loop w)) with (cl_evs w). by rewrite Hr.
Qed.

(** The client's [handle_write] loses, repeats and reorders nothing: what the
    socket has accepted, followed by what is left in the buffer, is the same byte
    sequence before and after, and it stops watching for writing exactly when
    nothing is left; on a write error it starts over with [clean_conn], the
    unsent bytes still in the buffer. *)
Lemma cl_handle_write_conserves w ob fuel retries :
  holds obuf_obj ob (cl_bufs w) → ob ≠ [] → loop_inv (cl_evs w) →
  (length ob < fuel)%nat → (patience < retries)%nat →
  let fd := cl_sockfd (cl w) in
  ∃ ob' w', only_obj obuf_obj w w' ∧ holds obuf_obj ob' (cl_bufs w') ∧
    sent fd (cl_kern w') ++ ob' = sent fd (cl_kern w) ++ ob ∧
    sent fd (cl_kern w) `prefix_of` sent fd (cl_kern w') ∧
    (cl_handle_write client_fn fuel retries w = (cl_clean_conn client_fn ;; mret (-1)) w' ∨
     cl_handle_write client_fn fuel retries w = Ok (0, w') ∧ loop_inv (cl_evs w') ∧
       (ob' ≠ [] → cl_loop w' = cl_loop w) ∧
       (ob' = [] → ∀ m, interests (cl_evs w') !! fd = Some m → has EPOLLOUT m = false)).
Proof.
  intros Hob Hne Hi Hf Hret fd. pose proof Hob as (b & Hb & Hc & Hh & Hcap). pose proof (proj1 Hc) as Hl.
  destruct (cl_write_loop_spec (λ k, interest (_epfd (cl_loop w)) k = interest (_epfd (cl_loop w)) (cl_kern w) ∧
      sent fd (cl_kern w) `prefix_of` sent fd k) fd
    retries) with (fuel := fuel) (ob := ob) (w := w) as (ob' & w1 & Ho & Hlp & Hh1 & Hs & [HR Hpre] & Hend); try done.
  { intros bs k r k' Hw [<- Hk]. split; [rewrite <- (interest_write (_epfd (cl_loop w)) fd bs k); by rewrite Hw|].
    apply sink_write in Hw. destruct r; [by rewrite Hw|]. destruct Hw as [_ ->]. by apply prefix_app_r. }
  assert (Hstart : cl_handle_write client_fn fuel retries w =
    (open ← cl_write_loop client_fn fuel retries;
     if (open : bool) then
       o ← zoom cl_store (buf_at obuf_obj);
       w ← get;
       when (bool_decide (b_length o = 0)) (zoom cl_ev (del_ioev_mask (cl_sockfd (cl w)) EPOLLOUT)) ;;
       mret 0
     else mret (-1)) w).
  { unfold cl_handle_write. erewrite bind_ok by exact (cl_buf_run w _ b Hb). cbv beta.
    rewrite !bool_decide_true; [done| |done]. destruct ob; [done|simpl in Hl; lia]. }
  rewrite Hstart. destruct Hend as [Hend|Hend].
  2:{ exists ob', w1. split; [done|]. split; [done|]. split; [done|]. split; [done|]. left. revert Hend. unfold mbind, M_bind.
      destruct (cl_clean_conn client_fn w1) as [[[] w2]|]; by intros ->. }
  pose proof Hh1 as (b1 & Hb1 & Hc1 & _). pose proof (proj1 Hc1) as Hl1.
  assert (Hi1 : loop_inv (cl_evs w1)).
  { unfold cl_evs. rewrite Hlp. by apply (loop_inv_kern (cl_kern w)). }
  assert (Hfd : cl_sockfd (cl w1) = fd) by (unfold fd; by destruct Ho as (_ & -> & _)).
  erewrite bind_ok by exact Hend. cbv beta iota. erewrite bind_ok by exact (cl_buf_run _ _ _ Hb1).
  erewrite bind_ok by reflexivity. cbv beta. rewrite Hfd.
  destruct (decide (ob' = [])) as [->|Hne'].
  - rewrite bool_decide_true by done.
    destruct (cl_unwatch_run w1 fd EPOLLOUT Hi1) as (s & Hrun & Hdel & Hi2 & He).
    exists [], (ClWorld (ev_kern s) (cl_bufs w1) (ev_loop s) (cl w1) (cl_user w1)). split; [exact Ho|]. split; [exact Hh1|].
    pose proof (ctl_sent _ _ fd (del_ioev_mask_ctl _ _ _ _ Hdel)) as Hsame. cbn [ev_kern cl_evs] in Hsame.
    split; [by rewrite <- Hs, <- Hsame|]. split; [by rewrite <- Hsame in Hpre|].
    right. split; [by erewrite bind_ok by exact Hrun|].
    unfold cl_evs. simpl. destruct s as [k l]. split; [done|]. split; [done|].
      intros _ m. by eapply unwatched.
  - rewrite bool_decide_false by (destruct ob'; [done|simpl in Hl1; lia]). exists ob', w1.
    do 4 (split; [done|]). right. split; [done|]. by split.
Qed.

End writing.

(** ** Connecting and reconnecting *)

Section connecting.
Context {K U : Type} `{EpollLaws K}.
Variable client_fn : client_callback → void_ptr → M (cl_world K U) unit.
Implicit Types w : cl_world K U.

Definition set_cl_user (u : U) w : cl_world K U := ClWorld (cl_kern w) (cl_bufs w) (cl_loop w) (cl w) u.

(** A connection callback that only changes the user's own state, as [acts] says. *)
Variable acts : client_callback → void_ptr → U → U.
Definition cl_quiet (cb : option client_callback) (args : void_ptr) : Prop :=
  ∀ f w, cb = Some f → client_fn f args w = Ok (tt, set_cl_user (acts f args (cl_user w)) w).

(** The user's state after the call of [cb], if there is one. *)
Definition called (cb : option client_callback) (args : void_ptr) (u : U) : U :=
  match cb with Some f => acts f args u | None => u end.

Lemma cl_quiet_run cb args w :
  cl_quiet cb args →
  match cb with Some f => client_fn f args | None => mret tt end w = Ok (tt, set_cl_user (called cb args (cl_user w)) w).
Proof. intros Hq. destruct cb as [f|]; [by apply Hq|by destruct w]. Qed.

(** The process with another loop, system and client state. *)
Definition cl_with (s : ev_st K) (c : tcp_client) (u : U) w : cl_world K U :=
  ClWorld (ev_kern s) (cl_bufs w) (ev_loop s) c u.

(** The registration of a pending connection. *)
Definition pending_ev : io_event := IoEvent EPOLLOUT None (Some connection_cb) vnull v_tcp_client.

(** What [do_connect] finds: it closes the old descriptor, if any, and the system
    answers with the new one, [fd]. *)
Definition connects w (fd : Z) (r : option errno) (k : K) : Prop :=
  let old := cl_sockfd (cl w) in
  let k0 := if decide (old ≠ -1) then sys_close old (cl_kern w) else cl_kern w in
  ∃ k1, sys_socket k0 = (inr fd, k1) ∧ sys_connect fd k1 = (r, k).

Lemma do_connect_start w fd r k :
  connects w fd r k →
  do_connect client_fn w =
    (match r with
     | None => modify_cl (set_net_ok true) ;; call_onconnect client_fn
     | Some EINPROGRESS => zoom cl_ev (add_ioev fd connection_cb EPOLLOUT v_tcp_client)
     | Some _ => fail Exited
     end) (cl_with (EvSt k (cl_loop w)) (set_cl_sockfd fd (cl w)) (cl_user w) w).
Proof.
  intros (k1 & Hs & Hc). unfold do_connect. erewrite bind_ok by reflexivity. cbv beta.
  set (k0 := if decide _ then _ else _) in Hs.
  assert (Hk0 : when (bool_decide (cl_sockfd (cl w) ≠ -1)) (zoom cl_kernel (modify (sys_close (cl_sockfd (cl w))))) w
    = Ok (tt, set_cl_kern k0 w)).
  { unfold when, k0. destruct (decide (cl_sockfd (cl w) ≠ -1)); [by rewrite bool_decide_true|].
    rewrite bool_decide_false by done. by destruct w. }
  erewrite bind_ok by exact Hk0.
  erewrite bind_ok by (unfold zoom, syscall; cbn [view cl_kernel cl_kern set_cl_kern]; by rewrite Hs). cbv beta iota.
  erewrite bind_ok by reflexivity.
  erewrite bind_ok by (unfold zoom, syscall, modify; cbn; by rewrite Hc). done.
Qed.

Lemma connects_interest w fd r k epfd :
  connects w fd r k → interest epfd (cl_kern w) !! cl_sockfd (cl w) = None →
  interest epfd k = interest epfd (cl_kern w).
Proof.
  intros (k1 & Hs & Hc) Hno. pose proof (interest_connect epfd fd k1) as H2. rewrite Hc in H2. simpl in H2.
  rewrite H2. pose proof (interest_socket epfd) as H1. destruct (decide _).
  - specialize (H1 (sys_close (cl_sockfd (cl w)) (cl_kern w))). rewrite Hs in H1. simpl in H1.
    rewrite H1. by apply interest_close.
  - specialize (H1 (cl_kern w)). by rewrite Hs in H1.
Qed.

(** Deregistering a descriptor. *)
Lemma cl_forget_run w fd :
  loop_inv (cl_evs w) →
  ∃ s, del_ioev fd (cl_evs w) = Ok (tt, s) ∧ loop_inv s ∧ same_rest (cl_evs w) s ∧
    _io_evs (ev_loop s) = delete fd (_io_evs (cl_loop w)) ∧
    zoom cl_ev (del_ioev fd) w = Ok (tt, cl_with s (cl w) (cl_user w) w).
Proof.
  intros Hi. pose proof (del_ioev_spec fd _ Hi) as ([] & s & Hr & Hi' & Hsame & He)%wp_elim.
  exists s. do 4 (split; [done|]). unfold zoom. simpl. change (EvSt (cl_kern w) (cl_loop w)) with (cl_evs w).
  by rewrite Hr.
Qed.

(** [clean_conn] up to [do_connect]. *)
Lemma cl_clean_conn_start w s :
  cl_sockfd (cl w) ≠ -1 → cl_quiet (_onclose (cl w)) (_onclose_args (cl w)) →
  zoom cl_ev (del_ioev (cl_sockfd (cl w))) w = Ok (tt, cl_with s (cl w) (cl_user w) w) →
  let s1 := EvSt (sys_close (cl_sockfd (cl w)) (ev_kern s)) (ev_loop s) in
  let u := called (_onclose (cl w)) (_onclose_args (cl w)) (cl_user w) in
  cl_clean_conn client_fn w = do_connect client_fn (cl_with s1 (set_net_ok false (cl w)) u w).
Proof.
  intros Hfd Hq Hdel s1 u.
  set (w1 := cl_with s1 (set_net_ok false (cl w)) (cl_user w) w).
  pose proof (cl_quiet_run _ _ w1 Hq) as Hu.
  unfold cl_clean_conn. erewrite bind_ok by reflexivity. cbv beta. rewrite bool_decide_true by done.
  assert (Hwhen : when true (zoom cl_ev (del_ioev (cl_sockfd (cl w))) ;;
      zoom cl_kernel (modify (sys_close (cl_sockfd (cl w))))) w = Ok (tt, cl_with s1 (cl w) (cl_user w) w)).
  { unfold when. by erewrite bind_ok by exact Hdel. }
  erewrite bind_ok by exact Hwhen. erewrite bind_ok by reflexivity.
  by erewrite bind_ok by exact Hu.
Qed.

(** [connection_cb] up to the test of the outcome. *)
Lemma connection_cb_start w fd s r k :
  loop_inv (cl_evs w) → del_ioev fd (cl_evs w) = Ok (tt, s) → sys_getsockopt_error fd (ev_kern s) = (r, k) →
  loop_inv (EvSt k (ev_loop s)) ∧ same_rest (cl_evs w) s ∧ _io_evs (ev_loop s) = delete fd (_io_evs (cl_loop w)) ∧
  connection_cb_body client_fn fd w =
    (if r =? 0 then
       modify_cl (set_net_ok true) ;;
       call_onconnect client_fn ;;
       zoom cl_ev (add_ioev fd client_read_cb EPOLLIN v_tcp_client) ;;
       o ← zoom cl_store (buf_at obuf_obj);
       when (bool_decide (b_length o ≠ 0)) (zoom cl_ev (add_ioev fd client_write_cb EPOLLOUT v_tcp_client))
     else zoom cl_ev (run_after reconn_cb v_tcp_client 2 0) ;; mret tt)
      (cl_with (EvSt k (ev_loop s)) (cl w) (cl_user w) w).
Proof.
  intros Hi Hdel Hsock. destruct (cl_forget_run w fd Hi) as (s1 & Hdel' & Hi1 & Hsame & He & Hrun).
  assert (s1 = s) as -> by congruence. split; [|split; [done|split; [done|]]].
  - destruct s as [ks l]. apply (loop_inv_kern ks); [done|]. pose proof (interest_getsockopt (_epfd l) fd ks) as Hg.
    simpl in Hsock. by rewrite Hsock in Hg.
  - unfold connection_cb_body. erewrite bind_ok by exact Hrun.
    assert (Hr : zoom cl_kernel (syscall (sys_getsockopt_error fd)) (cl_with s (cl w) (cl_user w) w) =
      Ok (r, cl_with (EvSt k (ev_loop s)) (cl w) (cl_user w) w)).
    { unfold zoom, syscall. cbn. by rewrite Hsock. }
    by erewrite bind_ok by exact Hr.
Qed.

(** A failed attempt schedules the next one. *)
Lemma connection_failed_run w fd s r k sec nsec k' :
  loop_inv (cl_evs w) → del_ioev fd (cl_evs w) = Ok (tt, s) → sys_getsockopt_error fd (ev_kern s) = (r, k) →
  r ≠ 0 → can_add_timer (EvSt k (ev_loop s)) sec nsec k' →
  ∃ s' id, connection_cb_body client_fn fd w = Ok (tt, cl_with s' (cl w) (cl_user w) w) ∧
    timer_added (EvSt k (ev_loop s)) k'
      (TimerEvent reconn_cb v_tcp_client (sec * 1000 + nsec / 1000000 + 2000) 0 0) id s' ∧
    _io_evs (ev_loop s') = delete fd (_io_evs (cl_loop w)).
Proof.
  intros Hi Hdel Hsock Hne Hadd. destruct (connection_cb_start w fd s r k Hi Hdel Hsock) as (_ & _ & He & ->).
  rewrite (proj2 (Z.eqb_neq _ _)) by done.
  pose proof (run_after_spec reconn_cb v_tcp_client 2 0 _ sec nsec k' Hadd) as Hrun2.
  apply wp_elim in Hrun2 as (id & s' & Hs' & Hta); [|by unfold delay_ok; int_lia].
  exists s', id. split; [|split; [exact Hta|]].
  - erewrite (bind_ok (zoom cl_ev _)) by (unfold zoom; cbn; by rewrite Hs'). done.
  - destruct Hta as (_ & q' & -> & _). exact He.
Qed.

End connecting.
