(* ===== verification/TcpClientProps.v ===== *)
(** * Correctness of the TCP client

    The claims about src/tcp_client.cc.  Sending, writing and reconnecting do
    what they should; receiving delivers a message only when its bytes are
    exactly those in the buffer. *)
From S2P Require Import Prelude EventBase TimerQueue TimerQueueSpec Kernel IoBuffer BufferPool TcpBuffer.
From S2P Require Import Wire EventLoop EventLoopProps World TcpClient TcpClientSpec.

Section receiving.
Context {K U : Type} `{Kernel K}.
Variable msg_fn : msg_callback → list byte → Z → Z → void_ptr → M (cl_world K U) unit.
Variable client_fn : client_callback → void_ptr → M (cl_world K U) unit.
Variable Inv : cl_world K U → Prop.
Variable log : cl_world K U → list message.
Hypothesis Hobs : cl_observer msg_fn Inv log.
Abbreviation cl_readable := (cl_readable Inv).
Implicit Types w : cl_world K U.

(** When the bytes in the client's buffer are exactly one message with a
    callback, [handle_read] hands it over and leaves the buffer empty; when they
    are fewer than a header, they are kept for the next call. *)
Theorem cl_handle_read_single_frame w bs ys retries fuel :
  cl_readable w bs ys retries →
  (∀ m, cl_receivable w m → bs ++ ys = frame m →
     ∃ w', cl_handle_read msg_fn client_fn (S (S fuel)) retries w = Ok (0, w') ∧
       Inv w' ∧ log w' = log w ++ [m] ∧ holds ibuf_obj [] (cl_bufs w')) ∧
  ((length (bs ++ ys) < 8)%nat →
     ∃ w', cl_handle_read msg_fn client_fn (S (S fuel)) retries w = Ok (0, w') ∧
       Inv w' ∧ log w' = log w ∧ holds ibuf_obj (bs ++ ys) (cl_bufs w')).
Proof.
  intros Hr. destruct (cl_handle_read_run msg_fn client_fn Inv log Hobs w bs ys retries (S (S fuel)) Hr) as (w1 & HI & Hl & Hd & Hk & Hx & ->).
  split.
  - intros m (Hc & Hkn & Hlen) Heq. rewrite <- Hl. apply (cl_rest_deliver msg_fn client_fn Inv log Hobs _ _ (bs ++ ys)); [done..|].
    rewrite Heq, Hk, <- (app_nil_r (frame m)). by apply (cl_decide_frame _ _ []).
  - intros Hs. exists w1. split; [|done]. apply (cl_rest_wait msg_fn client_fn _ _ (bs ++ ys)); [done|].
    unfold cl_decide. by rewrite (proj2 (Z.ltb_lt _ _)) by (unfold COMMU_HEAD_LENGTH; lia).
Qed.

(** C32 Two ways the client loses the framing that the server keeps (the
    comparison of [handle_read] is the wrong way round).  When the buffer holds a
    message and at least one byte more, nothing is delivered and all bytes stay,
    so that nothing is delivered any more until the buffer overflows.  When it
    holds a header and only a part of the payload, it does not wait for the rest, and
    the run leaves the defined behaviour. *)
Theorem cl_handle_read_breaks_framing w bs ys retries fuel m :
  cl_readable w bs ys retries → cl_receivable w m →
  (∀ z zs, bs ++ ys = frame m ++ z :: zs →
     ∃ w', cl_handle_read msg_fn client_fn (S (S fuel)) retries w = Ok (0, w') ∧
       Inv w' ∧ log w' = log w ∧ holds ibuf_obj (bs ++ ys) (cl_bufs w')) ∧
  (∀ n, (8 ≤ n < length (frame m))%nat → bs ++ ys = take n (frame m) →
     cl_handle_read msg_fn client_fn (S (S fuel)) retries w = Fail Undefined).
Proof.
  intros Hr (Hc & Hkn & Hlen).
  destruct (cl_handle_read_run msg_fn client_fn Inv log Hobs w bs ys retries (S (S fuel)) Hr) as (w1 & HI & Hl & Hd & Hk & Hx & ->). split.
  - intros z zs Heq. exists w1. split; [|done]. apply (cl_rest_wait msg_fn client_fn _ _ (bs ++ ys)); [done|].
    rewrite Heq, Hk. by apply (cl_decide_frame _ _ (z :: zs)).
  - intros n Hn Heq. apply (cl_rest_garbage msg_fn client_fn Inv log Hobs _ _ (bs ++ ys)); [done..|].
    rewrite Heq, Hk. by apply cl_decide_partial.
Qed.
End receiving.

Section sending.
Context {K U : Type} `{EpollLaws K} `{!SinkLaws K}.
Variable client_fn : client_callback → void_ptr → M (cl_world K U) unit.
Implicit Types w : cl_world K U.

(** The client's [send_data] appends the frame of the message to the outgoing
    buffer, and starts to watch the socket for writing when that buffer was
    empty; while the connection is down, or when header and payload do not both
    fit in the 4 MB, it returns -1 and changes nothing. *)
Theorem cl_send_data_frames w ob dat cmd :
  holds obuf_obj ob (cl_bufs w) → loop_inv (cl_evs w) →
  let n := Z.of_nat (length dat) in n + COMMU_HEAD_LENGTH ≤ INT_MAX →
  if net_ok (cl w) && (Z.of_nat (length ob) + COMMU_HEAD_LENGTH + n <=? u4M) then
    ∃ w', cl_send_data dat n cmd w = Ok (0, w') ∧ only_obj obuf_obj w w' ∧
      holds obuf_obj (ob ++ frame (cmd, dat)) (cl_bufs w') ∧ loop_inv (cl_evs w') ∧
      (ob = [] → writer (cl_evs w') (cl_sockfd (cl w)) = Some (client_write_cb, v_tcp_client)) ∧
      (ob ≠ [] → cl_evs w' = cl_evs w)
  else cl_send_data dat n cmd w = Ok (-1, w).
Proof.
  intros Hob Hi n Hn. destruct (net_ok (cl w)) eqn:Hok; cbn [andb]; [|by apply (cl_send_refused w ob); [..|left]].
  destruct (Z.leb_spec (Z.of_nat (length ob) + COMMU_HEAD_LENGTH + n) u4M) as [Hfit|Hfull];
    [|by apply (cl_send_refused w ob); [..|right]].
  destruct (cl_send_sends w ob dat cmd Hok Hob Hi Hfit) as (w' & ? & ? & ? & ? & _ & ?). by exists w'.
Qed.
End sending.

Section connecting.
Context {K U : Type} `{EpollLaws K}.
Variable client_fn : client_callback → void_ptr → M (cl_world K U) unit.
Implicit Types w : cl_world K U.
Variable acts : client_callback → void_ptr → U → U.
Abbreviation cl_quiet := (cl_quiet client_fn acts).
Abbreviation called := (called acts).

(** C28 Losing the connection starts a new one: [clean_conn] deregisters and closes
    the socket, calls the user's close callback, once and with its argument, and
    connects again.  While the
    new connection is pending the client is marked as down and only the outcome
    is watched for, with [connection_cb].  Both buffers keep the bytes of the old
    connection.  When [connect] succeeds at once the client is marked as up but
    nothing at all is registered for the new socket, so it never reads; any other
    failure of [connect] stops the process.  The old descriptor is closed twice,
    by [clean_conn] and by [do_connect] (see [connects]). *)
Theorem cl_clean_conn_reconnects w s fd r k :
  let old := cl_sockfd (cl w) in
  old ≠ -1 → loop_inv (cl_evs w) →
  cl_quiet (_onclose (cl w)) (_onclose_args (cl w)) →
  cl_quiet (_onconnection (cl w)) (_onconn_args (cl w)) →
  del_ioev old (cl_evs w) = Ok (tt, s) →
  connects (set_cl_kern (sys_close old (ev_kern s)) w) fd r k →
  fd = old ∨ _io_evs (cl_loop w) !! fd = None →
  let evs := delete old (_io_evs (cl_loop w)) in
  let told_of_close := called (_onclose (cl w)) (_onclose_args (cl w)) (cl_user w) in
  match r with
  | None | Some EINPROGRESS => ∃ w', cl_clean_conn client_fn w = Ok (tt, w') ∧
      loop_inv (cl_evs w') ∧ cl_sockfd (cl w') = fd ∧ cl_bufs w' = cl_bufs w ∧
      net_ok (cl w') = bool_decide (r = None) ∧
      cl_user w' = (if decide (r = None) then called (_onconnection (cl w)) (_onconn_args (cl w)) told_of_close
                    else told_of_close) ∧
      _io_evs (cl_loop w') = if decide (r = None) then evs else <[fd := pending_ev]> evs
  | Some _ => cl_clean_conn client_fn w = Fail Exited
  end.
Proof.
  intros old Hold Hi Hqc Hqo Hdel Hcon Hfd evs u.
  destruct (cl_forget_run w old Hi) as (s' & Hdel' & Hi1 & Hsame & He & Hrun).
  assert (s' = s) as -> by congruence.
  rewrite (cl_clean_conn_start client_fn acts w s Hold Hqc Hrun). fold old u.
  set (s1 := EvSt (sys_close old (ev_kern s)) (ev_loop s)).
  set (w1 := cl_with s1 (set_net_ok false (cl w)) u w).
  assert (Hcon1 : connects w1 fd r k) by exact Hcon.
  rewrite (do_connect_start client_fn w1 fd r k Hcon1).
  set (w2 := cl_with _ _ _ w1).
  assert (Hno : interest (_epfd (ev_loop s)) (ev_kern s) !! old = None).
  { pose proof (loop_mirror _ Hi1) as Hm. unfold interests in Hm. rewrite Hm, He.
    by rewrite lookup_fmap, lookup_delete_eq. }
  assert (Hi2 : loop_inv (cl_evs w2)).
  { destruct s as [ks l]. apply (loop_inv_kern ks); [done|]. simpl in *.
    assert (Hcl : interest (_epfd l) (sys_close old ks) = interest (_epfd l) ks) by by apply interest_close.
    rewrite (connects_interest w1 fd r k) by (done || (simpl; by rewrite Hcl)). exact Hcl. }
  destruct r as [[]|]; try done.
  - destruct (cl_watch_run w2 fd connection_cb EPOLLOUT Hi2 (or_intror eq_refl)) as (s3 & Hr3 & Hi3 & _ & He3).
    eexists. split; [exact Hr3|]. unfold cl_evs. simpl. destruct s3 as [k3 l3]. split_and!; try done.
    rewrite He3. simpl. rewrite He. fold old evs.
    assert (evs !! fd = None) as ->; [|done]. unfold evs.
    destruct Hfd as [-> | Hfd]; [apply lookup_delete_eq|]. by rewrite lookup_delete_None; right.
  - erewrite bind_ok by reflexivity.
    pose proof (cl_quiet_run client_fn acts _ _ (set_cl (set_net_ok true (cl w2)) w2) Hqo) as Hu'.
    eexists. split; [exact Hu'|]. split; [exact Hi2|]. split_and!; done.
Qed.

(** C29 The outcome of a pending connection: when it is established the client is
    marked as up, its callback is called, once and with its argument, the socket is
    watched for reading, and
    for writing exactly when something is already in the outgoing buffer; when it
    has failed, one more connection attempt is scheduled two seconds later and
    the socket is watched for nothing in the meantime. *)
Theorem connection_cb_outcome w fd ob s r k :
  loop_inv (cl_evs w) → holds obuf_obj ob (cl_bufs w) →
  cl_quiet (_onconnection (cl w)) (_onconn_args (cl w)) →
  del_ioev fd (cl_evs w) = Ok (tt, s) → sys_getsockopt_error fd (ev_kern s) = (r, k) →
  (r = 0 → ∃ w', connection_cb_body client_fn fd w = Ok (tt, w') ∧ loop_inv (cl_evs w') ∧
     net_ok (cl w') = true ∧ cl_bufs w' = cl_bufs w ∧
     cl_user w' = called (_onconnection (cl w)) (_onconn_args (cl w)) (cl_user w) ∧
     reader (cl_evs w') fd = Some (client_read_cb, v_tcp_client) ∧
     writer (cl_evs w') fd = if decide (ob = []) then None else Some (client_write_cb, v_tcp_client)) ∧
  (r ≠ 0 → ∀ sec nsec k', can_add_timer (EvSt k (ev_loop s)) sec nsec k' →
     ∃ s' id, connection_cb_body client_fn fd w = Ok (tt, cl_with s' (cl w) (cl_user w) w) ∧
       timer_added (EvSt k (ev_loop s)) k'
         (TimerEvent reconn_cb v_tcp_client (sec * 1000 + nsec / 1000000 + 2000) 0 0) id s' ∧
       _io_evs (ev_loop s') = delete fd (_io_evs (cl_loop w))).
Proof.
  intros Hi Hob Hq Hdel Hsock. pose proof Hob as (b & Hb & Hc & _). pose proof (proj1 Hc) as Hl.
  destruct (connection_cb_start client_fn w fd s r k Hi Hdel Hsock) as (Hi2 & _ & He & Hrun). split.
  - intros ->. rewrite Hrun. cbn [Z.eqb]. erewrite bind_ok by reflexivity.
    set (w1 := cl_with (EvSt k (ev_loop s)) (set_net_ok true (cl w)) (cl_user w) w).
    pose proof (cl_quiet_run client_fn acts _ _ w1 Hq) as Hu. erewrite bind_ok by exact Hu.
    set (u := called _ _ (cl_user w1)). set (w2 := set_cl_user u w1). change (loop_inv (cl_evs w2)) in Hi2.
    destruct (cl_watch_run w2 fd client_read_cb EPOLLIN Hi2 (or_introl eq_refl)) as ([k3 l3] & Hr3 & Hi3 & _ & He3).
    erewrite bind_ok by exact Hr3. set (w3 := ClWorld _ _ _ _ _).
    erewrite bind_ok by exact (cl_buf_run w3 _ b Hb). cbv beta. simpl in He3. rewrite He, lookup_delete_eq in He3.
    destruct (decide (ob = [])) as [->|Hne].
    + rewrite bool_decide_false by (rewrite Hl; tauto). exists w3. unfold reader, writer. simpl.
      rewrite He3, lookup_insert_eq. by split_and!.
    + rewrite bool_decide_true by (destruct ob; [done|simpl in Hl; lia]).
      destruct (cl_watch_run w3 fd client_write_cb EPOLLOUT Hi3 (or_intror eq_refl)) as ([k4 l4] & Hr4 & Hi4 & _ & He4).
      exists (cl_with (EvSt k4 l4) (cl w3) u w). split; [exact Hr4|]. split; [exact Hi4|].
      unfold reader, writer. simpl in He4 |- *. rewrite He4, He3, !lookup_insert_eq. by split_and!.
  - intros Hne sec nsec k' Hadd. by apply (connection_failed_run client_fn w fd s r k sec nsec k').
Qed.
End connecting.

(** ** A concrete client: socket 7 is watched for reading, both buffers are empty *)

Definition sample_objects : buffer_pool :=
  BufferPool {[ibuf_obj := io_buffer_new 4194304; obuf_obj := io_buffer_new 4194304]} 3%positive ∅ 0.
Definition sample_commands : msg_dispatcher := (add_msg_cb 1 (user_msg_cb 0) vnull msg_dispatcher_new).2.

Definition client_record {K} (_ : msg_callback) (dat : list byte) (_ cmd : Z) (_ : void_ptr)
    : M (cl_world K (list message)) unit :=
  w ← get; put (ClWorld (cl_kern w) (cl_bufs w) (cl_loop w) (cl w) (cl_user w ++ [(cmd, dat)])).
Definition client_no_cb {K} (_ : client_callback) (_ : void_ptr) : M (cl_world K (list message)) unit := mret tt.

Definition sample_client {K} (k : K) (lp : event_loop) : cl_world K (list message) :=
  ClWorld k sample_objects lp (TcpClient true 7 sample_commands None vnull None vnull) [].

Lemma sample_holds p : p = ibuf_obj ∨ p = obuf_obj → holds p [] sample_objects.
Proof.
  intros Hp. exists (io_buffer_new 4194304). split; [by destruct Hp as [-> | ->]|].
  split; [|done]. apply contents_nil; simpl; lia.
Qed.

Lemma client_record_observer {K} `{Kernel K} : cl_observer (K:=K) client_record (λ _, True) cl_user.
Proof. split; [done|done|]. intros f args dat cmd w _ _ _. unfold client_record. wp_step. wp_step. by wp_step. Qed.

(** The loop once the connection is established. *)
Definition client_reader : ev_st Script.state :=
  run_state (add_ioev 7 client_read_cb EPOLLIN v_tcp_client) idle.

Lemma client_reader_inv : loop_inv client_reader.
Proof.
  pose proof (add_ioev_spec 7 client_read_cb EPOLLIN v_tcp_client idle idle_inv eq_refl) as Hw.
  destruct (wp_run_state _ _ _ Hw) as (_ & Hi & _). exact Hi.
Qed.

(** The sample, when the kernel has the bytes [ys] to read. *)
Definition client_incoming (ys : list byte) : cl_world Script.state (list message) :=
  sample_client (Script.State [Script.ANum (Z.of_nat (length ys)); Script.ABytes ys] []) (ev_loop client_reader).

Lemma client_incoming_readable ys :
  ys ≠ [] → Z.of_nat (length ys) ≤ u4M → cl_readable (λ _, True) (client_incoming ys) [] ys 1.
Proof.
  intros Hne Hl. split; try done.
  - apply sample_holds. by left.
  - eexists _, 0%nat, _, _. split; [reflexivity|]. split; [apply interrupted_0|]. split; [lia|reflexivity].
Qed.

Lemma cl_handle_read_single_frame_witness :
  ∃ w', cl_handle_read client_record client_no_cb 2 1 (client_incoming (frame (1, [x68; x69]%byte))) = Ok (0, w') ∧
    cl_user w' = [(1, [x68; x69]%byte)].
Proof.
  destruct (cl_handle_read_single_frame client_record client_no_cb (λ _, True) cl_user client_record_observer
    (client_incoming (frame (1, [x68; x69]%byte))) [] (frame (1, [x68; x69]%byte)) 1 0) as [Hone _].
  - apply client_incoming_readable; vm_compute; discriminate.
  - destruct (Hone (1, [x68; x69]%byte)) as (w' & Hr & _ & Hl & _).
    + split; [vm_compute; split; discriminate|]. split; [reflexivity|vm_compute; discriminate].
    + reflexivity.
    + exists w'. split; [exact Hr|exact Hl].
Defined.

Lemma cl_handle_read_breaks_framing_witness :
  let m := (1, [x68; x69]%byte) in
  (∃ w', cl_handle_read client_record client_no_cb 2 1 (client_incoming (frame m ++ frame m)) = Ok (0, w') ∧
     cl_user w' = []) ∧
  cl_handle_read client_record client_no_cb 2 1 (client_incoming (take 9 (frame m))) = Fail Undefined.
Proof.
  intros m. assert (Hm : ∀ ys, cl_receivable (client_incoming ys) m).
  { intros ys. split; [vm_compute; split; discriminate|]. split; [reflexivity|vm_compute; discriminate]. }
  split.
  - destruct (cl_handle_read_breaks_framing client_record client_no_cb (λ _, True) cl_user client_record_observer
      (client_incoming (frame m ++ frame m)) [] (frame m ++ frame m) 1 0 m) as [Hmore _]; [|apply Hm|].
    + apply client_incoming_readable; vm_compute; discriminate.
    + destruct (Hmore x01 (drop 1 (frame m)) eq_refl) as (w' & Hr & _ & Hl & _). exists w'. split; [exact Hr|exact Hl].
  - destruct (cl_handle_read_breaks_framing client_record client_no_cb (λ _, True) cl_user client_record_observer
      (client_incoming (take 9 (frame m))) [] (take 9 (frame m)) 1 0 m) as [_ Hpart]; [|apply Hm|].
    + apply client_incoming_readable; vm_compute; discriminate.
    + apply (Hpart 9%nat); [vm_compute; lia|reflexivity].
Defined.

Lemma cl_send_data_frames_witness :
  ∃ w', cl_send_data [x68; x69]%byte 2 1 (sample_client (ev_kern client_reader) (ev_loop client_reader)) = Ok (0, w') ∧
    holds obuf_obj (frame (1, [x68; x69]%byte)) (cl_bufs w') ∧
    writer (cl_evs w') 7 = Some (client_write_cb, v_tcp_client).
Proof.
  destruct (cl_send_data_frames (sample_client (ev_kern client_reader) (ev_loop client_reader)) []
    [x68; x69]%byte 1) as (w' & Hr & _ & Hh & _ & Hw & _).
  - apply sample_holds. by right.
  - exact client_reader_inv.
  - vm_compute. discriminate.
  - exists w'. split; [exact Hr|]. split; [exact Hh|by apply Hw].
Defined.

(** A user who notes the calls of the connection callbacks. *)
Abbreviation calls := (list (client_callback * void_ptr)).
Definition noted (f : client_callback) (args : void_ptr) (u : calls) : calls := u ++ [(f, args)].
Definition client_note {K} (f : client_callback) (args : void_ptr) : M (cl_world K calls) unit :=
  modify (λ w, set_cl_user (noted f args (cl_user w)) w).

(** The connection is pending on socket 7, as [do_connect] leaves it. *)
Definition client_pending (k : list Script.answer) : cl_world Script.state calls :=
  let s := run_state (add_ioev 7 connection_cb EPOLLOUT v_tcp_client) idle in
  ClWorld (Script.State k (Script.log (ev_kern s))) sample_objects (ev_loop s)
    (TcpClient true 7 sample_commands (Some (user_client_cb 1)) (v_user 1) (Some (user_client_cb 2)) (v_user 2)) [].

Lemma client_note_quiet cb args : cl_quiet (K := Script.state) client_note noted cb args.
Proof. by intros f w _. Qed.

Lemma client_pending_inv k : loop_inv (cl_evs (client_pending k)).
Proof.
  pose proof (add_ioev_spec 7 connection_cb EPOLLOUT v_tcp_client idle idle_inv eq_refl) as Hw.
  destruct (wp_run_state _ _ _ Hw) as (_ & Hi & _).
  refine (loop_inv_kern _ _ _ Hi _). reflexivity.
Qed.

Lemma connection_cb_outcome_witness :
  (∃ w', connection_cb_body client_note 7 (client_pending [Script.ANum 0]) = Ok (tt, w') ∧
     cl_user w' = [(user_client_cb 1, v_user 1)] ∧
     reader (cl_evs w') 7 = Some (client_read_cb, v_tcp_client) ∧ writer (cl_evs w') 7 = None) ∧
  (∃ s' id, connection_cb_body client_note 7 (client_pending [Script.ANum 111; Script.AClock 10 0]) =
       Ok (tt, cl_with s' (cl (client_pending [])) [] (client_pending [])) ∧
     timers (_timer_que (ev_loop s')) = {[id := TimerEvent reconn_cb v_tcp_client 12000 0 id]}).
Proof.
  assert (Hob : holds obuf_obj [] sample_objects) by (apply sample_holds; by right). split.
  - destruct (connection_cb_outcome client_note noted (client_pending [Script.ANum 0]) 7 []
      (run_state (del_ioev 7) (cl_evs (client_pending [Script.ANum 0])))
      0 (Script.State [] (Script.log (ev_kern (run_state (del_ioev 7) (cl_evs (client_pending [])))))))
      as [Hup _]; [apply client_pending_inv|exact Hob|apply client_note_quiet|reflexivity|reflexivity|].
    destruct (Hup eq_refl) as (w' & Hr & _ & _ & _ & Hu & Hrd & Hwr). by exists w'.
  - destruct (connection_cb_outcome client_note noted (client_pending [Script.ANum 111; Script.AClock 10 0]) 7 []
      (run_state (del_ioev 7) (cl_evs (client_pending [Script.ANum 111; Script.AClock 10 0])))
      111 (Script.State [Script.AClock 10 0] (Script.log (ev_kern (run_state (del_ioev 7) (cl_evs (client_pending [])))))))
      as [_ Hdown]; [apply client_pending_inv|exact Hob|apply client_note_quiet|reflexivity|reflexivity|].
    destruct (Hdown ltac:(discriminate) 10 0
      (Script.State [] (Script.log (ev_kern (run_state (del_ioev 7) (cl_evs (client_pending []))))))) as (s' & id & Hr & Ha & _).
    + split_and!; [reflexivity|lia|lia|vm_compute; reflexivity|exact wf_new|reflexivity|reflexivity].
    + exists s', id. split; [exact Hr|]. destruct Ha as (-> & q' & -> & _ & Ht & _). exact Ht.
Defined.

Lemma cl_clean_conn_reconnects_witness :
  ∃ w', cl_clean_conn client_note (client_pending [Script.ANum 7; Script.AErr EINPROGRESS]) = Ok (tt, w') ∧
    cl_user w' = [(user_client_cb 2, v_user 2)] ∧ net_ok (cl w') = false ∧ cl_sockfd (cl w') = 7 ∧ _io_evs (cl_loop w') !! 7 = Some pending_ev.
Proof.
  set (w := client_pending [Script.ANum 7; Script.AErr EINPROGRESS]).
  set (s := run_state (del_ioev 7) (cl_evs w)).
  set (k := run_state (λ k, Ok (sys_connect 7 (sys_socket (sys_close 7 (sys_close 7 (ev_kern s)))).2)) (ev_kern s)).
  destruct (cl_clean_conn_reconnects client_note noted w s 7 (Some EINPROGRESS) k) as (w' & Hr & _ & Hfd & _ & Hok & Hu & He).
  - vm_compute. discriminate.
  - apply client_pending_inv.
  - apply client_note_quiet.
  - apply client_note_quiet.
  - reflexivity.
  - eexists. split; reflexivity.
  - by left.
  - exists w'. split; [exact Hr|]. split; [exact Hu|]. split; [exact Hok|]. split; [exact Hfd|]. rewrite He. reflexivity.
Defined.

(** A socket with room for one byte, watched for writing. *)
Definition pipe_idle : ev_st Pipe.state :=
  EvSt (Pipe.State 1 [] ∅ [] []) (EventLoop 3 ∅ timer_queue_new 4 task_vector_new ∅).
Definition pipe_writer : ev_st Pipe.state :=
  run_state (add_ioev 7 client_write_cb EPOLLOUT v_tcp_client) pipe_idle.

Lemma pipe_writer_inv : loop_inv pipe_writer.
Proof.
  assert (Hi : loop_inv pipe_idle) by (split; simpl; [done|apply map_Forall_empty|by rewrite dom_empty_L|lia]).
  pose proof (add_ioev_spec 7 client_write_cb EPOLLOUT v_tcp_client pipe_idle Hi eq_refl) as Hw.
  destruct (wp_run_state _ _ _ Hw) as (_ & Hi' & _). exact Hi'.
Qed.

(** The sample with [bs] in its outgoing buffer. *)
Definition client_sending (bs : list byte) : cl_world Pipe.state (list message) :=
  run_state (zoom cl_store (append obuf_obj bs)) (sample_client (ev_kern pipe_writer) (ev_loop pipe_writer)).

Lemma client_sending_spec bs :
  Z.of_nat (length bs) ≤ u4M →
  holds obuf_obj bs (cl_bufs (client_sending bs)) ∧ loop_inv (cl_evs (client_sending bs)) ∧
  cl_sockfd (cl (client_sending bs)) = 7 ∧ Pipe.out (cl_kern (client_sending bs)) = [].
Proof.
  intros Hl. destruct (cl_append_run (sample_client (ev_kern pipe_writer) (ev_loop pipe_writer)) obuf_obj [] bs)
    as (b & Hr & Hh); [apply sample_holds; by right|done|].
  unfold client_sending, run_state. rewrite Hr. split; [exact Hh|]. split; [exact pipe_writer_inv|done].
Qed.

Lemma cl_handle_write_example :
  ∃ ob' w', sent 7 (cl_kern w') ++ ob' = [x68; x69]%byte ∧ holds obuf_obj ob' (cl_bufs w') ∧
    (cl_handle_write client_no_cb 3 1 (client_sending [x68; x69]%byte) = (cl_clean_conn client_no_cb ;; mret (-1)) w' ∨
     cl_handle_write client_no_cb 3 1 (client_sending [x68; x69]%byte) = Ok (0, w')).
Proof.
  destruct (client_sending_spec [x68; x69]%byte) as (Hh & Hi & Hfd & Hout); [vm_compute; discriminate|].
  destruct (cl_handle_write_conserves client_no_cb (client_sending [x68; x69]%byte) [x68; x69]%byte 3 1)
    as (ob' & w' & _ & Hh' & Hs & _ & Hend); [exact Hh|discriminate|exact Hi|simpl; lia|simpl; lia|].
  exists ob', w'. rewrite Hfd in Hs. split; [|split; [exact Hh'|]].
  - change (sent 7 (cl_kern (client_sending [x68; x69]%byte))) with
      (Pipe.out (cl_kern (client_sending [x68; x69]%byte))) in Hs. rewrite Hout in Hs. exact Hs.
  - destruct Hend as [Hend|[Hend _]]; [by left|by right].
Qed.
