(* ===== verification/EndToEnd.v ===== *)
(** * A client and a server connection, end to end

    A process that sends with src/tcp_client.cc and one that receives with
    src/tcp_conn.cc, for as long as the connection between them lasts.  The
    network is the stream itself: what the server's kernel delivers is what the
    client's socket has accepted, in order, in pieces of any size. *)
From S2P Require Import Prelude EventBase TimerQueue Kernel IoBuffer BufferPool TcpBuffer.
From S2P Require Import Wire EventLoop EventLoopProps World TcpConn TcpConnSpec TcpConnProps.
From S2P Require Import TcpClient TcpClientSpec TcpClientProps.

Section link.
Context {KC UC KS US : Type} `{EpollLaws KC} `{!SinkLaws KC} `{Kernel KS}.
Variable client_fn : client_callback → void_ptr → M (cl_world KC UC) unit.
Variable msg_fn : msg_callback → list byte → Z → Z → Z → void_ptr → M (world KS US) unit.
Variable conn_fn : conn_callback → Z → M (world KS US) unit.
Variable c : Z.

(** Both processes, the bytes the server has read so far, and the messages
    [send_data] has accepted. *)
Record link := Link {
lk_client : cl_world KC UC;
lk_server : world KS US;
lk_read : list byte;
lk_accepted : list message;
}.

Definition lk_sent (l : link) : list byte :=
  sent (cl_sockfd (cl (lk_client l))) (cl_kern (lk_client l)).

Variable Inv : world KS US → (Z → list ptr) → Prop.
Variable log : world KS US → list delivery.
Hypothesis Hobs : observer msg_fn c Inv log.

(** A message the server has a callback for and which it does not choke on. *)
Definition good (d : msg_dispatcher) (m : message) : Prop := sendable (λ cmd, exist cmd d) m ∧ m.2 ≠ [].
Abbreviation callbacks l := (dispatcher (w_server (lk_server l))).

(** The handlers of the two sides, in any order: the client queues a message; its
    socket is writable; the server's is readable. *)
Inductive link_step : link → link → Prop :=
  | link_send l m r w' :
      good (callbacks l) m →
      cl_send_data m.2 (Z.of_nat (length m.2)) m.1 (lk_client l) = Ok (r, w') →
      link_step l (Link w' (lk_server l) (lk_read l)
        (if r =? 0 then lk_accepted l ++ [m] else lk_accepted l))
  | link_write l fuel retries w' :
      (∀ ob, holds obuf_obj ob (cl_bufs (lk_client l)) → (length ob < fuel)%nat) →
      (patience < retries)%nat →
      cl_handle_write client_fn fuel retries (lk_client l) = Ok (0, w') →
      link_step l (Link w' (lk_server l) (lk_read l) (lk_accepted l))
  | link_read l fuel retries fl x bs ys w' :
      lk_read l ++ ys `prefix_of` lk_sent l →
      readable c Inv (lk_server l) fl x bs ys retries → (length bs + length ys < fuel)%nat →
      handle_read msg_fn conn_fn fuel retries c (lk_server l) = Ok (tt, w') →
      link_step l (Link (lk_client l) w' (lk_read l ++ ys) (lk_accepted l)).

(** A fresh connection: nothing is queued, in flight, or held back. *)
Record link_start (l : link) : Prop := {
  ls_up : net_ok (cl (lk_client l)) = true;
  ls_obuf : holds obuf_obj [] (cl_bufs (lk_client l));
  ls_loop : loop_inv (cl_evs (lk_client l));
  ls_server : ∃ fl, Inv (lk_server l) fl ∧ rx (lk_server l) fl c [];
  ls_log : log (lk_server l) = [];
  ls_read : lk_read l = lk_sent l;
  ls_accepted : lk_accepted l = [];
}.

(** Wherever the bytes are: what the server holds back, what is in flight and what
    the client has queued are the frames of the messages not yet delivered. *)
Definition link_inv (d : msg_dispatcher) (l : link) : Prop :=
  let w := lk_client l in
  ∃ ob rest net dl todo fl,
    net_ok (cl w) = true ∧ holds obuf_obj ob (cl_bufs w) ∧ loop_inv (cl_evs w) ∧
    Inv (lk_server l) fl ∧ rx (lk_server l) fl c rest ∧ callbacks l = d ∧
    lk_sent l = lk_read l ++ net ∧ Forall (good d) (lk_accepted l) ∧
    lk_accepted l = dl ++ todo ∧ log (lk_server l) = (handed d <$> dl) ∧
    (∀ m todo', todo = m :: todo' → (length rest < length (frame m))%nat) ∧
    rest ++ net ++ ob = concat (frame <$> todo).

Lemma link_start_inv l : link_start l → link_inv (callbacks l) l.
Proof.
  intros [Hup Hob Hlp (fl & HI & Hrx) Hlog Hread Hacc]. exists [], [], [], [], [], fl.
  rewrite Hacc, Hlog. split_and!; try done. by rewrite Hread, app_nil_r.
Qed.

Lemma rx_unique (w : world KS US) fl fl' bs bs' : rx w fl c bs → rx w fl' c bs' → bs = bs'.
Proof.
  intros (x & Hx & _ & Ht) (x' & Hx' & _ & Ht'). assert (x' = x) as -> by congruence.
  destruct (ibuf x); simpl in *; [|congruence].
  destruct Ht as (_ & b & ? & _ & Hr), Ht' as (_ & b' & ? & _ & Hr'). congruence.
Qed.

Lemma frames_snoc ms m : concat (frame <$> ms ++ [m]) = concat (frame <$> ms) ++ frame m.
Proof. rewrite fmap_app, concat_app. cbn [fmap list_fmap concat]. by rewrite app_nil_r. Qed.

Lemma inv_send d l m r w' :
  link_inv d l → good d m →
  cl_send_data m.2 (Z.of_nat (length m.2)) m.1 (lk_client l) = Ok (r, w') →
  link_inv d (Link w' (lk_server l) (lk_read l) (if r =? 0 then lk_accepted l ++ [m] else lk_accepted l)).
Proof.
  intros (ob & rest & net & dl & todo & fl & Hup & Hob & Hlp & HI & Hrx & Hk & Hsent & Hg & Hacc & Hlog & Hshort & Hcat) Hm Hr.
  set (w := lk_client l) in *. pose proof (proj1 Hm) as (_ & Hlen & _).
  destruct (decide (Z.of_nat (length ob) + COMMU_HEAD_LENGTH + Z.of_nat (length m.2) ≤ u4M)) as [Hfit|Hfull].
  - destruct (cl_send_sends w ob m.2 m.1 Hup Hob Hlp Hfit) as (w2 & Hr2 & Ho & Hh & Hlp2 & _).
    rewrite Hr2 in Hr. injection Hr as <- <-. exists (ob ++ frame m), rest, net, dl, (todo ++ [m]), fl.
    destruct Ho as (_ & Hcl & _).
    assert (Hq : lk_sent (Link w2 (lk_server l) (lk_read l) (lk_accepted l ++ [m])) = lk_sent l).
    { unfold lk_sent. cbn [lk_client]. rewrite Hcl. by eapply (cl_send_quiet w ob). }
    split; [cbn [lk_client]; by rewrite Hcl|]. destruct m as [cmd dat]. split_and!; try done.
    + exact (eq_trans Hq Hsent).
    + apply Forall_app. by split; [|constructor].
    + cbn [lk_accepted Z.eqb lk_server]. by rewrite Hacc, app_assoc.
    + intros m' todo' Htd. destruct todo as [|m0 todo]; [|injection Htd as <- _; by eapply Hshort].
      apply app_nil in Hcat as [-> _]. rewrite length_frame. simpl. lia.
    + by rewrite frames_snoc, <- Hcat, !app_assoc.
  - unfold MSG_LENGTH_LIMIT, COMMU_HEAD_LENGTH in *.
    rewrite (cl_send_refused w ob m.2 m.1) in Hr by (done || (unfold COMMU_HEAD_LENGTH; int_lia) || (right; unfold COMMU_HEAD_LENGTH; lia)).
    injection Hr as <- <-. exists ob, rest, net, dl, todo, fl. by split_and!.
Qed.

Lemma write_not_empty w fuel retries r w' :
  holds obuf_obj [] (cl_bufs w) → cl_handle_write client_fn fuel retries w ≠ Ok (r, w').
Proof.
  intros (b & Hb & [Hl _] & _) Hr. unfold cl_handle_write in Hr.
  erewrite bind_ok in Hr by exact (cl_buf_run w _ b Hb). cbv beta in Hr. rewrite Hl in Hr. cbn [length Z.of_nat] in Hr.
  rewrite (bool_decide_false (0 ≠ 0)) in Hr by tauto. by rewrite andb_false_r in Hr.
Qed.

(** A connection that is lost makes [handle_write] return -1. *)
Lemma inv_write d l fuel retries w' :
  link_inv d l →
  (∀ ob, holds obuf_obj ob (cl_bufs (lk_client l)) → (length ob < fuel)%nat) → (patience < retries)%nat →
  cl_handle_write client_fn fuel retries (lk_client l) = Ok (0, w') →
  link_inv d (Link w' (lk_server l) (lk_read l) (lk_accepted l)).
Proof.
  intros (ob & rest & net & dl & todo & fl & Hup & Hob & Hlp & HI & Hrx & Hk & Hsent & Hg & Hacc & Hlog & Hshort & Hcat) Hf Hret Hr.
  set (w := lk_client l) in *. unfold lk_sent in Hsent. fold w in Hsent.
  destruct (decide (ob = [])) as [->|Hne]; [by apply write_not_empty in Hr|].
  destruct (cl_handle_write_conserves client_fn w ob fuel retries) as (ob' & w2 & Ho & Hh & Hs & [zs Hz] & Hend);
    [done..|by apply Hf|done|].
  destruct Hend as [Hend|(Hend & Hlp2 & _)]; rewrite Hend in Hr.
  { unfold mbind, M_bind in Hr. by destruct (cl_clean_conn client_fn w2) as [[]|]. }
  injection Hr as ->. destruct Ho as (_ & Hcl & _). rewrite Hz, <- app_assoc in Hs. apply app_inv_head in Hs.
  exists ob', rest, (net ++ zs), dl, todo, fl. unfold lk_sent. cbn [lk_client lk_server lk_read lk_accepted]. rewrite Hcl.
  split_and!; try done.
  - by rewrite Hz, Hsent, app_assoc.
  - by rewrite <- Hcat, <- Hs, <- !app_assoc.
Qed.

Lemma last_good d ms rest todo : Forall (good d) (ms ++ todo) → ¬ ends_empty ms rest.
Proof.
  intros [Hg _]%Forall_app [_ [cmd Hl]]. apply last_Some in Hl as [ms' ->].
  apply Forall_app in Hg as [_ [[_ Hne] _]%Forall_cons]. done.
Qed.

(** What a read of the next bytes does; in particular that it does not fail. *)
Lemma inv_read d l fuel retries fl x bs ys :
  link_inv d l → lk_read l ++ ys `prefix_of` lk_sent l →
  readable c Inv (lk_server l) fl x bs ys retries → (length bs + length ys < fuel)%nat →
  ∃ w', handle_read msg_fn conn_fn fuel retries c (lk_server l) = Ok (tt, w') ∧
    link_inv d (Link (lk_client l) w' (lk_read l ++ ys) (lk_accepted l)).
Proof.
  intros (ob & rest & net & dl & todo & fl0 & Hup & Hob & Hlp & HI & Hrx & Hk & Hsent & Hg & Hacc & Hlog & Hshort & Hcat) [zs Hpre] Hr Hf.
  assert (bs = rest) as -> by by eapply rx_unique; [apply (rd_rx _ _ _ _ _ _ _ _ Hr)|].
  rewrite Hsent, <- app_assoc in Hpre. apply app_inv_head in Hpre as ->.
  rewrite Hacc in Hg. apply Forall_app in Hg as [Hgd Hgt].
  destruct (parse_prefix (known_cmd (lk_server l)) todo (rest ++ ys) (zs ++ ob)) as (ms & todo' & rest' & Hp & -> & Hcat' & Hshort').
  { eapply Forall_impl; [exact Hgt|]. rewrite <- Hk. by intros m []. }
  { by rewrite <- Hcat, !app_assoc. }
  pose proof (handle_read_ok msg_fn conn_fn c Inv log Hobs (lk_server l) fl x rest ys retries fuel ms rest' Hr Hf) as Hrun.
  rewrite decide_False in Hrun by by eapply last_good. specialize (Hrun Hp).
  destruct Hrun as (w' & fl' & x' & Hrun & HI' & Hlog' & Hrx' & Hd & _). exists w'. split; [exact Hrun|].
  exists ob, rest', zs, (dl ++ ms), todo', fl'. cbn [lk_client lk_server lk_read lk_accepted]. split_and!; try done.
  - by rewrite <- Hk.
  - by rewrite <- app_assoc, <- Hsent.
  - rewrite Hacc. by apply Forall_app.
  - by rewrite Hacc, <- app_assoc.
  - by rewrite Hlog', Hlog, fmap_app, Hk.
Qed.

Lemma link_step_inv d l l' : link_inv d l → link_step l l' → link_inv d l'.
Proof.
  intros Hl Hs. assert (Hk : callbacks l = d) by by destruct Hl as (? & ? & ? & ? & ? & ? & _ & _ & _ & _ & _ & Hk & _).
  destruct Hs as [l m r w' Hm Hr|l fuel retries w' Hf Hret Hr|l fuel retries fl x bs ys w' Hpre Hrd Hf Hr].
  - rewrite Hk in Hm. by apply inv_send.
  - by eapply inv_write.
  - destruct (inv_read d l fuel retries fl x bs ys Hl Hpre Hrd Hf) as (w1 & Hr1 & Hl1).
    rewrite Hr1 in Hr. by injection Hr as ->.
Qed.

Lemma link_reachable l0 l : link_start l0 → rtc link_step l0 l → link_inv (callbacks l0) l.
Proof.
  intros Hst%link_start_inv Hsteps. induction Hsteps as [|l1 l2 l3 Hs _ IH]; [done|].
  assert (Hk : callbacks l2 = callbacks l1).
  { pose proof (link_step_inv _ _ _ Hst Hs) as (? & ? & ? & ? & ? & ? & _ & _ & _ & _ & _ & Hk & _). exact Hk. }
  rewrite <- Hk. apply IH. rewrite Hk. by eapply link_step_inv.
Qed.

(** C1 Messages arrive: over a connection that lasts, if the client sends only
    messages that are not empty, not longer than the limit, and of a command the
    server has a callback for: whatever the order in which the user sends, the
    client's socket takes bytes and the server's socket has bytes to read, and
    however the stream is cut into reads, a prefix of the messages [send_data] has
    accepted has been handed to the server's callbacks, in order, each once, with
    exactly its payload, to the callback registered for its command, with the
    argument registered with it.  A read of what the client sent never fails, and
    when the client's buffer is empty and everything the socket took has been
    read, all of them have been delivered.  (Without the condition on the messages
    the server aborts or closes the connection: [handle_read_empty_message_aborts]
    and [handle_read_rejects].) *)
Theorem link_delivers_in_order l0 l :
  link_start l0 → rtc link_step l0 l →
  log (lk_server l) `prefix_of` (handed (callbacks l0) <$> lk_accepted l) ∧
  (holds obuf_obj [] (cl_bufs (lk_client l)) → lk_sent l = lk_read l →
     log (lk_server l) = (handed (callbacks l0) <$> lk_accepted l)) ∧
  (∀ fuel retries fl x bs ys, lk_read l ++ ys `prefix_of` lk_sent l →
     readable c Inv (lk_server l) fl x bs ys retries → (length bs + length ys < fuel)%nat →
     ∃ w', handle_read msg_fn conn_fn fuel retries c (lk_server l) = Ok (tt, w')).
Proof.
  intros Hst Hsteps. pose proof (link_reachable _ _ Hst Hsteps) as Hl. split; [|split].
  - destruct Hl as (? & ? & ? & dl & todo & ? & _ & _ & _ & _ & _ & _ & _ & _ & -> & -> & _).
    rewrite fmap_app. by apply prefix_app_r.
  - intros Hob0 Hread.
    destruct Hl as (ob & rest & net & dl & todo & fl & _ & Hob & _ & _ & _ & _ & Hsent & _ & -> & -> & Hshort & Hcat).
    assert (net = []) as -> by (rewrite Hread in Hsent; apply (app_inv_head (lk_read l)); by rewrite app_nil_r).
    rewrite (holds_unique _ _ _ _ Hob Hob0), !app_nil_r in Hcat.
    destruct todo as [|m todo]; [by rewrite app_nil_r|]. specialize (Hshort m todo eq_refl).
    rewrite Hcat, fmap_cons in Hshort. cbn [concat] in Hshort. rewrite length_app in Hshort. lia.
  - intros. destruct (inv_read _ l fuel retries fl x bs ys Hl) as (w' & Hr & _); [done..|]. by exists w'.
Qed.
End link.
Arguments link KC UC KS US : clear implicits.

(** ** A concrete connection: the socket takes all bytes, one message is sent *)

Definition hello : message := (1, [x68; x69]%byte).

Definition link_client : cl_world Pipe.state (list message) :=
  let s := EvSt (Pipe.State 100 [] ∅ [] []) (EventLoop 3 ∅ timer_queue_new 4 task_vector_new ∅) in
  let s := run_state (add_ioev 7 client_read_cb EPOLLIN v_tcp_client) s in
  sample_client (ev_kern s) (ev_loop s).

Definition link_sample : link Pipe.state (list message) Script.state (list delivery) :=
  Link link_client (incoming (frame hello)) [] [].

Lemma link_sample_start : link_start 7 sample_inv w_user link_sample.
Proof.
  split; try done.
  - apply sample_holds. by right.
  - assert (Hi : loop_inv (EvSt (Pipe.State 100 [] ∅ [] []) (EventLoop 3 ∅ timer_queue_new 4 task_vector_new ∅)))
      by (split; simpl; [done|apply map_Forall_empty|by rewrite dom_empty_L|lia]).
    pose proof (add_ioev_spec 7 client_read_cb EPOLLIN v_tcp_client _ Hi eq_refl) as Hw.
    by destruct (wp_run_state _ _ _ Hw) as (_ & Hi' & _).
  - pose proof (incoming_readable (frame hello) ltac:(done) ltac:(vm_compute; discriminate)) as Hr.
    exists (λ _, []). split; apply Hr.
Qed.

(** The client after [send_data], and after its socket was writable; the server
    after its socket was readable. *)
Definition link_queued := run_state (cl_send_data hello.2 2 1) link_client.
Definition link_flushed := run_state (cl_handle_write client_no_cb 11 1) link_queued.
Definition link_served := run_state (handle_read record_msg no_conn_cb 40 1 7) (incoming (frame hello)).

Lemma link_queued_holds : holds obuf_obj (frame hello) (cl_bufs link_queued).
Proof. eexists. split; [reflexivity|]. split; [by split|done]. Qed.

Abbreviation sample_step := (link_step client_no_cb record_msg no_conn_cb 7 sample_inv).
Abbreviation sample_link := (link Pipe.state (list message) Script.state (list delivery)).

Definition link_1 : sample_link := Link link_queued (incoming (frame hello)) [] [hello].
Definition link_2 : sample_link := Link link_flushed (incoming (frame hello)) [] [hello].
Definition link_3 : sample_link := Link link_flushed link_served (frame hello) [hello].

Lemma sample_sends : sample_step link_sample link_1.
Proof.
  refine (link_send client_no_cb record_msg no_conn_cb 7 sample_inv link_sample hello 0 link_queued _ _); [|by vm_compute].
  split; [|discriminate]. split; [vm_compute; split; discriminate|]. split; [vm_compute; discriminate|reflexivity].
Qed.

Lemma sample_writes : sample_step link_1 link_2.
Proof.
  refine (link_write client_no_cb record_msg no_conn_cb 7 sample_inv link_1 11 1 link_flushed _ _ _); [|simpl; lia|by vm_compute].
  intros ob Hob. rewrite (holds_unique _ _ _ _ Hob link_queued_holds). vm_compute. lia.
Qed.

Lemma sample_reads : sample_step link_2 link_3.
Proof.
  refine (link_read client_no_cb record_msg no_conn_cb 7 sample_inv link_2 40 1 (λ _, []) sample_conn [] (frame hello) link_served _ _ _ _).
  - by exists [].
  - apply incoming_readable; [done|vm_compute; discriminate].
  - vm_compute. lia.
  - by vm_compute.
Qed.

Lemma link_delivers_in_order_witness :
  rtc sample_step link_sample link_3 ∧ w_user (lk_server link_3) = [(Some (user_msg_cb 10), Some vnull, hello)].
Proof.
  assert (Hsteps : rtc sample_step link_sample link_3).
  { eapply rtc_l; [apply sample_sends|]. eapply rtc_l; [apply sample_writes|]. apply rtc_once, sample_reads. }
  split; [exact Hsteps|].
  destruct (link_delivers_in_order client_no_cb record_msg no_conn_cb 7 sample_inv w_user sample_observer
    link_sample link_3 link_sample_start Hsteps) as (_ & Hall & _).
  apply Hall; [|reflexivity].
  eexists. split; [reflexivity|]. split; [by split|done].
Defined.
