(* ===== verification/Program.v ===== *)
(** * The programs: which function runs when the loop calls a handler

    The loop calls handlers through pointers; here the names that stand for them
    are bound to the functions of src/*.cc.  A handler casts its [void*] to the
    class it was registered with: any other object is undefined. *)
From S2P Require Import Prelude EventBase TimerQueue Kernel IoBuffer Wire EventLoop World.
From S2P Require Import TcpConn ThreadPool TcpServer Udp TcpClient.

(** ** A server process *)

Section server.
Context {K U : Type} `{Kernel K}.
Variable msg_fn : msg_callback → list byte → Z → Z → Z → void_ptr → M (world K U) unit.
Variable conn_fn : conn_callback → Z → M (world K U) unit.
Variable timer_fn : nat → timer_callback → void_ptr → M (world K U) unit.
Variable user_io : nat → Z → Z → void_ptr → M (world K U) unit.
Variable call_task : nat → pendingFunc → void_ptr → M (world K U) unit.
(** Bounds on the loops of a handler and on its interrupted calls. *)
Variable fuel retries : nat.
Abbreviation W := (world K U).

Definition tcp_rcb_body (args : void_ptr) : M W unit :=
  match args with v_tcp_conn c => handle_read msg_fn conn_fn fuel retries c | _ => fail Undefined end.

Definition tcp_wcb_body (args : void_ptr) : M W unit :=
  match args with v_tcp_conn c => handle_write conn_fn fuel retries c | _ => fail Undefined end.

Definition accepter_cb_body (args : void_ptr) : M W unit :=
  match args with v_tcp_server => do_accept conn_fn fuel | _ => fail Undefined end.

Definition msg_comming_cb_body (loop : nat) (args : void_ptr) : M W unit :=
  match args with v_thread_queue i => msg_comming conn_fn loop i | _ => fail Undefined end.

(** The handlers of loop [i]; [l0] as in [thread_lens]. *)
Definition server_call_io (i : nat) (l0 : event_loop) (f : io_callback) (fd : Z) (args : void_ptr) : M W unit :=
  match f with
  | timerqueue_cb => timerqueue_cb_body (thread_lens i l0) (timer_fn i)
  | accepter_cb => accepter_cb_body args
  | tcp_rcb => tcp_rcb_body args
  | tcp_wcb => tcp_wcb_body args
  | msg_comming_cb => msg_comming_cb_body i args
  | user_io_cb name => user_io i name fd args
  | _ => fail Undefined
  end.

(** One round of the loop of thread [i]. *)
Definition server_round (i : nat) (l0 : event_loop) : M W unit :=
  process_round (thread_lens i l0) (server_call_io i l0) (call_task i).
End server.

(** ** A client process *)

Section client.
Context {K U : Type} `{Kernel K}.
Variable msg_fn : msg_callback → list byte → Z → Z → void_ptr → M (cl_world K U) unit.
Variable client_fn : client_callback → void_ptr → M (cl_world K U) unit.
Variable user_timer : Z → void_ptr → M (cl_world K U) unit.
Variable user_io : Z → Z → void_ptr → M (cl_world K U) unit.
Variable call_task : pendingFunc → void_ptr → M (cl_world K U) unit.
Variable fuel retries : nat.
Abbreviation W := (cl_world K U).

Definition client_read_cb_body (args : void_ptr) : M W unit :=
  match args with
  | v_tcp_client => cl_handle_read msg_fn client_fn fuel retries ;; mret tt
  | _ => fail Undefined
  end.

Definition client_write_cb_body (args : void_ptr) : M W unit :=
  match args with
  | v_tcp_client => cl_handle_write client_fn fuel retries ;; mret tt
  | _ => fail Undefined
  end.

Definition reconn_cb_body (usr_data : void_ptr) : M W unit :=
  match usr_data with v_tcp_client => do_connect client_fn | _ => fail Undefined end.

Definition client_call_timer (cb : timer_callback) (data : void_ptr) : M W unit :=
  match cb with reconn_cb => reconn_cb_body data | user_timer_cb name => user_timer name data end.

Definition client_call_io (f : io_callback) (fd : Z) (args : void_ptr) : M W unit :=
  match f with
  | timerqueue_cb => timerqueue_cb_body cl_ev client_call_timer
  | connection_cb =>
      match args with v_tcp_client => connection_cb_body client_fn fd | _ => fail Undefined end
  | client_read_cb => client_read_cb_body args
  | client_write_cb => client_write_cb_body args
  | user_io_cb name => user_io name fd args
  | _ => fail Undefined
  end.

Definition client_round : M W unit := process_round cl_ev client_call_io call_task.
End client.

(** ** A UDP process *)

Section udp.
Context {K U : Type} `{Kernel K}.

Definition udp_server_read_cb_body msg_fn fuel (args : void_ptr) : M (udp_world K U udp_server) unit :=
  match args with v_udp_server => udp_server_handle_read msg_fn fuel | _ => fail Undefined end.

Definition udp_client_read_cb_body msg_fn fuel (args : void_ptr) : M (udp_world K U udp_client) unit :=
  match args with v_udp_client => udp_client_handle_read msg_fn fuel | _ => fail Undefined end.
End udp.
