(* ===== verification/ProgramProps.v ===== *)
(** * Rounds of the loop, with the handlers of the programs

    What one round of [process_evs] does when a single descriptor is ready: the
    handler registered for it runs, and then the pending tasks.  With the
    theorems about the handlers this gives the behaviour of a whole process. *)
From S2P Require Import Prelude EventBase TimerQueue HeapFacts TimerHeap TimerQueueSpec TimerQueueProps Kernel IoBuffer BufferPool TcpBuffer BufferProps.
From S2P Require Import Wire EventLoop EventLoopProps World TcpConn TcpConnSpec TcpConnProps.
From S2P Require Import ThreadPool TcpServer TcpClient TcpClientSpec TcpClientProps Program.

(** ** One ready descriptor *)

Section rounds.
Context {K W : Type} `{EpollLaws K} (lp : lens W (ev_st K)).
Variable call_io : io_callback → Z → void_ptr → M W unit.
Variable call_task : pendingFunc → void_ptr → M W unit.
Implicit Types w : W.

(** [epoll_wait] answers with [batch]; [s1] are the loop and the system then. *)
Definition waits w (batch : list (Z * Z)) (s1 : ev_st K) : Prop :=
  let s := view lp w in
  sys_epoll_wait (_epfd (ev_loop s)) MAXEVENTS (ev_kern s) = (inr batch, ev_kern s1) ∧ ev_loop s1 = ev_loop s.

Lemma round_of_one w fd events s1 f args :
  waits w [(fd, events)] s1 → view lp (update lp s1 w) = s1 →
  loop_inv s1 → reported s1 fd events → chosen s1 fd events = Some (f, args) →
  process_round lp call_io call_task w =
    (call_io f fd args ;; run_task lp call_task) (update lp s1 w).
Proof.
  intros [Hw Hl] Hv Hi Hr Hc. unfold process_round.
  erewrite bind_ok by reflexivity. cbv beta.
  assert (Hwait : zoom lp (zoom lp_kern (syscall (sys_epoll_wait (_epfd (ev_loop (view lp w))) MAXEVENTS))) w =
    Ok (inr [(fd, events)], update lp s1 w)).
  { unfold zoom, syscall. cbn [view update lp_kern]. rewrite Hw. destruct s1 as [k1 l1]. simpl in *. by rewrite Hl. }
  erewrite bind_ok by exact Hwait. cbv beta iota. cbn [for_each].
  unfold mbind, M_bind, mret, M_ret. rewrite handle_event_chosen by by rewrite Hv.
  rewrite Hv, Hc. by destruct (call_io f fd args (update lp s1 w)) as [[[] w']|].
Qed.

(** With no task pending, [run_task] does nothing. *)
Lemma run_no_task w :
  tasks (_pendingFactors (ev_loop (view lp w))) = [] → update lp (view lp w) w = w →
  run_task lp call_task w = Ok (tt, w).
Proof.
  intros Ht Hu. unfold run_task. erewrite bind_ok by reflexivity. cbv beta zeta.
  assert (Hloop : ∀ fuel, run_task_loop lp call_task (S fuel)
    (moves (_pendingFactors (ev_loop (view lp w)))) 0 w = Ok (tt, w)).
  { intros fuel. cbn [run_task_loop]. erewrite bind_ok by reflexivity. cbv beta zeta.
    by rewrite bool_decide_true, Ht by done. }
  erewrite bind_ok by apply Hloop. unfold zoom, modify_loop, zoom, modify. cbn [view update lp_loop ev_kern ev_loop].
  do 2 f_equal. etrans; [|exact Hu]. f_equal.
  destruct (view lp w) as [k [e m q t [ts cap mv] ls]]. simpl in *. by subst.
Qed.
End rounds.

(** The loop of thread [i], in a process where that thread has one. *)
#[global] Instance thread_lens_laws {K U} i l0 :
  LensLaws (@thread_lens K U i l0) (λ w, is_Some (w_loops w !! i)).
Proof.
  split; unfold thread_lens, set_loops, set_kern; cbn [view update].
  - intros [k l] w _. simpl. by rewrite lookup_insert_eq.
  - intros w [lp Hlp]. rewrite Hlp. simpl. rewrite insert_id by done. by destruct w.
  - intros s s' w. simpl. by rewrite insert_insert_eq.
  - intros s w _. simpl. rewrite lookup_insert_eq. by eexists.
Qed.

(** The handler of the timerfd: which callbacks it calls, and from which state. *)
Lemma timerqueue_cb_run {K W : Type} `{Kernel K} (lp : lens W (ev_st K)) {valid : W → Prop} `{!LensLaws lp valid} call_timer (w : W) :
  let s := view lp w in
  let q := _timer_que (ev_loop s) in
  wf q → ordered q → _count q ≤ TIMER_LIMIT → _next_timer_id q + _count q ≤ INT_MAX →
  ∃ due rest q', timerqueue_cb_body lp call_timer w =
      for_each due (λ te, call_timer (cb te) (cb_data te))
        (update lp (EvSt (ev_kern s) (set_timer_que q' (ev_loop s))) w) ∧
    _event_lst q ≡ₚ due ++ rest ∧ Forall (λ te, ts te = _pioneer q) due ∧ Forall (λ te, _pioneer q < ts te) rest ∧
    _event_lst q' ≡ₚ renumber (_next_timer_id q) (rearmed due) ++ rest ∧
    wf q' ∧ ordered q' ∧ deadline_exact q'.
Proof.
  intros s q Hq Ho Hlim Hnext.
  destruct (proj1 (wp_elim _ _ _) (get_timo_spec [] q Hq Hlim Hnext))
    as (r & q' & Hrun & due & rest & -> & Hp & Hdue & Hp' & _ & Hw' & Hx & Ho').
  destruct (Ho' Ho) as [Ho1 Hrest]. exists due, rest, q'. split; [|by split_and!].
  unfold timerqueue_cb_body, mbind, M_bind, zoom. cbn [view lp_timers update].
  fold s q. by rewrite Hrun.
Qed.

(** C15 When the timerfd of a loop is ready, and nothing else, the round calls the
    callbacks of exactly the timers that are due, each once, after they have left the
    queue; periodic timers are queued again, later ones stay, and the timerfd is set
    for the next deadline before the first callback runs.  Due are the timers that
    expire at the recorded deadline, for which the timerfd was set; the clock is not
    read.  The heap must be in order, which [del_timer] can break
    ([del_timer_breaks_order]), and neither the number of timers nor their ids near
    [INT_MAX]. *)
Theorem round_fires_timers {K W : Type} `{EpollLaws K} (lp : lens W (ev_st K)) {valid : W → Prop} `{!LensLaws lp valid}
    call_io call_timer call_task (w : W) (s1 : ev_st K) tfd args :
  (∀ fd a, call_io timerqueue_cb fd a = timerqueue_cb_body lp call_timer) → valid w →
  waits lp w [(tfd, EPOLLIN)] s1 → loop_inv s1 → reported s1 tfd EPOLLIN →
  reader s1 tfd = Some (timerqueue_cb, args) →
  let q := _timer_que (ev_loop s1) in
  wf q → ordered q → _count q ≤ TIMER_LIMIT → _next_timer_id q + _count q ≤ INT_MAX →
  ∃ due rest q', process_round lp call_io call_task w =
      (for_each due (λ te, call_timer (cb te) (cb_data te)) ;; run_task lp call_task)
        (update lp (EvSt (ev_kern s1) (set_timer_que q' (ev_loop s1))) w) ∧
    _event_lst q ≡ₚ due ++ rest ∧ Forall (λ te, ts te = _pioneer q) due ∧ Forall (λ te, _pioneer q < ts te) rest ∧
    _event_lst q' ≡ₚ renumber (_next_timer_id q) (rearmed due) ++ rest ∧
    wf q' ∧ ordered q' ∧ deadline_exact q'.
Proof.
  intros Hcall Hval Hw Hi Hrep Hrd q Hq Ho Hlim Hnext.
  pose proof (timerqueue_cb_run lp call_timer (update lp s1 w)) as Hrun. cbv zeta in Hrun.
  rewrite view_update in Hrun by done. destruct (Hrun Hq Ho Hlim Hnext) as (due & rest & q' & Hcb & Hfacts).
  exists due, rest, q'. split; [|exact Hfacts].
  rewrite (round_of_one lp call_io call_task w tfd EPOLLIN s1 timerqueue_cb args) by
    (done || by apply view_update || (unfold chosen; by rewrite Hrd)).
  rewrite Hcall. unfold mbind, M_bind. by rewrite Hcb, update_update.
Qed.

(** ** A client *)

Section client.
Context {K U : Type} `{EpollLaws K}.
Variable msg_fn : msg_callback → list byte → Z → Z → void_ptr → M (cl_world K U) unit.
Variable client_fn : client_callback → void_ptr → M (cl_world K U) unit.
Variable user_timer : Z → void_ptr → M (cl_world K U) unit.
Variable user_io : Z → Z → void_ptr → M (cl_world K U) unit.
Variable call_task : pendingFunc → void_ptr → M (cl_world K U) unit.
Variable fuel retries : nat.
Implicit Types w : cl_world K U.
Abbreviation client_round := (client_round msg_fn client_fn user_timer user_io call_task fuel retries).

#[local] Instance cl_ev_laws : LensLaws (@cl_ev K U) (λ _, True).
Proof. by split; [intros []|intros []|..]. Qed.

(** C14 A client does not give up: when a pending connection has failed, and no
    other timer is running, the timerfd is set to two seconds after the failure,
    and the round in which it is reported calls [do_connect] again, with no timer
    left. *)
Theorem failed_connect_retried w fd s r k sec nsec k' :
  loop_inv (cl_evs w) → _event_lst (_timer_que (cl_loop w)) = [] →
  del_ioev fd (cl_evs w) = Ok (tt, s) → sys_getsockopt_error fd (ev_kern s) = (r, k) → r ≠ 0 →
  can_add_timer (EvSt k (ev_loop s)) sec nsec k' → _next_timer_id (_timer_que (cl_loop w)) + 2 ≤ INT_MAX →
  let due_at := sec * 1000 + nsec / 1000000 + 2000 in
  ∃ w1, connection_cb_body client_fn fd w = Ok (tt, w1) ∧
    _timerfd (_timer_que (cl_loop w1)) = Timespec (due_at / 1000) (due_at mod 1000 * 1000000) ∧
    ∀ s1 tfd args, waits cl_ev w1 [(tfd, EPOLLIN)] s1 → loop_inv s1 → reported s1 tfd EPOLLIN →
      reader s1 tfd = Some (timerqueue_cb, args) →
      ∃ q', wf q' ∧ _event_lst q' = [] ∧
        client_round w1 = (do_connect client_fn ;; run_task cl_ev call_task)
          (cl_with (EvSt (ev_kern s1) (set_timer_que q' (ev_loop s1))) (cl w1) (cl_user w1) w1).
Proof.
  intros Hi Hnil Hdel Hsock Hne Hadd Hid due_at.
  destruct (connection_cb_start client_fn w fd s r k Hi Hdel Hsock) as (_ & (_ & Htq & _) & _ & _).
  destruct (connection_failed_run client_fn w fd s r k sec nsec k' Hi Hdel Hsock Hne Hadd)
    as (s' & id & Hrun & (_ & q & -> & Hq & _ & Hnext & Hfirst) & _).
  destruct Hadd as (_ & Hsec & Hnsec & Hlt & _). cbn [ev_loop] in Hfirst, Hnext. simpl in Htq.
  rewrite Htq in Hfirst, Hnext. destruct (Hfirst Hnil) as [Hone Hpio]. fold due_at in Hone, Hpio. simpl in Hpio.
  pose proof (core_count _ (proj1 Hq)) as Hcnt. rewrite Hone in Hcnt. simpl in Hcnt.
  assert (Hord : ordered q) by (unfold ordered; rewrite Hone; apply heap_ordered_singleton).
  eexists. split; [exact Hrun|]. split.
  - cbn. rewrite (core_timerfd _ (proj1 Hq)), Hpio. unfold timespec_of. rewrite bool_decide_true; [done|].
    unfold UINT64_MAX, INT_MAX in *. lia.
  - intros s1 tfd args Hw Hi1 Hrep Hrd. set (w1 := cl_with _ _ _ w) in *.
    assert (Hl1 : _timer_que (ev_loop s1) = q) by (destruct Hw as [_ ->]; done).
    pose proof (timerqueue_cb_run cl_ev (client_call_timer client_fn user_timer) (update cl_ev s1 w1)) as Hcb.
    cbv zeta in Hcb. rewrite view_update, Hl1 in Hcb by done.
    destruct (Hcb Hq Hord) as (due & rest & q' & Hbody & Hp & Hdue & Hrest & Hp' & Hq' & _);
      [unfold TIMER_LIMIT; lia|lia|].
    rewrite Hone in Hp. apply Permutation_singleton_l in Hp.
    destruct due as [|te due].
    { simpl in Hp. subst rest. apply Forall_cons in Hrest as [Hrest _]. simpl in Hrest. lia. }
    injection Hp as <- Hnone. symmetry in Hnone. apply app_nil in Hnone as [-> ->].
    exists q'. split; [done|]. split; [by apply Permutation_nil_r in Hp'|].
    unfold client_round, Program.client_round.
    rewrite (round_of_one cl_ev _ _ w1 tfd EPOLLIN s1 timerqueue_cb args) by
      (done || by apply view_update || (unfold chosen; by rewrite Hrd)).
    cbn [client_call_io]. unfold mbind, M_bind. rewrite Hbody, update_update. cbn [for_each cb cb_data with_timer_id client_call_timer reconn_cb_body].
    unfold mbind, M_bind, mret, M_ret. change (update cl_ev ?s w1) with (cl_with s (cl w1) (cl_user w1) w1).
    by destruct (do_connect client_fn _) as [[[] w2]|].
Qed.
End client.

(** ** A server *)

Section server.
Context {K U : Type} `{EpollLaws K}.
Variable msg_fn : msg_callback → list byte → Z → Z → Z → void_ptr → M (world K U) unit.
Variable conn_fn : conn_callback → Z → M (world K U) unit.
Variable timer_fn : nat → timer_callback → void_ptr → M (world K U) unit.
Variable user_io : nat → Z → Z → void_ptr → M (world K U) unit.
Variable call_task : nat → pendingFunc → void_ptr → M (world K U) unit.
Variable c : Z.
Variable Inv : world K U → (Z → list ptr) → Prop.
Variable log : world K U → list delivery.
Hypothesis Hobs : observer msg_fn c Inv log.
(** The callbacks leave loop [i] in place and give it no tasks. *)
Variable i : nat.
Hypothesis Hquiet : ∀ w fl, Inv w fl → ∃ l, w_loops w !! i = Some l ∧ tasks (_pendingFactors l) = [].

(** C11 From the readiness of a socket to the user's callback: when epoll reports
    the socket of connection [c] readable, and nothing else, the round of its loop
    finds [tcp_rcb], which reads what the kernel has and hands every message it
    completes to the callback registered for its command, with the argument
    registered with it, in order, each once, and keeps the rest.  The bytes have no
    unacceptable header ([handle_read_rejects]) and do not end with an empty message
    ([handle_read_empty_message_aborts]). *)
Theorem server_round_delivers w l0 l fd k1 fl x bs ys retries fuel ms rest :
  w_loops w !! i = Some l → let s1 := EvSt k1 l in
  sys_epoll_wait (_epfd l) MAXEVENTS (w_kern w) = (inr [(fd, EPOLLIN)], k1) →
  loop_inv s1 → reported s1 fd EPOLLIN → reader s1 fd = Some (tcp_rcb, v_tcp_conn c) →
  readable c Inv (set_kern k1 w) fl x bs ys retries → (length bs + length ys < fuel)%nat →
  parse (known_cmd w) (bs ++ ys) = (ms, rest, Partial) → ¬ ends_empty ms rest →
  ∃ w' fl', server_round msg_fn conn_fn timer_fn user_io call_task fuel retries i l0 w = Ok (tt, w') ∧
    Inv w' fl' ∧ log w' = log (set_kern k1 w) ++ (handed_in w <$> ms) ∧ rx w' fl' c rest.
Proof.
  intros Hl s1 Hwait Hi Hrep Hrd Hread Hf Hp Hne. unfold server_round.
  assert (Hup : update (thread_lens i l0) s1 w = set_kern k1 w).
  { unfold thread_lens, set_loops, set_kern. simpl. by rewrite insert_id. }
  assert (Hview : view (thread_lens i l0) w = EvSt (w_kern w) l) by (simpl; by rewrite Hl).
  rewrite (round_of_one (thread_lens i l0) _ _ w fd EPOLLIN s1 tcp_rcb (v_tcp_conn c)).
  2:{ unfold waits. rewrite Hview. by split. }
  2:{ simpl. by rewrite lookup_insert_eq. }
  2-4: done || (unfold chosen; by rewrite Hrd).
  rewrite Hup.
  pose proof (handle_read_ok msg_fn conn_fn c Inv log Hobs (set_kern k1 w) fl x bs ys retries fuel ms rest Hread Hf Hp) as Hrun.
  rewrite decide_False in Hrun by done. destruct Hrun as (w' & fl' & x' & Hrun & HI & Hlog & Hrx & _).
  exists w', fl'. split; [|done]. erewrite bind_ok by exact Hrun.
  destruct (Hquiet w' fl' HI) as (l' & Hl' & Ht). apply run_no_task; simpl; rewrite Hl'; [done|].
  simpl. unfold set_loops, set_kern. simpl. rewrite insert_id by done. by destruct w'.
Qed.
End server.

(** ** The concrete instances *)

(** A server that notes the callbacks of its timers. *)
Abbreviation noting := (world Script.state (list timer_callback)).
Definition note (_ : nat) (f : timer_callback) (_ : void_ptr) : M noting unit :=
  modify (λ w, set_user (w_user w ++ [f]) w).
Definition no_task {S} (_ : pendingFunc) (_ : void_ptr) : M S unit := mret tt.

(** The queue [sample], its timerfd registered and about to be reported. *)
Definition timer_ready : ev_st Script.state :=
  let s := run_state (add_ioev 4 timerqueue_cb EPOLLIN v_timer_queue) idle in
  EvSt (Script.State [Script.AEvents [(4, EPOLLIN)]] (Script.log (ev_kern s))) (set_timer_que sample (ev_loop s)).

Lemma timer_ready_inv k : loop_inv (EvSt (Script.State k (Script.log (ev_kern timer_ready))) (ev_loop timer_ready)).
Proof.
  pose proof (add_ioev_spec 4 timerqueue_cb EPOLLIN v_timer_queue idle idle_inv eq_refl) as Hw.
  destruct (wp_run_state _ _ _ Hw) as (_ & [Hm Hh Hl Ht] & _). by split.
Qed.

Definition no_io {S} (_ : nat) (_ _ : Z) (_ : void_ptr) : M S unit := mret tt.

(** The loop of its main thread, when the timerfd is ready, and when [epoll_wait] has
    reported it. *)
Definition timer_world (k : list Script.answer) : noting :=
  World (Script.State k (Script.log (ev_kern timer_ready))) bare_pool {[0%nat := ev_loop timer_ready]} ∅ sample_server ∅ [].

Abbreviation noting_loop := (thread_lens (K := Script.state) (U := list timer_callback) 0 (ev_loop idle)).

Lemma round_fires_timers_witness :
  ∃ due rest q', server_round (λ _ _ _ _ _ _, mret tt) (λ _ _, mret tt) note no_io (λ _, no_task) 1 1 0 (ev_loop idle)
      (timer_world [Script.AEvents [(4, EPOLLIN)]]) =
      (for_each due (λ te, note 0 (cb te) (cb_data te)) ;; run_task noting_loop no_task)
        (set_loops {[0%nat := set_timer_que q' (ev_loop timer_ready)]} (timer_world [])) ∧
    let q := _timer_que (ev_loop timer_ready) in
    _event_lst q ≡ₚ due ++ rest ∧ Forall (λ te, ts te = _pioneer q) due ∧ wf q'.
Proof.
  destruct (round_fires_timers noting_loop
    (server_call_io (λ _ _ _ _ _ _, mret tt) (λ _ _, mret tt) note no_io 1 1 0 (ev_loop idle)) (note 0) no_task
    (timer_world [Script.AEvents [(4, EPOLLIN)]])
    (EvSt (Script.State [] (Script.log (ev_kern timer_ready))) (ev_loop timer_ready)) 4 v_timer_queue)
    as (due & rest & q' & Hr & Hp & Hd & _ & _ & Hw & _).
  - done.
  - by eexists.
  - split; reflexivity.
  - apply timer_ready_inv.
  - exists EPOLLIN. split_and!; (reflexivity || discriminate).
  - reflexivity.
  - apply sample_wf.
  - apply sample_wf.
  - vm_compute. discriminate.
  - vm_compute. discriminate.
  - exists due, rest, q'. split; [|split; [exact Hp|split; [exact Hd|exact Hw]]].
    etrans; [exact Hr|]. reflexivity.
Defined.

(** The client of TcpClientProps.v on a loop with its timerfd, 4, the connection on
    socket 7 pending. *)
Definition timed_loop : ev_st Script.state :=
  run_state (add_ioev 7 connection_cb EPOLLOUT v_tcp_client)
    (run_state (add_ioev 4 timerqueue_cb EPOLLIN v_timer_queue) idle).
Definition timed_client (k : list Script.answer) : cl_world Script.state (list message) :=
  sample_client (Script.State k (Script.log (ev_kern timed_loop))) (ev_loop timed_loop).

Lemma timed_client_inv k : loop_inv (cl_evs (timed_client k)).
Proof.
  pose proof (add_ioev_spec 4 timerqueue_cb EPOLLIN v_timer_queue idle idle_inv eq_refl) as Hw.
  destruct (wp_run_state _ _ _ Hw) as (_ & Hi & _).
  pose proof (add_ioev_spec 7 connection_cb EPOLLOUT v_tcp_client _ Hi eq_refl) as Hw2.
  destruct (wp_run_state _ _ _ Hw2) as (_ & Hi2 & _).
  refine (loop_inv_kern _ _ _ Hi2 _). reflexivity.
Qed.

(** What the system answers: the connection was refused, it is 10 s past the epoch,
    and the timerfd is ready. *)
Definition refused : list Script.answer := [Script.ANum 111; Script.AClock 10 0; Script.AEvents [(4, EPOLLIN)]].
Definition after_refusal := run_state (connection_cb_body client_no_cb 7) (timed_client refused).
Definition timer_reported : ev_st Script.state :=
  EvSt (Script.State [] (Script.log (cl_kern after_refusal))) (cl_loop after_refusal).

Lemma timer_reported_inv : loop_inv timer_reported.
Proof.
  destruct (cl_forget_run (timed_client refused) 7 (timed_client_inv _)) as (s & Hdel & Hi & _).
  assert (Hs : s = run_state (del_ioev 7) (cl_evs (timed_client refused))) by (unfold run_state; by rewrite Hdel).
  subst s. destruct Hi as [Hm Hh Hl Ht]. split; [|exact Hh|exact Hl|exact Ht].
  etrans; [|etrans; [exact Hm|]]; vm_compute; reflexivity.
Qed.

Lemma failed_connect_retried_witness :
  connection_cb_body client_no_cb 7 (timed_client refused) = Ok (tt, after_refusal) ∧
  _timerfd (_timer_que (cl_loop after_refusal)) = Timespec 12 0 ∧
  ∃ q', _event_lst q' = [] ∧
    client_round client_record client_no_cb (λ _ _, mret tt) (λ _ _ _, mret tt) no_task 1 1 after_refusal =
      (do_connect client_no_cb ;; run_task cl_ev no_task)
        (cl_with (EvSt (ev_kern timer_reported) (set_timer_que q' (ev_loop timer_reported)))
          (cl after_refusal) (cl_user after_refusal) after_refusal).
Proof.
  set (w := timed_client refused). set (s := run_state (del_ioev 7) (cl_evs w)).
  destruct (failed_connect_retried client_record client_no_cb (λ _ _, mret tt) (λ _ _ _, mret tt) no_task 1 1
    w 7 s 111 (Script.State (drop 1 refused) (Script.log (ev_kern s))) 10 0
    (Script.State (drop 2 refused) (Script.log (ev_kern s)))) as (w1 & Hr & Ht & Hround).
  - apply timed_client_inv.
  - reflexivity.
  - reflexivity.
  - reflexivity.
  - discriminate.
  - split_and!; [reflexivity|lia|lia|vm_compute; reflexivity|exact wf_new|reflexivity|reflexivity].
  - vm_compute. discriminate.
  - assert (w1 = after_refusal) as -> by (unfold after_refusal, run_state; fold w; by rewrite Hr).
    split; [exact Hr|]. split; [exact Ht|].
    destruct (Hround timer_reported 4 v_timer_queue) as (q' & _ & Hnil & Hrun).
    + split; vm_compute; reflexivity.
    + apply timer_reported_inv.
    + exists EPOLLIN. split_and!; (reflexivity || discriminate).
    + reflexivity.
    + exists q'. split; [exact Hnil|exact Hrun].
Defined.

(** [sample_inv], with no task pending. *)
Definition round_inv (w : world Script.state (list delivery)) (fl : Z → list ptr) : Prop :=
  sample_inv w fl ∧ ∃ l, w_loops w !! 0%nat = Some l ∧ tasks (_pendingFactors l) = [].

Lemma round_observer : observer record_msg 7 round_inv w_user.
Proof.
  split.
  - intros w fl x b bp' fl' [HI Ht] Hx Hst.
    by destruct (obs_frame _ _ _ _ sample_observer w fl x b bp' fl' HI Hx Hst) as [HI' Hlog].
  - by intros w fl retries fd ys k' [HI Ht] _.
  - intros func args cmd dat bs w fl [HI Ht] Hrx. unfold record_msg. wp_step. by exists fl.
Qed.

(** [incoming], before [epoll_wait] reports it. *)
Definition about_to_read (ys : list byte) : world Script.state (list delivery) :=
  set_kern (Script.State (Script.AEvents [(7, EPOLLIN)] :: Script.answers (w_kern (incoming ys)))
    (Script.log (ev_kern one_reader))) (incoming ys).

Definition no_timer {S} (_ : nat) (_ : timer_callback) (_ : void_ptr) : M S unit := mret tt.

Lemma server_round_delivers_witness :
  let ys := frame (1, [x68; x69]%byte) ++ take 5 (frame (1, [x6f]%byte)) in
  ∃ w' fl', server_round record_msg no_conn_cb no_timer no_io (λ _, no_task) 40 1 0 (ev_loop one_reader)
      (about_to_read ys) = Ok (tt, w') ∧
    w_user w' = [(Some (user_msg_cb 10), Some vnull, (1, [x68; x69]%byte))] ∧ rx w' fl' 7 (take 5 (frame (1, [x6f]%byte))).
Proof.
  intros ys.
  set (k1 := Script.State (Script.answers (w_kern (incoming ys))) (Script.log (ev_kern one_reader))).
  destruct (server_round_delivers record_msg no_conn_cb no_timer no_io (λ _, no_task) 7 round_inv w_user
    round_observer 0) with (w := about_to_read ys) (l0 := ev_loop one_reader) (l := ev_loop one_reader) (fd := 7)
      (k1 := k1) (fl := λ _ : Z, @nil ptr) (x := sample_conn) (bs := @nil byte) (ys := ys) (retries := 1%nat) (fuel := 40%nat)
      (ms := [(1, [x68; x69]%byte)]) (rest := take 5 (frame (1, [x6f]%byte)))
    as (w' & fl' & Hr & _ & Hlog & Hrx).
  - by intros w fl [_ Ht].
  - reflexivity.
  - reflexivity.
  - refine (loop_inv_kern _ _ _ one_reader_inv _). reflexivity.
  - exists EPOLLIN. split_and!; (reflexivity || discriminate).
  - reflexivity.
  - pose proof (incoming_readable ys ltac:(discriminate) ltac:(vm_compute; discriminate)) as [HI ? ? ? ? ? ? ? ?].
    split; try done. split; [exact HI|]. by exists (ev_loop one_reader).
  - vm_compute. lia.
  - vm_compute. reflexivity.
  - intros [Hrest _]. discriminate Hrest.
  - exists w', fl'. split; [exact Hr|]. split; [exact Hlog|exact Hrx].
Defined.
