(* ===== verification/SafeAccept.v ===== *)
(** * Accepting and handing over connections is safe

    [do_accept] (src/tcp_server.cc) and [msg_comming_cb] (src/thread_pool.cc) in a
    server that is in order (SafeState.v): a new descriptor becomes a connection of
    the thread that accepts it or waits in the queue of a thread of the pool, which
    makes it a connection of its own. *)
From S2P Require Import Prelude EventBase TimerQueue Kernel IoBuffer BufferPool TcpBuffer BufferSafe.
From S2P Require Import Wire EventLoop EventLoopProps Net World TcpConn TcpConnSpec TcpConnProps.
From S2P Require Import ThreadPool TcpServer TcpServerProps SafeState SafeConn.

Section accept.
Context {K U : Type} `{NetLaws K} `{!AcceptEnds K}.
Variable conn_fn : conn_callback → Z → M (world K U) unit.
Hypothesis Hquiet : ∀ cb c, quiet conn_fn cb c.
Implicit Types (w : world K U) (lp : event_loop) (i j : nat) (fl : Z → list ptr).

(** ** A new connection *)

(** The descriptor [fd] can become a connection. *)
Record claim w (fd : Z) : Prop := {
  cm_idle : idle_fd w fd;
  cm_free h : ¬ holds w h fd;
  cm_size : fd < _conns_size (w_server w);
  cm_room : _thd_pool (w_server w) = None → _curr_conns (w_server w) < _max_conns (w_server w);
}.

Lemma on_thread_connected fd i s u p w d j :
  on_thread (connected fd i s u p w) d j ↔ (d = fd ∧ j = i) ∨ (d ≠ fd ∧ on_thread w d j).
Proof.
  unfold on_thread. simpl. destruct (decide (d = fd)) as [->|Hne].
  - rewrite lookup_insert_eq. split; [intros (x & [= <-] & [= <-]); by left|]. intros [[_ ->]|[? _]]; [by eexists|done].
  - rewrite lookup_insert_ne by done. naive_solver.
Qed.

Lemma live_connected fd i s u p w : live_conns (connected fd i s u p w) = {[fd]} ∪ live_conns w.
Proof.
  apply set_eq. intros c. rewrite elem_of_union, elem_of_singleton, !elem_of_live.
  setoid_rewrite on_thread_connected. destruct (decide (c = fd)); naive_solver.
Qed.

Lemma objs_ok_connected w fd i s u p :
  objs_ok w → threads_ok w → claim w fd → objs_ok (connected fd i s u p w).
Proof.
  intros Ho Ht [Hidle Hfree Hsize Hroom]. pose proof (live_connected fd i s u p w) as Hlive.
  assert (Hdead : fd ∉ live_conns w).
  { rewrite elem_of_live. intros [j Hj]. by eapply idle_not_live. }
  assert (Hn : size (live_conns (connected fd i s u p w)) = S (size (live_conns w))).
  { rewrite Hlive, size_union by set_solver. by rewrite size_singleton. }
  destruct Ho. split; try done; rewrite ?Hn; simpl.
  - intros c x [[<- <-]|[_ Hx]]%lookup_insert_Some; [left; by split|by apply ob_state].
  - intros fd' c [[<- <-]|[_ Hc]]%lookup_insert_Some.
    + split; [done|]. rewrite lookup_insert_eq. by eexists.
    + destruct (ob_slots fd' c Hc) as [-> ?]. split; [done|by apply objs_insert].
  - rewrite Hlive. intros c [->%elem_of_singleton|Hc]%elem_of_union; [|by apply ob_range].
    destruct Hidle. lia.
  - lia.
  - intros Hnp. specialize (Hroom Hnp). lia.
Qed.

Lemma bufs_ok_connected w fl fd i s u p : bufs_ok w fl → bufs_ok (connected fd i s u p w) fl.
Proof.
  intros [Hp Hb Ha]. split; simpl; [done|..].
  - intros c x sd [[<- <-]|[_ Hx]]%lookup_insert_Some; [exists []; by destruct sd|by eapply Hb].
  - intros c x sd c' x' sd' [[<- <-]|[_ Hx]]%lookup_insert_Some [[<- <-]|[_ Hx']]%lookup_insert_Some Hne.
    + by destruct sd.
    + by destruct sd.
    + intros q Hq. by destruct sd'.
    + by eapply Ha.
Qed.

Lemma acted_connected w fd i lp (k : K) (s : ev_st K) u p :
  calm (w_kern w) k → loop_inv s → same_rest (EvSt (w_kern w) lp) s → by_ctl (EvSt k lp) s →
  _io_evs (ev_loop s) = <[fd := added tcp_rcb EPOLLIN (v_tcp_conn fd) None]> (_io_evs lp) →
  acted i fd lp (ev_loop s) w (connected fd i s u p w).
Proof.
  intros [Hint Hop] Hi Hrest Hctl He. split; try done; simpl.
  - by destruct s.
  - intros e f Hne _. rewrite <- Hint. destruct Hctl as [Hk | (op & fd' & ev & Hk)]; rewrite Hk; [done|].
    by rewrite epoll_other.
  - intros f _ Hf. apply (ctl_ind (is_open f) _ _ Hctl); [by apply Hop|]. intros. by apply open_epoll.
  - intros fd' Hne. by rewrite He, lookup_insert_ne.
  - intros d j Hne. rewrite on_thread_connected. tauto.
  - rewrite He, lookup_insert_eq. split; [|by split]. rewrite on_thread_connected. by left.
Qed.

Lemma calm_opened c fd (k : K) : calm_for c k (opened fd k).
Proof. unfold opened. etrans; [apply calm_for_nonblock|apply calm_for_setsockopt]. Qed.

(** A descriptor that was no connection is one now; the connections there were are
    not touched. *)
Lemma spares_connected w fd i lp (s : ev_st K) u p c :
  threads_ok w → idle_fd w fd → by_ctl (EvSt (opened fd (w_kern w)) lp) s → spares c w (connected fd i s u p w).
Proof.
  intros Ht Hidle Hctl d j _ Hon. assert (Hne : fd ≠ d) by (intros ->; by eapply idle_not_live).
  split; [simpl; by rewrite lookup_insert_ne|]. split; [done|]. simpl. rewrite (ctl_sent _ _ d Hctl).
  apply (proj2 (calm_opened (d + 1) fd (w_kern w))). lia.
Qed.

(** What a new connection leaves to others. *)
Record joined w w' (fd : Z) : Prop := {
  jo_kept i c : kept i c w w';
  jo_idle f : f ≠ fd → idle_fd w f → idle_fd w' f;
  jo_holds h f : holds w' h f → holds w h f;
  jo_queued : (arriving (w_kern w') ≤ arriving (w_kern w))%nat;
  jo_server : same_server w w';
}.

(** Setting up a connection on thread [i]. *)
Lemma setup_conn_safe w fl i fd :
  server_ok w fl → is_Some (w_loops w !! i) → claim w fd →
  wp (conn ← conns_at fd;
      match conn with
      | Some c => init conn_fn c fd i
      | None => c ← new_tcp_conn conn_fn fd i; conns_put fd c
      end) (λ _ w', server_ok w' fl ∧ joined w w' fd) w.
Proof.
  intros Hok [lp Hlp] Hcl. pose proof Hok as [Ho Hb Ht]. pose proof Hcl as [Hidle Hfree Hsize Hroom].
  pose proof (server_loop_ok _ _ _ _ Hok Hlp) as Hl.
  pose proof (idle_unregistered w i lp fd Hl Hidle) as Hnone.
  pose proof (owned_idle w fd i lp Ht Hlp Hidle Hfree) as Hown.
  pose proof (loop_inv_opened fd _ _ (lo_inv _ _ _ Hl)) as Hi.
  pose proof (add_ioev_spec fd tcp_rcb EPOLLIN (v_tcp_conn fd) _ Hi eq_refl)
    as ([] & s & Hadd & His & Hsame & He)%wp_elim. cbn [ev_loop] in He. rewrite Hnone in He.
  pose proof (add_ioev_ctl _ _ _ _ _ _ Hadd) as Hctl.
  pose proof (objs_ok_connected w fd i s (w_user w) vnull Ho Ht Hcl) as Ho'.
  pose proof (size_live _ Ho') as Hcur. simpl in Hcur.
  eapply (setup_conn_spec conn_fn fd w i lp s); try done.
  - destruct Hidle. lia.
  - intros c Hc. destruct (ob_slots _ Ho fd c Hc) as [-> [x Hx]]. split; [done|]. exists x. split; [done|].
    eapply dead_conn; [done..|]. intros j. by apply idle_not_live.
  - int_lia.
  - intros u p. assert (Hac : acted i fd lp (ev_loop s) w (connected fd i s u p w)).
    { eapply acted_connected; [apply (calm_opened 0)|done..]. }
    split; [split|split].
    + by eapply objs_ok_connected.
    + by apply bufs_ok_connected.
    + by eapply acted_threads.
    + intros j c. eapply acted_kept_all; [exact Hown|exact Hac|..].
      * intros d. apply objs_insert.
      * intros ev Hev. congruence.
      * by eapply spares_connected.
    + intros f. by eapply acted_idle.
    + intros h f. by eapply acted_holds.
    + simpl. pose proof (arriving_setsockopt fd (sys_set_nonblock fd (w_kern w))). pose proof (arriving_nonblock fd (w_kern w)).
      transitivity (arriving (opened fd (w_kern w))); [|unfold opened; lia].
      apply (ctl_ind (λ k, (arriving k ≤ arriving (opened fd (w_kern w)))%nat) _ _ Hctl); [done|].
      intros e op fd' ev k Hk. pose proof (arriving_epoll e op fd' ev k). lia.
    + done.
Qed.

(** ** Handing over *)

(** The process after the main thread sent [fd] to thread [t]. *)
Definition sent_to (t : nat) (tq : thread_queue) (p : thread_pool) w : world K U :=
  set_queues (<[t := tq]> (w_queues w)) (set_server (set_thd_pool (Some p) (w_server w)) w).

Lemma threads_ok_sent w fd t tq tq' p p' :
  threads_ok w → claim w fd → _thd_pool (w_server w) = Some p → w_queues w !! t = Some tq →
  _evfd tq' = _evfd tq → _queue tq' = _queue tq ++ [NEW_CONN fd] →
  0 ≤ _curr_index p' ≤ _thread_cnt p → _thread_cnt p' = _thread_cnt p →
  threads_ok (sent_to t tq' p' w).
Proof.
  intros Ht [Hidle Hfree Hsize _] Hp Hq Hev Hqu Hc Hn.
  assert (Hget : ∀ q x, <[t := tq']> (w_queues w) !! q = Some x →
    ∃ x0, w_queues w !! q = Some x0 ∧ _evfd x = _evfd x0 ∧
      _queue x = _queue x0 ++ (if decide (q = t) then [NEW_CONN fd] else [])).
  { intros q x [[<- <-]|[Hne Hx]]%lookup_insert_Some.
    - exists tq. rewrite decide_True by done. auto.
    - exists x. rewrite decide_False, app_nil_r by done. auto. }
  assert (Hhold : ∀ h f, holds (sent_to t tq' p' w) h f → holds w h f ∨ (h = Mailbox t ∧ f = fd)).
  { intros [q|q] f; simpl.
    - intros (x & (x0 & Hx0 & _ & ->)%Hget & [Hin|Hin]%elem_of_app); [left; by exists x0|].
      destruct (decide (q = t)) as [->|]; [|by apply elem_of_nil in Hin].
      right. apply list_elem_of_singleton in Hin. by injection Hin as ->.
    - intros (x & (x0 & Hx0 & He & _)%Hget & Hnone & <-). left. by exists x0. }
  assert (Hsome : ∀ q, is_Some (w_queues w !! q) → is_Some (<[t := tq']> (w_queues w) !! q)).
  { intros q ?. apply lookup_insert_is_Some. destruct (decide (t = q)); auto. }
  destruct Ht. split; try done; simpl.
  - intros i lp Hlp. destruct (th_loops i lp Hlp) as [? ? ? ? Hent]. split; try done.
    intros f ev Hf. by eapply entry_ok_mono; [apply Hent|..].
  - intros h f [Hh|[-> ->]]%Hhold; [|done]. by apply (th_idle h).
  - intros h h' f [Hh|[-> ->]]%Hhold [Hh'|[-> Hf]]%Hhold; [by eapply th_once|subst; by destruct (Hfree h)|by destruct (Hfree h')|done].
  - intros q x (x0 & Hx0 & _ & ->)%Hget. specialize (th_nodup q x0 Hx0). case_decide; [|by rewrite app_nil_r].
    apply NoDup_app. split; [done|]. split; [|apply NoDup_singleton]. intros m Hm ->%list_elem_of_singleton.
    apply (Hfree (Mailbox q)). by exists x0.
  - intros q x m (x0 & Hx0 & _ & ->)%Hget [Hm|Hm]%elem_of_app.
    + destruct (th_msgs q x0 m Hx0 Hm) as (f & ? & ? & ?). exists f. by split_and!.
    + case_decide; [|by apply elem_of_nil in Hm]. apply list_elem_of_singleton in Hm as ->. exists fd. by split_and!.
  - intros p0 [= <-]. destruct (th_pool p Hp) as (_ & Hpos & Hqs). unfold pool_ok. rewrite Hn.
    split; [done|]. split; [done|]. intros t' Ht'. simpl. by apply Hsome, Hqs.
Qed.

Lemma server_ok_sent w fl fd t tq tq' p p' :
  server_ok w fl → claim w fd → _thd_pool (w_server w) = Some p → w_queues w !! t = Some tq →
  _evfd tq' = _evfd tq → _queue tq' = _queue tq ++ [NEW_CONN fd] →
  0 ≤ _curr_index p' ≤ _thread_cnt p → _thread_cnt p' = _thread_cnt p →
  server_ok (sent_to t tq' p' w) fl.
Proof.
  intros [Ho Hb Ht] ? ? ? ? ? ? ?. split; [by destruct Ho|by destruct Hb|by eapply threads_ok_sent].
Qed.

(** ** Accepting *)

(** What accepting does: the registrations of all descriptors stay, and no
    connection is added to those that wait. *)
Definition accept_after w w' : Prop :=
  ∃ fl', server_ok w' fl' ∧ (∀ i c, kept i c w w') ∧ (arriving (w_kern w') ≤ arriving (w_kern w))%nat.

Lemma place_conn_safe w fl fd :
  server_ok w fl → claim w fd → wp (place_conn conn_fn fd) (λ _ w', accept_after w w') w.
Proof.
  intros Hok Hcl. pose proof (so_threads _ _ Hok) as Ht. destruct (th_main _ Ht) as [Hmain Hl0].
  unfold place_conn. do 2 wp_step. destruct (_thd_pool (w_server w)) as [p|] eqn:Hp.
  - destruct (th_pool _ Ht p Hp) as (Hc & Hpos & Hqs). unfold get_next_thread, mbind, M_bind, get, put, mret, M_ret.
    set (i := if _curr_index p =? _thread_cnt p then 0 else _curr_index p).
    assert (Hi : 0 ≤ i < _thread_cnt p) by (unfold i; destruct (Z.eqb_spec (_curr_index p) (_thread_cnt p)); lia).
    destruct (Hqs (Z.to_nat i)) as [tq Htq]; [lia|]. unfold on_queue, modify_server.
    unfold wp. unfold mbind, M_bind, get, modify, put, mret, M_ret, from_option_or. cbn [set_server w_queues]. rewrite Htq.
    cbn [send_msg]. unfold accept_after. exists fl.
    assert (Hev : ∀ x, _evfd (eventfd_write x) = _evfd x ∧ _queue (eventfd_write x) = _queue x)
      by (intros x; unfold eventfd_write; by case_match).
    split; [|split; [intros j c; by apply kept_same, spares_same|done]].
    eapply (server_ok_sent w fl fd (Z.to_nat i) tq _ p (ThreadPool (i + 1) (_thread_cnt p))); try done.
    + by rewrite (proj1 (Hev _)).
    + by rewrite (proj2 (Hev _)).
    + simpl. lia.
  - rewrite Hmain. eapply wp_mono; [by apply (setup_conn_safe w fl 0 fd)|].
    intros [] w' [Hok' [? _ _ ? _]]. by exists fl.
Qed.

Lemma claim_kern w fd k' : claim w fd → calm (w_kern w) k' → claim (set_kern k' w) fd.
Proof.
  intros [(? & ? & Hn) Hfree ? ?] [Hint Hop]. split; [|done..].
  split; [done|]. split; [by apply Hop|]. intros e. simpl. by rewrite Hint.
Qed.

(** Closing a descriptor that no loop watches and that does not wait. *)
Lemma server_ok_close w fl fd :
  server_ok w fl → (∀ i lp, w_loops w !! i = Some lp → _io_evs lp !! fd = None) → (∀ h, ¬ holds w h fd) →
  server_ok (set_kern (sys_close fd (w_kern w)) w) fl.
Proof.
  intros [Ho Hb Ht] Hn Hh. split; [by destruct Ho|by destruct Hb|]. destruct Ht. split; try done; simpl.
  - intros i lp Hlp. pose proof (th_loops i lp Hlp) as Hl. pose proof Hl as [Hi ? ? ? Hent]. split; try done.
    + apply (loop_inv_kern (w_kern w)); [done|]. apply interest_close. apply (interest_none_unregistered w i); [done|by eapply Hn].
    + intros f ev Hf. by eapply entry_ok_mono; [apply Hent|..].
  - intros h f Hf. destruct (th_idle h f Hf) as (Hpos & Hop & Hnf).
    assert (f ≠ fd) by (intros ->; by destruct (Hh h)). split; [done|].
    split; [by apply open_close|]. intros e. simpl. by rewrite close_others.
Qed.

Lemma admit_conn_swp w fl fd :
  server_ok w fl → idle_fd w fd → (∀ h, ¬ holds w h fd) →
  swp (admit_conn conn_fn fd) (λ _ w', accept_after w w') w.
Proof.
  intros Hok Hidle Hfree. unfold admit_conn, get_conn_num. do 4 swp_step.
  destruct (Z.leb_spec (_max_conns (w_server w)) (_curr_conns (w_server w))) as [|Hroom].
  { unfold close_fd. swp_step. exists fl. split.
    { apply server_ok_close; [done| |done]. intros i lp Hlp. by apply (idle_unregistered w i lp fd (server_loop_ok _ _ _ _ Hok Hlp)). }
    split; [intros j c; apply kept_same, spares_same, mute_close; done|apply arriving_close]. }
  swp_step. apply swp_assert. intros Hsize%Z.ltb_lt. swp_step.
  set (k2 := if _keepalive (w_server w) then (sys_setsockopt fd (w_kern w)).2 else w_kern w).
  assert (Hrun : when (_keepalive (w_server w)) (zoom w_kernel (syscall (sys_setsockopt fd)) ;; mret tt) w =
    Ok (tt, set_kern k2 w)).
  { unfold when, k2. destruct (_keepalive (w_server w)); [|by destruct w].
    unfold zoom, syscall, mbind, M_bind, mret, M_ret. simpl. by destruct (sys_setsockopt fd (w_kern w)). }
  assert (Hk2 : ∀ c, calm_for c (w_kern w) k2).
  { intros c. unfold k2. destruct (_keepalive (w_server w)); [apply calm_for_setsockopt|done]. }
  assert (Hq2 : (arriving k2 ≤ arriving (w_kern w))%nat).
  { unfold k2. destruct (_keepalive (w_server w)); [apply arriving_setsockopt|done]. }
  apply (swp_run _ (mret tt) _ _ (set_kern k2 w) Hrun), swp_ret, wp_swp.
  eapply wp_mono; [apply (place_conn_safe (set_kern k2 w) fl fd)|].
  - apply server_ok_kern; [done|apply (Hk2 0)].
  - apply claim_kern; [done|apply (Hk2 0)].
  - intros [] w' (fl' & Hok' & Hk' & Hq'). exists fl'. split; [done|]. split; [|simpl in *; lia].
    intros j c. eapply (kept_trans j c w (set_kern k2 w)); [apply kept_same, spares_same, Hk2; done|apply Hk'].
Qed.

(** Every answer of [accept] but the last leaves fewer that wait. *)
Hypothesis Hfds : descriptors_suffice K.
Lemma do_accept_loop_swp : ∀ fuel w fl,
  server_ok w fl → (arriving (w_kern w) < fuel)%nat →
  swp (do_accept_loop conn_fn fuel false) (λ _ w', ∃ fl', server_ok w' fl' ∧ ∀ i c, kept i c w w') w.
Proof.
  induction fuel as [|fuel IH]; intros w fl Hok Hf; [lia|]. cbn [do_accept_loop].
  do 4 swp_step. cbn [view w_kernel]. set (fd := _sockfd (w_server w)).
  pose proof (calm_accept fd (w_kern w)) as Hcalm. pose proof (λ c, proj2 (calm_for_accept c fd (w_kern w))) as Hmute.
  destruct (sys_accept fd (w_kern w)) as [r k1] eqn:Ha. unfold swp at 1, syscall. rewrite Ha. cbn [update w_kernel].
  cbn [snd] in Hcalm, Hmute. assert (Hok1 : server_ok (set_kern k1 w) fl) by by apply server_ok_kern.
  assert (Hk1 : ∀ j c, kept j c w (set_kern k1 w)) by (intros j c; by apply kept_same, spares_same, Hmute).
  destruct r as [e|c].
  - destruct (decide (e = EAGAIN)) as [->|Hne]; [swp_step; by exists fl|].
    pose proof (Hfds _ _ _ _ Ha) as Hem. pose proof (arriving_accept _ _ _ _ Ha ltac:(congruence)) as Hq.
    destruct e; try done; try by right.
    eapply swp_mono; [apply (IH _ fl Hok1); simpl; lia|]. intros [] w' (fl' & ? & Hk).
    exists fl'. split; [done|]. intros j c. eapply kept_trans; [apply Hk1|apply Hk].
  - destruct (accept_fresh _ _ _ _ Ha) as (Hc & Hfr & Hno & Hop).
    pose proof (arriving_accept _ _ _ _ Ha ltac:(done)) as Hq. swp_step.
    eapply swp_mono; [apply (admit_conn_swp (set_kern k1 w) fl c Hok1)|].
    { split; [done|]. split; [done|]. intros e. cbn [w_kern set_kern]. by rewrite (proj1 Hcalm). }
    { intros h Hh. apply Hno. apply (th_idle _ (so_threads _ _ Hok) h c). by destruct h. }
    intros [] w2 (fl2 & Hok2 & Hk2 & Hq2). simpl in Hq2.
    eapply swp_mono; [apply (IH w2 fl2 Hok2); lia|]. intros [] w' (fl' & ? & Hk).
    exists fl'. split; [done|]. intros j c'.
    eapply kept_trans; [apply Hk1|]. eapply kept_trans; [apply Hk2|apply Hk].
Qed.

(** ** Taking over *)

(** The process after thread [q] took the messages out of its queue. *)
Definition received (q : nat) (tq : thread_queue) w : world K U :=
  set_queues (<[q := set_ev_count 0 (set_queue [] tq)]> (w_queues w)) w.

Lemma received_holds w q tq h f :
  w_queues w !! q = Some tq → holds (received q tq w) h f → holds w h f ∧ h ≠ Mailbox q.
Proof.
  intros Hq. destruct h as [q'|q']; simpl.
  - intros (x & [[<- <-]|[Hne Hx]]%lookup_insert_Some & Hin); [by apply elem_of_nil in Hin|].
    split; [by exists x|congruence].
  - intros (x & [[<- <-]|[Hne Hx]]%lookup_insert_Some & Hnone & <-); (split; [|done]); [by exists tq|by exists x].
Qed.

Lemma server_ok_received w fl q tq :
  server_ok w fl → w_queues w !! q = Some tq →
  server_ok (received q tq w) fl ∧ NoDup (_queue tq) ∧
  ∀ m, m ∈ _queue tq → ∃ fd, m = NEW_CONN fd ∧ claim (received q tq w) fd ∧ is_Some (_thd_pool (w_server w)).
Proof.
  intros [Ho Hb Ht] Hq. split; [split; [by destruct Ho|by destruct Hb|]|split; [by apply (th_nodup _ Ht q)|]].
  - assert (Hsome : ∀ q', is_Some (w_queues w !! q') → is_Some (w_queues (received q tq w) !! q')).
    { intros q' ?. apply lookup_insert_is_Some. destruct (decide (q = q')); auto. }
    assert (Hget : ∀ q' x, w_queues (received q tq w) !! q' = Some x → _queue x = [] ∨ w_queues w !! q' = Some x).
    { intros q' x. cbn [received set_queues w_queues]. intros [[<- <-]|[_ Hx]]%lookup_insert_Some; auto. }
    destruct Ht. split; try done.
    + intros i lp Hlp. destruct (th_loops i lp Hlp) as [? ? ? ? Hent]. split; try done.
      intros f ev Hf. by eapply entry_ok_mono; [apply Hent|..].
    + intros h f [Hh _]%(received_holds w q tq h f Hq). by apply (th_idle h).
    + intros h h' f [Hh _]%(received_holds w q tq h f Hq) [Hh' _]%(received_holds w q tq h' f Hq). by eapply th_once.
    + intros q' x [->|Hx]%Hget; [constructor|by apply (th_nodup q')].
    + intros q' x m [Hx|Hx]%Hget Hm; [rewrite Hx in Hm; by apply elem_of_nil in Hm|by eapply th_msgs].
    + intros p Hp. destruct (th_pool p Hp) as (? & ? & Hqs). split; [done|]. split; [done|]. intros t Hlt. by apply Hsome, Hqs.
  - intros m Hm. destruct (th_msgs _ Ht q tq m Hq Hm) as (fd & -> & Hsize & Hpool). exists fd. split; [done|]. split; [|done].
    assert (Hh : holds w (Mailbox q) fd) by by exists tq. split.
    + apply (th_idle _ Ht _ _ Hh).
    + intros h [Hh' Hne]%(received_holds w q tq h fd Hq). apply Hne. by eapply th_once.
    + done.
    + intros Hnone. simpl in Hnone. rewrite Hnone in Hpool. by destruct Hpool.
Qed.

Lemma claim_joined w w' fd f :
  joined w w' fd → claim w f → f ≠ fd → is_Some (_thd_pool (w_server w)) → claim w' f.
Proof.
  intros [_ Hi Hh _ (_ & Hs & Hp)] [Hidle Hfree Hsize _] Hne [p Hpool]. split.
  - by apply Hi.
  - intros h Hh'%Hh. by apply (Hfree h).
  - by rewrite Hs.
  - rewrite Hp, Hpool. done.
Qed.

(** [msg_comming_cb] of thread [i], for the queue at index [q]. *)
Lemma msg_comming_swp w fl i q :
  server_ok w fl → is_Some (w_loops w !! i) → is_Some (w_queues w !! q) →
  swp (msg_comming conn_fn i q) (λ _ w', ∃ fl', server_ok w' fl' ∧ ∀ j c, kept j c w w') w.
Proof.
  intros Hok Hlp [tq Hq]. destruct (server_ok_received w fl q tq Hok Hq) as (Hok1 & Hnd & Hmsgs).
  set (w1 := received q tq w) in *.
  assert (Hrecv : on_queue q (recv_msg []) w = Ok (_queue tq, w1)).
  { unfold on_queue, mbind, M_bind, get. by rewrite Hq. }
  unfold msg_comming. swp_step. apply (swp_run _ (mret (_queue tq)) _ w w1 Hrecv). swp_step.
  set (I := λ (msgs : list queue_msg) w', server_ok w' fl ∧ (∀ j c, kept j c w w') ∧ NoDup msgs ∧
    ∀ m, m ∈ msgs → ∃ fd, m = NEW_CONN fd ∧ claim w' fd ∧ is_Some (_thd_pool (w_server w'))).
  eapply swp_mono; [apply (swp_for_each I)|].
  - split; [done|]. split; [intros j c; by apply kept_same, spares_same|]. by split.
  - intros m msgs w2 (Hok2 & Hk2 & [Hm Hnd2]%NoDup_cons & Hall).
    destruct (Hall m) as (fd & -> & Hcl & Hp); [by left|]. cbn [handle_msg]. apply wp_swp.
    destruct Hlp as [lp Hlp]. destruct (kept_loops _ _ _ _ (Hk2 0%nat 0) i lp Hlp) as (lp2 & Hlp2 & _).
    eapply wp_mono; [by apply (setup_conn_safe w2 fl i fd); [|eexists|]|].
    intros [] w3 [Hok3 Hj]. split; [done|]. split; [|split; [done|]].
    + intros j c. eapply kept_trans; [apply Hk2|apply (jo_kept _ _ _ Hj)].
    + intros m' Hm'. destruct (Hall m') as (fd' & -> & Hcl' & _); [by right|]. exists fd'. split; [done|].
      split; [eapply claim_joined; try done; congruence|]. by rewrite (proj2 (proj2 (jo_server _ _ _ Hj))).
  - intros [] w' (Hok' & Hk' & _). by exists fl.
Qed.
End accept.
