(* ===== verification/SafeLoop.v ===== *)
(** * A loop with nothing but handlers

    What the loops of the servers have in common: no timer is queued and no task
    is pending, so that a round of [process_evs] (src/event_loop.cc) is one handler
    after the other.  Handlers that keep an invariant, and the registrations as
    they are, make a loop that runs safely for ever. *)
From S2P Require Import Prelude EventBase TimerQueue HeapFacts TimerHeap TimerQueueSpec TimerQueueProps.
From S2P Require Import Kernel EventLoop EventLoopProps Net ProgramProps.

(** ** Making a loop *)

Section new_loop.
Context {K : Type} `{NetLaws K} `{!SetupLaws K}.

(** What making a loop leaves: only the timerfd is registered, and the system has
    seen nothing else that concerns it. *)
Record new_loop (k : K) (s : ev_st K) (tfd : Z) : Prop := {
  nl_inv : loop_inv s;
  nl_evs : _io_evs (ev_loop s) = {[tfd := added timerqueue_cb EPOLLIN v_timer_queue None]};
  nl_timers : _timer_que (ev_loop s) = timer_queue_new;
  nl_tasks : _pendingFactors (ev_loop s) = task_vector_new;
  nl_empty : interest (_epfd (ev_loop s)) k = ∅;
  nl_elsewhere e : e ≠ _epfd (ev_loop s) → interest e (ev_kern s) = interest e k;
  nl_open f : is_open f k → is_open f (ev_kern s);
  nl_sent d : sent d (ev_kern s) = sent d k;
  nl_fd : 0 ≤ tfd ∧ (∀ e, interest e k !! tfd = None) ∧ ¬ is_open tfd k;
}.

Lemma event_loop_ctor_ok (k : K) :
  match event_loop_ctor k with Ok s => ∃ tfd, new_loop k s tfd | Fail e => stops e end.
Proof.
  unfold event_loop_ctor. pose proof (create_calm k) as [Hi1 Ho1].
  destruct (sys_epoll_create k) as [[e|epfd] k1] eqn:Hep; [by right|]. simpl in Hi1, Ho1.
  pose proof (timerfd_calm k1) as [Hi2 Ho2].
  destruct (sys_timerfd_create k1) as [[e|tfd] k2] eqn:Htf; [by right|]. simpl in Hi2, Ho2.
  destruct (timerfd_given _ _ _ Htf) as (Hpos & Hn & Hno & _). pose proof (create_empty _ _ _ Hep) as Hem.
  set (l := EventLoop epfd ∅ timer_queue_new tfd task_vector_new ∅).
  assert (Hi : loop_inv (EvSt k2 l)).
  { split; simpl; [|apply map_Forall_empty|by rewrite dom_empty_L|lia].
    unfold interests. simpl. by rewrite Hi2, Hi1, Hem, fmap_empty. }
  pose proof (add_ioev_spec tfd timerqueue_cb EPOLLIN v_timer_queue _ Hi eq_refl)
    as ([] & s & Hadd & Hs & (Hep' & Htq & Hpf) & He)%wp_elim. pose proof (add_ioev_ctl _ _ _ _ _ _ Hadd) as Hctl.
  rewrite Hadd. cbn [ev_loop l _epfd] in Hep'. exists tfd. split; try done.
  - by rewrite Hep'.
  - intros e Hne. rewrite Hep' in Hne. rewrite <- Hi1, <- Hi2.
    destruct Hctl as [Hk | (op & fd & ev & Hk)]; rewrite Hk; [done|]. simpl. by apply epoll_other.
  - intros f Hf. apply (ctl_ind (is_open f) _ _ Hctl); [by apply Ho2, Ho1|]. intros. by apply open_epoll.
  - intros d. rewrite (ctl_sent _ _ d Hctl). cbn [ev_kern].
    pose proof (sent_timerfd d k1) as H2. rewrite Htf in H2. pose proof (sent_create d k) as H1'. rewrite Hep in H1'. simpl in *. congruence.
  - split; [done|]. split; [intros e; by rewrite <- Hi1|]. intros Hf. by apply Hno, Ho1.
Qed.
End new_loop.

(** ** Running it *)

Section loops.
Context {K W : Type} `{NetLaws K} (lp : lens W (ev_st K)).
Variable call_io : io_callback → Z → void_ptr → M W unit.
Variable call_timer : timer_callback → void_ptr → M W unit.
Variable call_task : pendingFunc → void_ptr → M W unit.
Implicit Types (w : W) (k : K) (q : timer_queue).

Abbreviation loop_at w := (ev_loop (view lp w)).

(** The timerfd, when no timer is queued. *)
Lemma idle_timer_swp (Q : unit → W → Prop) w :
  no_timers (_timer_que (loop_at w)) →
  (∀ q, no_timers q → Q tt (update lp (EvSt (ev_kern (view lp w)) (set_timer_que q (loop_at w))) w)) →
  swp (timerqueue_cb_body lp call_timer) Q w.
Proof.
  intros [Hwf Hnil] HQ.
  pose proof (core_count _ (proj1 Hwf)) as Hcnt. rewrite Hnil in Hcnt. simpl in Hcnt.
  pose proof (core_next _ (proj1 Hwf)).
  pose proof (get_timo_spec [] (_timer_que (loop_at w)) Hwf ltac:(unfold TIMER_LIMIT; lia) ltac:(lia))
    as (r & q' & Hrun & due & rest & -> & Hp & _ & Hp' & _ & Hwf' & _)%wp_elim.
  rewrite Hnil in Hp. apply Permutation_nil, app_nil in Hp as [-> ->].
  apply Permutation_nil_r in Hp'.
  unfold timerqueue_cb_body. do 3 swp_step. cbn [view lp_timers].
  unfold swp at 1. rewrite Hrun. cbn [app for_each update lp_timers]. swp_step. by apply HQ.
Qed.

(** ** A loop that is the only one of its process *)

Record quiet_loop (s : ev_st K) : Prop := {
  ql_inv : loop_inv s;
  ql_tasks : tasks (_pendingFactors (ev_loop s)) = [];
  ql_readers fd : is_Some (_io_evs (ev_loop s) !! fd) → is_Some (reader s fd);
}.

Section only.
Context {valid : W → Prop} `{!LensLaws lp valid}.
Variable Inv : W → Prop.
Hypothesis Hvalid : ∀ w, Inv w → valid w.
Hypothesis Hquiet : ∀ w, Inv w → quiet_loop (view lp w).
Hypothesis Hkern : ∀ w k, Inv w → calm (ev_kern (view lp w)) k → Inv (update lp (EvSt k (loop_at w)) w).
Hypothesis Hcall : ∀ w fd f args, Inv w →
  reader (view lp w) fd = Some (f, args) ∨ writer (view lp w) fd = Some (f, args) →
  swp (call_io f fd args) (λ _ w', Inv w' ∧ _io_evs (loop_at w') = _io_evs (loop_at w)) w.

Definition batch_known w (batch : list (Z * Z)) : Prop :=
  Forall (λ e, reported (view lp w) e.1 e.2) batch.

Lemma quiet_event_swp w fd events :
  Inv w → reported (view lp w) fd events →
  swp (handle_event lp call_io (fd, events)) (λ _ w', Inv w' ∧ _io_evs (loop_at w') = _io_evs (loop_at w)) w.
Proof.
  intros HI Hrep. destruct (Hquiet w HI) as [Hi _ Hrd]. pose proof Hrep as (m & Hm & _).
  rewrite (loop_mirror _ Hi), lookup_fmap in Hm.
  destruct (Hrd fd) as [[f args] Hf]; [by destruct (_io_evs _ !! fd)|].
  unfold swp. rewrite handle_event_chosen by done.
  destruct (chosen (view lp w) fd events) as [[g a]|] eqn:Hc.
  - apply Hcall; [done|]. unfold chosen in Hc. rewrite Hf in Hc. rewrite Hf. repeat case_match; simplify_eq; auto.
  - unfold chosen in Hc. rewrite Hf in Hc. destruct (has EPOLLIN events); [done|].
    destruct (has EPOLLOUT events); [by rewrite andb_false_r|]. by destruct (has (Z.lor EPOLLHUP EPOLLERR) events).
Qed.

Lemma process_round_swp w : Inv w → swp (process_round lp call_io call_task) (λ _ w', Inv w') w.
Proof.
  intros HI. pose proof (Hquiet w HI) as [Hi _ _]. unfold process_round. do 5 swp_step. apply swp_syscall.
  cbn [view lp_kern]. intros r k1 Hw. cbn [update lp_kern].
  pose proof (calm_wait (_epfd (loop_at w)) MAXEVENTS (ev_kern (view lp w))) as Hcalm. rewrite Hw in Hcalm.
  pose proof (Hkern w k1 HI Hcalm) as HI1. set (w1 := update lp _ w) in *.
  assert (Hbatch : batch_known w1 (match r with inl _ => [] | inr evs => evs end)).
  { destruct r as [|evs]; [by constructor|]. apply Forall_forall. intros [fd events] Hin.
    destruct (wait_reports _ _ _ _ _ _ _ Hw Hin) as (m & Hm & Hb). exists m. split; [|done].
    unfold w1, interests. rewrite view_update by auto. simpl. by rewrite (proj1 Hcalm). }
  swp_step. eapply swp_mono; [apply (swp_for_each (λ l w', Inv w' ∧ batch_known w' l))|].
  - by split.
  - intros [fd events] l w2 [HI2 [Hrep Hall]%Forall_cons]. eapply swp_mono; [by apply quiet_event_swp|].
    intros [] w3 [HI3 Hsame]. split; [done|]. eapply Forall_impl; [exact Hall|].
    intros e. apply reported_same; [by apply Hquiet..|by rewrite Hsame].
  - intros [] w2 [HI2 _]. apply wp_swp. unfold wp.
    by rewrite run_no_task by (try apply (Hquiet w2 HI2); apply update_view; auto).
Qed.

Lemma process_evs_swp n w : Inv w → swp (process_evs lp call_io call_task n) (λ _ w', Inv w') w.
Proof. intros HI. by apply swp_iter_m; [|apply process_round_swp]. Qed.
End only.
End loops.
