(* ===== verification/SafeServer.v ===== *)
(** * The loops of a server are safe

    Whatever its peers send and whenever they close, a loop of a server goes from
    one state in order to the next, or the process stops at an assertion or an exit
    of its own: no handler is called with an object of another class, no pointer is
    wild, no [int] overflows, no loop runs forever. *)
From S2P Require Import Prelude EventBase TimerQueue HeapFacts TimerHeap TimerQueueSpec TimerQueueProps.
From S2P Require Import Kernel IoBuffer BufferPool TcpBuffer BufferSafe Wire EventLoop EventLoopProps Net.
From S2P Require Import World TcpConn TcpConnSpec TcpConnProps ThreadPool TcpServer TcpServerProps.
From S2P Require Import TcpClient Program ProgramProps SafeLoop SafeState SafeConn SafeAccept.

Section rounds.
Context {K U : Type} `{NetLaws K} `{!AcceptEnds K}.
Variable msg_fn : msg_callback → list byte → Z → Z → Z → void_ptr → M (world K U) unit.
Variable conn_fn : conn_callback → Z → M (world K U) unit.
Variable timer_fn : nat → timer_callback → void_ptr → M (world K U) unit.
Variable user_io : nat → Z → Z → void_ptr → M (world K U) unit.
Variable call_task : nat → pendingFunc → void_ptr → M (world K U) unit.
Variable fuel retries : nat.
Hypothesis Hmsg : safe_callbacks msg_fn.
Hypothesis Hquiet : ∀ cb c, quiet conn_fn cb c.
Hypothesis Hread : (Z.to_nat u8M < fuel)%nat.
Hypothesis Haccept : (burst < fuel)%nat.
Hypothesis Hfds : descriptors_suffice K.
Hypothesis Hpatience : (patience < retries)%nat.
(** The loops [thread_lens] falls back to, in a round and in a handler; there always
    is one. *)
Variable l0 l1 : event_loop.
Implicit Types (w : world K U) (lp : event_loop) (i j : nat) (fl : Z → list ptr).

Abbreviation loop_of i := (@thread_lens K U i l0).
Abbreviation call_io i := (server_call_io msg_fn conn_fn timer_fn user_io fuel retries i l1).
Abbreviation round i := (process_round (loop_of i) (call_io i) (call_task i)).

Lemma view_loop l w i lp : w_loops w !! i = Some lp → view (thread_lens i l) w = EvSt (w_kern w) lp.
Proof. intros Hlp. simpl. by rewrite Hlp. Qed.

(** ** Timers *)

Lemma server_ok_timers w fl i lp q :
  server_ok w fl → w_loops w !! i = Some lp → no_timers q →
  let w' := set_loops (<[i := set_timer_que q lp]> (w_loops w)) w in
  server_ok w' fl ∧ ∀ j c, kept j c w w'.
Proof.
  intros [Ho Hb Ht] Hlp Hq w'.
  assert (Hget : ∀ j lpj, w_loops w' !! j = Some lpj → ∃ lp0, w_loops w !! j = Some lp0 ∧
    _epfd lpj = _epfd lp0 ∧ _io_evs lpj = _io_evs lp0 ∧ (loop_ok w j lp0 → loop_ok w' j lpj)).
  { intros j lpj. cbn [w' w_loops set_loops]. intros [[<- <-]|[_ Hlpj]]%lookup_insert_Some.
    - exists lp. do 3 (split; [done|]). intros [[] ? ? ? Hent]. split; [by split|done..|].
      intros fd ev Hev. by eapply entry_ok_mono; [apply Hent|..].
    - exists lpj. do 3 (split; [done|]). intros [? ? ? ? Hent]. split; try done.
      intros fd ev Hev. by eapply entry_ok_mono; [apply Hent|..]. }
  assert (Hset : ∀ j lp0, w_loops w !! j = Some lp0 → ∃ lpj, w_loops w' !! j = Some lpj ∧ _io_evs lpj = _io_evs lp0).
  { intros j lp0 Hlp0. cbn [w' w_loops set_loops]. destruct (decide (i = j)) as [<-|Hne].
    - rewrite Hlp in Hlp0. injection Hlp0 as <-. rewrite lookup_insert_eq. by eexists.
    - rewrite lookup_insert_ne by done. by exists lp0. }
  assert (Hnone : ∀ j, w_loops w' !! j = None ↔ w_loops w !! j = None).
  { intros j. cbn [w' w_loops set_loops]. rewrite lookup_insert_None. split; [by intros []|]. intros Hj. split; [done|]. congruence. }
  assert (Hhold : ∀ h f, holds w' h f → holds w h f).
  { intros [q'|q'] f; [done|]. intros (tq & Htq & Hn & He). exists tq. split; [done|]. split; [by apply Hnone|done]. }
  split; [split; [by destruct Ho|by destruct Hb|]|].
  - destruct Ht. split; try done.
    + split; [apply th_main|]. destruct th_main as [_ [lp0 Hlp0]]. destruct (Hset _ _ Hlp0) as (lpj & ? & _). by eexists.
    + intros j lpj (lp0 & Hlp0 & _ & _ & Hl)%Hget. by apply Hl, th_loops.
    + intros j j' lpj lpj' (lp0 & Hlp0 & -> & -> & _)%Hget (lp1 & Hlp1 & -> & -> & _)%Hget. by apply th_apart.
    + intros c j Hon. destruct (th_live c j Hon) as (lp0 & ev & Hlp0 & Hev & ?).
      destruct (Hset _ _ Hlp0) as (lpj & Hlpj & He). exists lpj, ev. by rewrite He.
    + intros h f Hh%Hhold. by apply (th_idle h).
    + intros h h' f Hh%Hhold Hh'%Hhold. by apply (th_once h h' f).
  - intros j c. split; [|by apply spares_same|done|].
    + intros j' lp0 Hlp0. destruct (Hset _ _ Hlp0) as (lpj & Hlpj & He). exists lpj. split; [done|]. rewrite He.
      intros fd ev _ Hev. exists ev. by split; [|intros bit].
    + intros j'. by rewrite Hnone.
Qed.

(** The timerfd, when no timer is queued. *)
Lemma timer_handler_safe w fl i lp fd :
  server_ok w fl → w_loops w !! i = Some lp →
  swp (timerqueue_cb_body (thread_lens i l1) (timer_fn i)) (λ _ w', still_ok i fd w w') w.
Proof.
  intros Hok Hlp. apply idle_timer_swp; rewrite (view_loop l1 w i lp Hlp); cbn [ev_kern ev_loop].
  - by apply (server_loop_ok _ _ _ _ Hok Hlp).
  - intros q Hq. destruct (server_ok_timers w fl i lp q Hok Hlp Hq) as [Hok' Hk].
    assert (update (thread_lens i l1) (EvSt (w_kern w) (set_timer_que q lp)) w =
      set_loops (<[i := set_timer_que q lp]> (w_loops w)) w) as -> by by destruct w.
    exists fl. by split.
Qed.

(** ** Handlers *)

(** The two handlers of a registration, called with the object it was made for. *)
Lemma read_handler_safe w fl i lp fd ev :
  server_ok w fl → w_loops w !! i = Some lp → _io_evs lp !! fd = Some ev →
  ∃ f, read_cb ev = Some f ∧ swp (call_io i f fd (rcb_args ev)) (λ _ w', still_ok i fd w w') w.
Proof.
  intros Hok Hlp Hev.
  destruct (lo_entries _ _ _ (server_loop_ok _ _ _ _ Hok Hlp) fd ev Hev) as [_ -> -> _| -> _|q -> Hq -> -> _|Hon [_ [-> ->] _]];
    (eexists; split; [reflexivity|]).
  - eapply swp_mono; [eapply (do_accept_loop_swp conn_fn Hquiet Hfds); [exact Hok|]|].
    + pose proof (arriving_burst (w_kern w)). lia.
    + intros [] w' (fl' & ? & Hk). by exists fl'.
  - by eapply timer_handler_safe.
  - eapply swp_mono; [apply (msg_comming_swp conn_fn Hquiet w fl (S q) q Hok); [by eexists|done]|].
    intros [] w' (fl' & ? & Hk). by exists fl'.
  - by apply (handle_read_swp conn_fn Hquiet msg_fn Hmsg fuel retries w fl fd i).
Qed.

Lemma write_handler_safe w fl i lp fd ev f :
  server_ok w fl → w_loops w !! i = Some lp → _io_evs lp !! fd = Some ev → write_cb ev = Some f →
  swp (call_io i f fd (wcb_args ev)) (λ _ w', still_ok i fd w w') w.
Proof.
  intros Hok Hlp Hev Hf.
  destruct (lo_entries _ _ _ (server_loop_ok _ _ _ _ Hok Hlp) fd ev Hev) as [_ _ _ ?|_ ?|q _ _ _ _ ?|Hon Hce]; [congruence..|].
  destruct (ce_write _ _ Hce f Hf) as [-> ->].
  by apply (handle_write_swp conn_fn Hquiet fuel retries w fl fd i).
Qed.

(** Thread [i] was told of [events] on [fd]. *)
Definition told w i (fd events : Z) : Prop :=
  ∃ lp, w_loops w !! i = Some lp ∧ reported (EvSt (w_kern w) lp) fd events.

Lemma handle_event_swp w fl i fd events :
  server_ok w fl → told w i fd events →
  swp (handle_event (loop_of i) (call_io i) (fd, events)) (λ _ w', still_ok i fd w w') w.
Proof.
  intros Hok (lp & Hlp & Hrep). pose proof (view_loop l0 w i lp Hlp) as Hview.
  pose proof Hrep as (m & Hm & _ & Hout). pose proof (lo_inv _ _ _ (server_loop_ok _ _ _ _ Hok Hlp)) as Hi.
  rewrite (loop_mirror _ Hi), lookup_fmap in Hm. simpl in Hm.
  destruct (_io_evs lp !! fd) as [ev|] eqn:Hev; [injection Hm as <-|done].
  destruct (read_handler_safe w fl i lp fd ev Hok Hlp Hev) as (f & Hf & Hr).
  assert (Hrd : reader (EvSt (w_kern w) lp) fd = Some (f, rcb_args ev)) by (unfold reader; simpl; by rewrite Hev; simpl; rewrite Hf).
  unfold swp. rewrite handle_event_chosen by (rewrite Hview; done). rewrite Hview. unfold chosen. rewrite Hrd.
  destruct (has EPOLLIN events); [exact Hr|].
  destruct (has EPOLLOUT events) eqn:Ho.
  - destruct (loop_handlers _ Hi fd ev Hev) as [_ Hw]. destruct (Hw (Hout eq_refl)) as [g Hg].
    assert (Hwr : writer (EvSt (w_kern w) lp) fd = Some (g, wcb_args ev)) by (unfold writer; simpl; by rewrite Hev; simpl; rewrite Hg).
    rewrite Hwr. by eapply write_handler_safe.
  - destruct (has (Z.lor EPOLLHUP EPOLLERR) events); [exact Hr|]. by eapply still_ok_refl.
Qed.

(** What a thread was told still holds when handlers of other threads, and its own
    of other descriptors, have run. *)
Lemma told_kept w fl w' fl' i c j fd events :
  server_ok w fl → server_ok w' fl' → keeps_regs i c w w' → j ≠ i ∨ fd ≠ c → told w j fd events → told w' j fd events.
Proof.
  intros Hok Hok' Hk Hne (lp & Hlp & m & Hm & Hin & Hout).
  destruct (Hk j lp Hlp) as (lp' & Hlp' & Hregs). exists lp'. split; [done|].
  rewrite (loop_mirror _ (lo_inv _ _ _ (server_loop_ok _ _ _ _ Hok Hlp))), lookup_fmap in Hm. simpl in Hm.
  destruct (_io_evs lp !! fd) as [ev|] eqn:Hev; [injection Hm as <-|done].
  destruct (Hregs fd ev Hne Hev) as (ev' & Hev' & Hmore).
  exists (mask ev'). rewrite (loop_mirror _ (lo_inv _ _ _ (server_loop_ok _ _ _ _ Hok' Hlp'))), lookup_fmap. simpl. rewrite Hev'.
  split; [done|]. split; auto.
Qed.

(** ** Rounds *)

(** The events thread [i] has still to handle. *)
Definition batch_ok w i (batch : list (Z * Z)) : Prop :=
  NoDup batch.*1 ∧ Forall (λ e, told w i e.1 e.2) batch.

Lemma batch_ok_other w fl w' fl' i c j batch :
  server_ok w fl → server_ok w' fl' → keeps_regs i c w w' → j ≠ i → batch_ok w j batch → batch_ok w' j batch.
Proof.
  intros Hok Hok' Hk Hne [Hnd Hall]. split; [done|]. eapply Forall_impl; [exact Hall|].
  intros [fd ev] Ht. eapply told_kept; [exact Hok|exact Hok'|exact Hk|by left|exact Ht].
Qed.

Lemma batch_ok_tail w fl w' fl' i c events batch :
  server_ok w fl → server_ok w' fl' → kept i c w w' → batch_ok w i ((c, events) :: batch) → batch_ok w' i batch.
Proof.
  intros Hok Hok' Hk [[Hc Hnd]%NoDup_cons [_ Hall]%Forall_cons]. split; [done|]. apply Forall_forall.
  intros [fd ev] Hin. eapply told_kept; [exact Hok|exact Hok'|apply Hk| |exact (proj1 (Forall_forall _ _) Hall _ Hin)].
  right. simpl. intros ->. apply Hc, list_elem_of_fmap. by exists (c, ev).
Qed.

(** What [epoll_wait] reports is in order. *)
Lemma wait_swp w fl i lp r k1 :
  server_ok w fl → w_loops w !! i = Some lp → sys_epoll_wait (_epfd lp) MAXEVENTS (w_kern w) = (r, k1) →
  server_ok (set_kern k1 w) fl ∧ update (loop_of i) (EvSt k1 lp) w = set_kern k1 w ∧
  batch_ok (set_kern k1 w) i (match r with inl _ => [] | inr evs => evs end).
Proof.
  intros Hok Hlp Hw. pose proof (calm_wait (_epfd lp) MAXEVENTS (w_kern w)) as Hcalm. rewrite Hw in Hcalm. cbn [snd] in Hcalm.
  split; [by apply server_ok_kern|]. split.
  { unfold set_loops, set_kern. simpl. by rewrite insert_id. }
  destruct r as [|evs]; [by split; constructor|]. split; [by eapply wait_distinct|].
  apply Forall_forall. intros [fd events] Hin. exists lp. split; [done|].
  destruct (wait_reports _ _ _ _ _ _ _ Hw Hin) as (m & Hm & Hb). exists m. split; [|done].
  unfold interests. simpl. by rewrite (proj1 Hcalm).
Qed.

Lemma run_task_idle w fl i lp :
  server_ok w fl → w_loops w !! i = Some lp → run_task (loop_of i) (call_task i) w = Ok (tt, w).
Proof.
  intros Hok Hlp. apply run_no_task.
  - rewrite (view_loop _ _ _ _ Hlp). apply (lo_tasks _ _ _ (server_loop_ok _ _ _ _ Hok Hlp)).
  - rewrite (view_loop _ _ _ _ Hlp). unfold set_loops, set_kern. simpl. rewrite insert_id by done. by destruct w.
Qed.

Lemma kept_loop_exists w i c w' j : is_Some (w_loops w !! j) → kept i c w w' → is_Some (w_loops w' !! j).
Proof. intros [lp Hlp] Hk. destruct (kept_loops _ _ _ _ Hk j lp Hlp) as (lp' & ? & _). by eexists. Qed.

Lemma server_round_swp w fl i :
  server_ok w fl → is_Some (w_loops w !! i) →
  swp (round i) (λ _ w', ∃ fl', server_ok w' fl' ∧ is_Some (w_loops w' !! i)) w.
Proof.
  intros Hok [lp Hlp]. unfold process_round. do 5 swp_step. rewrite (view_loop l0 w i lp Hlp).
  cbn [view lp_kern ev_kern ev_loop].
  destruct (sys_epoll_wait (_epfd lp) MAXEVENTS (w_kern w)) as [r k1] eqn:Hw.
  unfold swp at 1, syscall. rewrite Hw. cbn [lp_kern update ev_kern ev_loop].
  destruct (wait_swp w fl i lp r k1 Hok Hlp Hw) as (Hok1 & -> & Hbatch).
  set (I := λ (l : list (Z * Z)) w', ∃ fl', server_ok w' fl' ∧ is_Some (w_loops w' !! i) ∧ batch_ok w' i l).
  swp_step. eapply swp_mono; [apply (swp_for_each I)|].
  - exists fl. by split_and!.
  - intros [fd events] l w1 (fl1 & Hok1' & Hl1 & Hb1).
    eapply swp_mono; [apply (handle_event_swp w1 fl1); [done|]|].
    { apply (proj1 (Forall_cons _ _ _) (proj2 Hb1)). }
    intros [] w2 (fl2 & Hok2 & Hk). exists fl2. split; [done|]. split; [by eapply kept_loop_exists|].
    eapply batch_ok_tail; [exact Hok1'|exact Hok2|exact Hk|exact Hb1].
  - intros [] w2 (fl2 & Hok2 & [lp2 Hlp2] & _). apply wp_swp. unfold wp. rewrite (run_task_idle w2 fl2 i lp2 Hok2 Hlp2).
    exists fl2. split; [done|by eexists].
Qed.

Lemma rounds_swp w fl i n :
  server_ok w fl → is_Some (w_loops w !! i) →
  swp (process_evs (loop_of i) (call_io i) (call_task i) n)
    (λ _ w', ∃ fl', server_ok w' fl' ∧ is_Some (w_loops w' !! i)) w.
Proof.
  intros Hok Hlp. apply (swp_iter_m (λ w', ∃ fl', server_ok w' fl' ∧ is_Some (w_loops w' !! i))); [by exists fl|].
  intros w1 (fl1 & Hok1 & Hlp1). by eapply server_round_swp.
Qed.

(** C5 The state of a server stays in order while one of its threads runs its loop
    and the others rest: after any number of rounds, whatever the peers have sent,
    whenever they connected or closed, and in whatever order the events were
    reported, every descriptor that is registered has the handlers, and the handlers
    have the objects, that their casts expect, the buffers are those of one pool, no
    two connections share one, the loops of two threads share no descriptor, and the
    count of connections is right; or the process has stopped, by an assertion or an
    exit of its own.  It never reads a wild pointer, no [int] overflows, and no loop
    of a handler fails to end.  This is under conditions: the loops have no timers and
    no tasks of the user, the user's callbacks keep the state in order
    ([safe_callbacks], [quiet]), at most [burst] connections arrive in a row, and the
    process does not run out of descriptors ([descriptors_suffice]), after which
    [do_accept_emfile_closes_live] holds instead. *)
Theorem server_state_preserved w fl i n :
  server_ok w fl → is_Some (w_loops w !! i) →
  match process_evs (loop_of i) (call_io i) (call_task i) n w with
  | Ok (_, w') => ∃ fl', server_ok w' fl'
  | Fail e => e = AssertFailed ∨ e = Exited
  end.
Proof.
  intros Hok Hlp. pose proof (rounds_swp w fl i n Hok Hlp) as Hr. unfold swp in Hr.
  destruct (process_evs _ _ _ _ _) as [[[] w']|]; [|exact Hr]. destruct Hr as (fl' & ? & _). by exists fl'.
Qed.

(** C3 An event on one descriptor does not touch the other connections: whatever
    thread [i] is told of descriptor [fd], the handler it calls, be it to accept, to
    take over the queue of its thread, to read, write or close, leaves every other
    live connection, of this thread or another, as it is: the object and its thread,
    every byte and position of both its buffers, and what has been sent to its
    peer.  The conditions are those of [server_state_preserved], among them that the
    callback of a message keeps to its own connection. *)
Theorem handler_isolated w fl i fd events d j :
  server_ok w fl → told w i fd events → on_thread w d j → d ≠ fd →
  match handle_event (loop_of i) (call_io i) (fd, events) w with
  | Ok (_, w') => on_thread w' d j ∧ same_conn d w w'
  | Fail e => e = AssertFailed ∨ e = Exited
  end.
Proof.
  intros Hok Htold Hon Hne. pose proof (handle_event_swp w fl i fd events Hok Htold) as Hr. unfold swp in Hr.
  destruct (handle_event _ _ _ _) as [[[] w']|]; [|exact Hr]. destruct Hr as (fl' & _ & Hk).
  pose proof (kept_others _ _ _ _ Hk d j Hne Hon) as Hs. split; [by eapply same_conn_thread|exact Hs].
Qed.
End rounds.
