(* ===== verification/PoolSafe.v ===== *)
(** * A thread of the pool is safe

    [thread_domain] of src/thread_pool.cc: a thread of a server makes its loop,
    registers its queue, and enters [process_evs].  What it shares with the other
    threads is in order afterwards (SafeState.v), and its rounds keep it so while the
    other threads rest. *)
From S2P Require Import Prelude EventBase TimerQueue HeapFacts TimerHeap TimerQueueSpec TimerQueueProps.
From S2P Require Import Kernel IoBuffer BufferPool TcpBuffer BufferSafe Wire EventLoop EventLoopProps Net.
From S2P Require Import World TcpConn TcpConnSpec TcpConnProps ThreadPool TcpServer TcpServerProps.
From S2P Require Import TcpClient Program ProgramProps SafeLoop SafeState SafeConn SafeAccept SafeServer.

(** ** A thread that starts *)

Section start.
Context {K U : Type} `{NetLaws K} `{!SetupLaws K}.
Implicit Types (w : world K U) (lp : event_loop) (i j q : nat) (fl : Z → list ptr).

(** The process after thread [q] of the pool made its loop and registered its
    queue: [s] are its loop and the system. *)
Definition thread_started q (tq : thread_queue) (s : ev_st K) w : world K U :=
  set_queues (<[q := set_tq_loop (Some (S q)) tq]> (w_queues w))
    (set_loops (<[S q := ev_loop s]> (w_loops w)) (set_kern (ev_kern s) w)).

(** The loop of a thread, with its queue. *)
Record thread_loop w q (tq : thread_queue) (s : ev_st K) (tfd : Z) : Prop := {
  tl_inv : loop_inv s;
  tl_evs : _io_evs (ev_loop s) =
    <[_evfd tq := added msg_comming_cb EPOLLIN (v_thread_queue q) None]>
    {[tfd := added timerqueue_cb EPOLLIN v_timer_queue None]};
  tl_timers : _timer_que (ev_loop s) = timer_queue_new;
  tl_tasks : _pendingFactors (ev_loop s) = task_vector_new;
  tl_epfd i lp : w_loops w !! i = Some lp → _epfd lp ≠ _epfd (ev_loop s);
  tl_elsewhere e : e ≠ _epfd (ev_loop s) → interest e (ev_kern s) = interest e (w_kern w);
  tl_open f : is_open f (w_kern w) → is_open f (ev_kern s);
  tl_fd : 0 ≤ tfd ∧ (∀ e, interest e (w_kern w) !! tfd = None) ∧ ¬ is_open tfd (w_kern w);
  tl_ne : tfd ≠ _evfd tq;
}.

(** The watched descriptors of a new loop are those of no other. *)
Lemma thread_loop_new w q tq s tfd i lp :
  threads_ok w → w_queues w !! q = Some tq → w_loops w !! S q = None → thread_loop w q tq s tfd →
  w_loops w !! i = Some lp →
  ∀ fd, (is_Some (_io_evs (ev_loop s) !! fd) → _io_evs lp !! fd = None) ∧
        (is_Some (_io_evs lp !! fd) → _io_evs (ev_loop s) !! fd = None).
Proof.
  intros Ht Hq Hnone [] Hlp. pose proof (th_loops _ Ht i lp Hlp) as Hl.
  assert (Hev : _io_evs lp !! _evfd tq = None).
  { apply (idle_unregistered w i); [done|]. apply (th_idle _ Ht (Waker q)). by exists tq. }
  assert (Htf : _io_evs lp !! tfd = None) by (apply (interest_none_unregistered w i lp); [done|by apply tl_fd0]).
  assert (Hfwd : ∀ fd, is_Some (_io_evs (ev_loop s) !! fd) → _io_evs lp !! fd = None).
  { intros fd. rewrite tl_evs0. intros [ev [[<- _]|[_ [<- _]%lookup_singleton_Some]]%lookup_insert_Some]; done. }
  intros fd. split; [apply Hfwd|]. intros Hs. apply eq_None_not_Some. intros Hs'%Hfwd. rewrite Hs' in Hs. by destruct Hs.
Qed.

Lemma threads_ok_started w q tq s tfd :
  threads_ok w → w_queues w !! q = Some tq → w_loops w !! S q = None → thread_loop w q tq s tfd →
  threads_ok (thread_started q tq s w).
Proof.
  intros Ht Hq Hnone Htl. set (w' := thread_started q tq s w).
  assert (Hget : ∀ i lp, w_loops w' !! i = Some lp → (i = S q ∧ lp = ev_loop s) ∨ (i ≠ S q ∧ w_loops w !! i = Some lp)).
  { intros i lp. cbn [w' thread_started w_loops set_queues set_loops].
    intros [[<- <-]|[? ?]]%lookup_insert_Some; auto. }
  assert (Hqs : ∀ q' x, w_queues w' !! q' = Some x → ∃ x0, w_queues w !! q' = Some x0 ∧ _queue x = _queue x0 ∧ _evfd x = _evfd x0).
  { intros q' x. cbn [w' thread_started w_queues set_queues]. intros [[<- <-]|[_ Hx]]%lookup_insert_Some; [by exists tq|by exists x]. }
  assert (Hsome : ∀ q', is_Some (w_queues w !! q') → is_Some (w_queues w' !! q')).
  { intros q' Hs. cbn [w' thread_started w_queues set_queues]. apply lookup_insert_is_Some. destruct (decide (q = q')); auto. }
  assert (Hhold : ∀ h f, holds w' h f → holds w h f ∧ h ≠ Waker q).
  { intros [q'|q'] f.
    - intros (x & (x0 & Hx0 & Hqu & _)%Hqs & Hin). split; [|done]. exists x0. by rewrite <- Hqu.
    - intros (x & (x0 & Hx0 & _ & He)%Hqs & Hno & <-). cbn [w' thread_started w_loops set_queues set_loops] in Hno.
      apply lookup_insert_None in Hno as [Hno Hne]. split; [by exists x0|congruence]. }
  assert (Hwaker : holds w (Waker q) (_evfd tq)) by by exists tq.
  pose proof (thread_loop_new w q tq s tfd) as Hnew. specialize (λ i lp, Hnew i lp Ht Hq Hnone Htl).
  destruct Ht. split; try done.
  - split; [apply th_main|]. destruct th_main as [_ [lp0 Hlp0]]. cbn [w' thread_started w_loops set_queues set_loops].
    rewrite lookup_insert_ne by done. by exists lp0.
  - intros i lp [[-> ->]|[Hne Hlp]]%Hget.
    + split.
      * apply (loop_inv_kern (ev_kern s)); [destruct s; apply Htl|done].
      * rewrite (tl_timers _ _ _ _ _ Htl). apply no_timers_new.
      * by rewrite (tl_tasks _ _ _ _ _ Htl).
      * exists tfd, (added timerqueue_cb EPOLLIN v_timer_queue None). rewrite (tl_evs _ _ _ _ _ Htl).
        rewrite lookup_insert_ne by (apply not_eq_sym, Htl). by rewrite lookup_singleton_eq.
      * intros fd ev. rewrite (tl_evs _ _ _ _ _ Htl).
        intros [[<- <-]|[_ [<- <-]%lookup_singleton_Some]]%lookup_insert_Some.
        { eapply queue_entry; try done. apply Hsome. by exists tq. }
        { by apply timer_entry. }
    + destruct (th_loops i lp Hlp) as [Hi ? ? ? Hent]. split; try done.
      * apply (loop_inv_kern (w_kern w)); [done|]. apply Htl. by eapply tl_epfd.
      * intros fd ev Hev. by eapply entry_ok_mono; [apply Hent|..].
  - intros i j lp lp' [[-> ->]|[Hi Hlp]]%Hget [[-> ->]|[Hj Hlp']]%Hget Hij; [done|..].
    + split; [apply not_eq_sym; by eapply tl_epfd|]. intros fd. by apply (Hnew j lp' Hlp').
    + split; [by eapply tl_epfd|]. intros fd. by apply (Hnew i lp Hlp).
    + by apply (th_apart i j).
  - intros c i Hon. destruct (th_live c i Hon) as (lp & ev & Hlp & ? & ?). exists lp, ev. split; [|done].
    cbn [w' thread_started w_loops set_queues set_loops]. rewrite lookup_insert_ne; [done|]. intros <-. congruence.
  - intros h f [Hh Hne]%Hhold. destruct (th_idle h f Hh) as (Hpos & Hop & Hn). split; [done|]. split; [by apply Htl|].
    intros e. cbn [w' thread_started w_kern set_queues set_loops set_kern].
    destruct (decide (e = _epfd (ev_loop s))) as [->|He]; [|by rewrite (tl_elsewhere _ _ _ _ _ Htl)].
    pose proof (loop_mirror _ (tl_inv _ _ _ _ _ Htl)) as Hm. unfold interests in Hm. rewrite Hm, lookup_fmap, (tl_evs _ _ _ _ _ Htl).
    rewrite lookup_insert_ne by (intros <-; apply Hne; by eapply th_once).
    rewrite lookup_singleton_ne; [done|]. intros <-. by destruct (tl_fd _ _ _ _ _ Htl) as (_ & _ & []).
  - intros h h' f [Hh _]%Hhold [Hh' _]%Hhold. by eapply th_once.
  - intros q' x (x0 & Hx0 & -> & _)%Hqs. by apply (th_nodup q').
  - intros q' x m (x0 & Hx0 & -> & _)%Hqs. by apply (th_msgs q').
  - intros p Hp. destruct (th_pool p Hp) as (? & ? & Hall). split; [done|]. split; [done|]. intros t Hlt. by apply Hsome, Hall.
Qed.

(** Making the loop and registering the queue, before [process_evs]. *)
Lemma thread_domain_swp conn_io call_task w fl q n (Q : world K U → Prop) :
  server_ok w fl → is_Some (w_queues w !! q) → w_loops w !! S q = None →
  (∀ l w', server_ok w' fl → is_Some (w_loops w' !! S q) →
     swp (process_evs (thread_lens (S q) l) (conn_io (S q)) (call_task (S q)) n) (λ _, Q) w') →
  swp (thread_domain conn_io call_task n q) (λ _, Q) w.
Proof.
  intros Hok [tq Hq] Hnone Hnext. pose proof Hok as [Ho Hb Ht]. unfold thread_domain. do 2 swp_step.
  pose proof (event_loop_ctor_ok (w_kern w)) as Hl. destruct (event_loop_ctor (w_kern w)) as [s|]; [|done].
  destruct Hl as (tfd & []). assert (Hidle : idle_fd w (_evfd tq)) by (apply (th_idle _ Ht (Waker q)); by exists tq).
  assert (Hne : tfd ≠ _evfd tq) by (intros ->; destruct nl_fd as (_ & _ & Hno); apply Hno, Hidle).
  pose proof (add_ioev_spec (_evfd tq) msg_comming_cb EPOLLIN (v_thread_queue q) s nl_inv eq_refl)
    as ([] & s' & Hadd & Hi' & (Hep & Htq & Hpf) & He)%wp_elim. pose proof (add_ioev_ctl _ _ _ _ _ _ Hadd) as Hctl.
  rewrite nl_evs, lookup_singleton_ne in He by done.
  set (w1 := set_loops (<[S q := ev_loop s]> (w_loops w)) (set_kern (ev_kern s) w)).
  set (w2 := set_queues (<[q := set_tq_loop (Some (S q)) tq]> (w_queues w)) w1).
  assert (Hrun : set_loop q (S q) msg_comming_cb (v_thread_queue q) w1 = Ok (tt, thread_started q tq s' w)).
  { assert (Hset : on_queue q (modify (set_tq_loop (Some (S q)))) w1 = Ok (tt, w2)).
    { unfold on_queue, mbind, M_bind, get. cbn [w1 w_queues set_loops set_kern]. by rewrite Hq. }
    unfold set_loop. erewrite bind_ok by exact Hset. apply wp_returns. do 3 wp_step.
    eapply wp_from_option; [apply lookup_insert_eq|]. cbn [tq_loop set_tq_loop _evfd].
    eapply wp_on_loop; [apply lookup_insert_eq|]. cbn [w2 w1 w_kern set_kern set_loops set_queues].
    replace (EvSt (ev_kern s) (ev_loop s)) with s by by destruct s. unfold wp. rewrite Hadd. split; [done|].
    unfold thread_started, set_loops, set_queues, set_kern. simpl. by rewrite insert_insert_eq. }
  do 3 swp_step. apply (swp_run _ (mret tt) _ w1 (thread_started q tq s' w) Hrun). apply swp_ret.
  apply Hnext; [|cbn [thread_started w_loops set_queues set_loops]; rewrite lookup_insert_eq; by eexists].
  assert (Htl : thread_loop w q tq s' tfd).
  { split; try done.
    - by rewrite Htq.
    - by rewrite Hpf.
    - intros i lp Hlp. rewrite Hep. intros Heq. pose proof (th_loops _ Ht i lp Hlp) as [Hi _ _ (fd & ev & Hfd & _) _].
      pose proof (loop_mirror _ Hi) as Hm. unfold interests in Hm. simpl in Hm. rewrite Heq, nl_empty in Hm.
      apply (f_equal (lookup fd)) in Hm. by rewrite lookup_fmap, Hfd, lookup_empty in Hm.
    - intros e Hne'. rewrite Hep in Hne'. rewrite <- nl_elsewhere by done.
      destruct Hctl as [Hk | (op & fd & ev & Hk)]; rewrite Hk; [done|]. by apply epoll_other.
    - intros f Hf. apply (ctl_ind (is_open f) _ _ Hctl); [by apply nl_open|]. intros. by apply open_epoll. }
  split; [by destruct Ho|by destruct Hb|by eapply threads_ok_started].
Qed.
End start.

(** ** Its rounds *)

Section thread.
Context {K U : Type} `{NetLaws K} `{!SetupLaws K} `{!AcceptEnds K}.
Variable msg_fn : msg_callback → list byte → Z → Z → Z → void_ptr → M (world K U) unit.
Variable conn_fn : conn_callback → Z → M (world K U) unit.
Variable timer_fn : nat → timer_callback → void_ptr → M (world K U) unit.
Variable user_io : nat → Z → Z → void_ptr → M (world K U) unit.
Variable call_task : nat → pendingFunc → void_ptr → M (world K U) unit.
Variable fuel retries : nat.

(** A thread of the pool, from its first statement on and for any number of rounds:
    the state of the server is in order, or the process has stopped. *)
Theorem thread_domain_safe l1 w fl q n :
  safe_callbacks msg_fn → (∀ cb c, quiet conn_fn cb c) → (Z.to_nat u8M < fuel)%nat → (burst < fuel)%nat →
  descriptors_suffice K → (patience < retries)%nat →
  server_ok w fl → is_Some (w_queues w !! q) → w_loops w !! S q = None →
  match thread_domain (λ i, server_call_io msg_fn conn_fn timer_fn user_io fuel retries i l1) call_task n q w with
  | Ok (_, w') => ∃ fl', server_ok w' fl'
  | Fail e => e = AssertFailed ∨ e = Exited
  end.
Proof.
  intros Hmsg Hquiet Hread Haccept Hfds Hret Hok Hq Hnone.
  pose proof (thread_domain_swp (λ i, server_call_io msg_fn conn_fn timer_fn user_io fuel retries i l1) call_task w fl q n
    (λ w', ∃ fl', server_ok w' fl') Hok Hq Hnone) as Hr.
  unfold swp in Hr. destruct (thread_domain _ _ _ _ _) as [[[] w']|]; apply Hr; intros l w1 Hok1 Hl;
    (eapply swp_mono; [by eapply rounds_swp|]); intros [] w2 (fl2 & ? & _); by exists fl2.
Qed.
End thread.
