(* ===== verification/ConfigReader.v ===== *)
(** * The configuration reader (include/config_reader.h, src/config_reader.cc)

    A [std::string] is the list of its characters.  The maps of the sections are
    allocated separately but each is reached from one entry of [_map] only, so
    the pointer [m] of [Load] is the name of its section.  [GetFloat] is in
    FloatText.v. *)
From Stdlib Require Export Strings.Ascii.
From stdpp Require Export strings.
From S2P Require Import Prelude.

#[global] Open Scope Z_scope.

Abbreviation str := (list ascii).

(** A literal. *)
Definition lit (s : string) : str := String.list_ascii_of_string s.

(** [isspace] in the "C" locale *)
Definition isspace (c : ascii) : bool :=
  let n := Z.of_N (N_of_ascii c) in ((9 <=? n) && (n <=? 13)) || (n =? 32).

(** ** Trimming *)

Fixpoint first_not_empty (s : str) : nat :=
  match s with
  | [] => 0
  | c :: s => if isspace c then S (first_not_empty s) else 0
  end.
Definition trimLeft (s : str) : str := drop (first_not_empty s) s.

(** [last_not_empty] when the iterator has come down to [k]. *)
Fixpoint last_not_empty (s : str) (k : nat) : nat :=
  match k with
  | O => 0
  | S k => match s !! k with
           | Some c => if isspace c then last_not_empty s k else S k
           | None => S k
           end
  end.
Definition trimRight (s : str) : str := take (last_not_empty s (length s)) s.

Definition trim (s : str) : str := trimLeft (trimRight s).

(** ** Lines *)

(** The lines [getline] reads until the end of the file; the one behind the last
    newline counts, even when it is empty. *)
Fixpoint lines (text : str) : list str :=
  match text with
  | [] => [[]]
  | c :: text =>
      if Ascii.eqb c "010" then [] :: lines text
      else match lines text with
           | l :: ls => (c :: l) :: ls
           | [] => [[c]]
           end
  end.

(** [line.find('=')] *)
Fixpoint find_char (c : ascii) (s : str) : option nat :=
  match s with
  | [] => None
  | x :: s => if Ascii.eqb x c then Some 0%nat else S <$> find_char c s
  end.

(** The name in a section header. *)
Definition isSection (line : str) : option str :=
  let section := trim line in
  if bool_decide (section = []) || (length section <=? 2)%nat then None
  else if negb (bool_decide (section !! 0%nat = Some "["%char)) ||
          negb (bool_decide (section !! (length section - 1)%nat = Some "]"%char)) then None
  else Some (trim (take (length section - 2) (drop 1 section))).

(** ** Loading *)

Abbreviation STR_MAP := (gmap str (gmap str str)).

(** The reader's map, and the pointer [m]. *)
Definition load_st : Type := STR_MAP * option str.

(** The body of the [while] loop, for one line. *)
Definition load_line (line : str) : M load_st unit :=
  '(_map, m) ← get;
  match isSection line with
  | Some section =>
      match _map !! section with
      | None => put (<[section := ∅]> _map, Some section)
      | Some _ => put (_map, Some section)
      end
  | None =>
      match find_char "=" line with
      | None => mret tt
      | Some equ_pos =>
          let key := trim (take equ_pos line) in
          let value := trim (drop (equ_pos + 1) line) in
          match key with
          | [] => mret tt
          | c :: _ =>
              if Ascii.eqb c "#" || Ascii.eqb c ";" then mret tt
              else
                section ← from_option_or Undefined m;
                pairs ← from_option_or Undefined (_map !! section);
                put (<[section := <[key := value]> pairs]> _map, m)
          end
      end
  end.

(** [file]: the contents of the file, if it can be opened. *)
Definition Load (file : option str) : M STR_MAP bool := λ _map,
  match file with
  | None => Ok (false, _map)
  | Some text =>
      match for_each (lines text) load_line (_map, None) with
      | Ok (_, (_map, _)) => Ok (true, _map)
      | Fail e => Fail e
      end
  end.

(** ** Lookup *)

(** The two [find]s every [Get...] starts with. *)
Definition find_value (section key : str) (_map : STR_MAP) : option str :=
  _map !! section ≫= lookup key.

Definition GetString (section key default_value : str) (_map : STR_MAP) : str :=
  match find_value section key _map with Some v => v | None => default_value end.

(** [iss >> v] for a [long long]: blanks, a sign, digits; out of range gives the
    nearest value, and no digits give 0. *)
Definition LLONG_MAX : Z := 2 ^ 63 - 1.
Definition LLONG_MIN : Z := - 2 ^ 63.
Definition digit (c : ascii) : option Z :=
  let n := Z.of_N (N_of_ascii c) in
  if (48 <=? n) && (n <=? 57) then Some (n - 48) else None.
Fixpoint digits_value (acc : Z) (s : str) : Z :=
  match s with
  | [] => acc
  | c :: s => match digit c with Some d => digits_value (acc * 10 + d) s | None => acc end
  end.
Definition read_ll (s : str) : Z :=
  let v := match trimLeft s with
           | [] => 0
           | c :: s' => if Ascii.eqb c "-" then - digits_value 0 s'
                        else if Ascii.eqb c "+" then digits_value 0 s'
                        else digits_value 0 (c :: s')
           end in
  Z.max LLONG_MIN (Z.min LLONG_MAX v).

Definition parseNumber (s : str) : Z := u32 (read_ll s).

Definition GetNumber (section key : str) (default_value : Z) (_map : STR_MAP) : Z :=
  match find_value section key _map with Some v => parseNumber v | None => default_value end.

(** [c_str()]: the characters before the first NUL. *)
Fixpoint c_str (s : str) : str :=
  match s with
  | [] => []
  | c :: s => if Ascii.eqb c "000" then [] else c :: c_str s
  end.
Definition tolower (c : ascii) : ascii :=
  let n := N_of_ascii c in
  if (65 <=? n)%N && (n <=? 90)%N then ascii_of_N (n + 32) else c.
(** [strcasecmp(a, b) == 0] *)
Definition strcase_eq (a b : str) : bool := bool_decide (map tolower (c_str a) = map tolower (c_str b)).

Definition GetBool (section key : str) (default_value : bool) (_map : STR_MAP) : bool :=
  match find_value section key _map with
  | Some v => if strcase_eq v (lit "true") then true else default_value
  | None => default_value
  end.

(** ** Lists *)

Definition sep : str := [","; " "; "009"]%char.

(** [find_first_of(sep, start)] and [find_first_not_of(sep, start)] *)
Fixpoint index_of (p : ascii → bool) (s : str) : option nat :=
  match s with
  | [] => None
  | c :: s => if p c then Some 0%nat else S <$> index_of p s
  end.
Definition find_first_of (s : str) (start : nat) : option nat :=
  Nat.add start <$> index_of (λ c, bool_decide (c ∈ sep)) (drop start s).
Definition find_first_not_of (s : str) (start : nat) : option nat :=
  Nat.add start <$> index_of (λ c, negb (bool_decide (c ∈ sep))) (drop start s).

(** The [while] loop of [GetStringList] and what follows it. *)
Fixpoint string_list_loop {S} (fuel : nat) (s : str) (start : nat) (v : list str) : M S (list str) :=
  match fuel with
  | O => fail NoFuel
  | S fuel =>
      match find_first_of s start with
      | None => mret (v ++ [drop start s])
      | Some index =>
          let v := v ++ [take (index - start) (drop start s)] in
          match find_first_not_of s index with
          | None => mret v
          | Some start => string_list_loop fuel s start v
          end
      end
  end.

Definition GetStringList (section key : str) : M STR_MAP (list str) :=
  _map ← get;
  let s := GetString section key [] _map in
  string_list_loop (S (length s)) s 0 [].

(** ** The single reader of the process: the static member [config] *)

Definition ins : M (option STR_MAP) STR_MAP :=
  config ← get;
  cassert (bool_decide (is_Some config)) ;;
  from_option_or Undefined config.

Definition setPath (file : option str) : M (option STR_MAP) bool :=
  config ← get;
  cassert (bool_decide (config = None)) ;;
  match Load file ∅ with
  | Ok (loaded, _map) => put (Some _map) ;; mret loaded
  | Fail e => fail e
  end.
