(* ===== verification/ConfigSpec.v ===== *)
(** * Text of configuration files

    Lemmas about src/config_reader.cc: trimming, splitting into lines, and what
    the loader makes of a line. *)
From stdpp Require Export pretty.
From S2P Require Import Prelude ConfigReader.

Abbreviation spaces := (Forall (λ c, isspace c = true)).

(** Neither end of [s] is a blank. *)
Definition trimmed (s : str) : Prop :=
  (∀ c, head s = Some c → isspace c = false) ∧ (∀ c, last s = Some c → isspace c = false).

(** ** Trimming *)

Lemma trimLeft_spaces a s : spaces a → trimLeft (a ++ s) = trimLeft s.
Proof. unfold trimLeft. induction 1 as [|c a Hc _ IH]; [done|]. simpl. by rewrite Hc. Qed.

Lemma trimLeft_id s : (∀ c, head s = Some c → isspace c = false) → trimLeft s = s.
Proof. unfold trimLeft. destruct s as [|c s]; [done|]. intros Hc. simpl. by rewrite (Hc c). Qed.

(** Only the first [k] characters matter. *)
Lemma last_not_empty_app s t k : (k ≤ length s)%nat → last_not_empty (s ++ t) k = last_not_empty s k.
Proof.
  induction k as [|k IH]; intros Hk; [done|]. simpl. rewrite lookup_app_l by lia.
  destruct (s !! k) as [c|]; [|done]. destruct (isspace c); [|done]. apply IH. lia.
Qed.

Lemma last_not_empty_le s k : (last_not_empty s k ≤ k)%nat.
Proof. induction k as [|k IH]; simpl; [lia|]. destruct (s !! k) as [c|]; [destruct (isspace c)|]; lia. Qed.

Lemma trimRight_space s c : isspace c = true → trimRight (s ++ [c]) = trimRight s.
Proof.
  intros Hc. unfold trimRight. rewrite length_app, Nat.add_1_r. simpl.
  rewrite list_lookup_middle, Hc by done. rewrite last_not_empty_app by done.
  rewrite take_app_le; [done|]. apply last_not_empty_le.
Qed.

Lemma trimRight_spaces s b : spaces b → trimRight (s ++ b) = trimRight s.
Proof.
  induction b as [|c b IH] using rev_ind; [by rewrite app_nil_r|].
  intros [Hb Hc]%Forall_app. rewrite app_assoc, trimRight_space by exact (Forall_inv Hc).
  by apply IH.
Qed.

Lemma trimRight_id s : (∀ c, last s = Some c → isspace c = false) → trimRight s = s.
Proof.
  destruct s as [|c s _] using rev_ind; [done|]. rewrite last_snoc. intros Hc.
  unfold trimRight. rewrite length_app, Nat.add_1_r. simpl.
  rewrite list_lookup_middle, Hc by done. rewrite take_ge; [done|]. rewrite length_app. simpl. lia.
Qed.

Lemma trim_spec a s b : spaces a → spaces b → trimmed s → trim (a ++ s ++ b) = s.
Proof.
  intros Ha Hb [Hh Hl]. unfold trim. rewrite app_assoc, trimRight_spaces by done.
  destruct (decide (s = [])) as [->|Hne].
  - rewrite app_nil_r, <- (app_nil_l a), trimRight_spaces by done. done.
  - rewrite trimRight_id; [by rewrite trimLeft_spaces, trimLeft_id|].
    intros c. rewrite last_app. destruct (last s) eqn:E; [apply Hl|by apply last_None in E].
Qed.

Lemma trimLeft_split r :
  (∀ c, last r = Some c → isspace c = false) →
  ∃ a, spaces a ∧ trimmed (trimLeft r) ∧ r = a ++ trimLeft r.
Proof.
  intros Hl. induction r as [|c r IH]; [by exists []|]. destruct (isspace c) eqn:Hc.
  - destruct IH as (a & Ha & Ht & Hr).
    { intros c' Hc'. apply Hl. by destruct r. }
    assert (trimLeft (c :: r) = trimLeft r) as -> by (apply (trimLeft_spaces [c] r); by constructor).
    exists (c :: a).
    split; [by constructor|]. split; [done|]. simpl. by f_equal.
  - exists []. rewrite trimLeft_id by (by intros c' [= <-]). split; [done|].
    split; [|done]. split; [by intros c' [= <-]|done].
Qed.

Lemma trimRight_split s :
  ∃ b, spaces b ∧ s = trimRight s ++ b ∧ ∀ c, last (trimRight s) = Some c → isspace c = false.
Proof.
  induction s as [|c s IH] using rev_ind; [by exists []|]. destruct (isspace c) eqn:Hc.
  - destruct IH as (b & Hb & He & Hl). rewrite trimRight_space by done. exists (b ++ [c]).
    split; [apply Forall_app; by split; [|constructor]|]. split; [by rewrite app_assoc, <- He|done].
  - exists []. rewrite trimRight_id by (intros c'; rewrite last_snoc; by intros [= <-]).
    rewrite app_nil_r. split; [done|]. split; [done|]. intros c'. rewrite last_snoc. by intros [= <-].
Qed.

(** Every string is its trimmed part between blanks. *)
Lemma trim_split s : ∃ a b, spaces a ∧ spaces b ∧ trimmed (trim s) ∧ s = a ++ trim s ++ b.
Proof.
  destruct (trimRight_split s) as (b & Hb & He & Hl). destruct (trimLeft_split _ Hl) as (a & Ha & Ht & Hr).
  exists a, b. unfold trim. split_and!; [done..|]. by rewrite app_assoc, <- Hr.
Qed.

(** The first character that is no blank stays in front. *)
Lemma trimRight_keeps x c r : isspace c = false → ∃ r', trimRight (x ++ c :: r) = x ++ c :: r'.
Proof.
  intros Hc. induction r as [|d r IH] using rev_ind.
  - exists []. apply trimRight_id. intros c'. rewrite last_snoc. by intros [= <-].
  - destruct (isspace d) eqn:Hd.
    + destruct IH as [r' Hr']. exists r'. rewrite app_comm_cons, app_assoc. by rewrite trimRight_space.
    + exists (r ++ [d]). apply trimRight_id. intros c'. rewrite app_comm_cons, app_assoc, last_snoc. by intros [= <-].
Qed.

Lemma trim_keeps a c r : spaces a → isspace c = false → ∃ r', trim (a ++ c :: r) = c :: r'.
Proof.
  intros Ha Hc. unfold trim. destruct (trimRight_keeps a c r Hc) as [r' ->]. exists r'.
  rewrite trimLeft_spaces by done. apply trimLeft_id. by intros c' [= <-].
Qed.

(** ** Lines *)

Definition newline : ascii := "010"%char.

(** A file made of the lines [ls]. *)
Fixpoint join_lines (ls : list str) : str :=
  match ls with
  | [] => []
  | [l] => l
  | l :: ls => l ++ newline :: join_lines ls
  end.

Lemma lines_line l text : newline ∉ l → lines (l ++ newline :: text) = l :: lines text.
Proof.
  induction l as [|c l IH]; intros Hn; [done|]. apply not_elem_of_cons in Hn as [Hc Hl].
  simpl. destruct (Ascii.eqb_spec c "010"); [by subst|]. by rewrite IH.
Qed.

Lemma lines_last l : newline ∉ l → lines l = [l].
Proof.
  induction l as [|c l IH]; intros Hn; [done|]. apply not_elem_of_cons in Hn as [Hc Hl].
  simpl. destruct (Ascii.eqb_spec c "010"); [by subst|]. by rewrite IH.
Qed.

Lemma lines_join ls : ls ≠ [] → Forall (λ l, newline ∉ l) ls → lines (join_lines ls) = ls.
Proof.
  intros Hne Hls. induction Hls as [|l ls Hl Hls IH]; [done|]. destruct ls as [|l' ls].
  - by apply lines_last.
  - change (join_lines (l :: l' :: ls)) with (l ++ newline :: join_lines (l' :: ls)).
    by rewrite lines_line, IH.
Qed.

Lemma find_char_app c s t : c ∉ s → find_char c (s ++ c :: t) = Some (length s).
Proof.
  induction s as [|x s IH]; intros Hn; simpl; [by rewrite Ascii.eqb_refl|].
  apply not_elem_of_cons in Hn as [Hx Hs]. destruct (Ascii.eqb_spec x c); [by subst|]. by rewrite IH.
Qed.

Lemma find_char_None c s : c ∉ s → find_char c s = None.
Proof.
  induction s as [|x s IH]; intros Hn; [done|]. apply not_elem_of_cons in Hn as [Hx Hs].
  simpl. destruct (Ascii.eqb_spec x c); [by subst|]. by rewrite IH.
Qed.

Lemma find_char_Some c s n : find_char c s = Some n → (c ∉ take n s) ∧ s !! n = Some c.
Proof.
  revert n. induction s as [|x s IH]; intros n; [done|]. simpl. destruct (Ascii.eqb_spec x c) as [->|Hx].
  - intros [= <-]. split; [apply not_elem_of_nil|done].
  - intros (m & Hm & ->)%fmap_Some. destruct (IH m Hm) as [Hn Hl]. simpl. split; [|done].
    apply not_elem_of_cons. split; [congruence|done].
Qed.

Lemma spaces_no_char a c : spaces a → isspace c = false → c ∉ a.
Proof. intros Ha Hc Hin. rewrite Forall_forall in Ha. by rewrite (Ha c Hin) in Hc. Qed.

(** ** Section headers *)

Lemma isSection_header a mid d :
  spaces a → spaces d → mid ≠ [] → isSection (a ++ "["%char :: mid ++ "]"%char :: d) = Some (trim mid).
Proof.
  intros Ha Hd Hm. unfold isSection.
  set (t := "["%char :: mid ++ ["]"%char]).
  assert (Ht : trim (a ++ "["%char :: mid ++ "]"%char :: d) = t).
  { replace (a ++ "["%char :: mid ++ "]"%char :: d) with (a ++ t ++ d) by (unfold t; simpl; by rewrite <- app_assoc).
    apply trim_spec; [done..|]. split; [by intros c [= <-]|]. intros c. unfold t.
    rewrite app_comm_cons, last_snoc. by intros [= <-]. }
  rewrite Ht. assert (Hlen : length t = (length mid + 2)%nat) by (unfold t; simpl; rewrite length_app; simpl; lia).
  assert (length mid ≠ 0)%nat by by destruct mid.
  rewrite bool_decide_false by done. cbn [orb]. rewrite Hlen.
  destruct (Nat.leb_spec (length mid + 2) 2); [lia|].
  rewrite bool_decide_true by done. cbn [negb orb].
  rewrite bool_decide_true.
  2:{ unfold t. replace (length mid + 2 - 1)%nat with (S (length mid)) by lia. simpl. by apply list_lookup_middle. }
  cbn [negb]. change (drop 1 t) with (mid ++ ["]"%char]). by rewrite take_app_length' by lia.
Qed.

Lemma isSection_other a c r : spaces a → isspace c = false → c ≠ "["%char → isSection (a ++ c :: r) = None.
Proof.
  intros Ha Hc Hne. unfold isSection. destruct (trim_keeps a c r Ha Hc) as [r' ->].
  destruct (_ || _); [done|]. by rewrite bool_decide_false by (simpl; congruence).
Qed.

Lemma isSection_blank a : spaces a → isSection a = None.
Proof.
  intros Ha. unfold isSection.
  assert (trim a = []) as ->; [|done].
  pose proof (trim_spec a [] [] Ha) as Ht. rewrite !app_nil_r in Ht. apply Ht; [by constructor|done].
Qed.

(** ** What a line says *)

Inductive item :=
  | ISection (name : str)
  | IPair (key value : str)
  | INothing.

(** The lines of a configuration file: blanks are allowed around every part. *)
Inductive reads_as : str → item → Prop :=
  | reads_section a mid d : spaces a → spaces d → mid ≠ [] →
      reads_as (a ++ "["%char :: mid ++ "]"%char :: d) (ISection (trim mid))
  | reads_pair a key b value : spaces a → spaces b → trimmed key →
      "="%char ∉ key → (∀ c, head key = Some c → c ≠ "#"%char ∧ c ≠ ";"%char ∧ c ≠ "["%char) → key ≠ [] →
      reads_as (a ++ key ++ b ++ "="%char :: value) (IPair key (trim value))
  | reads_comment a c rest : spaces a → c = "#"%char ∨ c = ";"%char →
      reads_as (a ++ c :: rest) INothing
  | reads_blank a : spaces a → reads_as a INothing.

(** The effect of a line on the maps and the current section. *)
Definition load_item (i : item) : M load_st unit :=
  '(_map, m) ← get;
  match i with
  | ISection name => put (<[name := default ∅ (_map !! name)]> _map, Some name)
  | IPair key value =>
      section ← from_option_or Undefined m;
      put (<[section := <[key := value]> (default ∅ (_map !! section))]> _map, m)
  | INothing => mret tt
  end.

(** The pointer [m] points to one of the maps. *)
Definition load_ok (st : load_st) : Prop := ∀ s, st.2 = Some s → is_Some (st.1 !! s).

Lemma load_section st name line :
  isSection line = Some name → load_line line st = load_item (ISection name) st.
Proof.
  intros Hs. destruct st as [_map m]. unfold load_line, load_item, mbind, M_bind, get, put. rewrite Hs.
  destruct (_map !! name) as [pairs|] eqn:Hn; [|done]. cbn. by rewrite insert_id.
Qed.

Lemma load_pair st a key b value :
  load_ok st → reads_as (a ++ key ++ b ++ "="%char :: value) (IPair key (trim value)) →
  spaces a → spaces b → trimmed key → "="%char ∉ key →
  (∀ c, head key = Some c → c ≠ "#"%char ∧ c ≠ ";"%char ∧ c ≠ "["%char) → key ≠ [] →
  load_line (a ++ key ++ b ++ "="%char :: value) st = load_item (IPair key (trim value)) st.
Proof.
  intros Hok _ Ha Hb Ht He Hc Hne. destruct st as [_map m]. unfold load_line, load_item.
  erewrite !bind_ok by reflexivity. cbv beta iota.
  destruct key as [|c key]; [done|]. destruct (Hc c eq_refl) as (H1 & H2 & H3). pose proof (proj1 Ht c eq_refl) as Hsp.
  change ((c :: key) ++ b ++ "="%char :: value) with (c :: (key ++ b ++ "="%char :: value)) at 1.
  rewrite (isSection_other a c) by done.
  replace (a ++ (c :: key) ++ b ++ "="%char :: value) with ((a ++ (c :: key) ++ b) ++ "="%char :: value)
    by by rewrite <- !app_assoc.
  rewrite find_char_app.
  2:{ rewrite !not_elem_of_app. split_and!; [by apply spaces_no_char|done|by apply spaces_no_char]. }
  rewrite take_app_length. cbv zeta. rewrite (trim_spec a (c :: key) b) by done.
  replace (drop (length (a ++ (c :: key) ++ b) + 1) ((a ++ (c :: key) ++ b) ++ "="%char :: value)) with value.
  2:{ rewrite <- drop_drop, drop_app_length. done. }
  rewrite (proj2 (Ascii.eqb_neq c _) H1), (proj2 (Ascii.eqb_neq c _) H2). cbn [orb].
  destruct m as [s|]; [|done]. destruct (Hok s eq_refl) as [pairs Hp]. simpl in Hp.
  unfold mbind, M_bind. cbn. by rewrite Hp.
Qed.

Lemma load_comment st a c rest :
  spaces a → c = "#"%char ∨ c = ";"%char → load_line (a ++ c :: rest) st = Ok (tt, st).
Proof.
  intros Ha Hc. destruct st as [_map m]. unfold load_line. erewrite bind_ok by reflexivity. cbv beta iota.
  assert (Hsp : isspace c = false) by by destruct Hc as [-> | ->].
  rewrite (isSection_other a c) by (done || by destruct Hc as [-> | ->]).
  destruct (find_char "=" (a ++ c :: rest)) as [n|] eqn:Hf; [|done]. apply find_char_Some in Hf as [_ Hn].
  assert (Hlt : (length a < n)%nat).
  { destruct (decide (n < length a)%nat) as [Hlt|Hge].
    - rewrite lookup_app_l in Hn by done. apply list_elem_of_lookup_2 in Hn.
      by apply (spaces_no_char a "="%char) in Hn.
    - destruct (decide (n = length a)) as [->|]; [|lia]. rewrite list_lookup_middle in Hn by done.
      destruct Hc as [-> | ->]; by injection Hn. }
  replace n with (length a + S (n - length a - 1))%nat by lia.
  rewrite take_app_add. cbn [take]. destruct (trim_keeps a c (take (n - length a - 1) rest) Ha Hsp) as [r' Hr'].
  rewrite Hr'. by destruct Hc as [-> | ->].
Qed.

Lemma load_blank st a : spaces a → load_line a st = Ok (tt, st).
Proof.
  intros Ha. destruct st as [_map m]. unfold load_line. erewrite bind_ok by reflexivity. cbv beta iota.
  rewrite isSection_blank, find_char_None; [done| |done]. by apply spaces_no_char.
Qed.

Lemma load_reads st line i : load_ok st → reads_as line i → load_line line st = load_item i st.
Proof.
  intros Hok Hr. pose proof Hr as Hr'. destruct Hr' as [a mid d|a key b value|a c rest|a].
  - by apply load_section, isSection_header.
  - by apply load_pair.
  - destruct st. by apply load_comment.
  - destruct st. by apply load_blank.
Qed.

(** ** What a file says *)

(** The value of [key] in section [sec], the current section being [cur]: the last
    pair counts. *)
Fixpoint value_of (sec key : str) (cur : option str) (items : list item) : option str :=
  match items with
  | [] => None
  | ISection name :: items => value_of sec key (Some name) items
  | INothing :: items => value_of sec key cur items
  | IPair k v :: items =>
      match value_of sec key cur items with
      | Some v' => Some v'
      | None => if decide (cur = Some sec ∧ k = key) then Some v else None
      end
  end.

(** A pair comes before the first section. *)
Fixpoint headless (items : list item) : bool :=
  match items with
  | IPair _ _ :: _ => true
  | INothing :: items => headless items
  | _ => false
  end.

Lemma load_item_ok i st : load_ok st → wp (load_item i) (λ _ st', load_ok st') st ∨ load_item i st = Fail Undefined.
Proof.
  destruct st as [_map m]. intros Hok. unfold load_item, mbind, M_bind, wp, get, put. destruct i as [name|key value|]; cbn.
  - left. intros s [= <-]. simpl. rewrite lookup_insert_eq. by eexists.
  - destruct m as [s|]; [|by right]. left. intros s' [= <-]. simpl. rewrite lookup_insert_eq. by eexists.
  - by left.
Qed.

Lemma load_lines ls items st :
  load_ok st → Forall2 reads_as ls items → for_each ls load_line st = for_each items load_item st.
Proof.
  intros Hok Hr. revert st Hok. induction Hr as [|l i ls items Hl _ IH]; intros st Hok; [done|].
  cbn [for_each]. unfold mbind, M_bind. rewrite (load_reads st l i Hok Hl).
  destruct (load_item_ok i st Hok) as [Hw| ->]; [|done]. apply wp_elim in Hw as ([] & st' & -> & Hok').
  by apply IH.
Qed.

Lemma find_value_insert sec key sec' m _map :
  find_value sec key (<[sec' := m]> _map) = if decide (sec' = sec) then m !! key else find_value sec key _map.
Proof.
  unfold find_value. case_decide as Hs; [subst; by rewrite lookup_insert_eq|by rewrite lookup_insert_ne].
Qed.

Lemma find_value_default sec key _map : default ∅ (_map !! sec) !! key = find_value sec key _map.
Proof. unfold find_value. by destruct (_map !! sec). Qed.

Lemma load_items_run items : ∀ _map m,
  (m = None → headless items = false) →
  ∃ _map' m', for_each items load_item (_map, m) = Ok (tt, (_map', m')) ∧
    ∀ sec key, find_value sec key _map' =
      match value_of sec key m items with Some v => Some v | None => find_value sec key _map end.
Proof.
  induction items as [|i items IH]; intros _map m Hm; [by exists _map, m|].
  cbn [for_each]. unfold load_item at 1, mbind at 1 2, M_bind at 1 2, get.
  destruct i as [name|k v|]; cbn [value_of].
  - destruct (IH (<[name := default ∅ (_map !! name)]> _map) (Some name)) as (mp & m' & Hr & Hv); [done|].
    exists mp, m'. split; [exact Hr|]. intros sec key. rewrite Hv.
    destruct (value_of _ _ _ _); [done|]. rewrite find_value_insert. case_decide; [|done]. subst.
    apply find_value_default.
  - destruct m as [s|]; [|by specialize (Hm eq_refl)]. cbn [from_option_or].
    destruct (IH (<[s := <[k := v]> (default ∅ (_map !! s))]> _map) (Some s)) as (mp & m' & Hr & Hv); [done|].
    exists mp, m'. split; [exact Hr|]. intros sec key. rewrite Hv.
    destruct (value_of _ _ _ _); [done|]. rewrite find_value_insert.
    destruct (decide (s = sec)) as [->|Hs].
    + destruct (decide (k = key)) as [->|Hk]; [by rewrite lookup_insert_eq, decide_True|].
      rewrite lookup_insert_ne, decide_False by naive_solver. apply find_value_default.
    + by rewrite decide_False by naive_solver.
  - destruct (IH _map m) as (mp & m' & Hr & Hv); [done|]. by exists mp, m'.
Qed.

Lemma load_items_headless items _map :
  headless items = true → for_each items load_item (_map, None) = Fail Undefined.
Proof.
  by induction items as [|[name|k v|] items IH].
Qed.

(** ** Numbers *)

(** A number in decimal. *)
Definition decimal (n : N) : str := lit (pretty n).

Lemma digit_char x : (x < 10)%N → digit (pretty_N_char x) = Some (Z.of_N x).
Proof.
  intros Hx. assert (x = 0 ∨ x = 1 ∨ x = 2 ∨ x = 3 ∨ x = 4 ∨ x = 5 ∨ x = 6 ∨ x = 7 ∨ x = 8 ∨ x = 9)%N as Hc by lia.
  by repeat (destruct Hc as [->|Hc]; [done|]); subst.
Qed.

Lemma digits_value_go x : ∀ s,
  digits_value 0 (lit (pretty_N_go x s)) = digits_value (Z.of_N x) (lit s) ∧
  (Forall (λ c, is_Some (digit c)) (lit s) → Forall (λ c, is_Some (digit c)) (lit (pretty_N_go x s))) ∧
  (x ≠ 0%N → lit (pretty_N_go x s) ≠ []) ∧ (lit s ≠ [] → lit (pretty_N_go x s) ≠ []).
Proof.
  induction (N.lt_wf_0 x) as [x _ IH]. intros s. destruct (decide (x = 0)%N) as [->|Hx]; [done|].
  pose proof (N.mod_lt x 10 ltac:(done)) as Hm.
  rewrite pretty_N_go_step by lia. specialize (IH (x `div` 10)%N ltac:(apply N.div_lt; lia) (String (pretty_N_char (x `mod` 10)) s)).
  destruct IH as (IH1 & IH2 & IH3 & IH4). rewrite IH1. unfold lit. simpl. rewrite digit_char by done.
  split; [|split; [|split; intros _; by apply IH4]].
  - f_equal. rewrite (N.div_mod x 10) at 3 by done. lia.
  - intros Hs. apply IH2. simpl. constructor; [rewrite digit_char by done; by eexists|done].
Qed.

(** The digits of [n], and what reading them gives. *)
Lemma decimal_spec n :
  digits_value 0 (decimal n) = Z.of_N n ∧ Forall (λ c, is_Some (digit c)) (decimal n) ∧ decimal n ≠ [].
Proof.
  unfold decimal, pretty, pretty_N. case_decide as Hn.
  - subst. split; [done|]. split; [by repeat constructor|done].
  - destruct (digits_value_go n "") as (H1 & H2 & H3 & _). split; [exact H1|]. split; [by apply H2|by apply H3].
Qed.

(** Reading stops at the first character that is no digit. *)
Lemma digits_value_app acc ds rest :
  Forall (λ c, is_Some (digit c)) ds → (∀ c, head rest = Some c → digit c = None) →
  digits_value acc (ds ++ rest) = digits_value acc ds.
Proof.
  intros Hd Hr. revert acc. induction Hd as [|c ds [d Hc] _ IH]; intros acc; simpl.
  - destruct rest as [|c rest]; [done|]. simpl. by rewrite (Hr c).
  - rewrite Hc. apply IH.
Qed.

Lemma digit_not_special c d : digit c = Some d → isspace c = false ∧ c ≠ "-"%char ∧ c ≠ "+"%char.
Proof.
  unfold digit. intros Hd. split; [|split; intros ->; by vm_compute in Hd].
  unfold isspace. revert Hd. generalize (Z.of_N (N_of_ascii c)). intros n.
  destruct (Z.leb_spec 48 n), (Z.leb_spec n 57); try done. intros _.
  destruct (Z.leb_spec 9 n), (Z.leb_spec n 13), (Z.eqb_spec n 32); try done; lia.
Qed.

(** What is read of a decimal text. *)
Lemma read_ll_decimal a n rest :
  spaces a → (∀ c, head rest = Some c → digit c = None) →
  read_ll (a ++ decimal n ++ rest) = Z.min LLONG_MAX (Z.of_N n) ∧
  read_ll (a ++ "-"%char :: decimal n ++ rest) = Z.max LLONG_MIN (- Z.of_N n).
Proof.
  intros Ha Hr. destruct (decimal_spec n) as (Hv & Hd & Hne).
  assert (Happ : digits_value 0 (decimal n ++ rest) = Z.of_N n) by by rewrite digits_value_app, Hv.
  unfold read_ll. split; rewrite trimLeft_spaces by done.
  - destruct (decimal n) as [|c ds] eqn:Hdec; [done|]. apply Forall_cons in Hd as [[x Hx] _].
    destruct (digit_not_special c x Hx) as (Hsp & Hm & Hp).
    rewrite trimLeft_id by (by intros c' [= <-]). cbn [app].
    rewrite (proj2 (Ascii.eqb_neq c _) Hm), (proj2 (Ascii.eqb_neq c _) Hp). rewrite app_comm_cons, Happ.
    unfold LLONG_MIN, LLONG_MAX. lia.
  - rewrite trimLeft_id by (by intros c' [= <-]). cbn. rewrite Happ. unfold LLONG_MAX, LLONG_MIN. lia.
Qed.

(** ** Lists *)

Lemma index_of_app p a c r : Forall (λ x, p x = false) a → p c = true → index_of p (a ++ c :: r) = Some (length a).
Proof. intros Ha Hc. induction Ha as [|x a Hx _ IH]; simpl; [by rewrite Hc|]. by rewrite Hx, IH. Qed.

Lemma index_of_None p a : Forall (λ x, p x = false) a → index_of p a = None.
Proof. induction 1 as [|x a Hx _ IH]; [done|]. simpl. by rewrite Hx, IH. Qed.

Lemma find_first_of_app s start a c r :
  drop start s = a ++ c :: r → Forall (.∉ sep) a → c ∈ sep → find_first_of s start = Some (start + length a)%nat.
Proof.
  intros Hs Ha Hc. unfold find_first_of. rewrite Hs, index_of_app; [done| |by apply bool_decide_eq_true].
  eapply Forall_impl; [exact Ha|]. intros x. apply bool_decide_eq_false_2.
Qed.

Lemma find_first_not_of_app s start a c r :
  drop start s = a ++ c :: r → Forall (.∈ sep) a → c ∉ sep → find_first_not_of s start = Some (start + length a)%nat.
Proof.
  intros Hs Ha Hc. unfold find_first_not_of. rewrite Hs, index_of_app; [done| |by rewrite bool_decide_eq_false_2].
  eapply Forall_impl; [exact Ha|]. intros x Hx. by rewrite bool_decide_eq_true_2.
Qed.

(** The text of a list: the first element, the others each behind separators, and
    separators at the end. *)
Definition list_text (t0 : str) (rest : list (str * str)) (trailing : str) : str :=
  t0 ++ concat ((λ p, p.1 ++ p.2) <$> rest) ++ trailing.

(** Separators, then an element. *)
Definition list_part (p : str * str) : Prop :=
  p.1 ≠ [] ∧ Forall (.∈ sep) p.1 ∧ p.2 ≠ [] ∧ Forall (.∉ sep) p.2.

(** One element is taken, and the loop stands at the next one. *)
Lemma string_list_step {S} fuel s start v t0 sp t rest trailing (st : S) :
  drop start s = list_text t0 ((sp, t) :: rest) trailing → Forall (.∉ sep) t0 → list_part (sp, t) →
  ∃ start', drop start' s = list_text t rest trailing ∧
    string_list_loop (Datatypes.S fuel) s start v st = string_list_loop fuel s start' (v ++ [t0]) st.
Proof.
  intros Hs Ht0 (Hne & Hsp & Hnt & Ht). cbn [fst snd] in *. unfold list_text in *. rewrite fmap_cons in Hs. cbn [concat fst snd] in Hs.
  destruct sp as [|c sp]; [done|]. destruct t as [|d t]; [done|].
  apply Forall_cons in Hsp as Hsp'. apply Forall_cons in Ht as Ht'.
  set (body := concat ((λ p, p.1 ++ p.2) <$> rest) ++ trailing) in *. rewrite <- !app_assoc in Hs. fold body in Hs.
  set (index := (start + length t0)%nat).
  assert (Hi : drop index s = (c :: sp) ++ (d :: t) ++ body).
  { unfold index. by rewrite <- drop_drop, Hs, drop_app_length. }
  exists (index + length (c :: sp))%nat. split; [by rewrite <- drop_drop, Hi, drop_app_length|].
  cbn [string_list_loop]. rewrite (find_first_of_app s start t0 c (sp ++ (d :: t) ++ body)) by (done || apply Hsp').
  fold index. rewrite (find_first_not_of_app s index (c :: sp) d (t ++ body)) by (done || apply Ht').
  rewrite Hs. replace (index - start)%nat with (length t0) by (unfold index; lia). by rewrite take_app_length.
Qed.

Lemma string_list_run {S} rest : ∀ fuel s start v t0 trailing (st : S),
  drop start s = list_text t0 rest trailing → Forall (.∉ sep) t0 → Forall list_part rest → Forall (.∈ sep) trailing →
  (length rest < fuel)%nat → string_list_loop fuel s start v st = Ok (v ++ t0 :: rest.*2, st).
Proof.
  induction rest as [|[sp t] rest IH]; intros fuel s start v t0 trailing st Hs Ht0 Hrest Htr Hf;
    (destruct fuel as [|fuel]; [simpl in Hf; lia|]).
  - unfold list_text in Hs. simpl in Hs. cbn [string_list_loop]. destruct trailing as [|c tr].
    + rewrite app_nil_r in Hs. unfold find_first_of. rewrite Hs, index_of_None; [done|].
      eapply Forall_impl; [exact Ht0|]. intros x. apply bool_decide_eq_false_2.
    + rewrite (find_first_of_app s start t0 c tr) by (done || by apply Forall_cons in Htr as [? _]).
      unfold find_first_not_of. rewrite <- drop_drop, Hs, drop_app_length, index_of_None.
      2:{ eapply Forall_impl; [exact Htr|]. intros x Hx. by rewrite bool_decide_eq_true_2. }
      simpl. replace (start + length t0 - start)%nat with (length t0) by lia. by rewrite take_app_length.
  - apply Forall_cons in Hrest as [Hp Hrest].
    destruct (string_list_step fuel s start v t0 sp t rest trailing st Hs Ht0 Hp) as (start' & Hs' & ->).
    rewrite (IH _ _ start' _ t trailing); [by rewrite <- app_assoc|done|apply Hp|done|done|simpl in Hf; lia].
Qed.

Lemma list_text_length t0 rest trailing :
  Forall list_part rest → (length rest ≤ length (list_text t0 rest trailing))%nat.
Proof.
  intros Hr. unfold list_text. rewrite !length_app. cut (length rest ≤ length (concat ((λ p, p.1 ++ p.2) <$> rest)))%nat; [lia|].
  induction Hr as [|[sp t] rest (Hne & _) _ IH]; [done|]. rewrite fmap_cons. cbn [concat length fst snd].
  rewrite !length_app. destruct sp; [done|]. simpl. lia.
Qed.
