(* ===== verification/ConfigProps.v ===== *)
(** * Correctness of the configuration reader

    The claims about src/config_reader.cc: what a file means, how a list value is
    cut, and which numbers a text denotes. *)
From S2P Require Import Prelude ConfigReader ConfigSpec.

#[local] Open Scope Z_scope.

(** C36 A file whose lines are section headers, pairs, comments and blank lines, with
    blanks around every part, is read as it says: afterwards the value of a key in
    a section is that of the last pair with this key under a header with this
    name, and the default where there is none.  A file with a pair before its
    first header makes the reader use the null pointer [m]. *)
Theorem Load_reads_file ls items :
  ls ≠ [] → Forall (λ l, newline ∉ l) ls → Forall2 reads_as ls items →
  if headless items then Load (Some (join_lines ls)) ∅ = Fail Undefined
  else ∃ _map, Load (Some (join_lines ls)) ∅ = Ok (true, _map) ∧
    ∀ section key d, GetString section key d _map = default d (value_of section key None items).
Proof.
  intros Hne Hnl Hr. unfold Load. rewrite lines_join by done.
  rewrite (load_lines ls items) by (done || intros s [=]).
  destruct (headless items) eqn:Hh; [by rewrite load_items_headless|].
  destruct (load_items_run items ∅ None) as (_map & m & -> & Hv); [done|].
  exists _map. split; [done|]. intros section key d. unfold GetString. rewrite Hv.
  by destruct (value_of _ _ _ _).
Qed.

(** Literal lines for the instances. *)
Definition sample_file : list str :=
  [lit "# demo"; lit "[reactor]"; lit "maxConns = 10000"; lit ""; lit "[ log ]"; lit "level=3"; lit "level=5 "].

Lemma Load_reads_file_witness :
  (∃ _map, Load (Some (join_lines sample_file)) ∅ = Ok (true, _map) ∧
     GetString (lit "reactor") (lit "maxConns") [] _map = lit "10000" ∧
     GetString (lit "log") (lit "level") [] _map = lit "5" ∧
     GetString (lit "log") (lit "path") (lit "none") _map = lit "none") ∧
  Load (Some (join_lines [lit "level=3"])) ∅ = Fail Undefined.
Proof.
  assert (Hsp : spaces (lit " ")) by by constructor.
  assert (Htr : ∀ c d s, isspace c = false → isspace d = false → trimmed (c :: s ++ [d])).
  { intros c d s Hc Hd. split; [by intros x [= <-]|]. intros x. rewrite app_comm_cons, last_snoc. by intros [= <-]. }
  assert (Hlevel : ∀ v, reads_as (lit "level=" ++ v) (IPair (lit "level") (trim v))).
  { intros v. apply (reads_pair [] (lit "level") [] v); [done|done|by apply (Htr "l"%char "l"%char (lit "eve"))| | |done].
    - apply (bool_decide_unpack _). vm_compute. done.
    - by intros c [= <-]. }
  split.
  - destruct (Load_reads_file sample_file [INothing; ISection (lit "reactor"); IPair (lit "maxConns") (lit "10000");
      INothing; ISection (lit "log"); IPair (lit "level") (lit "3"); IPair (lit "level") (lit "5")]) as (mp & Hr & Hv).
    + done.
    + apply (bool_decide_unpack _). vm_compute. done.
    + constructor; [by apply (reads_comment [] "#"%char (lit " demo")); [|left]|].
      constructor; [by apply (reads_section [] (lit "reactor") [])|].
      constructor.
      { apply (reads_pair [] (lit "maxConns") (lit " ") (lit " 10000"));
          [done|done|by apply (Htr "m"%char "s"%char (lit "axConn"))| |by intros c [= <-]|done].
        apply (bool_decide_unpack _). vm_compute. done. }
      constructor; [by apply reads_blank|].
      constructor; [by apply (reads_section [] (lit " log ") [])|].
      constructor; [apply (Hlevel (lit "3"))|]. constructor; [apply (Hlevel (lit "5 "))|constructor].
    + exists mp. split; [exact Hr|]. rewrite !Hv. by vm_compute.
  - apply (Load_reads_file [lit "level=3"] [IPair (lit "level") (lit "3")]); [done| |].
    + apply (bool_decide_unpack _). vm_compute. done.
    + constructor; [apply (Hlevel (lit "3"))|constructor].
Defined.

(** A value that is a list of elements, with commas, blanks and tabs between them
    and at the end, is cut into exactly these elements, in order; separators in
    front give an empty first element, and so does an absent key.  The loop
    always ends. *)
Theorem GetStringList_elements section key _map t0 rest trailing :
  GetString section key [] _map = list_text t0 rest trailing →
  Forall (.∉ sep) t0 → Forall list_part rest → Forall (.∈ sep) trailing →
  GetStringList section key _map = Ok (t0 :: rest.*2, _map).
Proof.
  intros Hv Ht0 Hrest Htr. unfold GetStringList. erewrite bind_ok by reflexivity. cbv beta zeta. rewrite Hv.
  rewrite (string_list_run rest _ _ 0 [] t0 trailing); try done.
  pose proof (list_text_length t0 rest trailing Hrest). lia.
Qed.

Lemma GetStringList_elements_witness :
  let _map : STR_MAP := {[lit "hosts" := {[lit "all" := lit "a, b  c,"]}]} in
  GetStringList (lit "hosts") (lit "all") _map = Ok ([lit "a"; lit "b"; lit "c"], _map).
Proof.
  intros _map.
  apply (GetStringList_elements (lit "hosts") (lit "all") _map (lit "a") [(lit ", ", lit "b"); (lit "  ", lit "c")] (lit ",")).
  - reflexivity.
  - apply (bool_decide_unpack _). vm_compute. done.
  - repeat constructor; try done; cbn [fst snd]; apply (bool_decide_unpack _); vm_compute; done.
  - apply (bool_decide_unpack _). vm_compute. done.
Defined.

(** [GetNumber] of a decimal text, with blanks before it and anything but a digit
    behind it, is that number, cut to the range of [long long] and then reduced
    modulo [2^32]: numbers from 4294967296 on and negative ones are not
    refused. *)
Theorem GetNumber_decimal section key d _map a n rest :
  spaces a → (∀ c, head rest = Some c → digit c = None) →
  (find_value section key _map = Some (a ++ decimal n ++ rest) →
   GetNumber section key d _map = u32 (Z.min LLONG_MAX (Z.of_N n))) ∧
  (find_value section key _map = Some (a ++ "-"%char :: decimal n ++ rest) →
   GetNumber section key d _map = u32 (Z.max LLONG_MIN (- Z.of_N n))).
Proof.
  intros Ha Hr. destruct (read_ll_decimal a n rest Ha Hr) as [H1 H2].
  unfold GetNumber, parseNumber. split; intros ->; by f_equal.
Qed.

Lemma GetNumber_decimal_witness :
  let _map : STR_MAP := {[lit "reactor" := {[lit "maxConns" := lit " 4294967297 "; lit "threadNum" := lit "-1"]}]} in
  GetNumber (lit "reactor") (lit "maxConns") 0 _map = 1 ∧
  GetNumber (lit "reactor") (lit "threadNum") 0 _map = 4294967295.
Proof.
  intros _map. split.
  - destruct (GetNumber_decimal (lit "reactor") (lit "maxConns") 0 _map (lit " ") 4294967297%N (lit " ")) as [Hn _].
    + by constructor.
    + by intros c [= <-].
    + rewrite Hn by (vm_compute; reflexivity). by vm_compute.
  - destruct (GetNumber_decimal (lit "reactor") (lit "threadNum") 0 _map [] 1%N []) as [_ Hn].
    + by constructor.
    + by intros c [=].
    + rewrite Hn by (vm_compute; reflexivity). by vm_compute.
Defined.

(** ** Other accessors *)

(** [GetBool] only ever answers [true] or the default: a default of [true] cannot be
    overridden. *)
Lemma GetBool_default_true section key _map : GetBool section key true _map = true.
Proof. unfold GetBool. destruct (find_value section key _map); [by destruct (strcase_eq _ _)|done]. Qed.

Example GetBool_case :
  GetBool (lit "s") (lit "k") false {[lit "s" := {[lit "k" := lit "TRUE"]}]} = true.
Proof. by vm_compute. Qed.

(** The reader is set once, and asking for it before stops the process. *)
Lemma setPath_once file _map : setPath file (Some _map) = Fail AssertFailed.
Proof. done. Qed.
Lemma ins_before_setPath : ins None = Fail AssertFailed.
Proof. done. Qed.
Lemma ins_after_setPath file loaded config :
  setPath file None = Ok (loaded, config) → ∃ _map, config = Some _map ∧ ins config = Ok (_map, config).
Proof.
  unfold setPath. erewrite !bind_ok by reflexivity. destruct (Load file ∅) as [[b mp]|]; [|done].
  intros [= _ <-]. by exists mp.
Qed.
