(* ===== verification/FloatText.v ===== *)
(** * [GetFloat] (src/config_reader.cc)

    A value goes from text to [float] through a string stream, and the default goes
    through text as well.  What the streams of the standard library do with a
    [float], in the "C" locale: [binary32] numbers are those of the Standard
    Library's SpecFloat, and both conversions round to the nearest, exactly. *)
From Stdlib Require Import Floats.SpecFloat.
From stdpp Require Import pretty.
From S2P Require Import Prelude ConfigReader ConfigSpec.

#[local] Open Scope Z_scope.

(** ** Text to [float] *)

(** The [float] nearest to [num / den], ties to even; infinite when out of range. *)
Definition nearest (sign : bool) (num den : Z) : spec_float :=
  match num with
  | Z0 => S754_zero sign
  | _ => let '(q, e, loc) := SFdiv_core_binary 24 128 num 0 den 0 in binary_round_aux 24 128 sign q e loc
  end.

(** ... to [m * 10 ^ e]. *)
Definition nearest10 (sign : bool) (m e : Z) : spec_float :=
  if 0 <=? e then nearest sign (m * 10 ^ e) 1 else nearest sign m (10 ^ (- e)).

(** The digits in front. *)
Fixpoint take_digits (s : str) : str * str :=
  match s with
  | [] => ([], [])
  | c :: s' => match digit c with
               | Some _ => let '(ds, rest) := take_digits s' in (c :: ds, rest)
               | None => ([], s)
               end
  end.

Definition take_sign (s : str) : bool * str :=
  match s with
  | c :: s' => if Ascii.eqb c "-" then (true, s') else if Ascii.eqb c "+" then (false, s') else (false, s)
  | [] => (false, [])
  end.

(** An exponent, if one begins here: [None] when it has no digits. *)
Definition take_exponent (s : str) : option Z :=
  match s with
  | c :: s =>
      if Ascii.eqb c "e" || Ascii.eqb c "E" then
        let '(neg, s) := take_sign s in
        let '(ds, _) := take_digits s in
        if bool_decide (ds = []) then None else Some (if neg : bool then - digits_value 0 ds else digits_value 0 ds)
      else Some 0
  | [] => Some 0
  end.

(** [convert2 >> fresult]: an optional sign, digits with an optional point, and an
    optional exponent; [None] when that is no number or out of range. *)
Definition read_float (s : str) : option spec_float :=
  let '(sign, s) := take_sign (trimLeft s) in
  let '(int, s) := take_digits s in
  let '(frac, s) := match s with
                    | c :: s' => if Ascii.eqb c "." then take_digits s' else ([], s)
                    | [] => ([], [])
                    end in
  if bool_decide (int ++ frac = []) then None
  else
    exponent ← take_exponent s;
    match nearest10 sign (digits_value 0 (int ++ frac)) (exponent - Z.of_nat (length frac)) with
    | S754_infinity _ => None
    | f => Some f
    end.

(** ** [float] to text *)

(** The largest [x] from [38] down with [10 ^ x <= num / den]; the smallest [float]
    is above [10 ^ -46]. *)
Fixpoint exponent10 (fuel : nat) (x num den : Z) : Z :=
  match fuel with
  | O => x
  | S fuel =>
      let below := if 0 <=? x then 10 ^ x * den <=? num else den <=? num * 10 ^ (- x) in
      if below then x else exponent10 fuel (x - 1) num den
  end.

Definition round_even (num den : Z) : Z :=
  let q := num / den in
  let r := num mod den in
  if (2 * r <? den) || ((2 * r =? den) && Z.even q) then q else q + 1.

(** [num / den] as six decimal digits and the exponent of the first one. *)
Definition six_digits (num den : Z) : Z * Z :=
  let x := exponent10 85 38 num den in
  let d := if x <=? 5 then round_even (num * 10 ^ (5 - x)) den else round_even num (den * 10 ^ (x - 5)) in
  if d =? 10 ^ 6 then (10 ^ 5, x + 1) else (d, x).

(** Without the zeros at the end. *)
Fixpoint strip_zeros (s : str) : str :=
  match s with
  | [] => []
  | c :: s => match strip_zeros s with
              | [] => if Ascii.eqb c "0" then [] else [c]
              | s => c :: s
              end
  end.

Definition with_point (int frac : str) : str :=
  match strip_zeros frac with [] => int | frac => int ++ "."%char :: frac end.

(** The six digits [ds], the first one standing for [10 ^ x], as [%g] shows them. *)
Definition show_general (ds : str) (x : Z) : str :=
  if (x <? -4) || (6 <=? x) then
    with_point (take 1 ds) (drop 1 ds) ++ "e"%char :: (if x <? 0 then "-"%char else "+"%char) ::
      (if Z.abs x <? 10 then "0"%char :: lit (pretty (Z.abs x)) else lit (pretty (Z.abs x)))
  else if 0 <=? x then with_point (take (Z.to_nat (x + 1)) ds) (drop (Z.to_nat (x + 1)) ds)
  else with_point (lit "0") (replicate (Z.to_nat (- x - 1)) "0"%char ++ ds).

(** [convert1 << default_value] *)
Definition show_float (f : spec_float) : str :=
  let minus (s : bool) := if s then lit "-" else [] in
  match f with
  | S754_zero s => minus s ++ lit "0"
  | S754_infinity s => minus s ++ lit "inf"
  | S754_nan => lit "nan"
  | S754_finite s m e =>
      let '(d, x) := if 0 <=? e then six_digits (Z.pos m * 2 ^ e) 1 else six_digits (Z.pos m) (2 ^ (- e)) in
      minus s ++ show_general (lit (pretty d)) x
  end.

(** ** The accessor *)

Definition GetFloat (section key : str) (default_value : spec_float) (_map : STR_MAP) : spec_float :=
  match read_float (GetString section key (show_float default_value) _map) with
  | Some fresult => fresult
  | None => S754_zero false
  end.

Example shows :
  show_float (nearest10 false 314159265 (-8)) = lit "3.14159" ∧ show_float (nearest10 true 1 (-7)) = lit "-1e-07" ∧
  show_float (nearest10 false 16777215 0) = lit "1.67772e+07" ∧ show_float (nearest10 false 5 (-1)) = lit "0.5" ∧
  show_float (nearest10 false 100000 0) = lit "100000" ∧ show_float (nearest10 false 1 (-45)) = lit "1.4013e-45" ∧
  show_float (nearest10 false 12 (-5)) = lit "0.00012".
Proof. vm_compute. by split_and!. Qed.

Example reads :
  read_float (lit " +1.25e1x") = Some (nearest false 25 2) ∧ read_float (lit "1e") = None ∧ read_float (lit "inf") = None ∧
  read_float (lit ".5.5") = Some (nearest false 1 2) ∧ read_float (lit "1e39") = None ∧
  read_float (lit "-0") = Some (S754_zero true) ∧ read_float (lit "1e-50") = Some (S754_zero false) ∧
  read_float (lit "0.1") = Some (S754_finite false 13421773 (-27)).
Proof. vm_compute. by split_and!. Qed.

(** ** What is read *)

Definition is_digit (c : ascii) : Prop := is_Some (digit c).

Lemma take_digits_app ds rest :
  Forall is_digit ds → (∀ c, head rest = Some c → digit c = None) → take_digits (ds ++ rest) = (ds, rest).
Proof.
  intros Hds Hr. induction Hds as [|c ds [d Hc] _ IH]; simpl; [|by rewrite Hc, IH].
  destruct rest as [|c rest]; [done|]. simpl. by rewrite (Hr c).
Qed.

Lemma digits_value_shift ds acc :
  Forall is_digit ds → digits_value acc ds = acc * 10 ^ Z.of_nat (length ds) + digits_value 0 ds.
Proof.
  intros Hds. revert acc. induction Hds as [|c ds [d Hc] _ IH]; intros acc; cbn [digits_value length]; [lia|].
  rewrite Hc, IH, (IH (0 * 10 + d)), Nat2Z.inj_succ, Z.pow_succ_r by lia. lia.
Qed.

Lemma digits_value_both ds ds' :
  Forall is_digit ds → Forall is_digit ds' →
  digits_value 0 (ds ++ ds') = digits_value 0 ds * 10 ^ Z.of_nat (length ds') + digits_value 0 ds'.
Proof.
  intros Hds Hds'. rewrite <- (digits_value_shift ds' (digits_value 0 ds)) by done. generalize 0.
  induction Hds as [|c ds [d Hc] _ IH]; intros acc; [done|]. cbn [digits_value app]. by rewrite Hc, IH.
Qed.

(** [GetFloat] of a decimal fraction, with blanks before it and anything behind it
    that cannot belong to a number: the nearest [float], and 0 when there is none
    because the number is too large. *)
Theorem GetFloat_reads section key d _map a n frac rest :
  spaces a → Forall is_digit frac →
  (∀ c, head rest = Some c → digit c = None ∧ c ≠ "e"%char ∧ c ≠ "E"%char) →
  find_value section key _map = Some (a ++ decimal n ++ "."%char :: frac ++ rest) →
  GetFloat section key d _map =
    match nearest10 false (Z.of_N n * 10 ^ Z.of_nat (length frac) + digits_value 0 frac) (- Z.of_nat (length frac)) with
    | S754_infinity _ => S754_zero false
    | f => f
    end.
Proof.
  intros Ha Hfr Hrest Hv. destruct (decimal_spec n) as (Hval & Hd & Hne). unfold GetFloat, GetString. rewrite Hv.
  unfold read_float. rewrite trimLeft_spaces by done.
  destruct (decimal n) as [|c ds] eqn:Hdec; [done|]. pose proof Hd as [[x Hx] _]%Forall_cons.
  destruct (digit_not_special c x Hx) as (Hsp & Hm & Hp).
  rewrite trimLeft_id by (by intros c' [= <-]). cbn [app take_sign].
  rewrite (proj2 (Ascii.eqb_neq c _) Hm), (proj2 (Ascii.eqb_neq c _) Hp). rewrite app_comm_cons.
  rewrite take_digits_app by (done || by intros c' [= <-]). cbn [Ascii.eqb Bool.eqb].
  rewrite take_digits_app by (done || by intros c' Hc'; apply Hrest).
  rewrite bool_decide_false by done.
  assert (He : take_exponent rest = Some 0).
  { destruct rest as [|r rest]; [done|]. destruct (Hrest r eq_refl) as (_ & He & HE). simpl.
    by rewrite (proj2 (Ascii.eqb_neq r _) He), (proj2 (Ascii.eqb_neq r _) HE). }
  rewrite He. cbn [mbind option_bind]. rewrite digits_value_both by done. rewrite Hval, Z.sub_0_l.
  by destruct (nearest10 _ _ _).
Qed.

Lemma GetFloat_reads_witness :
  GetFloat (lit "s") (lit "k") (S754_zero false) {[lit "s" := {[lit "k" := lit " 2.50 "]}]} = nearest false 5 2.
Proof.
  rewrite (GetFloat_reads (lit "s") (lit "k") (S754_zero false) _ (lit " ") 2 (lit "50") (lit " ")).
  - vm_compute. reflexivity.
  - by repeat constructor.
  - repeat constructor; by eexists.
  - by intros c [= <-].
  - reflexivity.
Defined.

(** A default that needs more than six digits is not the value that comes back. *)
Example GetFloat_default_changes :
  GetFloat (lit "s") (lit "k") (nearest10 false 16777215 0) ∅ = nearest10 false 16777200 0 ∧
  nearest10 false 16777215 0 ≠ nearest10 false 16777200 0.
Proof. vm_compute. by split. Qed.
