(* ===== verification/Commu.v ===== *)
(** * What the programs are written against (include/net_commu.h, echoMsg.proto)

    The interface [net_commu] that every message callback is given, with its four
    implementations; the messages of the example programs; C strings; and the
    clock. *)
From S2P Require Import Prelude EventBase TimerQueue Kernel IoBuffer Wire EventLoop World TcpConn Udp TcpClient.

(** ** [class net_commu]

    The virtual functions of an object; its [parameter] is a member of [tcp_conn]
    (World.v), NULL in a new object. *)
Record net_commu (W : Type) := NetCommu {
  send_data : list byte → Z → Z → M W Z;
  get_fd : M W Z;
}.
Arguments NetCommu {W} send_data get_fd.
Arguments send_data {W} n dat datlen cmdid.
Arguments get_fd {W} n.

Section implementations.
Context {K U : Type} `{Kernel K}.

Definition tcp_conn_commu (c : Z) : net_commu (world K U) :=
  NetCommu (tcp_send_data c) (x ← conn_at c; mret (_connfd x)).
Definition tcp_client_commu : net_commu (cl_world K U) :=
  NetCommu cl_send_data (w ← get; mret (cl_sockfd (cl w))).
Definition udp_server_commu : net_commu (udp_world K U udp_server) :=
  NetCommu udp_server_send_data (w ← get; mret (us_sockfd (u_ep w))).
Definition udp_client_commu : net_commu (udp_world K U udp_client) :=
  NetCommu udp_client_send_data (w ← get; mret (uc_sockfd (u_ep w))).

(** The lambda a message callback of the server classes comes down to. *)
Definition on_conn (f : net_commu (world K U) → list byte → Z → Z → M (world K U) unit)
    (_ : msg_callback) (dat : list byte) (len cmdid c : Z) (_ : void_ptr) : M (world K U) unit :=
  f (tcp_conn_commu c) dat len cmdid.
End implementations.

(** ** [message EchoString] of echoMsg.proto *)

Record EchoString := MkEchoString {
  es_content : list byte;
  es_id : Z;
}.

(** A new message: both fields have their defaults. *)
Definition EchoString_new : EchoString := MkEchoString [] 0.
Definition set_content c m := MkEchoString c (es_id m).
Definition set_id i m := MkEchoString (es_content m) i.

(** The code protoc generates for it: [ParseFromArray] tells whether the bytes are
    a message, and what the object holds then. *)
Class EchoCodec := {
  ParseFromArray : list byte → bool * EchoString;
  SerializeToString : EchoString → list byte;
}.

(** What the protocol buffer encoding promises: the fields come back; a message is
    the content, two tags, and at most 5 and 10 bytes for the two numbers; the
    content is a part of the input, and the id an [int32]. *)
Class EchoCodecLaws `{EchoCodec} := {
  parse_serialize m : is_int (es_id m) → Z.of_nat (length (es_content m)) ≤ INT_MAX →
    ParseFromArray (SerializeToString m) = (true, m);
  serialize_length m : (length (SerializeToString m) ≤ length (es_content m) + 17)%nat;
  parse_content bs : (length (es_content (ParseFromArray bs).2) ≤ length bs)%nat;
  parse_id bs : is_int (es_id (ParseFromArray bs).2);
}.
Arguments EchoCodecLaws : clear implicits.
Arguments EchoCodecLaws {_}.

(** A codec for the concrete runs: the id, in four bytes, and then the content. *)
Module Plain.
#[export] Instance codec : EchoCodec := {
ParseFromArray bs :=
  if (length bs <? 4)%nat then (false, EchoString_new)
  else (true, MkEchoString (drop 4 bs) (int_of_bytes (take 4 bs)));
SerializeToString m := int_bytes (es_id m) ++ es_content m;
}.
End Plain.
#[global] Existing Instance Plain.codec.

#[global] Instance plain_laws : EchoCodecLaws (H := Plain.codec).
Proof.
  split.
  - intros [c i] Hi _. cbn [ParseFromArray SerializeToString Plain.codec es_id es_content] in *.
    rewrite (take_app_length' (int_bytes i)), (drop_app_length' (int_bytes i)), int_bytes_roundtrip by done.
    rewrite length_app. done.
  - intros m. simpl. lia.
  - intros bs. simpl. case_match; simpl; [lia|]. rewrite length_drop. lia.
  - intros bs. simpl. case_match; [done|]. apply int_of_bytes_range.
Qed.

(** ** C strings *)

(** The bytes from an address up to the first NUL. *)
Fixpoint until_nul (mem : nat → option byte) (fuel off : nat) : option (list byte) :=
  match fuel with
  | O => None
  | S fuel =>
      b ← mem off;
      if bool_decide (b = x00) then Some [] else cons b <$> until_nul mem fuel (S off)
  end.

(** The string at [_buf->data + _buf->head]: it ends at a NUL, wherever that is; a
    byte that was never written, or is outside the array, is undefined. *)
Definition buffer_cstring (b : io_buffer) : option (list byte) :=
  until_nul (λ i, if head b + Z.of_nat i <? capacity b then data b !! (head b + Z.of_nat i) else None)
    (Z.to_nat (capacity b)) 0.

(** What [data] points to in a callback of connection [c], read as a C string. *)
Definition conn_cstring {K U} (c : Z) : M (world K U) (list byte) :=
  x ← conn_at c;
  p ← from_option_or Undefined (ibuf x);
  b ← zoom w_pool (buf_at p);
  from_option_or Undefined (buffer_cstring b).

(** ** The clock *)

(** [time(NULL)] *)
Definition time_null {K W} `{Kernel K} (l : lens W K) : M W Z :=
  t ← zoom l (syscall sys_clock_realtime); mret t.1.
