(* ===== verification/Examples.v ===== *)
(** * The example, test and demonstration programs

    The callbacks and [main] functions of example/*, test/* and of server.cc and
    client.cc.  Threads a program starts at its beginning are not modelled: what
    each of them runs is; what is printed is modelled where it is a result. *)
From Stdlib Require Import Strings.String.
From stdpp Require Import pretty.
From S2P Require Import Prelude EventBase TimerQueue Kernel IoBuffer BufferPool Wire EventLoop World.
From S2P Require Import TcpConn ThreadPool TcpServer Udp TcpClient Program ConfigReader Commu.

(** A [std::string] as the bytes that are sent. *)
Definition text (s : string) : list byte := String.list_byte_of_string s.
(** [size()] as the [int] argument of [send_data] *)
Definition size_int (s : list byte) : Z := to_int (Z.of_nat (length s)).

(** The text the clients of the echo servers send. *)
Definition miss_you : list byte :=
  text "I miss you i miss you i miss you i miss you i miss you i miss you i miss you i miss you i miss you!".

(** [no callback] of a kind *)
Definition no_conn {W} (_ : conn_callback) (_ : Z) : M W unit := mret tt.
Definition no_timers_of {W} (_ : nat) (_ : timer_callback) (_ : void_ptr) : M W unit := mret tt.
Definition no_io_of {W} (_ : nat) (_ _ : Z) (_ : void_ptr) : M W unit := mret tt.
Definition no_tasks_of {W} (_ : nat) (_ : pendingFunc) (_ : void_ptr) : M W unit := mret tt.

(** ** The echo servers (tcpEchoServer/server.cc, udpEchoServer/server.cc,
    test/server.cc) *)

Section echo.
Context `{EchoCodec}.

(** The reply to a request. *)
Definition echo_reply (dat : list byte) : list byte :=
  let req := (ParseFromArray dat).2 in
  let rsp := set_id (es_id req) EchoString_new in
  let rsp := set_content (es_content req) rsp in
  SerializeToString rsp.

Definition echo_buz {W} (commu : net_commu W) (dat : list byte) (len cmdid : Z) : M W unit :=
  bs ← from_option_or Undefined (take_bytes dat len);
  let rspStr := echo_reply bs in
  send_data commu rspStr (size_int rspStr) cmdid ;; mret tt.
End echo.

(** ** What the servers read from their configuration *)

Definition reactor : str := lit "reactor".

(** [setPath] and the numbers [tcp_server::tcp_server] asks for: the address, the
    number of threads, and the limit on connections. *)
Definition server_config (file : option str) : M (option STR_MAP) (str * Z * Z) :=
  setPath file ;;
  config ← ins;
  mret (GetString reactor (lit "ip") (lit "0.0.0.0") config,
        GetNumber reactor (lit "threadNum") 0 config,
        GetNumber reactor (lit "maxConns") 10000 config).

Section servers.
Context {K : Type} `{Kernel K}.
(** [inet_aton], and the contents of myconf.ini if it can be opened. *)
Variable inet_aton : str → bool.
Variable file : option str.
Variable fuel retries : nat.

(** The static members of [tcp_server]. *)
Definition server_statics : tcp_server :=
  TcpServer 0 0 0 None false 0 0 0 msg_dispatcher_new ∅ None None.

(** A process with a loop, before the server is constructed; [bp] is the buffer
    pool as its constructor leaves it. *)
Definition process_start {U} (bp : buffer_pool) (u : U) (s : ev_st K) : world K U :=
  World (ev_kern s) bp {[0%nat := ev_loop s]} ∅ server_statics ∅ u.

(** The statements of [main] up to the server's construction. *)
Definition server_setup {U} (bp : buffer_pool) (u : U) (k : K) : result (unit * world K U) :=
  match event_loop_ctor k with
  | Fail e => Fail e
  | Ok s =>
      match server_config file None with
      | Fail e => Fail e
      | Ok ((ip, threadNum, maxConns), _) =>
          tcp_server_ctor 0 (inet_aton ip) threadNum maxConns (process_start bp u s)
      end
  end.

(** The loop of [main]; [l0] as in [thread_lens]. *)
Definition server_loop {U} msg_fn timer_fn (l0 : event_loop) (n : nat) : M (world K U) unit :=
  process_evs (thread_lens 0 l0)
    (server_call_io msg_fn no_conn timer_fn no_io_of fuel retries 0 l0) (no_tasks_of 0%nat) n.

Definition idle_loop : event_loop := EventLoop 0 ∅ timer_queue_new 0 task_vector_new ∅.

(** [main] of tcpEchoServer/server.cc and test/server.cc, up to the [n]-th round. *)
Definition echo_main `{EchoCodec} (bp : buffer_pool) (n : nat) (k : K) : result (unit * world K unit) :=
  match server_setup bp tt k with
  | Fail e => Fail e
  | Ok (_, w) =>
      (server_add_msg_cb 1 (user_msg_cb 0) vnull ;;
       server_loop (on_conn echo_buz) no_timers_of idle_loop n) w
  end.

(** ** server.cc: the message is taken for a C string *)

Definition cstring_buz {U} (_ : msg_callback) (dat : list byte) (len cmdid c : Z) (_ : void_ptr)
    : M (world K U) unit :=
  conn_cstring c ;;                (* std::cout << data *)
  rspStr ← conn_cstring c;
  send_data (tcp_conn_commu c) rspStr (size_int rspStr) cmdid ;; mret tt.

Definition server_cc_main (bp : buffer_pool) (n : nat) (k : K) : result (unit * world K unit) :=
  match server_setup bp tt k with
  | Fail e => Fail e
  | Ok (_, w) =>
      (server_add_msg_cb 1 (user_msg_cb 0) vnull ;;
       server_loop cstring_buz no_timers_of idle_loop n) w
  end.

(** ** timerServer/server.cc

    The user's state is what was written to the file, a line for each shot; the
    [FILE*] is NULL when [fopen] failed. *)

Inductive shot_line := once_display (ts : Z) | always_display (ts : Z).

Definition buz1 (usr_data : void_ptr) : M (world K (list shot_line)) unit :=
  match usr_data with
  | v_user _ => t ← time_null w_kernel; modify (λ w, set_user (w_user w ++ [once_display t]) w)
  | _ => fail Undefined
  end.
Definition buz2 (usr_data : void_ptr) : M (world K (list shot_line)) unit :=
  match usr_data with
  | v_user _ => t ← time_null w_kernel; modify (λ w, set_user (w_user w ++ [always_display t]) w)
  | _ => fail Undefined
  end.
Definition shot_fn (_ : nat) (f : timer_callback) (data : void_ptr) : M (world K (list shot_line)) unit :=
  match f with
  | user_timer_cb 1 => buz1 data
  | user_timer_cb 2 => buz2 data
  | _ => fail Undefined
  end.

(** The statements between the server and the loop. *)
Definition timer_setup (fp : void_ptr) : M (world K (list shot_line)) unit :=
  on_loop (Some 0%nat) (run_after (user_timer_cb 1) fp 10 0) ;;
  on_loop (Some 0%nat) (run_every (user_timer_cb 2) fp 1 500) ;;
  mret tt.

Definition timer_main (fopen : option Z) (bp : buffer_pool) (n : nat) (k : K)
    : result (unit * world K (list shot_line)) :=
  match server_setup bp [] k with
  | Fail e => Fail e
  | Ok (_, w) =>
      (timer_setup (match fopen with Some f => v_user f | None => vnull end) ;;
       server_loop (λ _ _ _ _ _ _, mret tt) shot_fn idle_loop n) w
  end.
End servers.

(** ** udpEchoServer/server.cc *)

Section udp_echo.
Context {K : Type} `{Kernel K} `{EchoCodec}.
Variable inet_aton : str → bool.
Variable file : option str.
Variable fuel : nat.

Definition udp_echo_msg (_ : msg_callback) (dat : list byte) (len cmdid : Z) (_ : void_ptr)
    : M (udp_world K unit udp_server) unit := echo_buz udp_server_commu dat len cmdid.

Definition udp_server_call_io (f : io_callback) (fd : Z) (args : void_ptr) : M (udp_world K unit udp_server) unit :=
  match f with
  | udp_server_read_cb => udp_server_read_cb_body udp_echo_msg fuel args
  | timerqueue_cb => timerqueue_cb_body u_ev (λ _ _, mret tt)
  | _ => fail Undefined
  end.

Definition udp_server_add_msg_cb (cmdid : Z) (msg_cb : msg_callback) (usr_data : void_ptr)
    : M (udp_world K unit udp_server) unit :=
  modify (λ w, let e := u_ep w in
    set_ep (UdpServer (us_sockfd e) (us_rbuf e) (us_wbuf e) (us_srcaddr e)
      (add_msg_cb cmdid msg_cb usr_data (us_dispatcher e)).2) w).

(** [rbuf], [wbuf]: the arrays as found in memory. *)
Definition udp_echo_main (rbuf wbuf : list byte) (n : nat) (k : K) : result (unit * udp_world K unit udp_server) :=
  match event_loop_ctor k with
  | Fail e => Fail e
  | Ok s =>
      match server_config file None with
      | Fail e => Fail e
      | Ok ((ip, _, _), _) =>
          (udp_server_ctor (inet_aton ip) rbuf wbuf ;;
           udp_server_add_msg_cb 1 (user_msg_cb 0) vnull ;;
           process_evs u_ev udp_server_call_io (λ _ _, mret tt) n)
          (UdpWorld (ev_kern s) (ev_loop s) (UdpServer 0 rbuf wbuf 0 msg_dispatcher_new) tt)
      end
  end.
End udp_echo.

(** ** The clients of the echo servers *)

Record testQPS := TestQPS { lstTs : Z; succ : Z }.
Definition testQPS_new : testQPS := TestQPS 0 0.

(** What a client thread keeps: its counters, and the counts it has printed. *)
Record client_stats := ClientStats { qps : testQPS; printed : list Z }.
Definition client_stats_new : client_stats := ClientStats testQPS_new [].

Section echo_client.
Context {W K : Type} `{Kernel K} `{EchoCodec}.
(** Where the system and the counters of the thread are. *)
Variable kernel_of : lens W K.
Variable stats : lens W client_stats.

(** The test for the end of a second. *)
Definition each_second (reset : bool) : M W unit :=
  curTs ← time_null kernel_of;
  st ← gets (view stats);
  when (1 <=? curTs - lstTs (qps st))
    (modify (λ w, update stats
      (ClientStats (TestQPS curTs (if reset then 0 else succ (qps st))) (printed st ++ [succ (qps st)])) w)).

Definition count_success : M W unit :=
  st ← gets (view stats);
  n ← cint (succ (qps st) + 1);
  modify (λ w, update stats (ClientStats (TestQPS (lstTs (qps st)) n) (printed st)) w).

(** [req.set_id(rsp.id() + 1)] and what follows: the next request. *)
Definition send_next (commu : net_commu W) (rsp : EchoString) (cmdid : Z) : M W unit :=
  n ← cint (es_id rsp + 1);
  let req := set_content (es_content rsp) (set_id n EchoString_new) in
  let reqStr := SerializeToString req in
  send_data commu reqStr (size_int reqStr) cmdid ;; mret tt.

(** [buz] of tcpEchoServer/client.cc and udpEchoServer/client.cc *)
Definition qps_buz (commu : net_commu W) (dat : list byte) (len cmdid : Z) (usr_data : void_ptr) : M W unit :=
  match usr_data with
  | v_user _ =>
      bs ← from_option_or Undefined (take_bytes dat len);
      let '(parsed, rsp) := ParseFromArray bs in
      when (parsed && bool_decide (es_content rsp = miss_you)) count_success ;;
      each_second true ;;
      send_next commu rsp cmdid
  | _ => fail Undefined
  end.

(** [whenConnectDone] *)
Definition send_first (commu : net_commu W) : M W unit :=
  let req := set_content miss_you (set_id 100 EchoString_new) in
  let reqStr := SerializeToString req in
  send_data commu reqStr (size_int reqStr) 1 ;; mret tt.
End echo_client.

Section tcp_clients.
Context {K : Type} `{Kernel K}.
Variable fuel retries : nat.
Abbreviation CW := (cl_world K client_stats).

Definition cl_stats : lens CW client_stats :=
  Lens cl_user (λ u w, ClWorld (cl_kern w) (cl_bufs w) (cl_loop w) (cl w) u).

Definition cl_add_msg_cb (cmdid : Z) (msg_cb : msg_callback) (usr_data : void_ptr) : M CW unit :=
  modify_cl (λ c, TcpClient (net_ok c) (cl_sockfd c) (add_msg_cb cmdid msg_cb usr_data (cl_dispatcher c)).2
    (_onconnection c) (_onconn_args c) (_onclose c) (_onclose_args c)).

(** [domain]: the callbacks of the messages and of the connection are installed
    when the constructor has returned, and so after its [connect]. *)
Definition domain msg_fn client_fn (bp : buffer_pool) (n : nat) (k : K) : result (unit * CW) :=
  match event_loop_ctor k with
  | Fail e => Fail e
  | Ok s =>
      (tcp_client_ctor client_fn true ;;
       cl_add_msg_cb 1 (user_msg_cb 0) (v_user 0) ;;
       modify_cl (onConnection (user_client_cb 0) vnull) ;;
       process_evs cl_ev (client_call_io msg_fn client_fn (λ _ _, mret tt) (λ _ _ _, mret tt) fuel retries)
         (λ _ _, mret tt) n)
      (ClWorld (ev_kern s) bp (ev_loop s)
        (TcpClient false (-1) msg_dispatcher_new None vnull None vnull) client_stats_new)
  end.

(** [domain] of tcpEchoServer/client.cc *)
Definition echo_client_msg `{EchoCodec} (_ : msg_callback) (dat : list byte) (len cmdid : Z) (usr_data : void_ptr) : M CW unit :=
  qps_buz cl_kernel cl_stats tcp_client_commu dat len cmdid usr_data.
Definition echo_client_connected `{EchoCodec} (_ : client_callback) (_ : void_ptr) : M CW unit :=
  send_first tcp_client_commu.
Definition echo_client_domain `{EchoCodec} := domain echo_client_msg echo_client_connected.

(** *** client.cc *)

(** What [data] points to in a callback of the client, read as a C string. *)
Definition client_cstring : M CW (list byte) :=
  b ← zoom cl_store (buf_at ibuf_obj); from_option_or Undefined (buffer_cstring b).

(** The text of the next request; [tid] is [pthread_self()]. *)
Definition miss_you_data (tid : Z) (q : testQPS) : list byte :=
  text ("I miss you data index: " +:+ pretty (succ q) +:+ ":" +:+ pretty (lstTs q) +:+ "Thread ID: " +:+ pretty tid).

Definition cstring_client_msg (tid : Z) (_ : msg_callback) (dat : list byte) (len cmdid : Z) (usr_data : void_ptr) : M CW unit :=
  match usr_data with
  | v_user _ =>
      count_success cl_stats ;;
      each_second cl_kernel cl_stats false ;;
      client_cstring ;;            (* std::cout << "client:" << data *)
      st ← gets (view cl_stats);
      let reqStr := miss_you_data tid (qps st) in
      send_data tcp_client_commu reqStr (size_int reqStr) cmdid ;; mret tt
  | _ => fail Undefined
  end.
Definition cstring_client_connected (_ : client_callback) (_ : void_ptr) : M CW unit :=
  send_data tcp_client_commu (text "I miss you") (Z.of_nat (String.length "I miss you")) 1 ;; mret tt.
Definition cstring_client_domain (tid : Z) := domain (cstring_client_msg tid) cstring_client_connected.
End tcp_clients.

(** [atol], [atoi] as glibc computes it (the [long], cut), and the conversion to
    [short]. *)
Definition atol (s : str) : Z := read_ll s.
Definition atoi (s : str) : Z := to_int (atol s).
Definition to_short (z : Z) : Z := let w := z mod 2 ^ 16 in if w <? 2 ^ 15 then w else w - 2 ^ 16.

(** *** [main] of tcpEchoServer/client.cc and client.cc *)

Section clients_main.
Context {K : Type} `{Kernel K}.

(** The first loop: which of the elements of [tids] are set.  A thread that was
    created runs [domain], which does not return. *)
Fixpoint create_clients (n : nat) : M K (list bool) :=
  match n with
  | O => mret []
  | S n =>
      ret ← syscall sys_pthread_create;
      tids ← create_clients n;
      mret ((ret =? 0) :: tids)
  end.

Inductive main_end := Returned | Joining.

(** The second loop stays in its first [pthread_join], or reads a [pthread_t] that
    was never set.  An array of a negative size throws, which aborts the process as
    a failed assertion does. *)
Definition clients_main (argv : list str) : M K main_end :=
  arg ← from_option_or Undefined (argv !! 1%nat);
  let threadNum := atoi arg in
  cassert (0 <=? threadNum) ;;
  tids ← create_clients (Z.to_nat threadNum);
  match tids with
  | [] => mret Returned
  | true :: _ => mret Joining
  | false :: _ => fail Undefined
  end.
End clients_main.

(** *** udpEchoServer/client.cc *)

Section udp_client.
Context {K : Type} `{Kernel K} `{EchoCodec}.
Variable fuel : nat.
Abbreviation UW := (udp_world K client_stats udp_client).

Definition u_stats : lens UW client_stats :=
  Lens u_user (λ u w, UdpWorld (u_kern w) (u_loop w) (u_ep w) u).

Definition udp_client_add_msg_cb (cmdid : Z) (msg_cb : msg_callback) (usr_data : void_ptr) : M UW unit :=
  modify (λ w, let e := u_ep w in
    set_ep (UdpClient (uc_sockfd e) (uc_rbuf e) (uc_wbuf e)
      (add_msg_cb cmdid msg_cb usr_data (uc_dispatcher e)).2) w).

Definition udp_client_msg (_ : msg_callback) (dat : list byte) (len cmdid : Z) (usr_data : void_ptr) : M UW unit :=
  qps_buz u_kernel u_stats udp_client_commu dat len cmdid usr_data.

Definition udp_client_call_io (f : io_callback) (fd : Z) (args : void_ptr) : M UW unit :=
  match f with
  | udp_client_read_cb => udp_client_read_cb_body udp_client_msg fuel args
  | timerqueue_cb => timerqueue_cb_body u_ev (λ _ _, mret tt)
  | _ => fail Undefined
  end.

Definition udp_client_main (rbuf wbuf : list byte) (n : nat) (k : K) : result (unit * UW) :=
  match event_loop_ctor k with
  | Fail e => Fail e
  | Ok s =>
      (udp_client_ctor true rbuf wbuf ;;
       udp_client_add_msg_cb 1 (user_msg_cb 0) (v_user 0) ;;
       send_first udp_client_commu ;;
       process_evs u_ev udp_client_call_io (λ _ _, mret tt) n)
      (UdpWorld (ev_kern s) (ev_loop s) (UdpClient 0 rbuf wbuf msg_dispatcher_new) client_stats_new)
  end.
End udp_client.

(** ** test/benchmark.cc *)

Record Config := MkConfig {
  hostip : option str;
  hostPort : Z;
  concurrency : Z;
  total : Z;
}.
Definition Config_new : Config := MkConfig None 0 0 0.

(** The [for] loop of [parseOption]; [argv[argc]] is NULL. *)
Fixpoint parse_options (argv : list str) (config : Config) : M unit Config :=
  match argv with
  | [] => mret config
  | arg :: argv =>
      let next := list.head argv in
      config ←
        (if bool_decide (arg = lit "-h") then
           mret (MkConfig next (hostPort config) (concurrency config) (total config))
         else if bool_decide (arg = lit "-p") then
           s ← from_option_or Undefined next;
           mret (MkConfig (hostip config) (to_short (atoi s)) (concurrency config) (total config))
         else if bool_decide (arg = lit "-c") then
           s ← from_option_or Undefined next;
           mret (MkConfig (hostip config) (hostPort config) (atoi s) (total config))
         else if bool_decide (arg = lit "-n") then
           s ← from_option_or Undefined next;
           mret (MkConfig (hostip config) (hostPort config) (concurrency config) (atol s))
         else mret config);
      parse_options argv config
  end.

Definition parseOption (argv : list str) : M unit Config :=
  config ← parse_options argv Config_new;
  exit_if (bool_decide (hostip config = None) || (hostPort config =? 0) ||
           (concurrency config =? 0) || (total config =? 0)) ;;
  mret config.

(** The variables of the process. *)
Record bench := Bench { done_count : Z; startTs : Z; endTs : Z }.

Section benchmark.
Context {W K : Type} `{Kernel K} `{EchoCodec}.
Variable kernel_of : lens W K.
Variable vars : lens W bench.
Variable config : Config.

Definition getCurrentMills : M W Z :=
  t ← zoom kernel_of (syscall sys_clock_realtime); mret (u64 (u64 (t.1 * 1000) + t.2 / 1000000)).

Definition echoBack (commu : net_commu W) (dat : list byte) (len : Z) : M W unit :=
  bs ← from_option_or Undefined (take_bytes dat len);
  let '(parsed, rsp) := ParseFromArray bs in
  when (parsed && bool_decide (es_content rsp = miss_you))
    (modify (λ w, let v := view vars w in update vars (Bench (done_count v + 1) (startTs v) (endTs v)) w)) ;;
  v ← gets (view vars);
  if total config <=? done_count v then
    t ← getCurrentMills;
    modify (update vars (Bench (done_count v) (startTs v) t)) ;;
    fail Exited
  else send_next commu rsp 1.

Definition onConnectionCb (commu : net_commu W) : M W unit :=
  v ← gets (view vars);
  when (startTs v =? 0)
    (t ← getCurrentMills; modify (update vars (Bench (done_count v) t (endTs v)))) ;;
  send_first commu.
End benchmark.
