(* ===== verification/EchoProps.v ===== *)
(** * Correctness of the echo servers

    The claims about example/tcpEchoServer/server.cc, test/server.cc and
    example/udpEchoServer/server.cc, and about server.cc, which takes its messages
    for C strings. *)
From S2P Require Import Prelude EventBase TimerQueue HeapFacts TimerHeap TimerQueueSpec Kernel IoBuffer BufferPool TcpBuffer BufferProps.
From S2P Require Import Wire EventLoop EventLoopProps World TcpConn TcpConnSpec TcpConnProps.
From S2P Require Import Net ThreadPool TcpServer Udp UdpProps TcpClient Program ConfigReader Commu Examples IoBuffer.

(** ** Replies *)

Section replies.
Context `{EchoCodec}.

(** The frames the server answers [ms] with. *)
Definition replies (ms : list message) : list byte := concat ((λ m, frame (m.1, echo_reply m.2)) <$> ms).

Lemma replies_snoc l m : replies (l ++ [m]) = replies l ++ frame (m.1, echo_reply m.2).
Proof. unfold replies. by rewrite fmap_app, concat_app, fmap_cons, concat_cons, fmap_nil, concat_nil, app_nil_r. Qed.

Lemma replies_prefix l l' : (length (replies l) ≤ length (replies (l ++ l')))%nat.
Proof. unfold replies. rewrite fmap_app, concat_app, length_app. lia. Qed.

(** A message the clients of the program send: an encoded [EchoString]. *)
Definition request (m : message) : Prop :=
  ∃ e, is_int (es_id e) ∧ Z.of_nat (length (es_content e)) ≤ INT_MAX ∧ m.2 = SerializeToString e.

Lemma echo_reply_request `{!EchoCodecLaws} m : request m → echo_reply m.2 = m.2.
Proof.
  intros ([c i] & Hi & Hc & ->). unfold echo_reply. by rewrite parse_serialize.
Qed.

(** Requests are sent back as they came. *)
Lemma replies_requests `{!EchoCodecLaws} ms : Forall request ms → replies ms = concat (frame <$> ms).
Proof.
  unfold replies. induction 1 as [|m ms Hm _ IH]; [done|]. rewrite !fmap_cons, !concat_cons, IH.
  rewrite echo_reply_request by done. by destruct m.
Qed.

Lemma echo_reply_length `{!EchoCodecLaws} dat : (length (echo_reply dat) ≤ length dat + 17)%nat.
Proof.
  unfold echo_reply. etrans; [apply serialize_length|]. simpl. pose proof (parse_content dat). lia.
Qed.
End replies.

(** ** One connection of the TCP echo server *)

Section tcp_echo.
Context {K U : Type} `{Kernel K} `{EchoCodec}.
Variable conn_fn : conn_callback → Z → M (world K U) unit.
Variable c : Z.
Implicit Types (w : world K U) (fl : Z → list ptr).

Abbreviation echo_msg := (on_conn (K := K) (U := U) echo_buz).

(** Connection [c] is in use, [ob] waits to be sent, and there is memory for [n]
    more buffers. *)
Definition sending w fl (ob : list byte) (n : Z) : Prop := ∃ x i lp,
  w_conns w !! c = Some x ∧ _loop x = Some i ∧ w_loops w !! i = Some lp ∧
  tbuf (w_bufs w) fl (obuf x) ob ∧ at_start (w_bufs w) (obuf x) ∧ apart (ibuf x) (obuf x) ∧
  memory_for n (w_bufs w).

(** What comes in does not touch what goes out. *)
Lemma sending_rx w fl x b bp' fl' k' ob n n' :
  sending w fl ob n → w_conns w !! c = Some x → step (ibuf x) b (w_bufs w) bp' fl fl' →
  _total_mem bp' + n' * 8192 ≤ _total_mem (w_bufs w) + n * 8192 →
  sending (rx_upd c x b bp' (set_kern k' w)) fl' ob n'.
Proof.
  intros (x' & i & lp & Hx' & Hl & Hlp & Ht & Hs & Ha & Hm) Hx Hst Hmem.
  assert (x' = x) as -> by congruence.
  assert (Ha' : apart (obuf x) (ibuf x)) by (intros p Ho Hi; by apply (Ha p)).
  exists (set_ibuf b x), i, lp. split; [simpl; by rewrite lookup_insert_eq|]. split_and!; try done.
  - by eapply step_tbuf.
  - by eapply step_at_start.
  - intros p Hi Ho. by apply (step_apart _ _ _ _ _ _ _ _ Hst Ha' Ht p).
  - unfold memory_for in *. simpl. lia.
Qed.

Lemma size_int_small s : Z.of_nat (length s) ≤ u8M → size_int s = Z.of_nat (length s).
Proof.
  intros Hs. unfold size_int, to_int, u8M in *. rewrite Z.mod_small by lia.
  by destruct (Z.ltb_spec (Z.of_nat (length s)) (2 ^ 31)); [|lia].
Qed.

(** Sending on the connection, from a callback. *)
Lemma sending_send w fl ob n cmd dat bs :
  sending w fl ob n → 2 ≤ n → rx w fl c bs → Z.of_nat (length ob) + 8 + Z.of_nat (length dat) ≤ u8M →
  wp (send_data (tcp_conn_commu c) dat (size_int dat) cmd) (λ r w', r = 0 ∧ ∃ fl',
    sending w' fl' (ob ++ frame (cmd, dat)) (n - 2) ∧ rx w' fl' c bs ∧ ibuf_of w' c = ibuf_of w c ∧
    w_server w' = w_server w) w.
Proof.
  intros (x & i & lp & Hx & Hl & Hlp & Ht & Hs & Ha & Hm) Hn (x' & Hx' & Hi & Hib) Hfit.
  assert (x' = x) as -> by congruence.
  assert (Hok : conn_ok w fl c x i lp bs ob) by by split.
  rewrite size_int_small by lia. cbn [send_data tcp_conn_commu].
  eapply wp_mono; [by apply (tcp_send_data_spec n w fl c x i lp bs ob dat cmd Hok)|].
  intros r w' (-> & fl' & p & lp' & Hok' & Hst & _ & _ & Hsrv & Hm'). split; [done|]. exists fl'.
  destruct Hok' as [Hx2 Hl2 Hlp2 Hi2 Hib2 Hob2 Hs2 Ha2]. split_and!; [|by exists (set_obuf (Some p) x)| |done].
  - by exists (set_obuf (Some p) x), i, lp'.
  - unfold ibuf_of. by rewrite Hx2, Hx.
Qed.

(** The answers to [N] messages fit behind [ob0]. *)
Definition answerable (N : Z) (ob0 : list byte) (ms : list message) : Prop :=
  Z.of_nat (length ms) ≤ N ∧ Z.of_nat (length ob0) + Z.of_nat (length (replies ms)) ≤ u8M.

Definition answered (N : Z) (ob0 : list byte) (ms : list message) w fl : Prop :=
  sending w fl (ob0 ++ replies ms) (2 * (N - Z.of_nat (length ms))).
Definition about_to_answer (N : Z) (ob0 : list byte) (ms : list message) w fl : Prop :=
  sending w fl (ob0 ++ replies ms) (2 * (N - Z.of_nat (length ms)) + 1).

(** The callback appends its answer. *)
Lemma echo_msg_spec N ob0 l func args cmd dat bs w fl :
  answered N ob0 l w fl → rx w fl c bs → answerable N ob0 (l ++ [(cmd, dat)]) →
  wp (echo_msg func dat (Z.of_nat (length dat)) cmd c args) (λ _ w', ∃ fl',
    answered N ob0 (l ++ [(cmd, dat)]) w' fl' ∧ rx w' fl' c bs ∧ ibuf_of w' c = ibuf_of w c ∧
    dispatcher (w_server w') = dispatcher (w_server w)) w.
Proof.
  intros Hs Hrx [HN Hfit]. rewrite length_app in HN. simpl in HN.
  rewrite replies_snoc, length_app, length_frame in Hfit. cbn [fst snd] in Hfit.
  unfold on_conn, echo_buz. wp_step. eapply wp_from_option; [apply take_bytes_all|]. wp_step.
  eapply wp_mono; [eapply (sending_send w fl); [exact Hs|lia|exact Hrx|rewrite length_app; lia]|].
  intros r w' (_ & fl' & Hs' & Hrx' & Hib & Hsrv). wp_step. exists fl'. split; [|by rewrite Hsrv].
  unfold answered. rewrite replies_snoc, app_assoc, length_app. simpl.
  by replace (2 * (N - Z.of_nat (length l + 1))) with (2 * (N - Z.of_nat (length l)) - 2) by lia.
Qed.

Lemma echo_serves N ob0 :
  serves echo_msg c (answerable N ob0) (about_to_answer N ob0) (answered N ob0).
Proof.
  split.
  - intros l l' [Hn Hf]. pose proof (replies_prefix l l'). rewrite length_app in Hn. split; lia.
  - intros l w fl retries fd ys k' x b bp' fl' Hpre _ Hx Hst Hmem. eapply sending_rx; [exact Hpre|done..|lia].
  - intros l w fl x b bp' fl' Hinv Hx Hst Hmem.
    assert (rx_upd c x b bp' w = rx_upd c x b bp' (set_kern (w_kern w) w)) as -> by by destruct w.
    eapply sending_rx; [exact Hinv|done..|lia].
  - intros l func args cmd dat bs w fl ? ? ? _ _. by eapply echo_msg_spec.
Qed.

(** C10 The TCP echo server answers requests: one call of [handle_read] that finds
    the messages [ms] in the stream leaves exactly their answers, in order, behind
    what was already waiting to be sent, and keeps the unfinished message; and the
    answer to a request is the request, byte for byte.  This is for a stream without
    an unacceptable header that does not end with an empty message (there the server
    closes the connection or aborts: [handle_read_rejects],
    [handle_read_empty_message_aborts]), when what waits and the answers make at most
    8 MB together, and the pool may still make a buffer of its largest size [2 * N + 1]
    times, [N] being the number of messages; without room
    [send_data_no_room_corrupts] holds. *)
Theorem echo_server_replies `{!EchoCodecLaws} w fl x bs ys retries fuel ms rest ob :
  let N := Z.of_nat (length ms) in
  readable c (λ w fl, sending w fl ob (2 * N + 1)) w fl x bs ys retries →
  (length bs + length ys < fuel)%nat →
  parse (known_cmd w) (bs ++ ys) = (ms, rest, Partial) → ¬ ends_empty ms rest →
  Z.of_nat (length ob) + Z.of_nat (length (replies ms)) ≤ u8M →
  ∃ w' fl', handle_read echo_msg conn_fn fuel retries c w = Ok (tt, w') ∧
    sending w' fl' (ob ++ replies ms) 0 ∧ rx w' fl' c rest ∧
    (Forall request ms → replies ms = concat (frame <$> ms)).
Proof.
  intros N Hread Hf Hp Hne Hfit.
  assert (Hpre : readable c (about_to_answer N ob []) w fl x bs ys retries).
  { destruct Hread as [Hs ? ? ? ? ? ? ? ?]. split; try done. unfold about_to_answer, replies.
    rewrite app_nil_r. simpl. by rewrite Z.sub_0_r. }
  pose proof (serve_ok echo_msg conn_fn c _ _ _ (echo_serves N ob) [] w fl x bs ys retries fuel ms rest
    Hpre Hf Hp) as Hrun.
  rewrite decide_False in Hrun by done. destruct Hrun as (w' & fl' & x' & Hr & Ha & Hrx & _); [by split; [unfold N|]|].
  exists w', fl'. split; [done|]. split; [|split; [done|by intros; apply replies_requests]].
  unfold answered in Ha. simpl in Ha. by replace (2 * (N - Z.of_nat (length ms))) with 0 in Ha by (unfold N; lia).
Qed.

(** ** server.cc *)

Lemma until_nul_run (mem : nat → option byte) s : ∀ off fuel,
  (∀ i b, s !! i = Some b → mem (off + i)%nat = Some b) → x00 ∉ s → (length s < fuel)%nat →
  mem (off + length s)%nat = Some x00 → until_nul mem fuel off = Some s.
Proof.
  induction s as [|b s IH]; intros off fuel Hmem Hs Hf Hnul; (destruct fuel as [|fuel]; [simpl in Hf; lia|]); cbn [until_nul].
  - rewrite Nat.add_0_r in Hnul. by rewrite Hnul.
  - pose proof (Hmem 0%nat b eq_refl) as Hb. rewrite Nat.add_0_r in Hb. rewrite Hb. simpl.
    apply not_elem_of_cons in Hs as [Hb0 Hs]. rewrite bool_decide_false by congruence.
    rewrite (IH (S off) fuel); [done| |done|simpl in Hf; lia|].
    + intros i b' Hi. rewrite <- (Hmem (S i) b' Hi). f_equal. lia.
    + rewrite <- Hnul. f_equal. simpl. lia.
Qed.

Lemma contents_byte b bs i x :
  contents b bs → bs !! i = Some x →
  head b + Z.of_nat i < capacity b ∧ data b !! (head b + Z.of_nat i) = Some x.
Proof.
  intros Hc Hi. pose proof (contents_bounds _ _ Hc). pose proof (lookup_lt_Some _ _ _ Hi). split; [lia|].
  destruct Hc as [_ (_ & _ & _ & Hd)%data_read_Some]. by rewrite Hd.
Qed.

(** The string in a buffer that holds a NUL. *)
Lemma buffer_cstring_contents b s t :
  contents b (s ++ x00 :: t) → x00 ∉ s → buffer_cstring b = Some s.
Proof.
  intros Hc Hs. unfold buffer_cstring.
  assert (Hat : ∀ i x, (s ++ x00 :: t) !! i = Some x →
    (if head b + Z.of_nat i <? capacity b then data b !! (head b + Z.of_nat i) else None) = Some x).
  { intros i x Hi. destruct (contents_byte b _ i x Hc Hi) as [Hlt ->]. by rewrite (proj2 (Z.ltb_lt _ _)). }
  apply until_nul_run; [|done| |].
  - intros i x Hi. apply Hat. by apply lookup_app_l_Some.
  - pose proof (contents_bounds _ _ Hc) as [? Hb]. rewrite length_app in Hb. simpl in Hb. lia.
  - apply Hat. rewrite lookup_app_r by lia. by rewrite Nat.sub_diag.
Qed.

Lemma conn_cstring_run w fl s t :
  rx w fl c (s ++ x00 :: t) → x00 ∉ s → conn_cstring c w = Ok (s, w).
Proof.
  intros (x & Hx & _ & Ht) Hs. destruct (ibuf x) as [p|] eqn:Hp; [|by destruct s].
  destruct Ht as [_ (b & Hb & Hc)]. apply wp_returns. unfold conn_cstring. wp_step. eapply wp_conn_at; [done|].
  wp_step. eapply wp_from_option; [done|]. wp_step. wp_step. cbn [view w_pool]. eapply wp_buf_at; [done|].
  eapply wp_from_option; [by eapply buffer_cstring_contents|]. split; [done|]. by destruct w.
Qed.

(** C39 The server of server.cc takes a message for a C string: it answers with the
    bytes from its beginning to the first NUL, which may be in the message, and then
    the rest of it is lost, or behind it, and then the answer goes on with the bytes
    of the next message.  It must fit behind what already waits to be sent (8 MB), and
    the pool must have memory for two more buffers. *)
Theorem server_cc_reply w fl ob dat rest s t func cmd args :
  sending w fl ob 2 → rx w fl c (dat ++ rest) → dat ++ rest = s ++ x00 :: t → x00 ∉ s →
  Z.of_nat (length ob) + 8 + Z.of_nat (length s) ≤ u8M →
  ∃ w' fl', cstring_buz func dat (Z.of_nat (length dat)) cmd c args w = Ok (tt, w') ∧
    sending w' fl' (ob ++ frame (cmd, s)) 0 ∧ rx w' fl' c (dat ++ rest).
Proof.
  intros Hs Hrx Heq Hnul Hfit. rewrite Heq in *. pose proof (conn_cstring_run w fl s t Hrx Hnul) as Hstr.
  pose proof (sending_send w fl ob 2 cmd s _ Hs ltac:(lia) Hrx Hfit)
    as (r & w' & Hrun & _ & fl' & Hs' & Hrx' & _)%wp_elim.
  exists w', fl'. split; [|by split]. unfold cstring_buz.
  do 2 (erewrite bind_ok by exact Hstr; cbv beta). by erewrite bind_ok by exact Hrun.
Qed.

(** Nothing was ever written behind the message: reading the C string leaves what
    was initialised. *)
Theorem server_cc_undefined w x p b dat func cmd args :
  w_conns w !! c = Some x → ibuf x = Some p → store (w_bufs w) !! p = Some b → contents b dat →
  x00 ∉ dat → data b !! (head b + Z.of_nat (length dat)) = None →
  cstring_buz func dat (Z.of_nat (length dat)) cmd c args w = Fail Undefined.
Proof.
  intros Hx Hp Hb Hc Hnul Hend. unfold cstring_buz. apply bind_fail. unfold conn_cstring.
  erewrite bind_ok by (apply wp_returns; by eapply wp_conn_at). rewrite Hp. cbn [from_option_or].
  erewrite bind_ok by reflexivity.
  assert (Hat : zoom (w_pool (U := U)) (buf_at p) w = Ok (b, w)).
  { apply wp_returns. wp_step. cbn [view w_pool]. eapply wp_buf_at; [done|]. split; [done|]. by destruct w. }
  erewrite bind_ok by exact Hat. cbv beta.
  assert (Hnone : buffer_cstring b = None); [|by rewrite Hnone].
  unfold buffer_cstring. set (mem := λ i : nat, _).
  assert (Hgo : ∀ l off fuel, dat = take off dat ++ l → (off ≤ length dat)%nat → until_nul mem fuel off = None).
  { induction l as [|y l IH]; intros off fuel Hl Hoff; (destruct fuel as [|fuel]; [done|]); cbn [until_nul].
    - rewrite app_nil_r in Hl. assert (off = length dat) as ->.
      { apply (f_equal length) in Hl. rewrite length_take in Hl. lia. }
      assert (mem (length dat) = None) as ->; [|done]. unfold mem. rewrite Hend. by destruct (_ <? _).
    - assert (Hy : dat !! off = Some y).
      { rewrite Hl, lookup_app_r; rewrite length_take_le by done; [by rewrite Nat.sub_diag|lia]. }
      pose proof (contents_byte b dat off y Hc Hy) as [Hlt Hd].
      assert (mem off = Some y) as -> by (unfold mem; by rewrite (proj2 (Z.ltb_lt _ _))).
      simpl. rewrite bool_decide_false.
      2:{ intros ->. apply Hnul. by eapply list_elem_of_lookup_2. }
      pose proof (lookup_lt_Some _ _ _ Hy). rewrite (IH (S off) fuel); [done| |lia].
      rewrite (take_S_r _ _ y Hy), <- app_assoc. exact Hl. }
  apply (Hgo dat 0%nat); [done|lia].
Qed.
End tcp_echo.

(** ** The start of the clients *)

Section clients_main.
Context {K : Type} `{Kernel K}.

Lemma create_clients_length n (k : K) : ∃ tids k', create_clients n k = Ok (tids, k') ∧ length tids = n.
Proof.
  revert k. induction n as [|n IH]; intros k; [by exists [], k|]. cbn [create_clients].
  unfold mbind, M_bind, syscall. destruct (sys_pthread_create k) as [ret k1].
  destruct (IH k1) as (tids & k' & -> & Hl). eexists _, k'. split; [done|]. simpl. by rewrite Hl.
Qed.

(** Without an argument, or when the first thread cannot be created, [main] reads
    memory that is not there or was not set; otherwise it waits for its threads. *)
Lemma clients_main_outcome prog s rest (k : K) :
  clients_main [prog] k = Fail Undefined ∧
  (0 < atoi s → ∃ k', clients_main (prog :: s :: rest) k =
    if (sys_pthread_create k).1 =? 0 then Ok (Joining, k') else Fail Undefined) ∧
  (atoi s = 0 → clients_main (prog :: s :: rest) k = Ok (Returned, k)).
Proof.
  split; [done|]. unfold clients_main, from_option_or. cbn [lookup list_lookup]. split.
  - intros Hn. unfold mbind, M_bind at 1. cbn [mret M_ret]. rewrite (proj2 (Z.leb_le _ _)) by lia.
    destruct (Z.to_nat (atoi s)) as [|n] eqn:Hz; [lia|]. cbn [create_clients cassert].
    unfold mbind, M_bind, syscall, mret, M_ret. destruct (sys_pthread_create k) as [ret k1] eqn:Hc.
    destruct (create_clients_length n k1) as (tids & k' & -> & _). exists k'. simpl. by destruct (ret =? 0).
  - intros Hn. unfold mbind, M_bind at 1. cbn [mret M_ret]. by rewrite Hn.
Qed.
End clients_main.

(** ** The UDP echo server *)

Section udp_echo.
Context {K : Type} `{DatagramLaws K} `{!OutboxLaws K} `{EchoCodec}.
Implicit Types w : udp_world K unit udp_server.

(** The datagram that answers a message, and the address it goes to. *)
Definition answer (d : option Z * message) : list byte * option Z :=
  (frame (d.2.1, echo_reply d.2.2), d.1).

(** Its text fits behind the header. *)
Definition answer_fits (d : option Z * message) : Prop :=
  Z.of_nat (length (echo_reply d.2.2)) ≤ MSG_LENGTH_LIMIT - COMMU_HEAD_LENGTH.

Definition udp_answered (p0 : list (list byte * option Z)) (l : list (option Z * message)) w : Prop :=
  Z.of_nat (length (us_wbuf (u_ep w))) = MSG_LENGTH_LIMIT ∧
  posted (us_sockfd (u_ep w)) (u_kern w) = p0 ++ (answer <$> l).

Lemma udp_echo_serves p0 : udp_serves udp_echo_msg (Forall answer_fits) (udp_answered p0).
Proof.
  split.
  - intros l l' [? _]%Forall_app. done.
  - intros l w fd n r k [Hl Hp] Hr. split; [done|]. simpl.
    pose proof (posted_recvfrom (us_sockfd (u_ep w)) fd n (u_kern w)) as Hq. rewrite Hr in Hq. simpl in Hq. by rewrite Hq.
  - intros l w rbuf peer HI. exact HI.
  - intros l f args dat cmd w m [Hl Hp] [_ [Hfit _]%Forall_cons]%Forall_app _.
    unfold answer_fits, m in Hfit. cbn [snd fst] in Hfit.
    unfold udp_echo_msg, echo_buz. wp_step. eapply wp_from_option; [apply take_bytes_all|]. set (rsp := echo_reply dat) in *.
    assert (size_int rsp = Z.of_nat (length rsp)) as ->.
    { apply size_int_small. unfold MSG_LENGTH_LIMIT, COMMU_HEAD_LENGTH, u8M in *. lia. }
    wp_step. cbn [send_data udp_server_commu]. unfold wp at 1, udp_server_send_data.
    rewrite (udp_send_fits rsp cmd w) by done.
    pose proof (posted_sendto (us_sockfd (u_ep w)) (frame (cmd, rsp)) (ep_dest (u_ep w)) (u_kern w)) as Hpost.
    pose proof (inbox_sendto (us_sockfd (u_ep w)) (us_sockfd (u_ep w)) (frame (cmd, rsp)) (ep_dest (u_ep w)) (u_kern w)) as Hin.
    cbn [ep_sockfd udp_server_endpoint] in *. destruct (sys_sendto _ _ _ _) as [r k]. cbn [snd] in Hpost, Hin.
    cbv zeta. wp_step. split; [|by split_and!]. split.
    + cbn [ep_set_wbuf udp_server_endpoint u_ep polled set_ep us_wbuf ep_wbuf].
      unfold MSG_LENGTH_LIMIT, COMMU_HEAD_LENGTH in *. rewrite length_app, length_frame, length_drop. cbn [snd]. lia.
    + simpl. rewrite Hpost, Hp, fmap_app, app_assoc. done.
Qed.

(** C30 The UDP echo server answers every datagram that carries a message, each with
    one datagram to its sender, in the order of arrival, as long as the answers fit
    into its array; an unknown command stops it. *)
Theorem udp_echo_replies w fuel :
  let ds := deliveries (E := udp_server) (udp_known w) (u_inbox w) in
  Z.of_nat (length (us_wbuf (u_ep w))) = MSG_LENGTH_LIMIT → udp_ok w → (length (u_inbox w) < fuel)%nat →
  Forall answer_fits ds →
  if (udp_deliveries (udp_known w) (u_inbox w)).2
  then ∃ w', udp_server_handle_read udp_echo_msg fuel w = Ok (tt, w') ∧
    posted (us_sockfd (u_ep w')) (u_kern w') = posted (us_sockfd (u_ep w)) (u_kern w) ++ (answer <$> ds)
  else udp_server_handle_read udp_echo_msg fuel w = Fail AssertFailed.
Proof.
  intros ds Hl Hok Hf Hfit.
  pose proof (udp_serve_spec udp_echo_msg _ _ (udp_echo_serves (posted (us_sockfd (u_ep w)) (u_kern w))) fuel [] w) as Hs.
  unfold served in Hs. specialize (Hs ltac:(split; [done|by rewrite app_nil_r]) Hok Hf). rewrite app_nil_l in Hs. specialize (Hs Hfit).
  destruct (_.2); [|done]. destruct Hs as (w' & Hr & _ & Hp). by exists w'.
Qed.
End udp_echo.

(** ** Concrete instances *)

(** An encoded request, and the first bytes of the next one. *)
Definition hi_request : message := (1, SerializeToString (MkEchoString [x68; x69]%byte 100)).

Lemma echo_server_replies_witness :
  let ys := frame hi_request ++ take 5 (frame hi_request) in
  ∃ w' fl', handle_read (on_conn echo_buz) no_conn_cb 40 1 7 (incoming ys) = Ok (tt, w') ∧
    sending 7 w' fl' (frame hi_request) 0 ∧ rx w' fl' 7 (take 5 (frame hi_request)).
Proof.
  intros ys.
  destruct (echo_server_replies no_conn_cb 7 (incoming ys) (λ _ : Z, @nil ptr) sample_conn [] ys 1 40 [hi_request]
    (take 5 (frame hi_request)) []) as (w' & fl' & Hr & Hs & Hrx & Hreq).
  - pose proof (incoming_readable ys ltac:(discriminate) ltac:(vm_compute; discriminate)) as [_ ? ? ? ? ? ? ? ?].
    split; try done. exists sample_conn, 0%nat, (ev_loop one_reader). by split_and!.
  - vm_compute. lia.
  - vm_compute. reflexivity.
  - intros [Hrest _]. discriminate Hrest.
  - vm_compute. discriminate.
  - exists w', fl'. split; [exact Hr|]. split; [|exact Hrx]. rewrite Hreq in Hs.
    + exact Hs.
    + apply Forall_cons. split; [|by apply Forall_nil]. exists (MkEchoString [x68; x69]%byte 100).
      split; [simpl; int_lia|]. split; [vm_compute; discriminate|reflexivity].
Defined.

(** A connection with [bs] in its input buffer. *)
Definition holding (bs : list byte) : world Script.state (list message) :=
  World (ev_kern one_reader) (after (obuf_send_data None bs (Z.of_nat (length bs)))) {[0%nat := ev_loop one_reader]} ∅
    sample_server {[7 := TcpConn 7 (Some 0%nat) (Some 1%positive) None vnull]} [].

(** Two messages in a row: the first one's answer ends with a byte of the header of
    the second. *)
Lemma server_cc_reply_witness :
  let bs := [x68; x69]%byte ++ frame (1, [x6f]%byte) in
  ∃ w' fl', cstring_buz (user_msg_cb 0) [x68; x69]%byte 2 1 7 vnull (holding bs) = Ok (tt, w') ∧
    sending 7 w' fl' (frame (1, [x68; x69; x01]%byte)) 0.
Proof.
  intros bs.
  pose proof (obuf_send_data_spec None [] bs bare_pool (λ _, []) bare_pool_inv eq_refl ltac:(by intros ? ? [=])
    bare_pool_memory_left ltac:(vm_compute; discriminate)) as (r & bp' & Hrun & p & fl' & -> & Hst & Ht & Hs)%wp_elim.
  assert (Hpool : after (obuf_send_data None bs (Z.of_nat (length bs))) = bp') by (unfold after, run_state; by rewrite Hrun).
  assert (p = 1%positive) as -> by (vm_compute in Hrun; by injection Hrun).
  destruct (server_cc_reply 7 (holding bs) fl' [] [x68; x69]%byte (frame (1, [x6f]%byte)) [x68; x69; x01]%byte
    (drop 4 bs) (user_msg_cb 0) 1 vnull) as (w' & fl2 & Hr & Hsend & _).
  - eexists _, 0%nat, (ev_loop one_reader). split; [reflexivity|]. cbn [holding w_bufs]. rewrite Hpool.
    split_and!; try done. unfold memory_for. rewrite <- Hpool. vm_compute. reflexivity.
  - eexists. split; [reflexivity|]. cbn [holding w_bufs ibuf]. rewrite Hpool. split; [apply Hst|exact Ht].
  - vm_compute. reflexivity.
  - apply (bool_decide_unpack _). vm_compute. exact I.
  - vm_compute. discriminate.
  - exists w', fl2. split; [exact Hr|exact Hsend].
Defined.

Lemma server_cc_undefined_witness :
  cstring_buz (user_msg_cb 0) [x68; x69]%byte 2 1 7 vnull (holding [x68; x69]%byte) = Fail Undefined.
Proof.
  destruct holds_two_bytes as (Hi & [_ (b & Hb & Hc)] & _).
  assert (Hd : data b !! (IoBuffer.head b + 2) = None).
  { vm_compute in Hb. injection Hb as <-. vm_compute. reflexivity. }
  apply (server_cc_undefined 7 (holding [x68; x69]%byte)
    (TcpConn 7 (Some 0%nat) (Some 1%positive) None vnull) 1%positive b [x68; x69]%byte).
  - reflexivity.
  - reflexivity.
  - exact Hb.
  - exact Hc.
  - apply (bool_decide_unpack _). vm_compute. exact I.
  - exact Hd.
Defined.

(** Two senders, and a datagram that is too short between them. *)
Definition udp_echo_world (ib : list (errno + (list byte * Z))) : udp_world Mail.state unit udp_server :=
  UdpWorld (Mail.State ib []) (u_loop (echo_server [])) (u_ep (echo_server [])) tt.

Lemma udp_echo_replies_witness :
  let ib := [inr (frame hi_request, 77); inr ([x01], 5); inr (frame hi_request, 78)] in
  ∃ w', udp_server_handle_read udp_echo_msg 9 (udp_echo_world ib) = Ok (tt, w') ∧
    Mail.posted (u_kern w') = [(frame hi_request, Some 77); (frame hi_request, Some 78)].
Proof.
  intros ib. destruct (echo_server_ok []) as [HI Hok].
  pose proof (udp_echo_replies (udp_echo_world ib) 9) as Hrun. cbv zeta in Hrun.
  assert (Hds : udp_deliveries (udp_known (udp_echo_world ib)) (u_inbox (udp_echo_world ib)) =
    ([(77, hi_request); (78, hi_request)], true)).
  { change (udp_known (udp_echo_world ib)) with (λ cmd, exist cmd (us_dispatcher (u_ep (echo_server [])))).
    change (u_inbox (udp_echo_world ib)) with ib. vm_compute. reflexivity. }
  unfold deliveries in Hrun. rewrite Hds in Hrun. cbn [fst snd] in Hrun.
  destruct Hrun as (w' & Hr & Hp).
  - exact HI.
  - exact Hok.
  - change (u_inbox (udp_echo_world ib)) with ib. simpl. lia.
  - rewrite !fmap_cons, !Forall_cons. split; [|split; [|by apply Forall_nil]]; vm_compute; discriminate.
  - exists w'. split; [exact Hr|exact Hp].
Defined.

(** ** The clients *)

Section clients.
Context {K : Type} `{Kernel K}.

(** C40 The clients of the echo servers install what sends the first request when the
    constructor has already called [connect].  A connection that is established at
    once finds no callback: the client is up, but its first request is not sent, and
    the loop is as it was, so that it does not watch the socket. *)
Theorem domain_connected_at_once fuel retries msg_fn client_fn bp k s fd k1 k2 :
  event_loop_ctor k = Ok s → sys_socket (ev_kern s) = (inr fd, k1) → sys_connect fd k1 = (None, k2) →
  ∃ w, domain fuel retries msg_fn client_fn bp 0 k = Ok (tt, w) ∧
    net_ok (cl w) = true ∧ cl_sockfd (cl w) = fd ∧ _onconnection (cl w) = Some (user_client_cb 0) ∧
    cl_user w = client_stats_new ∧ cl_kern w = k2 ∧ cl_loop w = ev_loop s.
Proof.
  intros Hl Hs Hc. unfold domain. rewrite Hl.
  eexists. split; [|split_and!].
  { unfold tcp_client_ctor, do_connect, modify_cl, zoom, syscall, mbind, M_bind, mret, M_ret. simpl.
    rewrite Hs. simpl. rewrite Hc. simpl. reflexivity. }
  all: reflexivity.
Qed.
End clients.

Lemma domain_connected_at_once_witness :
  let k := Sim.start ∅ 0 [] in
  ∃ w, echo_client_domain 40 1 bare_pool 0 k = Ok (tt, w) ∧
    net_ok (cl w) = true ∧ Sim.outs (cl_kern w) = ∅ ∧ Sim.watched 3 (cl_kern w) !! cl_sockfd (cl w) = None.
Proof.
  intros k. destruct (event_loop_ctor k) as [s|e] eqn:Hs; [|vm_compute in Hs; discriminate].
  destruct (domain_connected_at_once 40 1 echo_client_msg echo_client_connected bare_pool k s 5 (sys_socket (ev_kern s)).2 (sys_socket (ev_kern s)).2)
    as (w & Hr & Hup & Hfd & _ & _ & Hk & _).
  - exact Hs.
  - vm_compute in Hs. injection Hs as <-. reflexivity.
  - reflexivity.
  - exists w. split; [exact Hr|]. split; [exact Hup|]. rewrite Hk, Hfd. vm_compute in Hs. injection Hs as <-. by split.
Defined.

(** ** The timer server *)

Section timer_server.
Context {K : Type} `{Kernel K}.

(** After the statements of [main] the one-shot timer is due ten seconds after the
    first reading of the clock, the periodic one a second and a half after the
    second reading, and every second and a half from then on; both are given the
    file. *)
Lemma timer_setup_queues fp (w : world K (list shot_line)) lp sec nsec k1 sec' nsec' k2 :
  w_loops w !! 0%nat = Some lp → wf (_timer_que lp) → _event_lst (_timer_que lp) = [] →
  _next_timer_id (_timer_que lp) = 0 →
  sys_clock_realtime (w_kern w) = ((sec, nsec), k1) → sys_clock_realtime k1 = ((sec', nsec'), k2) →
  0 ≤ sec → 0 ≤ nsec → 0 ≤ sec' → 0 ≤ nsec' →
  let now := sec * 1000 + nsec / 1000000 in
  let now' := sec' * 1000 + nsec' / 1000000 in
  now + INT_MAX < 2 ^ 64 → now' + INT_MAX < 2 ^ 64 →
  ∃ w' q, timer_setup fp w = Ok (tt, w') ∧ w_loops w' !! 0%nat = Some (set_timer_que q lp) ∧ wf q ∧
    timers q = {[0 := TimerEvent (user_timer_cb 1) fp (now + 10000) 0 0;
                 1 := TimerEvent (user_timer_cb 2) fp (now' + 1500) 1500 1]}.
Proof.
  intros Hlp Hwf Hnil Hid Hk1 Hk2 Hs Hn Hs' Hn' now now' Hlt Hlt'.
  assert (Htimers : timers (_timer_que lp) = ∅) by (unfold timers, timers_of; by rewrite Hnil).
  assert (Hcount : ∀ q, wf q → _count q = Z.of_nat (length (_event_lst q))) by (intros q Hq; apply (core_count _ (proj1 Hq))).
  cut (wp (timer_setup fp) (λ _ w', ∃ q, w_loops w' !! 0%nat = Some (set_timer_que q lp) ∧ wf q ∧
    timers q = {[0 := TimerEvent (user_timer_cb 1) fp (now + 10000) 0 0;
                 1 := TimerEvent (user_timer_cb 2) fp (now' + 1500) 1500 1]}) w).
  { intros ([] & w' & Hr & q & HQ)%wp_elim. by exists w', q. }
  unfold timer_setup. wp_step. eapply wp_on_loop; [exact Hlp|].
  eapply wp_mono; [apply (run_after_spec (user_timer_cb 1) fp 10 0 (EvSt (w_kern w) lp) sec nsec k1)|].
  - split_and!; try done; cbn [ev_loop]; [rewrite Hcount, Hnil by done; simpl; unfold TIMER_LIMIT; lia|rewrite Hid; int_lia].
  - split; [lia|]. split; [lia|int_lia].
  - intros r s' (-> & q1 & -> & Hwf1 & Ht1 & Hid1 & Hone). cbn [ev_loop] in *. destruct (Hone Hnil) as [Hl1 _].
    wp_step. eapply wp_on_loop; [apply lookup_insert_eq|].
    eapply wp_mono; [apply (run_every_spec (user_timer_cb 2) fp 1 500 (EvSt k1 (set_timer_que q1 lp)) sec' nsec' k2)|].
    + split_and!; try done; cbn [ev_loop _timer_que set_timer_que]; [rewrite Hcount, Hl1 by done; simpl; unfold TIMER_LIMIT; lia|rewrite Hid1, Hid; int_lia].
    + split; [lia|]. split; [lia|int_lia].
    + intros r s' (-> & q2 & -> & Hwf2 & Ht2 & _). wp_step. exists q2. cbn [ev_loop] in *.
      split; [simpl; by rewrite lookup_insert_eq|]. split; [done|]. rewrite Ht2. cbn [_timer_que set_timer_que].
      rewrite Ht1, Hid1, Hid, Htimers. by rewrite insert_insert_ne.
Qed.
End timer_server.
