(* ===== verification/SetupSafe.v ===== *)
(** * Setting up a server is safe

    The statements of a server's [main] before its loop: the loop, the configured
    threads and their queues, and the listening socket (src/tcp_server.cc,
    src/thread_pool.cc); they end in a server that is in order (SafeState.v), or
    exit. *)
From S2P Require Import Prelude EventBase TimerQueue HeapFacts TimerHeap TimerQueueSpec.
From S2P Require Import Kernel BufferPool TcpBuffer BufferProps BufferSafe.
From S2P Require Import Wire EventLoop EventLoopProps Net World TcpConn TcpConnSpec ThreadPool TcpServer TcpClient Program.
From S2P Require Import SafeLoop SafeState SafeConn SafeAccept SafeServer PoolSafe ConfigReader Commu Examples IoBuffer.

Section setup.
Context {K U : Type} `{NetLaws K} `{!SetupLaws K}.
Implicit Types (w : world K U) (lp : event_loop) (i q : nat) (fl : Z → list ptr).

(** A server that is being set up, with its socket [sockfd] not yet listened to:
    only the loop [lp] of the main thread exists, with its timerfd [tfd]. *)
Record preparing w fl (sockfd : Z) lp (tfd : Z) : Prop := {
  pr_ok : server_ok w fl;
  pr_loops : w_loops w = {[0%nat := lp]};
  pr_evs : 0 ≤ tfd ∧ _io_evs lp = {[tfd := added timerqueue_cb EPOLLIN v_timer_queue None]};
  pr_idle : idle_fd w sockfd;
  pr_free h : ¬ holds w h sockfd;
  pr_statics : w_server w = server_statics;
  pr_conns : w_conns w = ∅;
  pr_mail q tq : w_queues w !! q = Some tq → _queue tq = [];
}.

Lemma server_ok_start bp fl (u : U) (k : K) s tfd :
  new_loop k s tfd → pool_inv bp fl → server_ok (process_start bp u s) fl.
Proof.
  intros [] Hp.
  assert (Hnone : ∀ c i, ¬ on_thread (process_start bp u s) c i) by (intros c i (x & Hx & _); cbn in Hx; by rewrite lookup_empty in Hx).
  assert (Hlive : live_conns (process_start bp u s) = ∅).
  { apply set_eq. intros c. rewrite elem_of_live. split; [intros [i Hi]; by destruct (Hnone c i)|set_solver]. }
  split; split; try done; rewrite ?Hlive; simpl.
  - intros i lp [<- <-]%lookup_singleton_Some. split.
    + by destruct s.
    + rewrite nl_timers. apply no_timers_new.
    + by rewrite nl_tasks.
    + do 2 eexists. rewrite nl_evs. split; [apply lookup_singleton_eq|done].
    + intros fd ev. rewrite nl_evs. intros [<- <-]%lookup_singleton_Some. by apply timer_entry.
  - by intros i j lp lp' [<- <-]%lookup_singleton_Some [<- <-]%lookup_singleton_Some.
  - intros c i Hon. by destruct (Hnone c i).
  - intros [q|q] fd (tq & Hq & _); cbn in Hq; by rewrite lookup_empty in Hq.
  - intros [q|q] h' fd (tq & Hq & _); cbn in Hq; by rewrite lookup_empty in Hq.
Qed.

(** A system call that does not concern the descriptors that are open. *)
Lemma preparing_kern w fl sockfd lp tfd k :
  preparing w fl sockfd lp tfd → calm (w_kern w) k → preparing (set_kern k w) fl sockfd lp tfd.
Proof.
  intros [] Hk. split; try done; [by apply server_ok_kern|]. destruct pr_idle0 as (? & Ho & Hn). destruct Hk as [Hint Hop].
  split; [done|]. split; [by apply Hop|]. intros e. simpl. by rewrite Hint.
Qed.

Lemma swp_prepare {A} fl sockfd lp tfd (f : K → A * K) (Q : A → world K U → Prop) w :
  preparing w fl sockfd lp tfd → (∀ k, calm k (f k).2) →
  (∀ a k', f (w_kern w) = (a, k') → preparing (set_kern k' w) fl sockfd lp tfd → Q a (set_kern k' w)) →
  swp (zoom w_kernel (syscall f)) Q w.
Proof.
  intros Hp Hf HQ. swp_step. apply swp_syscall. cbn [view w_kernel]. intros a k' Hc. apply HQ; [done|].
  apply preparing_kern; [done|]. specialize (Hf (w_kern w)). by rewrite Hc in Hf.
Qed.

(** A descriptor that was just given out is not one of the server's. *)
Lemma given_free w fl fd k' :
  server_ok w fl → given fd (w_kern w) k' →
  (∀ h, ¬ holds w h fd) ∧ (∀ f, idle_fd w f → f ≠ fd) ∧ ∀ i lp, w_loops w !! i = Some lp → _io_evs lp !! fd = None.
Proof.
  intros Hok (Hn & Hno & _). split; [|split].
  - intros h Hh. apply Hno. apply (th_idle _ (so_threads _ _ Hok) h fd Hh).
  - intros f (_ & Hop & _) ->. done.
  - intros i lp Hlp. by apply (interest_none_unregistered w i lp fd (server_loop_ok _ _ _ _ Hok Hlp)).
Qed.

(** ** The threads of the pool *)

(** A new queue. *)
Lemma preparing_queue w fl sockfd lp tfd i evfd k' :
  preparing w fl sockfd lp tfd → w_queues w !! i = None → sys_eventfd (w_kern w) = (inr evfd, k') →
  preparing (set_queues (<[i := ThreadQueue evfd None [] 0]> (w_queues w)) (set_kern k' w)) fl sockfd lp tfd.
Proof.
  intros Hp Hnew Hev. destruct (eventfd_given _ _ _ Hev) as [Hpos Hg].
  pose proof (eventfd_calm (w_kern w)) as Hk. rewrite Hev in Hk. simpl in Hk.
  destruct (given_free w fl evfd k' (pr_ok _ _ _ _ _ Hp) Hg) as (Hfree & Hne & _).
  pose proof (preparing_kern w fl sockfd lp tfd k' Hp Hk) as Hp1. set (w1 := set_kern k' w) in *.
  destruct Hp1 as [[Ho Hb Ht] Hl He Hidle Hsf Hst Hc Hm].
  assert (Hget : ∀ q tq, <[i := ThreadQueue evfd None [] 0]> (w_queues w) !! q = Some tq →
    (q = i ∧ tq = ThreadQueue evfd None [] 0) ∨ w_queues w !! q = Some tq).
  { intros q tq [[<- <-]|[_ ?]]%lookup_insert_Some; auto. }
  set (w' := set_queues (<[i := ThreadQueue evfd None [] 0]> (w_queues w1)) w1).
  assert (Hhold : ∀ h f, holds w' h f → (h = Waker i ∧ f = evfd) ∨ holds w h f).
  { intros [q|q] f.
    - intros (tq & [[-> ->]|Htq]%Hget & Hin); [by apply elem_of_nil in Hin|right; by exists tq].
    - intros (tq & [[-> ->]|Htq]%Hget & Hno & <-); [by left|right; by exists tq]. }
  assert (Hevidle : idle_fd w' evfd).
  { destruct Hg as (Hn & _ & Hop). split; [done|]. split; [done|]. intros e. simpl. by rewrite (proj1 Hk). }
  split; try done.
  - split; [by destruct Ho|by destruct Hb|]. destruct Ht. split; try done.
    + intros j lpj Hlpj. destruct (th_loops j lpj Hlpj) as [? ? ? ? Hent]. split; try done.
      intros fd ev Hfd. eapply entry_ok_mono; [by apply Hent|..]; [|done].
      intros q Hs. simpl. apply lookup_insert_is_Some. destruct (decide (i = q)); auto.
    + intros h f [[-> ->]|Hh]%Hhold; [done|]. by apply (th_idle h).
    + intros h h' f [[-> ->]|Hh]%Hhold [[-> Hf]|Hh']%Hhold; try done.
      * by destruct (Hfree h').
      * subst. by destruct (Hfree h).
      * by eapply th_once.
    + intros q tq [[_ ->]|Htq]%Hget; [constructor|by apply (th_nodup q)].
    + intros q tq m [[_ ->]|Htq]%Hget Hin; [by apply elem_of_nil in Hin|by apply (th_msgs q tq)].
    + intros p Hpool. cbn [w' set_queues w_server] in Hpool. by rewrite Hst in Hpool.
  - intros h [[_ ->]|Hh]%Hhold; [|by apply (Hsf h)]. by apply (Hne evfd); [apply Hp|].
  - intros q tq [[_ ->]|Htq]%Hget; [done|by eapply Hm].
Qed.

Lemma start_threads_swp n : ∀ i w fl sockfd lp tfd,
  preparing w fl sockfd lp tfd → (∀ q, is_Some (w_queues w !! q) ↔ (q < i)%nat) →
  swp (start_threads n i) (λ _ w', preparing w' fl sockfd lp tfd ∧ ∀ q, is_Some (w_queues w' !! q) ↔ (q < i + n)%nat) w.
Proof.
  induction n as [|n IH]; intros i w fl sockfd lp tfd Hp Hq; cbn [start_threads].
  { swp_step. split; [done|]. intros q. rewrite Hq. lia. }
  swp_step. unfold new_thread_queue. do 2 swp_step. apply swp_syscall. cbn [view w_kernel]. intros r k1 Hev.
  destruct r as [e|evfd]; [by right|].
  assert (Hnew : w_queues w !! i = None) by (apply eq_None_not_Some; rewrite Hq; lia).
  pose proof (preparing_queue w fl sockfd lp tfd i evfd k1 Hp Hnew Hev) as Hp1. swp_step.
  cbn [update w_kernel]. set (w1 := set_queues _ _) in *.
  swp_step. eapply swp_prepare; [exact Hp1|apply pthread_calm|]. intros ret k2 _ Hp2.
  swp_step. apply swp_exit_if. intros _.
  eapply swp_mono; [apply (IH (S i) _ fl sockfd lp tfd Hp2)|].
  - intros q. simpl. rewrite lookup_insert_is_Some', Hq. lia.
  - intros [] w' [Hp' Hq']. split; [done|]. intros q. rewrite Hq'. lia.
Qed.

(** What the constructor makes of the configured number of threads. *)
Lemma pool_swp w fl sockfd lp tfd n :
  preparing w fl sockfd lp tfd → w_queues w = ∅ →
  swp (if bool_decide (n ≠ 0) then p ← thread_pool_ctor n; mret (Some p) else mret None)
    (λ p w', preparing w' fl sockfd lp tfd ∧ ∀ p', p = Some p' → pool_ok w' p') w.
Proof.
  intros Hp Hq. case_bool_decide as Hn; [|swp_step; by split].
  unfold thread_pool_ctor. do 2 swp_step. apply swp_exit_if. intros [Hn0%Z.leb_gt _]%orb_false_iff. swp_step.
  eapply swp_mono; [apply (start_threads_swp (Z.to_nat n) 0 w fl sockfd lp tfd Hp)|].
  - intros q. rewrite Hq, lookup_empty. split; [by intros []|lia].
  - intros [] w' [Hp' Hq']. do 2 swp_step. split; [done|]. intros p' [= <-]. split; [simpl; lia|]. split; [done|].
    intros t Hlt. apply Hq'. simpl in Hlt. lia.
Qed.

(** ** The listening socket *)

(** The static members once the constructor has assigned them. *)
Definition constructed (sockfd rsv : Z) (pool : option thread_pool) (size max : Z) w : world K U :=
  set_server (TcpServer sockfd rsv 0 pool false size max 0 msg_dispatcher_new ∅ None None) w.

Lemma server_ok_listening w fl sockfd lp tfd rsv pool size max (s : ev_st K) :
  preparing w fl sockfd lp tfd → (∀ p, pool = Some p → pool_ok w p) → is_int size →
  add_ioev sockfd accepter_cb EPOLLIN v_tcp_server (EvSt (w_kern w) lp) = Ok (tt, s) →
  server_ok (loop_changed 0 (constructed sockfd rsv pool size max w) s) fl.
Proof.
  intros [[Ho Hb Ht] Hl [Htfd He] Hidle Hsf Hst Hc Hm] Hpool Hsize Hadd.
  assert (Hlp : w_loops w !! 0%nat = Some lp) by (rewrite Hl; apply lookup_singleton_eq).
  pose proof (th_loops _ Ht 0%nat lp Hlp) as Hlo. pose proof Hlo as [Hi Htm Htk _ Hent].
  pose proof (idle_unregistered w 0 lp sockfd Hlo Hidle) as Hnone.
  pose proof (add_ioev_spec sockfd accepter_cb EPOLLIN v_tcp_server _ Hi eq_refl)
    as ([] & s1 & Hadd1 & Hi' & (Hep & Htq & Hpf) & He')%wp_elim.
  rewrite Hadd in Hadd1. injection Hadd1 as <-. cbn [ev_loop] in He', Hep, Htq, Hpf. rewrite Hnone in He'.
  pose proof (add_ioev_ctl _ _ _ _ _ _ Hadd) as Hctl. set (w' := loop_changed _ _ _).
  assert (Hloops : ∀ i lpi, w_loops w' !! i = Some lpi → i = 0%nat ∧ lpi = ev_loop s).
  { intros i lpi. cbn [w' loop_changed w_loops set_loops set_kern constructed set_server]. rewrite Hl, insert_singleton_eq.
    by intros [<- <-]%lookup_singleton_Some. }
  assert (Hhold : ∀ h f, holds w' h f → holds w h f).
  { intros [q|q] f; [done|]. intros (tq & Hq & Hno & ?). exists tq. split; [done|]. split; [|done].
    rewrite Hl. by apply lookup_singleton_ne. }
  assert (Hdead : ∀ c i, ¬ on_thread w' c i) by (intros c i (x & Hx & _); cbn in Hx; by rewrite Hc in Hx).
  assert (Hlive : live_conns w' = ∅).
  { apply set_eq. intros c. rewrite elem_of_live. split; [intros [i ?]; by destruct (Hdead c i)|set_solver]. }
  split; [|by destruct Hb|].
  - assert (Hsv : w_server w' = TcpServer sockfd rsv 0 pool false size max 0 msg_dispatcher_new ∅ None None) by done.
    assert (Hcn : w_conns w' = ∅) by exact Hc.
    split; rewrite ?Hlive, ?Hsv, ?Hcn; cbn [conns _conns_size _curr_conns _thd_pool dispatcher _max_conns]; try done; lia.
  - destruct Ht. split; try done.
    + split; [done|]. cbn. rewrite Hl, insert_singleton_eq, lookup_singleton_eq. by eexists.
    + intros i lpi [-> ->]%Hloops. split.
      * by destruct s.
      * by rewrite Htq.
      * by rewrite Hpf.
      * exists tfd, (added timerqueue_cb EPOLLIN v_timer_queue None). split; [|done].
        rewrite He', He, lookup_insert_ne; [apply lookup_singleton_eq|]. intros <-. by rewrite He, lookup_singleton_eq in Hnone.
      * intros fd ev. rewrite He', He.
        intros [[<- <-]|[_ [<- <-]%lookup_singleton_Some]]%lookup_insert_Some; [by apply listener_entry|by apply timer_entry].
    + by intros i j lpi lpj [-> _]%Hloops [-> _]%Hloops.
    + intros c i Hon. by destruct (Hdead c i).
    + intros h f Hh%Hhold. destruct (th_idle h f Hh) as (Hpos & Hop & Hn). split; [done|].
      split; [apply (ctl_ind (is_open f) _ _ Hctl); [done|intros; by apply open_epoll]|].
      intros e. cbn [w' loop_changed w_kern set_loops set_kern].
      destruct (decide (e = _epfd lp)) as [->|Hne].
      * pose proof (loop_mirror _ Hi') as Hmir. unfold interests in Hmir. rewrite Hep in Hmir. rewrite Hmir, lookup_fmap, He'.
        rewrite lookup_insert_ne by (intros <-; by destruct (Hsf h)).
        by rewrite (idle_unregistered w 0 lp f Hlo).
      * destruct Hctl as [-> | (op & fd & ev & ->)]; [by apply Hn|]. rewrite epoll_other by done. apply Hn.
    + intros h h' f Hh%Hhold Hh'%Hhold. by eapply th_once.
    + intros q tq m Hq Hin. rewrite (Hm q tq Hq) in Hin. by apply elem_of_nil in Hin.
Qed.

Lemma tcp_server_ctor_swp bp fl (u : U) (k0 : K) (s : ev_st K) tfd ip_ok threadNum maxConns :
  new_loop k0 s tfd → pool_inv bp fl → Z.abs (to_int maxConns) < 2 ^ 30 →
  swp (tcp_server_ctor 0 ip_ok threadNum maxConns)
    (λ _ w', server_ok w' fl ∧ dispatcher (w_server w') = msg_dispatcher_new ∧
      ∀ i, is_Some (w_loops w' !! i) ↔ i = 0%nat) (process_start bp u s).
Proof.
  intros Hs Hp Hmax. pose proof (server_ok_start bp fl u k0 s tfd Hs Hp) as Hok0. set (w0 := process_start bp u s) in *.
  unfold tcp_server_ctor. do 2 swp_step. apply swp_syscall. cbn [view w_kernel]. intros sock k1 Hsock.
  destruct sock as [|sockfd]; [by right|]. cbn [update w_kernel]. set (lp := ev_loop s).
  destruct (socket_given _ _ _ Hsock) as [Hpos Hg]. pose proof (socket_calm (w_kern w0)) as Hk1. rewrite Hsock in Hk1. simpl in Hk1.
  assert (Hp1 : preparing (set_kern k1 w0) fl sockfd lp tfd).
  { destruct Hs as [? He _ _ _ _ _ _ [? _]]. split; try done.
    - by apply server_ok_kern.
    - destruct Hg as (Hn & _ & Hop). split; [done|]. split; [done|]. intros e. simpl. by rewrite (proj1 Hk1).
    - intros [q|q] (tq & Hq & _); cbn in Hq; by rewrite lookup_empty in Hq. }
  swp_step. eapply swp_prepare; [exact Hp1|apply open_calm|]. intros rsv k2 _ Hp2.
  swp_step. apply swp_exit_if. intros _.
  swp_step. eapply swp_prepare; [exact Hp2|apply calm_setsockopt|]. intros _ k3 _ Hp3.
  swp_step. eapply swp_prepare; [exact Hp3|apply bind_calm|]. intros r4 k4 _ Hp4.
  swp_step. apply swp_exit_if. intros _.
  swp_step. eapply swp_prepare; [exact Hp4|apply listen_calm|]. intros r5 k5 _ Hp5.
  swp_step. apply swp_exit_if. intros _. cbv zeta.
  swp_step. eapply swp_mono; [by apply (pool_swp _ fl sockfd lp tfd)|]. intros pool w6 [Hp6 Hpool].
  swp_step. swp_step. apply swp_syscall. cbn [view w_kernel]. intros r7 k7 Hdup. cbn [update w_kernel].
  set (next_fd := match r7 with inr fd => fd | inl _ => -1 end).
  pose proof (dup_calm 1 (w_kern w6)) as Hk7. rewrite Hdup in Hk7. simpl in Hk7.
  assert (Hnext : -1 ≤ next_fd ≤ 2 ^ 30 ∧ (∀ h, ¬ holds w6 h next_fd) ∧ next_fd ≠ sockfd ∧
    ∀ i lpi, w_loops w6 !! i = Some lpi → _io_evs lpi !! next_fd = None).
  { unfold next_fd. destruct r7 as [e|fd].
    - split; [lia|]. split; [|split].
      + intros h Hh. destruct (th_idle _ (so_threads _ _ (pr_ok _ _ _ _ _ Hp6)) h _ Hh). lia.
      + lia.
      + intros i lpi. rewrite (pr_loops _ _ _ _ _ Hp6). intros [_ <-]%lookup_singleton_Some.
        destruct (pr_evs _ _ _ _ _ Hp6) as [? ->]. apply lookup_singleton_ne. lia.
    - destruct (dup_given _ _ _ Hdup) as [? Hgd]. destruct (given_free w6 fl fd k7 (pr_ok _ _ _ _ _ Hp6) Hgd) as (? & Hne & ?).
      split; [lia|]. split; [done|]. split; [|done]. apply not_eq_sym, Hne, Hp6. }
  pose proof (preparing_kern w6 fl sockfd lp tfd k7 Hp6 Hk7) as Hp7. set (w7 := set_kern k7 w6) in *.
  clearbody next_fd. destruct Hnext as (Hr & Hnh & Hns & Hnreg).
  swp_step. apply swp_cint; [pose proof (to_int_range maxConns); int_lia|].
  swp_step. unfold close_fd. swp_step. set (k8 := sys_close next_fd (w_kern w7)).
  assert (Hp8 : preparing (set_kern k8 w7) fl sockfd lp tfd).
  { destruct Hp7 as [Hok ? ? (Hpos' & Hop & Hn) ? ? ? ?]. split; try done; [by apply server_ok_close|].
    split; [done|]. split; [by apply open_close|]. intros e. cbn [w_kern set_kern]. unfold k8. by rewrite close_others. }
  swp_step. apply swp_assert. intros _. swp_step. unfold modify_server. swp_step. cbn beta. set (w8 := set_kern k8 w7) in *.
  rewrite (pr_statics _ _ _ _ _ Hp8). cbn [server_statics _curr_conns dispatcher connBuildCb connCloseCb].
  pose proof (pr_loops _ _ _ _ _ Hp8) as Hl8.
  apply wp_swp, (wp_on_loop 0 lp); [cbn; change (w_loops w8 !! 0%nat = Some lp); rewrite Hl8; apply lookup_singleton_eq|].
  destruct (add_ioev_returns sockfd accepter_cb EPOLLIN v_tcp_server (EvSt (w_kern w8) lp)) as [s' Hadd].
  unfold wp. cbn [w_kern set_server]. rewrite Hadd. split; [|split; [done|]].
  - eapply server_ok_listening; [exact Hp8| |pose proof (to_int_range maxConns); int_lia|exact Hadd].
    intros p Hpp. exact (Hpool p Hpp).
  - intros i. cbn. change (w_loops w6) with (w_loops w8). rewrite Hl8, insert_singleton_eq.
    split; [by intros [? [<- _]%lookup_singleton_Some]|intros ->; rewrite lookup_singleton_eq; by eexists].
Qed.
End setup.
