(* ===== verification/EchoSafe.v ===== *)
(** * The echo server program is safe

    [main] of example/tcpEchoServer/server.cc, from the first statement on, when its
    configuration asks for no threads: it builds a server in order (SetupSafe.v), its
    callback keeps it so, and so no input from the network brings it to undefined
    behaviour. *)
From S2P Require Import Prelude EventBase TimerQueue TimerQueueSpec Kernel BufferPool TcpBuffer BufferProps BufferSafe.
From S2P Require Import Wire EventLoop EventLoopProps Net World TcpConn TcpConnSpec SafeLoop SafeState SafeConn.
From S2P Require Import ThreadPool TcpServer TcpClient Program SafeAccept SafeServer SetupSafe.
From S2P Require Import ConfigReader Commu Examples EchoProps IoBuffer.

(** ** The message callback *)

Section echo.
Context {K U : Type} `{NetLaws K} `{EchoCodecLaws}.

Lemma no_conn_quiet cb c : quiet (no_conn (W := world K U)) cb c.
Proof.
  intros f w x _ Hx. exists (w_user w), (parameter x). unfold no_conn, mret, M_ret. do 2 f_equal.
  replace (set_parameter (parameter x) x) with x by by destruct x. rewrite insert_id by done. by destruct w.
Qed.

Lemma echo_msg_safe : safe_callbacks (on_conn (K := K) (U := U) echo_buz).
Proof.
  intros f dat cmd c args w fl i Hok Hc Hn. unfold on_conn, echo_buz.
  swp_step. eapply swp_from_option; [apply take_bytes_all|]. set (rsp := echo_reply dat).
  pose proof (echo_reply_length dat) as Hlen. fold rsp in Hlen.
  assert (Hsmall : Z.of_nat (length rsp) ≤ 2 ^ 20) by (unfold MSG_LENGTH_LIMIT, COMMU_HEAD_LENGTH in *; lia).
  rewrite size_int_small by (unfold u8M; lia).
  swp_step. eapply swp_mono; [apply (tcp_send_data_swp w fl c i); [done..|unfold MAX_REQUEST; lia]|].
  intros r w' (fl' & [Hok' Hk Hl Hi]). swp_step. split; [by exists fl'|by rewrite Hi|].
  intros j Hj. by eapply on_thread_unique.
Qed.
End echo.

(** ** [main] *)

Section main.
Context {K : Type} `{NetLaws K} `{!SetupLaws K} `{!AcceptEnds K} `{EchoCodecLaws}.
Variable inet_aton : str → bool.
Variable file : option str.
Variable fuel retries : nat.
Hypothesis Hread : (Z.to_nat u8M < fuel)%nat.
Hypothesis Haccept : (burst < fuel)%nat.
Hypothesis Hfds : descriptors_suffice K.
Hypothesis Hpatience : (patience < retries)%nat.

(** What [server_setup] builds. *)
Lemma server_setup_ok {U} bp fl (u : U) (k : K) ip threadNum maxConns conf :
  pool_inv bp fl → server_config file None = Ok ((ip, threadNum, maxConns), conf) →
  Z.abs (to_int maxConns) < 2 ^ 30 →
  match server_setup inet_aton file bp u k with
  | Ok (_, w) => server_ok w fl ∧ ∀ i, is_Some (w_loops w !! i) ↔ i = 0%nat
  | Fail e => stops e
  end.
Proof.
  intros Hp Hc Hmax. unfold server_setup. pose proof (event_loop_ctor_ok k) as Hl.
  destruct (event_loop_ctor k) as [s|]; [|done]. destruct Hl as [tfd Hl]. rewrite Hc.
  pose proof (tcp_server_ctor_swp bp fl u k s tfd (inet_aton ip) threadNum maxConns Hl Hp Hmax) as Hs.
  unfold swp in Hs. destruct (tcp_server_ctor _ _ _ _ _) as [[[] w]|]; [|done]. by destruct Hs as (? & _ & ?).
Qed.

Lemma server_ok_add_msg_cb {U} (w : world K U) fl cmd cb u :
  server_ok w fl → swp (server_add_msg_cb cmd cb u) (λ _ w', server_ok w' fl ∧ w_loops w' = w_loops w) w.
Proof.
  intros [Ho Hb Ht]. unfold server_add_msg_cb, modify_server. swp_step. split; [|done]. split.
  - destruct Ho. split; try done. by apply add_msg_cb_ok.
  - by destruct Hb.
  - by eapply threads_ok_calm.
Qed.

(** C4 The echo server program, from its first statement on and for any number of
    rounds of its loop, when its configuration asks for no threads and its limit of
    connections is below 2^30: whatever connects, whatever is sent to it in whatever
    pieces, whatever order the events come in, it is in a state in order, or it has
    stopped by an assertion or an exit of its own.  The process must not run out of
    descriptors (see [do_accept_emfile_closes_live]), and connections must not arrive
    faster than they are accepted, more than [burst] in a row. *)
Theorem echo_main_safe bp fl n (k : K) ip threadNum maxConns conf :
  pool_inv bp fl → server_config file None = Ok ((ip, threadNum, maxConns), conf) →
  to_int threadNum = 0 → Z.abs (to_int maxConns) < 2 ^ 30 →
  match echo_main inet_aton file fuel retries bp n k with
  | Ok (_, w) => ∃ fl', server_ok w fl'
  | Fail e => e = AssertFailed ∨ e = Exited
  end.
Proof.
  intros Hp Hc Hthr Hmax. unfold echo_main.
  pose proof (server_setup_ok bp fl tt k ip threadNum maxConns conf Hp Hc Hmax) as Hs.
  destruct (server_setup _ _ _ _ _) as [[[] w]|e]; [|exact Hs]. destruct Hs as (Hok & Hl).
  match goal with |- context [(?m ;; ?m') w] =>
    change (swp (m ;; m') (λ _ w', ∃ fl', server_ok w' fl') w) end.
  swp_step. eapply swp_mono; [by apply server_ok_add_msg_cb|]. intros [] w1 [Hok1 Hl1].
  unfold server_loop. eapply swp_mono.
  - apply rounds_swp with (fl := fl); [apply echo_msg_safe|apply no_conn_quiet|done..|]. rewrite Hl1. by apply Hl.
  - intros [] w2 (fl2 & ? & _). by exists fl2.
Qed.
End main.

(** ** Concrete instances *)

(** One client connects to the server (descriptor 5), and sends a request on its
    connection (7) in two pieces; then the connection can be written to. *)
Definition one_client : Sim.state :=
  Sim.start {[7 := [take 5 (frame hi_request); drop 5 (frame hi_request)]]} 1
    [[(5, EPOLLIN)]; [(7, EPOLLIN)]; [(7, EPOLLIN)]; [(7, EPOLLOUT)]].

Example echo_main_replies :
  match echo_main (λ _, true) None 40 1 bare_pool 4 one_client with
  | Ok (_, w) => Sim.outs (w_kern w) !! 7 = Some (frame hi_request)
  | Fail _ => False
  end.
Proof. vm_compute. reflexivity. Qed.

Lemma burst_fits : (@burst Sim.state _ _ < S (Z.to_nat u8M))%nat.
Proof. change (@burst Sim.state _ _) with 500%nat. unfold u8M. lia. Qed.

Lemma patience_fits : (@patience Sim.state _ _ < 1)%nat.
Proof. change (@patience Sim.state _ _) with 0%nat. lia. Qed.

Lemma echo_main_safe_witness :
  match echo_main (λ _, true) None (S (Z.to_nat u8M)) 1 bare_pool 4 one_client with
  | Ok (_, w) => ∃ fl', server_ok w fl'
  | Fail e => e = AssertFailed ∨ e = Exited
  end.
Proof.
  apply (echo_main_safe (λ _, true) None (S (Z.to_nat u8M)) 1 ltac:(lia) burst_fits sim_suffices patience_fits
    bare_pool (λ _, []) 4 one_client (lit "0.0.0.0") 0 10000 (Some ∅)).
  - exact bare_pool_inv.
  - vm_compute. reflexivity.
  - reflexivity.
  - vm_compute. reflexivity.
Defined.

(** The server as it is when its loop starts, [file] being its configuration. *)
Definition started (file : option str) (k : Sim.state) : world Sim.state unit :=
  match server_setup (λ _, true) file bare_pool tt k with
  | Ok (_, w) => run_state (server_add_msg_cb 1 (user_msg_cb 0) vnull) w
  | Fail _ => process_start bare_pool tt (EvSt k idle_loop)
  end.

Lemma started_ok file k ip threadNum maxConns conf :
  server_config file None = Ok ((ip, threadNum, maxConns), conf) → Z.abs (to_int maxConns) < 2 ^ 30 →
  (∃ w, server_setup (λ _, true) file bare_pool tt k = Ok (tt, w)) →
  server_ok (started file k) (λ _, []) ∧ ∀ i, is_Some (w_loops (started file k) !! i) ↔ i = 0%nat.
Proof.
  intros Hc Hmax [w Hr]. pose proof (server_setup_ok (λ _, true) file bare_pool (λ _, []) tt k ip threadNum maxConns conf
    bare_pool_inv Hc Hmax) as Hs.
  unfold started. rewrite Hr in Hs |- *. destruct Hs as (Hok & Hl).
  pose proof (server_ok_add_msg_cb w _ 1 (user_msg_cb 0) vnull Hok) as [Hok' Hl']. cbn [run_state]. split; [exact Hok'|].
  intros i. rewrite <- Hl. reflexivity.
Qed.

Lemma server_state_preserved_witness :
  match process_evs (thread_lens 0 idle_loop)
    (server_call_io (on_conn echo_buz) no_conn no_timers_of no_io_of (S (Z.to_nat u8M)) 1 0 idle_loop)
    (no_tasks_of 0%nat) 4 (started None one_client) with
  | Ok (_, w') => ∃ fl', server_ok w' fl'
  | Fail e => e = AssertFailed ∨ e = Exited
  end.
Proof.
  destruct (started_ok None one_client (lit "0.0.0.0") 0 10000 (Some ∅)) as [Hok Hl].
  - vm_compute. reflexivity.
  - vm_compute. reflexivity.
  - destruct (server_setup _ _ _ _ _) as [[[] w]|e] eqn:Hr; [by exists w|vm_compute in Hr; discriminate].
  - exact (server_state_preserved (on_conn echo_buz) no_conn no_timers_of no_io_of no_tasks_of (S (Z.to_nat u8M)) 1
      echo_msg_safe no_conn_quiet ltac:(lia) burst_fits sim_suffices patience_fits idle_loop idle_loop (started None one_client) (λ _, []) 0%nat 4
      Hok (proj2 (Hl 0%nat) eq_refl)).
Defined.

(** A second client (8); both are connected after the first round. *)
Definition two_clients : Sim.state :=
  Sim.start {[7 := [frame hi_request]; 8 := [frame hi_request]]} 2 [[(5, EPOLLIN)]; [(7, EPOLLIN)]].

Definition both_connected : world Sim.state unit :=
  run_state (process_evs (thread_lens 0 idle_loop)
    (server_call_io (on_conn echo_buz) no_conn no_timers_of no_io_of (S (Z.to_nat u8M)) 1 0 idle_loop)
    (no_tasks_of 0%nat) 1) (started None two_clients).

Lemma both_connected_ok :
  (∃ fl, server_ok both_connected fl) ∧ told both_connected 0 7 EPOLLIN ∧ on_thread both_connected 8 0.
Proof.
  destruct (started_ok None two_clients (lit "0.0.0.0") 0 10000 (Some ∅)) as [Hok Hl].
  - vm_compute. reflexivity.
  - vm_compute. reflexivity.
  - destruct (server_setup _ _ _ _ _) as [[[] w]|e] eqn:Hr; [by exists w|vm_compute in Hr; discriminate].
  - split; [|split].
    + pose proof (rounds_swp (on_conn echo_buz) no_conn no_timers_of no_io_of no_tasks_of (S (Z.to_nat u8M)) 1
        echo_msg_safe no_conn_quiet ltac:(lia) burst_fits sim_suffices patience_fits idle_loop idle_loop
        (started None two_clients) (λ _, []) 0%nat 1 Hok (proj2 (Hl 0%nat) eq_refl)) as Hr.
      unfold swp in Hr. unfold both_connected, run_state.
      destruct (process_evs _ _ _ _ _) as [[[] w]|]; [|by exists (λ _, [])]. destruct Hr as (fl & ? & _). by exists fl.
    + assert (Hw : match w_loops both_connected !! 0%nat with
        | Some lp => match interests (EvSt (w_kern both_connected) lp) !! 7 with Some m => m = EPOLLIN | None => False end
        | None => False end) by (vm_compute; reflexivity).
      revert Hw. unfold told. generalize (w_kern both_connected) (w_loops both_connected). intros k loops Hw.
      destruct (loops !! 0%nat) as [lp|]; [|done]. exists lp. split; [done|].
      destruct (interests (EvSt k lp) !! 7) as [m|] eqn:Hm; [|done]. subst m. exists EPOLLIN.
      split; [exact Hm|]. split; [by intros _|]. intros Hno. discriminate Hno.
    + assert (Hx : (_loop <$> w_conns both_connected !! 8) = Some (Some 0%nat)) by (vm_compute; reflexivity).
      destruct (w_conns both_connected !! 8) as [x|] eqn:Hc; [|done]. exists x. split; [exact Hc|]. by injection Hx.
Qed.

(** The first client's request is read and answered. *)
Lemma handler_isolated_witness :
  match handle_event (thread_lens 0 idle_loop)
    (server_call_io (on_conn echo_buz) no_conn no_timers_of no_io_of (S (Z.to_nat u8M)) 1 0 idle_loop)
    (7, EPOLLIN) both_connected with
  | Ok (_, w') => on_thread w' 8 0 ∧ same_conn 8 both_connected w'
  | Fail e => e = AssertFailed ∨ e = Exited
  end.
Proof.
  destruct both_connected_ok as ([fl Hok] & Htold & Hon).
  apply (handler_isolated (on_conn echo_buz) no_conn no_timers_of no_io_of (S (Z.to_nat u8M)) 1
    echo_msg_safe no_conn_quiet ltac:(lia) burst_fits sim_suffices patience_fits idle_loop idle_loop both_connected fl 0%nat 7 EPOLLIN
    8 0%nat Hok Htold Hon).
  discriminate.
Defined.
