(* ===== verification/UdpSafe.v ===== *)
(** * The UDP echo server program is safe

    [main] of example/udpEchoServer/server.cc, from the first statement on: whatever
    datagrams arrive, of whatever size and in whatever order, its one thread never
    reaches undefined behaviour.  The arrays of the endpoint are long enough because
    UDP itself limits a datagram: [udp_send_data_frames] of UdpProps.v shows where
    [send_data] would write past its array. *)
From S2P Require Import Prelude EventBase TimerQueue TimerQueueSpec Kernel Wire EventLoop EventLoopProps Net World TcpBuffer.
From S2P Require Import Udp UdpProps Program ProgramProps SafeLoop ConfigReader Commu Examples EchoProps IoBuffer.

#[global] Instance u_ev_laws {K U E} : LensLaws (@u_ev K U E) (λ _, True).
Proof. split; [by intros [] []|by intros []|done|done]. Qed.

Section udp_safe.
Context {K : Type} `{NetLaws K} `{!MailLaws K} `{!MailEnds K} `{EchoCodecLaws}.
Abbreviation W := (udp_world K unit udp_server).
Implicit Types (w : W) (dg dat rbuf : list byte).

(** The endpoint: its arrays have their size, and the dispatcher its two tables. *)
Record endpoint_ok (e : udp_server) : Prop := {
  eo_dispatcher : dispatcher_ok (us_dispatcher e);
  eo_rbuf : Z.of_nat (length (us_rbuf e)) = MSG_LENGTH_LIMIT;
  eo_wbuf : Z.of_nat (length (us_wbuf e)) = MSG_LENGTH_LIMIT;
}.

(** What a descriptor of this program can be registered for. *)
Definition udp_entry (ev : io_event) : Prop :=
  write_cb ev = None ∧
  ((read_cb ev = Some udp_server_read_cb ∧ rcb_args ev = v_udp_server) ∨ read_cb ev = Some timerqueue_cb).

Record udp_server_ok w : Prop := {
  uo_loop : loop_inv (view u_ev w);
  uo_timers : no_timers (_timer_que (u_loop w));
  uo_tasks : tasks (_pendingFactors (u_loop w)) = [];
  uo_entries : map_Forall (λ _, udp_entry) (_io_evs (u_loop w));
  uo_endpoint : endpoint_ok (u_ep w);
}.

(** The process after a call that does not concern the interest lists, and after
    its endpoint has changed. *)
Lemma udp_server_ok_kern w k e :
  udp_server_ok w → calm (u_kern w) k → endpoint_ok e → udp_server_ok (UdpWorld k (u_loop w) e (u_user w)).
Proof.
  intros [Hl ? ? ? ?] Hk He. split; try done. eapply loop_inv_kern; [exact Hl|]. apply Hk.
Qed.

(** What handling datagrams leaves: only the system and the endpoint differ. *)
Definition handled w w' : Prop := udp_server_ok w' ∧ u_loop w' = u_loop w.
Definition answered w w' : Prop := handled w w' ∧ (awaiting (u_kern w') ≤ awaiting (u_kern w))%nat.

Lemma udp_send_swp w dat cmd :
  udp_server_ok w → Z.of_nat (length dat) ≤ MSG_LENGTH_LIMIT - COMMU_HEAD_LENGTH →
  swp (udp_send_data dat (Z.of_nat (length dat)) cmd) (λ _, answered w) w.
Proof.
  intros Hok Hn. pose proof (uo_endpoint _ Hok) as [Hd Hr Hw]. unfold swp.
  rewrite udp_send_fits by done. set (fd := ep_sockfd (u_ep w)). set (bs := frame (cmd, dat)). set (to := ep_dest (u_ep w)).
  pose proof (calm_sendto fd bs to (u_kern w)) as Hk. pose proof (awaiting_sendto fd bs to (u_kern w)) as Ha.
  destruct (sys_sendto fd bs to (u_kern w)) as [r k]. cbn [snd] in Hk, Ha. split; [|done]. split; [|done].
  apply (udp_server_ok_kern w k); [done..|]. split; [done..|].
  change (us_wbuf _) with (bs ++ drop (8 + length dat) (us_wbuf (u_ep w))).
  unfold bs. rewrite length_app, length_frame, length_drop. cbn [snd].
  unfold MSG_LENGTH_LIMIT, COMMU_HEAD_LENGTH, message in *. simpl in *. lia.
Qed.

(** The callback, on the payload of a datagram. *)
Lemma udp_echo_msg_swp w f dat cmd args :
  udp_server_ok w → Z.of_nat (length dat) ≤ MAX_DATAGRAM - COMMU_HEAD_LENGTH →
  swp (udp_echo_msg f dat (Z.of_nat (length dat)) cmd args) (λ _, answered w) w.
Proof.
  intros Hok Hn. unfold udp_echo_msg, echo_buz. swp_step. eapply swp_from_option; [apply take_bytes_all|]. set (rsp := echo_reply dat).
  pose proof (echo_reply_length dat) as Hlen. fold rsp in Hlen. unfold MAX_DATAGRAM, COMMU_HEAD_LENGTH in Hn.
  rewrite size_int_small by (unfold u8M; lia). swp_step.
  eapply swp_mono; [apply udp_send_swp; [done|unfold MSG_LENGTH_LIMIT, COMMU_HEAD_LENGTH; lia]|].
  intros r w' Hw'. by swp_step.
Qed.

Lemma swp_callback_of {S} cmd d (Q : msg_callback * void_ptr → S → Prop) s :
  dispatcher_ok d → (∀ f, Q f s) → swp (callback_of cmd d) Q s.
Proof.
  intros Hd HQ. destruct (exist cmd d) eqn:He.
  - apply wp_swp, wp_callback_of; [done..|]. intros f u _ _. apply HQ.
  - unfold callback_of. swp_step. apply swp_assert. by rewrite He.
Qed.

(** The process after [recvfrom] has given [dg]. *)
Definition datagram_in w (k : K) dg (peer : Z) : W :=
  UdpWorld k (u_loop w) (ep_received (dg ++ drop (length dg) (us_rbuf (u_ep w))) peer (u_ep w)) (u_user w).

Lemma datagram_in_ok w k dg peer :
  udp_server_ok w → calm (u_kern w) k → Z.of_nat (length dg) ≤ MSG_LENGTH_LIMIT →
  udp_server_ok (datagram_in w k dg peer).
Proof.
  intros Hok Hk Hn. pose proof (uo_endpoint _ Hok) as [Hd Hr Hw].
  apply udp_server_ok_kern; [done..|]. split; [done| |done]. cbn -[Z.of_nat]. rewrite length_app, length_drop. lia.
Qed.

(** The part of the loop after a datagram: it is dropped, or handed over. *)
Lemma datagram_swp (next : M W unit) (Q : unit → W → Prop) w dg rest :
  udp_server_ok w → us_rbuf (u_ep w) = dg ++ rest → Z.of_nat (length dg) ≤ MAX_DATAGRAM →
  (∀ w', answered w w' → swp next Q w') →
  let head := head_of_bytes (take 8 (dg ++ rest)) in
  swp (if bad_length head || ep_wrong_size (E := udp_server) head (Z.of_nat (length dg)) then next
       else
         f ← callback_of (cmdid head) (us_dispatcher (u_ep w));
         udp_echo_msg f.1 (take (Z.to_nat (h_length head)) (drop 8 (dg ++ rest))) (h_length head) (cmdid head) f.2 ;;
         next) Q w.
Proof.
  intros Hok Hbuf Hn Hnext head. pose proof (uo_endpoint _ Hok) as [Hd Hr _].
  pose proof (received_checks (E := udp_server) dg rest) as Hc. cbv zeta in Hc. fold head in Hc.
  rewrite <- Hbuf in Hc. unfold MSG_LENGTH_LIMIT, COMMU_HEAD_LENGTH in Hr. specialize (Hc ltac:(lia)). rewrite Hbuf in Hc.
  destruct (datagram_message dg) as [m|] eqn:Hm.
  - destruct Hc as (-> & Hmsg & Hl). pose proof (f_equal snd Hmsg) as Hdat. cbn [snd] in Hdat. rewrite <- Hdat, Hl.
    apply datagram_message_frame in Hm as (_ & _ & Hdg). rewrite Hdg, length_frame in Hn.
    swp_step. apply swp_callback_of; [done|]. intros f. swp_step.
    eapply swp_mono; [apply (udp_echo_msg_swp w); [done|unfold COMMU_HEAD_LENGTH; lia]|].
    intros [] w'. apply Hnext.
  - rewrite Hc. apply Hnext. split; [by split|done].
Qed.

(** The loop of [handle_read] ends when the datagrams are used up. *)
Lemma udp_read_loop_swp n : ∀ w fuel,
  udp_server_ok w → (awaiting (u_kern w) ≤ n)%nat → (n < fuel)%nat →
  swp (udp_read_loop udp_echo_msg fuel) (λ _, handled w) w.
Proof.
  induction n as [n IH] using lt_wf_ind. intros w fuel Hok Hn Hf. destruct fuel as [|fuel]; [lia|].
  cbn [udp_read_loop]. do 4 swp_step. apply swp_syscall. cbn [view u_kernel]. intros r k1 Hrecv. cbn [update u_kernel].
  pose proof (calm_recvfrom (ep_sockfd (u_ep w)) MSG_LENGTH_LIMIT (u_kern w)) as Hcalm.
  pose proof (awaiting_recvfrom _ _ _ _ _ Hrecv) as Hless. rewrite Hrecv in Hcalm. cbn [snd] in Hcalm.
  assert (Hagain : ∀ w1, udp_server_ok w1 → u_loop w1 = u_loop w → (awaiting (u_kern w1) < awaiting (u_kern w))%nat →
    swp (udp_read_loop udp_echo_msg fuel) (λ _, handled w) w1).
  { intros w1 Hok1 Hl1 Ha1. eapply swp_mono; [apply (IH (awaiting (u_kern w1))); [lia|done|lia..]|].
    intros [] w2 [Hok2 Hl2]. split; [done|congruence]. }
  destruct r as [e|[dg peer]].
  - pose proof (udp_server_ok_kern w k1 (u_ep w) Hok Hcalm (uo_endpoint _ Hok)) as Hok1.
    destruct e; try (swp_step; by split). by apply Hagain.
  - pose proof (datagram_length _ _ _ _ _ _ Hrecv ltac:(done)) as Hlen.
    pose proof (uo_endpoint _ Hok) as [Hd Hr Hw].
    swp_step. eapply swp_from_option; [apply array_write_0; simpl; lia|]. do 2 swp_step.
    assert (Hok1 : udp_server_ok (datagram_in w k1 dg peer)) by (apply datagram_in_ok; [done..|lia]).
    eapply (datagram_swp (udp_read_loop udp_echo_msg fuel) _ (datagram_in w k1 dg peer)); [done|done|lia|].
    intros w2 [[Hok2 Hl2] Ha2]. apply Hagain; [done..|]. simpl in Ha2. lia.
Qed.

(** ** The loop *)

Variable fuel : nat.
Hypothesis Hfuel : (mail_burst < fuel)%nat.

Lemma udp_quiet_loop w : udp_server_ok w → quiet_loop (view u_ev w).
Proof.
  intros [Hl _ Ht He _]. split; [done..|]. intros fd [ev Hev]. unfold reader. rewrite Hev. simpl.
  destruct (He fd ev Hev) as [_ [[-> _]| ->]]; by eexists.
Qed.

Lemma udp_call_io_swp w fd f args :
  udp_server_ok w →
  reader (view u_ev w) fd = Some (f, args) ∨ writer (view u_ev w) fd = Some (f, args) →
  swp (udp_server_call_io fuel f fd args)
    (λ _ w', udp_server_ok w' ∧ _io_evs (u_loop w') = _io_evs (u_loop w)) w.
Proof.
  intros Hok Hh. pose proof Hok as [Hl Ht _ He Hep]. unfold reader, writer in Hh. cbn [view u_ev ev_loop] in Hh.
  destruct (_io_evs (u_loop w) !! fd) as [ev|] eqn:Hev; [|by destruct Hh]. simpl in Hh.
  destruct (He fd ev Hev) as [Hw Hr]. rewrite Hw in Hh. destruct Hh as [Hh|Hh]; [|done].
  destruct Hr as [[Hr Ha]|Hr]; rewrite Hr in Hh; injection Hh as <- <-.
  - rewrite Ha. eapply swp_mono; [apply (udp_read_loop_swp mail_burst w fuel Hok); [apply awaiting_burst|done]|].
    intros [] w' [Hok' Hl']. split; [done|by rewrite Hl'].
  - apply (idle_timer_swp u_ev); [done|]. intros q Hq. split; [|done].
    destruct Hok. split; try done. by destruct Hl.
Qed.

Lemma udp_rounds_swp w n :
  udp_server_ok w → swp (process_evs u_ev (udp_server_call_io fuel) (λ _ _, mret tt) n) (λ _ w', udp_server_ok w') w.
Proof.
  eapply (process_evs_swp u_ev _ _ (valid := λ _, True)).
  - done.
  - apply udp_quiet_loop.
  - intros w1 k Hok Hk. apply udp_server_ok_kern; [done..|]. apply Hok.
  - intros w1 fd f args Hok Hh. by apply udp_call_io_swp.
Qed.
End udp_safe.

(** ** [main] *)

Section main.
Context {K : Type} `{NetLaws K} `{!SetupLaws K} `{!MailLaws K} `{!MailEnds K} `{EchoCodecLaws}.
Variable inet_aton : str → bool.
Variable file : option str.
Variable fuel : nat.
Hypothesis Hfuel : (mail_burst < fuel)%nat.
(** The arrays, as found in memory. *)
Variable rbuf wbuf : list byte.
Hypothesis Hrbuf : Z.of_nat (length rbuf) = MSG_LENGTH_LIMIT.
Hypothesis Hwbuf : Z.of_nat (length wbuf) = MSG_LENGTH_LIMIT.

(** The constructor, on a new loop. *)
Lemma udp_server_ctor_swp ip_ok (k : K) s tfd e :
  new_loop k s tfd →
  swp (udp_server_ctor ip_ok rbuf wbuf) (λ _ w, udp_server_ok w) (UdpWorld (ev_kern s) (ev_loop s) e ()).
Proof.
  intros [Hi Hevs Htq Hpf Hem Hels Hopen _ Hfd]. unfold udp_server_ctor. do 2 swp_step. apply swp_syscall. cbn [view u_kernel u_kern]. intros r k1 Hsock.
  pose proof (socket_calm (ev_kern s)) as Hk1. rewrite Hsock in Hk1. cbn [snd] in Hk1.
  destruct r as [err|fd]; [by right|]. swp_step. apply swp_exit_if. intros _. do 2 swp_step. apply swp_syscall.
  cbn [view update u_kernel u_kern]. intros ret k2 Hbind. pose proof (bind_calm fd k1) as Hk2. rewrite Hbind in Hk2. cbn [snd] in Hk2.
  swp_step. apply swp_exit_if. intros _. do 2 swp_step. swp_step. cbn [set_ep view u_ev u_kern u_loop u_user].
  assert (Hi2 : loop_inv (EvSt k2 (ev_loop s))).
  { apply (loop_inv_kern (ev_kern s)); [by destruct s|]. by rewrite (proj1 Hk2), (proj1 Hk1). }
  apply wp_swp. eapply wp_mono; [by apply (add_ioev_spec fd udp_server_read_cb EPOLLIN v_udp_server)|].
  intros [] s' (Hi' & (_ & Htq' & Hpf') & He). cbn [ev_loop] in Htq', Hpf', He. split; cbn [update u_ev u_loop u_ep view u_kern].
  - by destruct s'.
  - rewrite Htq', Htq. apply no_timers_new.
  - by rewrite Hpf', Hpf.
  - rewrite He, Hevs. apply map_Forall_insert_2.
    + destruct ({[tfd := _]} !! fd) as [ev|] eqn:Hev; [|by split; [|left]].
      apply lookup_singleton_Some in Hev as [_ <-]. by split; [|left].
    + intros f ev [_ <-]%lookup_singleton_Some. by split; [|right].
  - by split.
Qed.

(** C6 The UDP echo server program, from its first statement on and for any number of
    rounds of its loop: whatever datagrams arrive, of whatever length and contents,
    it is in a state in order, or it has stopped, by a failed assertion or an exit of
    its own: it never reads or writes outside its arrays.  [handle_read] comes to an
    end because no more than [mail_burst] datagrams arrive in a row, which is an
    assumption on the network ([MailEnds]); and the configuration file can be read. *)
Theorem udp_echo_main_safe n (k : K) conf :
  server_config file None = Ok conf →
  match udp_echo_main inet_aton file fuel rbuf wbuf n k with
  | Ok (_, w) => udp_server_ok w
  | Fail e => e = AssertFailed ∨ e = Exited
  end.
Proof.
  intros Hc. unfold udp_echo_main. pose proof (event_loop_ctor_ok k) as Hl.
  destruct (event_loop_ctor k) as [s|]; [|exact Hl]. destruct Hl as [tfd Hl]. rewrite Hc.
  destruct conf as [[[ip threads] conns] conf].
  match goal with |- context [(?m ;; ?m') ?w] => change (swp (m ;; m') (λ _ w', udp_server_ok w') w) end.
  swp_step. eapply swp_mono; [by eapply udp_server_ctor_swp|]. intros [] w1 Hok. cbv beta.
  unfold udp_server_add_msg_cb. do 2 swp_step. apply udp_rounds_swp; [done|].
  destruct Hok as [? ? ? ? []]. split; try done. split; [|done..]. by apply add_msg_cb_ok.
Qed.
End main.

(** ** A concrete run *)

(** The loop has the descriptors 3 and 4, the socket is 5; two requests arrive, with a
    datagram that is no message between them. *)
Definition two_requests : Sim.state :=
  Sim.start_mail [inr (frame hi_request, 77); inr ([x01], 5); inl EINTR; inr (frame hi_request, 78)]
    [[(5, EPOLLIN)]; [(4, EPOLLIN)]].

Definition array_of_zeros : list byte := replicate (Z.to_nat MSG_LENGTH_LIMIT) x00.

Lemma array_of_zeros_length : Z.of_nat (length array_of_zeros) = MSG_LENGTH_LIMIT.
Proof. unfold array_of_zeros. rewrite length_replicate. unfold MSG_LENGTH_LIMIT, COMMU_HEAD_LENGTH. lia. Qed.

Example udp_echo_main_replies :
  match udp_echo_main (λ _, true) None 9 array_of_zeros array_of_zeros 3 two_requests with
  | Ok (_, w) => Mail.posted (Sim.mail (u_kern w)) = [(frame hi_request, Some 77); (frame hi_request, Some 78)]
  | Fail _ => False
  end.
Proof. vm_compute. reflexivity. Qed.

Lemma mail_burst_fits : (@mail_burst Sim.state _ _ < 501)%nat.
Proof. change (@mail_burst Sim.state _ _) with 500%nat. lia. Qed.

Lemma udp_echo_main_safe_witness :
  match udp_echo_main (λ _, true) None 501 array_of_zeros array_of_zeros 3 two_requests with
  | Ok (_, w) => udp_server_ok w
  | Fail e => e = AssertFailed ∨ e = Exited
  end.
Proof.
  apply (udp_echo_main_safe (λ _, true) None 501 mail_burst_fits
    array_of_zeros array_of_zeros array_of_zeros_length array_of_zeros_length 3 two_requests
    ((lit "0.0.0.0", 0, 10000), Some ∅)).
  vm_compute. reflexivity.
Defined.
