(* ===== verification/BenchProps.v ===== *)
(** * Correctness of the benchmark program (test/benchmark.cc)

    What its command line means, and when it ends. *)
From Stdlib Require Import Strings.String.
From S2P Require Import Prelude EventBase TimerQueue Kernel IoBuffer BufferPool TcpBuffer Wire EventLoop World.
From S2P Require Import EventLoopProps TcpConn TcpClient TcpClientSpec TcpClientProps Program.
From S2P Require Import ConfigReader ConfigSpec Commu Examples IoBuffer EchoProps.

#[local] Open Scope Z_scope.

(** ** The command line *)

(** An option with its value. *)
Inductive setting :=
  | opt_h (ip : str)
  | opt_p (port : N)
  | opt_c (count : N)
  | opt_n (total : N).

Definition args_of (s : setting) : list str :=
  match s with
  | opt_h ip => [lit "-h"; ip]
  | opt_p n => [lit "-p"; decimal n]
  | opt_c n => [lit "-c"; decimal n]
  | opt_n n => [lit "-n"; decimal n]
  end.

(** What the option sets.  A port goes through a [short]. *)
Definition given (config : Config) (s : setting) : Config :=
  match s with
  | opt_h ip => MkConfig (Some ip) (hostPort config) (concurrency config) (total config)
  | opt_p n => MkConfig (hostip config) (to_short (Z.of_N n)) (concurrency config) (total config)
  | opt_c n => MkConfig (hostip config) (hostPort config) (Z.of_N n) (total config)
  | opt_n n => MkConfig (hostip config) (hostPort config) (concurrency config) (Z.of_N n)
  end.

Definition options : list str := [lit "-h"; lit "-p"; lit "-c"; lit "-n"].

Definition setting_ok (s : setting) : Prop :=
  match s with
  | opt_h ip => ip ∉ options
  | opt_p n | opt_c n => Z.of_N n ≤ INT_MAX
  | opt_n n => Z.of_N n ≤ LLONG_MAX
  end.

Lemma decimal_no_option n : decimal n ∉ options.
Proof.
  destruct (decimal_spec n) as (_ & Hd & Hne). destruct (decimal n) as [|c ds]; [done|].
  apply Forall_cons in Hd as [[x Hx] _]. destruct (digit_not_special c x Hx) as (_ & Hm & _).
  unfold options. rewrite !not_elem_of_cons. split_and!; [by intros [= -> _]..|apply not_elem_of_nil].
Qed.

Lemma atol_decimal n : Z.of_N n ≤ LLONG_MAX → atol (decimal n) = Z.of_N n.
Proof.
  intros Hn. unfold atol. pose proof (read_ll_decimal [] n [] ltac:(by constructor) ltac:(by intros c [=])) as [Hr _].
  rewrite app_nil_r in Hr. cbn [app] in Hr. rewrite Hr. lia.
Qed.

Lemma atoi_decimal n : Z.of_N n ≤ INT_MAX → atoi (decimal n) = Z.of_N n.
Proof.
  intros Hn. unfold atoi. rewrite atol_decimal by (unfold LLONG_MAX; int_lia). apply to_int_small. int_lia.
Qed.

(** A word that is no option is passed over. *)
Lemma parse_options_skip arg argv config :
  arg ∉ options → parse_options (arg :: argv) config = parse_options argv config.
Proof.
  unfold options. rewrite !not_elem_of_cons. intros (Hh & Hp & Hc & Hn & _). cbn [parse_options].
  by rewrite !bool_decide_false.
Qed.

Lemma parse_option s argv config :
  setting_ok s → parse_options (args_of s ++ argv) config tt = parse_options argv (given config s) tt.
Proof.
  intros Hs. destruct s as [ip|n|n|n]; cbn [args_of app given setting_ok] in *.
  1: { by rewrite <- (parse_options_skip ip argv) by done. }
  all: rewrite <- (parse_options_skip (decimal n) argv) by apply decimal_no_option.
  - rewrite <- (atoi_decimal n) by done. reflexivity.
  - rewrite <- (atoi_decimal n) by done. reflexivity.
  - rewrite <- (atol_decimal n) by done. reflexivity.
Qed.

Lemma parse_settings opts argv : ∀ config,
  Forall setting_ok opts →
  parse_options (concat (args_of <$> opts) ++ argv) config tt = parse_options argv (foldl given config opts) tt.
Proof.
  induction opts as [|s opts IH]; intros config Hok; [done|]. apply Forall_cons in Hok as [Hs Hok].
  rewrite fmap_cons. cbn [concat foldl]. by rewrite <- app_assoc, parse_option, IH.
Qed.

(** All four are needed; the port is what is left of it in a [short]. *)
Definition complete (config : Config) : Prop :=
  is_Some (hostip config) ∧ hostPort config ≠ 0 ∧ concurrency config ≠ 0 ∧ total config ≠ 0.
#[global] Instance complete_dec config : Decision (complete config).
Proof. unfold complete. apply _. Defined.

(** C38 The command line is read as it is written: in whatever order the options are
    given, each counts, the last one of a kind wins, and the process goes on
    exactly when a host, a port, a number of clients and a number of replies are
    there and not zero; a port is reduced to 16 bits.  This is for numbers that fit
    their type and a host that is not itself an option.  A [-p], [-c] or [-n] at the
    end without its value makes it read the null pointer behind the arguments. *)
Theorem parseOption_reads prog opts last_opt :
  prog ∉ options → Forall setting_ok opts → last_opt ∈ [lit "-p"; lit "-c"; lit "-n"] →
  let config := foldl given Config_new opts in
  parseOption (prog :: concat (args_of <$> opts)) tt =
    (if decide (complete config) then Ok (config, tt) else Fail Exited) ∧
  parseOption (prog :: concat (args_of <$> opts) ++ [last_opt]) tt = Fail Undefined.
Proof.
  intros Hprog Hok Hlast config. unfold parseOption. rewrite !parse_options_skip by done. split.
  - pose proof (parse_settings opts [] Config_new Hok) as Hr. rewrite app_nil_r in Hr. fold config in Hr.
    erewrite bind_ok by exact Hr. cbv beta. unfold exit_if. case_decide as Hc; unfold complete in Hc.
    + destruct Hc as ([ip ->] & Hp & Hcc & Ht). by rewrite !(proj2 (Z.eqb_neq _ 0)) by done.
    + destruct (hostip config), (Z.eqb_spec (hostPort config) 0), (Z.eqb_spec (concurrency config) 0),
        (Z.eqb_spec (total config) 0); try reflexivity. destruct Hc. by eauto.
  - apply bind_fail. rewrite parse_settings by done. fold config.
    rewrite !elem_of_cons in Hlast. destruct Hlast as [->|[->|[->|[]%elem_of_nil]]]; reflexivity.
Qed.

(** The options of a session, in an odd order. *)
Lemma parseOption_reads_witness :
  let argv := [lit "bench"; lit "-n"; lit "100000"; lit "-p"; lit "77851"; lit "-h"; lit "127.0.0.1"; lit "-c"; lit "10"] in
  parseOption argv tt = Ok (MkConfig (Some (lit "127.0.0.1")) 12315 10 100000, tt) ∧
  parseOption (argv ++ [lit "-p"]) tt = Fail Undefined.
Proof.
  destruct (parseOption_reads (lit "bench") [opt_n 100000; opt_p 77851; opt_h (lit "127.0.0.1"); opt_c 10] (lit "-p"))
    as [Hr Hl].
  - apply (bool_decide_unpack _). vm_compute. exact I.
  - repeat constructor; cbn [setting_ok]; try (unfold INT_MAX, LLONG_MAX; lia).
    apply (bool_decide_unpack _). vm_compute. exact I.
  - apply (bool_decide_unpack _). vm_compute. exact I.
  - split; [exact Hr|exact Hl].
Defined.

(** ** The replies *)

Section replies.
Context {W K : Type} `{Kernel K} `{EchoCodecLaws}.
Variable kernel_of : lens W K.
Variable vars : lens W bench.
Context `{!LensLaws vars (λ _, True)}.
Variable config : Config.
Variable commu : net_commu W.

(** A state of the connection in which [send_data] returns, whether or not the
    request finds room, and which it leaves behind; the variables are elsewhere. *)
Variable Inv : W → Prop.
Hypothesis Hvars : ∀ v w, Inv w → Inv (update vars v w).
Hypothesis Hsend : ∀ dat cmd w, Inv w → Z.of_nat (length dat) ≤ 2 * MSG_LENGTH_LIMIT →
  ∃ r w', send_data commu dat (Z.of_nat (length dat)) cmd w = Ok (r, w') ∧ Inv w' ∧ view vars w' = view vars w.

(** The reply carries the text of the request. *)
Definition counted (dat : list byte) : bool :=
  let '(parsed, rsp) := ParseFromArray dat in parsed && bool_decide (es_content rsp = miss_you).
Definition hits (ds : list (list byte)) : Z := Z.of_nat (length (filter counted ds)).

Lemma hits_cons d ds : hits (d :: ds) = (if counted d then 1 else 0) + hits ds.
Proof. unfold hits. rewrite filter_cons. destruct (counted d) eqn:Hd; [rewrite decide_True by done|rewrite decide_False by (by intros [])]; simpl; lia. Qed.

(** The reply is a message, and the [id] of the next request is an [int]. *)
Definition id_fits (dat : list byte) : Prop :=
  Z.of_nat (length dat) ≤ MSG_LENGTH_LIMIT ∧ is_int (es_id (ParseFromArray dat).2 + 1).

(** One reply: it is counted, and then the next request is sent or, when there
    were enough, the process ends. *)
Lemma echoBack_spec dat w :
  id_fits dat → Inv w →
  let n := done_count (view vars w) + (if counted dat then 1 else 0) in
  if total config <=? n then echoBack kernel_of vars config commu dat (Z.of_nat (length dat)) w = Fail Exited
  else ∃ w', echoBack kernel_of vars config commu dat (Z.of_nat (length dat)) w = Ok (tt, w') ∧
    Inv w' ∧ done_count (view vars w') = n.
Proof.
  intros [Hlen Hid] HI n. unfold counted in n. unfold echoBack. rewrite take_bytes_all.
  erewrite bind_ok by reflexivity. cbv beta.
  destruct (ParseFromArray dat) as [parsed rsp] eqn:Hp. cbn [snd] in Hid. set (ok := parsed && _) in *.
  set (w1 := if ok then update vars (Bench (done_count (view vars w) + 1) (startTs (view vars w)) (endTs (view vars w))) w else w).
  assert (Hwhen : when ok (modify (λ w, let v := view vars w in
      update vars (Bench (done_count v + 1) (startTs v) (endTs v)) w)) w = Ok (tt, w1)) by (unfold w1; by destruct ok).
  assert (Hn : done_count (view vars w1) = n).
  { unfold w1, n. destruct ok; [by rewrite view_update by done|lia]. }
  erewrite bind_ok by exact Hwhen. cbv beta. erewrite bind_ok by reflexivity. cbv beta. rewrite Hn.
  assert (HI1 : Inv w1) by (unfold w1; destruct ok; auto).
  destruct (total config <=? n).
  - unfold getCurrentMills, zoom, syscall, mbind, M_bind, mret, M_ret. by destruct (sys_clock_realtime _).
  - unfold send_next. erewrite bind_ok by by apply cint_in. cbv beta zeta.
    set (req := SerializeToString _).
    assert (Hreq : Z.of_nat (length req) ≤ 2 * MSG_LENGTH_LIMIT).
    { unfold req. pose proof (serialize_length (set_content (es_content rsp) (set_id (es_id rsp + 1) EchoString_new))) as Hs.
      pose proof (parse_content dat) as Hc. rewrite Hp in Hc. cbn [snd set_content set_id es_content] in Hs, Hc.
      unfold MSG_LENGTH_LIMIT, COMMU_HEAD_LENGTH in *. lia. }
    rewrite size_int_small by (unfold MSG_LENGTH_LIMIT, COMMU_HEAD_LENGTH, u8M in *; lia).
    destruct (Hsend req 1 w1 HI1 Hreq) as (r & w' & Hr & HI' & Hv).
    erewrite bind_ok by exact Hr. exists w'. split; [done|]. split; [done|]. by rewrite Hv.
Qed.

(** C31 The benchmark ends with the reply that makes the count reach [total], and not
    before: of the replies that come, exactly those that carry the text of the
    request are counted.  The client is in a state in which [send_data] returns
    ([Inv]; with [client_in_order] that is shown of [tcp_client], by [client_sends]),
    and a reply's [id] must leave room for the next one in an [int]. *)
Theorem benchmark_ends_at_total ds w :
  Forall id_fits ds → Inv w → done_count (view vars w) < total config →
  let n := done_count (view vars w) + hits ds in
  let run := for_each ds (λ d, echoBack kernel_of vars config commu d (Z.of_nat (length d))) w in
  if total config <=? n then run = Fail Exited
  else ∃ w', run = Ok (tt, w') ∧ done_count (view vars w') = n.
Proof.
  intros Hds. revert w. induction Hds as [|d ds Hd _ IH]; intros w HI Hlt; cbv zeta; cbn [for_each].
  - unfold hits. simpl. rewrite Z.add_0_r, (proj2 (Z.leb_gt _ _)) by done. by exists w.
  - pose proof (echoBack_spec d w Hd HI) as Hone. cbv zeta in Hone. rewrite hits_cons, Z.add_assoc.
    set (n1 := done_count (view vars w) + (if counted d then 1 else 0)) in *.
    destruct (Z.leb_spec (total config) n1) as [Hge|Hlt1].
    + assert (Hall : (total config <=? n1 + hits ds) = true) by (apply Z.leb_le; unfold hits; lia).
      rewrite Hall. by apply bind_fail.
    + destruct Hone as (w1 & Hr & HI1 & Hn1). specialize (IH w1 HI1 ltac:(lia)). cbv zeta in IH. rewrite Hn1 in IH.
      by rewrite (bind_ok _ _ _ _ _ Hr).
Qed.
End replies.

(** ** The clients of the benchmark *)

Section client.
Context {K U : Type} `{EpollLaws K}.
Implicit Types w : cl_world K U.

(** The variables of the benchmark are the user's state. *)
Definition client_vars : lens (cl_world K U) U := Lens cl_user set_cl_user.

#[global] Instance client_vars_laws : LensLaws client_vars (λ _, True).
Proof. by split; [| intros [] | |]. Qed.

(** The client's output buffer and its loop are in order, whatever waits to be sent
    and whether or not it is connected. *)
Definition client_in_order w : Prop :=
  (∃ ob, holds obuf_obj ob (cl_bufs w)) ∧ loop_inv (cl_evs w).

Lemma client_in_order_vars u w : client_in_order w → client_in_order (update client_vars u w).
Proof. done. Qed.

(** [tcp_client::send_data] returns, and leaves it so. *)
Lemma client_sends dat cmd w :
  client_in_order w → Z.of_nat (length dat) ≤ 2 * MSG_LENGTH_LIMIT →
  ∃ r w', send_data tcp_client_commu dat (Z.of_nat (length dat)) cmd w = Ok (r, w') ∧
    client_in_order w' ∧ view client_vars w' = view client_vars w.
Proof.
  intros [[ob Hob] Hl] Hn. cbn [send_data tcp_client_commu view client_vars].
  assert (Hint : Z.of_nat (length dat) + COMMU_HEAD_LENGTH ≤ INT_MAX) by (unfold MSG_LENGTH_LIMIT, COMMU_HEAD_LENGTH in *; int_lia).
  destruct (net_ok (cl w)) eqn:Hup.
  2:{ exists (-1), w. split; [|by split; [split; [exists ob|]|]]. by eapply cl_send_refused; [done..|left]. }
  destruct (decide (Z.of_nat (length ob) + COMMU_HEAD_LENGTH + Z.of_nat (length dat) ≤ u4M)) as [Hfit|Hfull].
  - destruct (cl_send_sends w ob dat cmd Hup Hob Hl Hfit) as (w' & Hr & Ho & Hh & Hl' & _).
    exists 0, w'. split; [done|]. split; [split; [by eexists|done]|]. apply Ho.
  - exists (-1), w. split; [|by split; [split; [exists ob|]|]].
    eapply cl_send_refused; [done..|right; lia].
Qed.
End client.

(** A connected client that waits for two replies. *)
Definition bench_config : Config := MkConfig (Some (lit "127.0.0.1")) 12315 10 2.
Definition bench_client : cl_world Pipe.state bench :=
  ClWorld (ev_kern pipe_idle) sample_objects (ev_loop pipe_idle)
    (TcpClient true 7 sample_commands None vnull None vnull) (Bench 0 0 0).

Lemma bench_client_in_order : client_in_order bench_client.
Proof.
  split; [exists []; apply sample_holds; by right|].
  split; simpl; [done|apply map_Forall_empty|by rewrite dom_empty_L|lia].
Qed.

Definition good_reply : list byte := SerializeToString (MkEchoString miss_you 100).
Definition other_reply : list byte := SerializeToString (MkEchoString (text "hi") 100).

Abbreviation bench_run ds :=
  (for_each ds (λ d, echoBack cl_kernel client_vars bench_config tcp_client_commu d (Z.of_nat (length d))) bench_client).

Lemma benchmark_ends_at_total_witness :
  (∃ w', bench_run [good_reply; other_reply] = Ok (tt, w') ∧ done_count (cl_user w') = 1) ∧
  bench_run [good_reply; other_reply; good_reply] = Fail Exited.
Proof.
  assert (Hids : Forall id_fits [good_reply; other_reply; good_reply])
    by (repeat constructor; vm_compute; discriminate).
  pose proof (benchmark_ends_at_total cl_kernel client_vars bench_config tcp_client_commu (client_in_order (K := Pipe.state))
    client_in_order_vars client_sends) as Hend.
  split.
  - apply (Hend [good_reply; other_reply] bench_client); [|exact bench_client_in_order|reflexivity]. exact (Forall_take _ 2 _ Hids).
  - exact (Hend [good_reply; other_reply; good_reply] bench_client Hids bench_client_in_order eq_refl).
Defined.
